(** * x402 launchpad backend: admission pipeline, capacity layer, abuse
      detector, connection pool and batch settlement coalescer

    A shallow embedding of the TypeScript sources

    - [src/utils/redisConnectionPool.ts]  (pool, legacy proxy, deadline cache,
      max-mint cache, pending tracker, capacity manager),
    - the abuse detector ([AbuseDetector], [createIdentifier]),
    - [src/utils/batchSettleManager.ts]   (the coalescer),
    - the HTTP handler [handleMintRequest],

    followed by the properties established about them.

    Conventions.  JavaScript bigints are modelled by [Z].  A JavaScript
    number that holds an integer is modelled by that integer: the values
    read from the chain are the numbers that [Number(...)] gave, the
    counters kept by Redis are below 2^53, where [parseInt] is exact, and
    the other numbers are times in milliseconds and small constants.  Where
    the program adds or subtracts counts that may be arbitrarily large
    ([checkCapacity], [getCapacityStatus]) the result is rounded as IEEE 754
    doubles round it ([Js.add], [Js.sub]).  A string is the sequence of its
    code units; [Js.toLowerCase] and [Js.trim] are those of JavaScript on
    ASCII text ([Js.isAscii]).  A promise is a state-passing computation
    that either returns or throws; [await] is sequencing.  The Redis server, the chain RPC node and the facilitator are
    external: the server follows the documented semantics of the commands the
    program issues, the two others are oracles of the environment. *)

From Stdlib Require Import ZArith Lia Ascii String List.
From stdpp Require Import gmap strings list pretty.

Local Open Scope Z_scope.

(* ===================================================================== *)
(** ** JavaScript values used by the program                              *)
(* ===================================================================== *)

Module Js.

(** ASCII text: every code unit is below 128.  On such text the functions
    below are exactly those of JavaScript; a string with other characters
    is outside of what they model. *)
Definition isAscii (s : string) : bool :=
  forallb (fun c => (nat_of_ascii c <? 128)%nat) (list_ascii_of_string s).

(** [String.prototype.toLowerCase] on ASCII text: the letters [A]-[Z]. *)
Definition lowerAscii (c : ascii) : ascii :=
  let n := nat_of_ascii c in
  if ((65 <=? n)%nat && (n <=? 90)%nat)%bool then ascii_of_nat (n + 32) else c.

Fixpoint toLowerCase (s : string) : string :=
  match s with
  | EmptyString => EmptyString
  | String c r => String (lowerAscii c) (toLowerCase r)
  end.

(** White space removed by [String.prototype.trim] (ASCII part). *)
Definition isSpace (c : ascii) : bool :=
  let n := nat_of_ascii c in
  ((n =? 32)%nat || ((9 <=? n)%nat && (n <=? 13)%nat))%bool.

Fixpoint trimStart (s : string) : string :=
  match s with
  | EmptyString => EmptyString
  | String c r => if isSpace c then trimStart r else s
  end.

Fixpoint trimEnd (s : string) : string :=
  match s with
  | EmptyString => EmptyString
  | String c r =>
      match trimEnd r with
      | EmptyString => if isSpace c then EmptyString else String c EmptyString
      | r' => String c r'
      end
  end.

Definition trim (s : string) : string := trimEnd (trimStart s).

(** Truthiness of a string: the empty string is falsy. *)
Definition truthy (s : string) : bool :=
  match s with EmptyString => false | _ => true end.

(** Truthiness of [string | undefined]. *)
Definition truthyOpt (s : option string) : bool :=
  match s with Some v => truthy v | None => false end.

(** [ToNumber] on [number | null]: [null] converts to [0]. *)
Definition toNumber (v : option Z) : Z :=
  match v with Some z => z | None => 0 end.

(** [v === n] for [v : number | null]. *)
Definition strictEq (v : option Z) (n : Z) : bool :=
  match v with Some z => z =? n | None => false end.

(** [v || d] on [number | undefined]: [undefined], [NaN] (both [None]) and
    [0] give the default. *)
Definition orDefault (v : option Z) (d : Z) : Z :=
  match v with
  | Some x => if x =? 0 then d else x
  | None => d
  end.

(** [s || d] on [string | undefined]. *)
Definition strOr (s : option string) (d : string) : string :=
  match s with
  | Some v => if truthy v then v else d
  | None => d
  end.

(** The double nearest to an integer (ties to even), for integers below
    2^1024 in magnitude: those up to 2^53 are doubles themselves, the
    larger ones keep their 53 leading bits. *)
Definition toDouble (z : Z) : Z :=
  let a := Z.abs z in
  if a <=? 2 ^ 53 then z
  else
    let e := Z.log2 a - 52 in
    let q := a / 2 ^ e in
    let r := a mod 2 ^ e in
    let half := 2 ^ (e - 1) in
    let q' := if r <? half then q
              else if half <? r then q + 1
              else if Z.even q then q else q + 1 in
    Z.sgn z * (q' * 2 ^ e).

(** [a + b] and [a - b] on numbers that hold integers. *)
Definition add (a b : Z) : Z := toDouble (a + b).
Definition sub (a b : Z) : Z := toDouble (a - b).

(** [Math.ceil (a / b)] for integers [a] and [b > 0]. *)
Definition ceilDiv (a b : Z) : Z := - ((- a) / b).

(** The text of [ms / 1000] in a template literal, for [ms >= 0]: the
    integer part and, unless it is zero, the fraction in thousandths
    without its trailing zeros. *)
Definition millisAsSeconds (ms : Z) : string :=
  let q := ms / 1000 in
  let r := ms mod 1000 in
  if r =? 0 then pretty q
  else
    let d1 := pretty (r / 100) in
    let d2 := pretty (r / 10 mod 10) in
    let d3 := pretty (r mod 10) in
    pretty q +:+ "." +:+
      (if r mod 10 =? 0
       then (if r / 10 mod 10 =? 0 then d1 else d1 +:+ d2)
       else d1 +:+ d2 +:+ d3).

End Js.

(* ===================================================================== *)
(** ** Errors and promises                                                *)
(* ===================================================================== *)

(** [TokenCapacityInfo] of the capacity manager. *)
Record TokenCapacityInfo := {
  maxMintCount : Z;
  currentMintCount : Z;
  pendingCount : Z;
  availableSlots : Z
}.

(** A JavaScript [Error] with the ad-hoc properties the program attaches or
    reads: [code] and [capacityInfo] (capacity manager), [reason],
    [activeTransactions], [maxCapacity] and [details] (facilitator errors;
    of [details] the program reads the two counters only). *)
Record JsError := mkError {
  message : string;
  reason : option string;
  code : option string;
  capacityInfo : option TokenCapacityInfo;
  activeTransactions : option Z;
  maxCapacity : option Z;
  details_activeTransactions : option Z;
  details_maxCapacity : option Z
}.

Definition Error (msg : string) : JsError :=
  mkError msg None None None None None None None.

(** A [RangeError]: the program never looks at the class of an error. *)
Definition RangeError (msg : string) : JsError :=
  mkError msg None None None None None None None.

Inductive res (A : Type) : Type :=
| Ret (a : A)
| Thrown (e : JsError).
Arguments Ret {A} a.
Arguments Thrown {A} e.

(** An asynchronous computation over a state [S]. *)
Definition Async (S A : Type) : Type := S -> res A * S.

Definition ret {S A} (a : A) : Async S A := fun s => (Ret a, s).

Definition throw {S A} (e : JsError) : Async S A := fun s => (Thrown e, s).

Definition bind {S A B} (m : Async S A) (k : A -> Async S B) : Async S B :=
  fun s =>
    match m s with
    | (Ret a, s') => k a s'
    | (Thrown e, s') => (Thrown e, s')
    end.

Definition try_catch {S A} (m : Async S A) (handler : JsError -> Async S A) : Async S A :=
  fun s =>
    match m s with
    | (Ret a, s') => (Ret a, s')
    | (Thrown e, s') => handler e s'
    end.

Notation "'let*' x ':=' m 'in' k" := (bind m (fun x => k))
  (at level 10, x name, m at level 100, k at level 200).

(** Run a computation of a component inside a larger state. *)
Definition lift {S T A} (get : T -> S) (put : S -> T -> T) (m : Async S A) : Async T A :=
  fun t => let (r, s') := m (get t) in (r, put s' t).

(* ===================================================================== *)
(** ** The Redis server as seen through the legacy proxy                  *)
(* ===================================================================== *)

Module Redis.

Inductive op := INCR | INCRBY | DECRBY | EXPIRE | PEXPIRE | DEL | GET | EXISTS | TTL | SET.

#[global] Instance op_eq_dec : EqDecision op.
Proof. solve_decision. Defined.

(** What happens to one command sent through [RedisConnectionManager]'s
    proxy: it runs; or [pool.execute] could not acquire a connection and
    resolved to [null]; or the command rejected. *)
Inductive fault :=
| Healthy
| NoConnection
| CommandError (msg : string).

(** Every key the program writes holds a decimal integer (a counter, or the
    flag ["1"]); [expireAt] is the absolute expiry in milliseconds. *)
Record entry := Entry { value : Z; expireAt : option Z }.

Record server := Server {
  store : gmap string entry;
  clock : Z;
  faults : op -> string -> fault
}.

Definition healthy (s : server) : Prop := forall o k, faults s o k = Healthy.

Definition expired (s : server) (e : entry) : bool :=
  match expireAt e with
  | Some t => t <=? clock s
  | None => false
  end.

(** The entry of a key that exists from the clients' point of view. *)
Definition live (s : server) (k : string) : option entry :=
  match store s !! k with
  | Some e => if expired s e then None else Some e
  | None => None
  end.

Definition put (k : string) (e : entry) (s : server) : server :=
  Server (<[k := e]> (store s)) (clock s) (faults s).

Definition remove (k : string) (s : server) : server :=
  Server (delete k (store s)) (clock s) (faults s).

Definition advance (dt : Z) (s : server) : server :=
  Server (store s) (clock s + dt) (faults s).

(** One command through the proxy: [pool.execute(redis => redis[cmd](...))]. *)
Definition command {A} (o : op) (k : string) (run : server -> A * server)
  : Async server (option A) :=
  fun s =>
    match faults s o k with
    | Healthy => let (a, s') := run s in (Ret (Some a), s')
    | NoConnection => (Ret None, s)
    | CommandError m => (Thrown (Error m), s)
    end.

Definition run_incrby (k : string) (n : Z) (s : server) : Z * server :=
  let e := match live s k with
           | Some e => Entry (value e + n) (expireAt e)
           | None => Entry n None
           end in
  (value e, put k e s).

Definition run_expire (k : string) (ms : Z) (s : server) : Z * server :=
  match live s k with
  | Some e => (1, put k (Entry (value e) (Some (clock s + ms))) s)
  | None => (0, s)
  end.

Definition run_del (k : string) (s : server) : Z * server :=
  (match live s k with Some _ => 1 | None => 0 end, remove k s).

Definition run_get (k : string) (s : server) : option Z * server :=
  (value <$> live s k, s).

Definition run_exists (k : string) (s : server) : Z * server :=
  (match live s k with Some _ => 1 | None => 0 end, s).

(** [TTL]: [-2] without key, [-1] without expiry, else the remaining time
    rounded to seconds. *)
Definition run_ttl (k : string) (s : server) : Z * server :=
  match live s k with
  | None => (-2, s)
  | Some e =>
      match expireAt e with
      | None => (-1, s)
      | Some t => ((t - clock s + 500) / 1000, s)
      end
  end.

(** [SET key value [PX ms]]: the server refuses an expiry that is not
    positive and leaves the key as it was (the wording of its error depends
    on the version of the server; the program only logs it). *)
Definition run_set (k : string) (v : Z) (px : option Z) (s : server) : res unit * server :=
  match px with
  | Some ms =>
      if ms <=? 0 then (Thrown (Error "ERR invalid expire time in 'set' command"), s)
      else (Ret tt, put k (Entry v (Some (clock s + ms))) s)
  | None => (Ret tt, put k (Entry v None) s)
  end.

(** A command whose reply may be an error of the server itself. *)
Definition commandR {A} (o : op) (k : string) (run : server -> res A * server)
  : Async server (option A) :=
  fun s =>
    match faults s o k with
    | Healthy =>
        match run s with
        | (Ret a, s') => (Ret (Some a), s')
        | (Thrown e, s') => (Thrown e, s')
        end
    | NoConnection => (Ret None, s)
    | CommandError m => (Thrown (Error m), s)
    end.

Definition incrby (k : string) (n : Z) := command INCRBY k (run_incrby k n).
Definition decrby (k : string) (n : Z) := command DECRBY k (run_incrby k (- n)).
Definition incr (k : string) := command INCR k (run_incrby k 1).
Definition expire (k : string) (seconds : Z) := command EXPIRE k (run_expire k (seconds * 1000)).
Definition pexpire (k : string) (ms : Z) := command PEXPIRE k (run_expire k ms).
Definition del (k : string) := command DEL k (run_del k).

(** [GET] answers [null] for a missing key; so does the proxy without a
    connection.  The caller cannot tell them apart. *)
Definition get (k : string) : Async server (option Z) :=
  let* r := command GET k (run_get k) in
  ret (match r with Some v => v | None => None end).

Definition exists_ (k : string) := command EXISTS k (run_exists k).
Definition ttl (k : string) := command TTL k (run_ttl k).
Definition set_px (k : string) (v : Z) (ms : Z) := commandR SET k (run_set k v (Some ms)).

(** [SET key value], without [PX]: a former expiry is dropped. *)
Definition set (k : string) (v : Z) := commandR SET k (run_set k v None).

(** [DEL k1 k2]: both keys are removed, the answer counts those that
    existed.  The fate of the command is the one the server assigns to
    [DEL] on its first key. *)
Definition run_del2 (k1 k2 : string) (s : server) : Z * server :=
  let (a, s1) := run_del k1 s in
  let (b, s2) := run_del k2 s1 in
  (a + b, s2).

Definition del2 (k1 k2 : string) := command DEL k1 (run_del2 k1 k2).

End Redis.

(* ===================================================================== *)
(** ** Shared state of the process                                        *)
(* ===================================================================== *)

(** Result of a read-only contract call on the chain node. *)
Inductive read :=
| ReadOk (v : Z)
| ReadFail (msg : string).

(** The three view functions of the token ABI, per token address, as the
    program receives them: [chain_maxMintCount] and [chain_mintCount] give
    the JavaScript number that [Number(...)] made of the [uint256] read,
    [chain_deploymentDeadline] gives the bigint. *)
Record Chain := {
  chain_maxMintCount : string -> read;
  chain_mintCount : string -> read;
  chain_deploymentDeadline : string -> read
}.

(** Observable actions: the [console.log] lines of [reserveCapacity] and
    [releaseCapacity] (count, token), and the HTTP response being sent. *)
Inductive event :=
| Reserving (count : Z) (token : string)
| Releasing (count : Z) (token : string)
| Responded (status : Z).

Record world := World {
  redis : Redis.server;
  mintCountCache : gmap string (Z * Z);   (* value, fetchedAt *)
  maxMintCache : gmap string Z;
  deadlineCache : gmap string Z;
  trace : list event
}.

Definition set_redis (r : Redis.server) (w : world) : world :=
  World r (mintCountCache w) (maxMintCache w) (deadlineCache w) (trace w).

Definition onRedis {A} (m : Async Redis.server A) : Async world A :=
  lift redis set_redis m.

Definition emit (e : event) : Async world unit :=
  fun w => (Ret tt, World (redis w) (mintCountCache w) (maxMintCache w) (deadlineCache w)
                          (trace w ++ [e])).

(** [Promise.all] of three promises: all three run; the result is the triple
    or the rejection of the first one (in array order) that rejected. *)
Definition all3 {S A B C} (a : Async S A) (b : Async S B) (c : Async S C)
  : Async S (A * B * C) :=
  fun s =>
    let (ra, s1) := a s in
    let (rb, s2) := b s1 in
    let (rc, s3) := c s2 in
    (match ra, rb, rc with
     | Ret x, Ret y, Ret z => Ret (x, y, z)
     | Thrown e, _, _ => Thrown e
     | _, Thrown e, _ => Thrown e
     | _, _, Thrown e => Thrown e
     end, s3).

Definition all4 {S A B C D} (a : Async S A) (b : Async S B) (c : Async S C) (d : Async S D)
  : Async S (A * B * C * D) :=
  fun s =>
    let (ra, s1) := a s in
    let (rb, s2) := b s1 in
    let (rc, s3) := c s2 in
    let (rd, s4) := d s3 in
    (match ra, rb, rc, rd with
     | Ret x, Ret y, Ret z, Ret u => Ret (x, y, z, u)
     | Thrown e, _, _, _ => Thrown e
     | _, Thrown e, _, _ => Thrown e
     | _, _, Thrown e, _ => Thrown e
     | _, _, _, Thrown e => Thrown e
     end, s4).

(* ===================================================================== *)
(** ** TokenDeadlineCache                                                 *)
(* ===================================================================== *)

Module TokenDeadlineCache.

(** [new Date(Number(deadline) * 1000)] is a valid date: the time value is
    within 8.64e15 ms of the epoch. *)
Definition validDate (deadline : Z) : bool := Z.abs deadline <=? 8640000000000.

(** The log line written between the read and [cache.set] formats the
    deadline with [toISOString()], which throws a [RangeError] on an
    invalid date: then nothing is cached and the call rejects. *)
Definition getDeploymentDeadline (chain : Chain) (tokenAddress : string) : Async world Z :=
  fun w =>
    let cacheKey := Js.toLowerCase tokenAddress in
    match deadlineCache w !! cacheKey with
    | Some cached => (Ret cached, w)
    | None =>
        match chain_deploymentDeadline chain tokenAddress with
        | ReadOk deadline =>
            if validDate deadline then
              (Ret deadline,
               World (redis w) (mintCountCache w) (maxMintCache w)
                     (<[cacheKey := deadline]> (deadlineCache w)) (trace w))
            else (Thrown (RangeError "Invalid time value"), w)
        | ReadFail m => (Thrown (Error m), w)
        end
    end.

(** [dateNow] is [Date.now()], in milliseconds. *)
Definition isTokenExpired (chain : Chain) (dateNow : Z) (tokenAddress : string)
  : Async world bool :=
  let* deadline := getDeploymentDeadline chain tokenAddress in
  let now := dateNow / 1000 in
  ret (now >? deadline).

(** [clearCache(tokenAddress?)]: one entry, or all of them. *)
Definition clearCache (tokenAddress : option string) (w : world) : world :=
  World (redis w) (mintCountCache w) (maxMintCache w)
        (match tokenAddress with
         | Some t => if Js.truthy t then delete (Js.toLowerCase t) (deadlineCache w) else ∅
         | None => ∅
         end)
        (trace w).

End TokenDeadlineCache.

(* ===================================================================== *)
(** ** TokenMaxMintCache                                                  *)
(* ===================================================================== *)

Module TokenMaxMintCache.

Definition getMaxMintCount (chain : Chain) (tokenAddress : string) : Async world Z :=
  fun w =>
    let cacheKey := Js.toLowerCase tokenAddress in
    match maxMintCache w !! cacheKey with
    | Some cached => (Ret cached, w)
    | None =>
        match chain_maxMintCount chain tokenAddress with
        | ReadOk value =>
            (Ret value,
             World (redis w) (mintCountCache w) (<[cacheKey := value]> (maxMintCache w))
                   (deadlineCache w) (trace w))
        | ReadFail m => (Thrown (Error m), w)
        end
    end.

(** [clearCache(tokenAddress?)]: one entry, or all of them. *)
Definition clearCache (tokenAddress : option string) (w : world) : world :=
  World (redis w) (mintCountCache w)
        (match tokenAddress with
         | Some t => if Js.truthy t then delete (Js.toLowerCase t) (maxMintCache w) else ∅
         | None => ∅
         end)
        (deadlineCache w) (trace w).

End TokenMaxMintCache.

(* ===================================================================== *)
(** ** PendingMintTracker                                                 *)
(* ===================================================================== *)

Module PendingMintTracker.

Record t := { redisUrl : option string }.

Definition keyPrefix : string := "pending_mint:".

Definition key (tokenAddress : string) : string :=
  keyPrefix +:+ Js.toLowerCase tokenAddress.

(** [ensureConnection]: a proxy on the global pool when a URL is
    configured, [null] otherwise. *)
Definition ensureConnection (self : t) : bool := Js.truthyOpt (redisUrl self).

Definition incrementPending (self : t) (tokenAddress : string) (count : Z)
  : Async Redis.server (option Z) :=
  if negb (ensureConnection self) then ret (Some 0)
  else
    try_catch
      (let* newCount := Redis.incrby (key tokenAddress) count in
       let* _ := Redis.expire (key tokenAddress) 3600 in
       ret newCount)
      (fun _ => ret (Some 0)).

Definition decrementPending (self : t) (tokenAddress : string) (count : Z)
  : Async Redis.server Z :=
  if negb (ensureConnection self) then ret 0
  else
    try_catch
      (let* newCount := Redis.decrby (key tokenAddress) count in
       if Js.toNumber newCount <=? 0 then
         let* _ := Redis.del (key tokenAddress) in
         ret 0
       else ret (Js.toNumber newCount))
      (fun _ => ret 0).

Definition getPendingCount (self : t) (tokenAddress : string) : Async Redis.server Z :=
  if negb (ensureConnection self) then ret 0
  else
    try_catch
      (let* count := Redis.get (key tokenAddress) in
       ret (match count with Some v => v | None => 0 end))
      (fun _ => ret 0).

Definition clearPending (self : t) (tokenAddress : string) : Async Redis.server unit :=
  if negb (ensureConnection self) then ret tt
  else
    try_catch
      (let* _ := Redis.del (key tokenAddress) in ret tt)
      (fun _ => ret tt).

End PendingMintTracker.

(* ===================================================================== *)
(** ** TokenCapacityManager                                               *)
(* ===================================================================== *)

Module TokenCapacityManager.

Record t := { pendingTracker : PendingMintTracker.t }.

Definition mintCountTTL : Z := 6000.

(** [dateNow] is [Date.now()], in milliseconds. *)
Definition getCurrentMintCount (chain : Chain) (dateNow : Z) (tokenAddress : string)
  : Async world Z :=
  fun w =>
    let cacheKey := Js.toLowerCase tokenAddress in
    let cached := mintCountCache w !! cacheKey in
    let fresh := match cached with
                 | Some (_, fetchedAt) => dateNow - fetchedAt <? mintCountTTL
                 | None => false
                 end in
    match cached, fresh with
    | Some (value, _), true => (Ret value, w)
    | _, _ =>
        match chain_mintCount chain tokenAddress with
        | ReadOk value =>
            (Ret value,
             World (redis w) (<[cacheKey := (value, dateNow)]> (mintCountCache w))
                   (maxMintCache w) (deadlineCache w) (trace w))
        | ReadFail m =>
            match cached with
            | Some (value, _) => (Ret value, w)
            | None => (Thrown (Error m), w)
            end
        end
    end.

Definition capacityExceeded (info : TokenCapacityInfo) : JsError :=
  mkError "Insufficient mint capacity" None (Some "CAPACITY_EXCEEDED") (Some info)
          None None None None.

(** The [Promise.all] shared by [checkCapacity] and [getCapacityStatus]:
    current, max and pending counts. *)
Definition readCounts (self : t) (chain : Chain) (dateNow : Z) (tokenAddress : string)
  : Async world (Z * Z * Z) :=
  all3 (getCurrentMintCount chain dateNow tokenAddress)
       (TokenMaxMintCache.getMaxMintCount chain tokenAddress)
       (onRedis (PendingMintTracker.getPendingCount (pendingTracker self) tokenAddress)).

Definition checkCapacity (self : t) (chain : Chain) (dateNow : Z)
           (tokenAddress : string) (requestedCount : Z) : Async world TokenCapacityInfo :=
  let* counts := readCounts self chain dateNow tokenAddress in
  let '(currentMintCount, maxMintCount, pendingCount) := counts in
  let totalExpected := Js.add (Js.add currentMintCount pendingCount) requestedCount in
  let availableSlots := Js.sub (Js.sub maxMintCount currentMintCount) pendingCount in
  let capacityInfo := {| maxMintCount := maxMintCount;
                         currentMintCount := currentMintCount;
                         pendingCount := pendingCount;
                         availableSlots := availableSlots |} in
  if totalExpected >? maxMintCount then throw (capacityExceeded capacityInfo)
  else ret capacityInfo.

Definition getCapacityStatus (self : t) (chain : Chain) (dateNow : Z) (tokenAddress : string)
  : Async world TokenCapacityInfo :=
  let* counts := readCounts self chain dateNow tokenAddress in
  let '(currentMintCount, maxMintCount, pendingCount) := counts in
  ret {| maxMintCount := maxMintCount;
         currentMintCount := currentMintCount;
         pendingCount := pendingCount;
         availableSlots := Js.sub (Js.sub maxMintCount currentMintCount) pendingCount |}.

Definition reserveCapacity (self : t) (tokenAddress : string) (count : Z) : Async world unit :=
  let* _ := emit (Reserving count tokenAddress) in
  let* _ := onRedis (PendingMintTracker.incrementPending (pendingTracker self) tokenAddress count) in
  ret tt.

Definition releaseCapacity (self : t) (tokenAddress : string) (count : Z) : Async world unit :=
  let* _ := emit (Releasing count tokenAddress) in
  let* _ := onRedis (PendingMintTracker.decrementPending (pendingTracker self) tokenAddress count) in
  ret tt.

End TokenCapacityManager.

(* ===================================================================== *)
(** ** AbuseDetector                                                      *)
(* ===================================================================== *)

Module AbuseDetector.

Record AbuseConfig := {
  maxRequestsPerWindow : Z;
  timeWindowMs : Z;
  banDurationMs : Z
}.

Record t := { redisUrl : option string; config : AbuseConfig }.

(** The constructor. *)
Definition make (redisUrl : option string) (maxRequests window ban : option Z) : t :=
  {| redisUrl := redisUrl;
     config := {| maxRequestsPerWindow := Js.orDefault maxRequests 10;
                  timeWindowMs := Js.orDefault window 60000;
                  banDurationMs := Js.orDefault ban 3600000 |} |}.

Definition REQUEST_COUNT_PREFIX : string := "abuse:count:".
Definition BAN_PREFIX : string := "abuse:ban:".
Definition WHITELIST_PREFIX : string := "abuse:whitelist:".

Record verdict := { allowed : bool; reason : option string }.

Definition allow : verdict := {| allowed := true; reason := None |}.
Definition deny (text : string) : verdict := {| allowed := false; reason := Some text |}.

(** The two texts of [reason]. *)
Definition bannedText (ttl : option Z) : string :=
  "Banned for excessive requests. Try again in "
    +:+ pretty (Js.ceilDiv (Js.toNumber ttl) 60) +:+ " minutes.".

Definition limitText (self : AbuseConfig) : string :=
  "Rate limit exceeded. Maximum " +:+ pretty (maxRequestsPerWindow self)
    +:+ " requests per " +:+ Js.millisAsSeconds (timeWindowMs self) +:+ " seconds.".

Definition ensureConnection (self : t) : bool := Js.truthyOpt (redisUrl self).

Definition isWhitelisted (self : t) (key : string) : Async Redis.server bool :=
  if negb (ensureConnection self) then ret false
  else
    let* found := Redis.exists_ (WHITELIST_PREFIX +:+ key) in
    ret (Js.strictEq found 1).

Definition isBanned (self : t) (identifier : string) : Async Redis.server bool :=
  if negb (ensureConnection self) then ret false
  else
    try_catch
      (let* result := Redis.exists_ (BAN_PREFIX +:+ identifier) in
       ret (Js.strictEq result 1))
      (fun _ => ret false).

Definition banIdentifier (self : t) (identifier : string) : Async Redis.server unit :=
  if negb (ensureConnection self) then ret tt
  else
    try_catch
      (let* _ := Redis.set_px (BAN_PREFIX +:+ identifier) 1 (banDurationMs (config self)) in
       ret tt)
      (fun _ => ret tt).

Definition recordRequest (self : t) (identifier : string) : Async Redis.server verdict :=
  if negb (ensureConnection self) then ret allow
  else
    let key := Js.toLowerCase identifier in
    try_catch
      (let* whitelisted := isWhitelisted self key in
       if whitelisted then ret allow
       else
         let* banned := isBanned self key in
         if banned then
           let* ttl := Redis.ttl (BAN_PREFIX +:+ key) in
           ret (deny (bannedText ttl))
         else
           let countKey := REQUEST_COUNT_PREFIX +:+ key in
           let* count := Redis.incr countKey in
           let* _ := (if Js.strictEq count 1
                      then let* _ := Redis.pexpire countKey (timeWindowMs (config self)) in ret tt
                      else ret tt) in
           if Js.toNumber count >? maxRequestsPerWindow (config self) then
             let* _ := banIdentifier self key in
             ret (deny (limitText (config self)))
           else ret allow)
      (fun _ => ret allow).

Definition getRequestCount (self : t) (identifier : string) : Async Redis.server Z :=
  if negb (ensureConnection self) then ret 0
  else
    try_catch
      (let* count := Redis.get (REQUEST_COUNT_PREFIX +:+ identifier) in
       ret (match count with Some v => v | None => 0 end))
      (fun _ => ret 0).

Record stats := {
  requestCount : Z;
  stats_isBanned : bool;
  stats_isWhitelisted : bool;
  banTimeRemaining : option Z
}.

Definition noStats : stats :=
  {| requestCount := 0; stats_isBanned := false; stats_isWhitelisted := false;
     banTimeRemaining := None |}.

(** [Promise.all] of the four reads, in the order of the array. *)
Definition getStats (self : t) (identifier : string) : Async Redis.server stats :=
  if negb (ensureConnection self) then ret noStats
  else
    try_catch
      (let key := Js.toLowerCase identifier in
       let* r := all4 (getRequestCount self identifier)
                      (isBanned self identifier)
                      (isWhitelisted self key)
                      (Redis.ttl (BAN_PREFIX +:+ identifier)) in
       let '(requestCount, isBanned, isWhitelisted, banTTL) := r in
       ret {| requestCount := requestCount;
              stats_isBanned := isBanned;
              stats_isWhitelisted := isWhitelisted;
              banTimeRemaining :=
                if (isBanned && (Js.toNumber banTTL >? 0))%bool
                then Some (Js.toNumber banTTL) else None |})
      (fun _ => ret noStats).

Definition manualBan (self : t) (identifier : string) (durationMs : option Z)
  : Async Redis.server unit :=
  if negb (ensureConnection self) then ret tt
  else
    let duration := Js.orDefault durationMs (banDurationMs (config self)) in
    try_catch
      (let* _ := Redis.set_px (BAN_PREFIX +:+ identifier) 1 duration in ret tt)
      (fun _ => ret tt).

Definition unban (self : t) (identifier : string) : Async Redis.server unit :=
  if negb (ensureConnection self) then ret tt
  else
    try_catch
      (let countKey := REQUEST_COUNT_PREFIX +:+ identifier in
       let banKey := BAN_PREFIX +:+ identifier in
       let* _ := Redis.del2 countKey banKey in
       ret tt)
      (fun _ => ret tt).

Definition addToWhitelist (self : t) (identifier : string) : Async Redis.server unit :=
  if negb (ensureConnection self) then throw (Error "Redis not available")
  else
    let key := Js.toLowerCase identifier in
    try_catch
      (let* _ := Redis.set (WHITELIST_PREFIX +:+ key) 1 in ret tt)
      (fun error => throw error).

Definition removeFromWhitelist (self : t) (identifier : string) : Async Redis.server unit :=
  if negb (ensureConnection self) then throw (Error "Redis not available")
  else
    let key := Js.toLowerCase identifier in
    try_catch
      (let* _ := Redis.del (WHITELIST_PREFIX +:+ key) in ret tt)
      (fun error => throw error).

End AbuseDetector.

(** [createIdentifier(address?, ip?)]. *)
Definition createIdentifier (address ip : option string) : string :=
  match Js.truthyOpt address, Js.truthyOpt ip, address, ip with
  | true, true, Some a, Some i => "addr:" +:+ Js.toLowerCase a +:+ "_ip:" +:+ i
  | true, _, Some a, _ => "addr:" +:+ Js.toLowerCase a
  | _, true, _, Some i => "ip:" +:+ i
  | _, _, _, _ => "unknown"
  end.

(* ===================================================================== *)
(** ** RedisConnectionPool                                                *)
(* ===================================================================== *)

Module RedisConnectionPool.

(** [connection.status] of ioredis. *)
Inductive status := wait | connecting | connect | ready | reconnecting | close | end_.

(** A pooled connection: its pool id, its current status and whether a
    [ping] sent now is answered within the 500 ms race. *)
Record connection := Connection { connId : nat; connStatus : status; pingAnswers : bool }.

Definition isReady (c : connection) : bool :=
  match connStatus c with ready => true | _ => false end.

Record PoolOptions := { min : nat; max : nat; acquireTimeout : Z }.

(** The two function objects made by an [acquire] call that has to wait,
    numbered by the rank [w] of that call among the waiting ones:
    [Resolve w] is the [resolve] of its promise; [Handover w] is the arrow
    function it pushes on [waitingQueue], which clears the timer, marks the
    connection in use and calls [resolve]. *)
Inductive callback :=
| Resolve (w : nat)
| Handover (w : nat).

#[global] Instance callback_eq_dec : EqDecision callback.
Proof. solve_decision. Defined.

Record pool := Pool {
  options : PoolOptions;
  connections : list connection;
  availableConnections : list connection;   (* top of the stack is the last element *)
  waitingQueue : list callback;             (* head is served first *)
  isShuttingDown : bool;
  connectionsInUse : list nat;
  nextConnectionId : nat;
  nextWaiter : nat
}.

(** How a promise of the pool ended. *)
Inductive settled (A : Type) :=
| Fulfilled (a : A)
| Rejected (e : JsError).
Arguments Fulfilled {A} a.
Arguments Rejected {A} e.

(** [arr.splice(arr.indexOf(c), 1)] when [c] is in [arr]. *)
Fixpoint removeFirst (id : nat) (l : list connection) : list connection :=
  match l with
  | [] => []
  | c :: r => if (connId c =? id)%nat then r else c :: removeFirst id r
  end.

Definition removeConnection (c : connection) (p : pool) : pool :=
  Pool (options p)
       (removeFirst (connId c) (connections p))
       (removeFirst (connId c) (availableConnections p))
       (waitingQueue p) (isShuttingDown p)
       (filter (fun i => i <> connId c) (connectionsInUse p))
       (nextConnectionId p) (nextWaiter p).

Definition markInUse (c : connection) (p : pool) : pool :=
  Pool (options p) (connections p) (availableConnections p) (waitingQueue p)
       (isShuttingDown p) (connId c :: connectionsInUse p)
       (nextConnectionId p) (nextWaiter p).

Definition setAvailable (l : list connection) (p : pool) : pool :=
  Pool (options p) (connections p) l (waitingQueue p) (isShuttingDown p)
       (connectionsInUse p) (nextConnectionId p) (nextWaiter p).

(** The validation loop of [acquire]: pop from the free list until a ready
    connection answers the ping; every rejected one is removed from the
    pool.  [stack] is the free list with its top first. *)
Fixpoint validate (stack : list connection) (p : pool) : option connection * pool :=
  match stack with
  | [] => (None, setAvailable [] p)
  | c :: rest =>
      let p1 := setAvailable (rev rest) p in
      if (isReady c && pingAnswers c)%bool then (Some c, markInUse c p1)
      else validate rest (removeConnection c p1)
  end.

(** What becomes of [redis.connect()]: it resolves, the connection being
    ready ([enableReadyCheck]), or it rejects.  [answersPing] is the
    [pingAnswers] of the new connection; nothing pings it before it is
    handed out. *)
Inductive attempt :=
| Connected (answersPing : bool)
| Refused.

(** [createConnection]: [connects] tells what becomes of [redis.connect()]
    for the connection that receives the given id. *)
Definition createConnection (connects : nat -> attempt) (p : pool) : res unit * pool :=
  if (max (options p) <=? length (connections p))%nat then
    (Thrown (Error "Maximum connections reached"), p)
  else
    let id := nextConnectionId p in
    let p1 := Pool (options p) (connections p) (availableConnections p) (waitingQueue p)
                   (isShuttingDown p) (connectionsInUse p) (S id) (nextWaiter p) in
    match connects id with
    | Connected answersPing =>
        let c := Connection id ready answersPing in
        (Ret tt,
         Pool (options p1) (connections p1 ++ [c]) (availableConnections p1 ++ [c])
              (waitingQueue p1) (isShuttingDown p1) (connectionsInUse p1)
              (nextConnectionId p1) (nextWaiter p1))
    | Refused => (Thrown (Error "connect failed"), p1)
    end.

(** What [acquire] has done when it gives control back: its promise is
    already settled, or its callback sits in the queue and the timer runs. *)
Inductive acquiring :=
| Settled (r : settled (option connection))
| Waiting (waiter : nat).

Definition enqueueWaiter (p : pool) : acquiring * pool :=
  let w := nextWaiter p in
  (Waiting w,
   Pool (options p) (connections p) (availableConnections p) (waitingQueue p ++ [Handover w])
        (isShuttingDown p) (connectionsInUse p) (nextConnectionId p) (S w)).

(** Calling a callback with a connection or [null]: the waiter whose promise
    is resolved, and the pool afterwards. *)
Definition invoke (cb : callback) (conn : option connection) (p : pool)
  : (nat * settled (option connection)) * pool :=
  match cb with
  | Handover w =>
      ((w, Fulfilled conn), match conn with Some c => markInUse c p | None => p end)
  | Resolve w => ((w, Fulfilled conn), p)
  end.

(** [arr.splice(arr.indexOf(cb), 1)] when [cb] is in [arr]. *)
Fixpoint spliceOut (cb : callback) (l : list callback) : list callback :=
  match l with
  | [] => []
  | x :: r => if bool_decide (x = cb) then r else x :: spliceOut cb r
  end.

Definition popAvailable (p : pool) : option connection * pool :=
  match rev (availableConnections p) with
  | [] => (None, p)
  | c :: rest => (Some c, markInUse c (setAvailable (rev rest) p))
  end.

Definition acquire (connects : nat -> attempt) (p : pool) : acquiring * pool :=
  if isShuttingDown p then (Settled (Fulfilled None), p)
  else
    match validate (rev (availableConnections p)) p with
    | (Some c, p1) => (Settled (Fulfilled (Some c)), p1)
    | (None, p1) =>
        if (length (connections p1) <? max (options p1))%nat then
          match createConnection connects p1 with
          | (Ret _, p2) =>
              match popAvailable p2 with
              | (Some c, p3) => (Settled (Fulfilled (Some c)), p3)
              | (None, p3) => enqueueWaiter p3
              end
          | (Thrown _, p2) => enqueueWaiter p2
          end
        else enqueueWaiter p1
    end.

(** The [setTimeout] callback armed by [acquire] for waiter [w]: it looks
    for [resolve] in the queue,
    [const index = this.waitingQueue.indexOf(resolve)], and only when it
    finds it removes it and resolves the promise with [null]. *)
Definition acquireTimedOut (w : nat) (p : pool) : option (settled (option connection)) * pool :=
  if bool_decide (Resolve w ∈ waitingQueue p) then
    (Some (Fulfilled None),
     Pool (options p) (connections p) (availableConnections p)
          (spliceOut (Resolve w) (waitingQueue p))
          (isShuttingDown p) (connectionsInUse p) (nextConnectionId p) (nextWaiter p))
  else (None, p).

(** [release]: the connection goes to the first waiter, else back on the
    free list; an unhealthy one is removed and, below the floor, a
    replacement is created (its connection attempt is taken to complete at
    once).  The result names the waiter that was served, if any. *)
Definition release (connects : nat -> attempt) (c : connection) (p : pool)
  : option (nat * settled (option connection)) * pool :=
  if negb (bool_decide (connId c ∈ connectionsInUse p)) then (None, p)
  else
    let p1 := Pool (options p) (connections p) (availableConnections p) (waitingQueue p)
                   (isShuttingDown p) (filter (fun i => i <> connId c) (connectionsInUse p))
                   (nextConnectionId p) (nextWaiter p) in
    if (isReady c && negb (isShuttingDown p1))%bool then
      match waitingQueue p1 with
      | waiting :: rest =>
          let (served, p2) :=
            invoke waiting (Some c)
                   (Pool (options p1) (connections p1) (availableConnections p1) rest
                         (isShuttingDown p1) (connectionsInUse p1)
                         (nextConnectionId p1) (nextWaiter p1)) in
          (Some served, p2)
      | [] => (None, setAvailable (availableConnections p1 ++ [c]) p1)
      end
    else
      let p2 := removeConnection c p1 in
      if (negb (isShuttingDown p2) && (length (connections p2) <? min (options p2))%nat)%bool
      then (None, snd (createConnection connects p2))
      else (None, p2).

(** [shutdown]: every queued callback is called with [null], then the
    queue and the connections are dropped. *)
Definition shutdown (p : pool) : list (nat * settled (option connection)) * pool :=
  let p1 := Pool (options p) (connections p) (availableConnections p) (waitingQueue p)
                 true (connectionsInUse p) (nextConnectionId p) (nextWaiter p) in
  (map (fun cb => fst (invoke cb None p1)) (waitingQueue p1),
   Pool (options p1) [] [] [] true (connectionsInUse p1) (nextConnectionId p1) (nextWaiter p1)).

(** [execute(fn)] once [acquire] has settled with [got]: without a
    connection the command is not run and the result is [null]; with one,
    the command runs and the connection is released whatever the result. *)
Definition execute {S A} (connects : nat -> attempt) (got : settled (option connection))
           (fn : connection -> Async S A) : Async (pool * S) (option A) :=
  fun ps =>
    let (p, s) := ps in
    match got with
    | Fulfilled (Some c) =>
        let (r, s') := fn c s in
        let p' := snd (release connects c p) in
        (match r with Ret a => Ret (Some a) | Thrown e => Thrown e end, (p', s'))
    | Fulfilled None => (Ret None, (p, s))
    | Rejected e => (Thrown e, (p, s))
    end.

(** The [retryStrategy] that [createConnection] gives to ioredis: the delay
    before reconnection attempt number [times] (counted from 1), or [null]
    to stop retrying.  [retryAttempts] is [this.options.retryAttempts]. *)
Definition retryStrategy (retryAttempts : Z) (times : Z) : option Z :=
  if times >? retryAttempts then None
  else
    let baseDelay := 2000 in
    let maxDelay := 30000 in
    Some (Z.min (baseDelay * 2 ^ (times - 1)) maxDelay).

End RedisConnectionPool.

(* ===================================================================== *)
(** ** Payment envelope and requirements                                  *)
(* ===================================================================== *)

(** The decoded [X-PAYMENT] header.  The program reads
    [payload.authorization.from] and [.nonce]; everything else is carried
    as is. *)
Record PaymentPayload := {
  authorization_from : string;
  authorization_nonce : string;
  envelope : string
}.

(** The [paymentRequirements] object built by the handler. *)
Record PaymentRequirements := {
  scheme : string;
  network : string;
  maxAmountRequired : string;
  resource : string;
  description : string;
  mimeType : string;
  payTo : string;
  maxTimeoutSeconds : Z;
  asset : string;
  extra_name : string;
  extra_version : string
}.

(* ===================================================================== *)
(** ** BatchSettleManager                                                 *)
(* ===================================================================== *)

Module BatchSettleManager.

Record SettleItem := {
  requestId : string;
  paymentPayload : PaymentPayload;
  paymentRequirements : PaymentRequirements;
  timestamp : Z
}.

Record SettleResult := {
  result_requestId : string;
  success : bool;
  transaction : option string;
  nonce : option Z;
  error : option string
}.

(** Answer of the facilitator to one [POST /verify]. *)
Inductive verifyAnswer :=
| VerifyNotOk (httpStatus : Z)
| VerifyJson (isValid : bool) (invalidReason : option string)
| VerifyThrew (msg : string).

(** One element of [results] in the answer to [POST /settle/batch]. *)
Record batchEntry := {
  entry_index : Z;
  entry_success : bool;
  entry_transaction : option string;
  entry_nonce : Z;
  entry_error : option string
}.

Inductive batchAnswer :=
| BatchNotOk (httpStatus : Z) (errorText : string)
| BatchJson (results : list batchEntry)
| BatchThrew (msg : string).

(** Body item of [POST /settle/batch]. *)
Definition bodyItem : Type := PaymentPayload * PaymentRequirements.

Record Facilitator := {
  verify : SettleItem -> verifyAnswer;
  settleBatch : list bodyItem -> batchAnswer
}.

(** The bodies sent to [/settle/batch], oldest first. *)
Definition posts : Type := list (list bodyItem).

Record verified := { item : SettleItem; valid : bool; verify_reason : option string }.

Definition reverify (f : Facilitator) (i : SettleItem) : verified :=
  match verify f i with
  | VerifyNotOk st => {| item := i; valid := false;
                         verify_reason := Some ("HTTP " +:+ pretty st) |}
  | VerifyJson isValid invalidReason =>
      {| item := i; valid := isValid; verify_reason := invalidReason |}
  | VerifyThrew m => {| item := i; valid := false; verify_reason := Some m |}
  end.

Definition toBody (i : SettleItem) : bodyItem := (paymentPayload i, paymentRequirements i).

(** [new Map(validItems.map((item, index) => [item.requestId, index]))]:
    the pairs are inserted in order, a later one replaces an earlier one. *)
Fixpoint indexMapFrom (l : list SettleItem) (from : nat) (m : gmap string nat)
  : gmap string nat :=
  match l with
  | [] => m
  | i :: r => indexMapFrom r (S from) (<[requestId i := from]> m)
  end.

Definition indexMap (l : list SettleItem) : gmap string nat := indexMapFrom l 0 ∅.

Definition verificationFailed (invalidItem : option verified) : string :=
  "Verification failed: "
    +:+ Js.strOr (match invalidItem with Some inv => verify_reason inv | None => None end) "unknown".

(** The loop that maps the facilitator's results back to the requests. *)
Fixpoint mapBack (items : list SettleItem) (validItemsMap : gmap string nat)
         (invalidItems : list verified) (results : list batchEntry)
  : res (list SettleResult) :=
  match items with
  | [] => Ret []
  | i :: rest =>
      let one :=
        match validItemsMap !! requestId i with
        | Some validIndex =>
            match results !! validIndex with
            | Some settleResult =>
                Ret {| result_requestId := requestId i;
                       success := entry_success settleResult;
                       transaction := entry_transaction settleResult;
                       nonce := Some (entry_nonce settleResult);
                       error := entry_error settleResult |}
            | None =>
                Thrown (Error "Cannot read properties of undefined (reading 'success')")
            end
        | None =>
            let invalidItem :=
              find (fun inv => String.eqb (requestId (item inv)) (requestId i)) invalidItems in
            Ret {| result_requestId := requestId i;
                   success := false;
                   transaction := None;
                   nonce := None;
                   error := Some (verificationFailed invalidItem) |}
        end in
      match one with
      | Ret r =>
          match mapBack rest validItemsMap invalidItems results with
          | Ret rs => Ret (r :: rs)
          | Thrown e => Thrown e
          end
      | Thrown e => Thrown e
      end
  end.

Definition batchSettle (f : Facilitator) (items : list SettleItem)
  : Async posts (list SettleResult) :=
  fun sent =>
    let verifyResults := map (reverify f) items in
    let validItems := map item (filter (fun r => valid r = true) verifyResults) in
    let invalidItems := filter (fun r => valid r = false) verifyResults in
    if (length validItems =? 0)%nat then
      (Ret (map (fun i => {| result_requestId := requestId i;
                             success := false;
                             transaction := None;
                             nonce := None;
                             error := Some "All payments failed verification" |}) items),
       sent)
    else
      let body := map toBody validItems in
      let sent' := sent ++ [body] in
      match settleBatch f body with
      | BatchNotOk st errorText =>
          (Thrown (Error ("Facilitator batch settle failed: " +:+ pretty st +:+ " " +:+ errorText)),
           sent')
      | BatchThrew m => (Thrown (Error m), sent')
      | BatchJson results =>
          (mapBack items (indexMap validItems) invalidItems results, sent')
      end.

(** *** The queue *)

(** How the promise returned by [addToQueue] ends. *)
Inductive completion :=
| Resolved (r : SettleResult)
| RejectedWith (e : JsError).

(** [queue] is the [Map] from request id to item, as the list of its values
    in insertion order; [pendingPromises] maps a request id to the handle
    of the promise created by the enqueuing call (its rank among the calls
    of [addToQueue]); [timer] holds the delay of the armed timeout. *)
Record manager := Manager {
  queue : list SettleItem;
  pendingPromises : gmap string nat;
  timer : option Z;
  processing : bool;
  batchSize : Z;
  batchTimeout : Z;
  nextPromise : nat
}.

(** The constructor: [options.batchSize || 10], [options.batchTimeout || 5000]. *)
Definition make (batchSize batchTimeout : option Z) : manager :=
  Manager [] ∅ None false
          (Js.orDefault batchSize 10)
          (Js.orDefault batchTimeout 5000) 0.

(** [Map.prototype.set]: an existing key keeps its place. *)
Fixpoint mapSet (i : SettleItem) (q : list SettleItem) : list SettleItem :=
  match q with
  | [] => [i]
  | j :: r => if String.eqb (requestId j) (requestId i) then i :: r else j :: mapSet i r
  end.

Definition mapDelete (id : string) (q : list SettleItem) : list SettleItem :=
  filter (fun j => requestId j <> id) q.

(** [arr.slice(0, end)]. *)
Definition slice0 {A} (l : list A) (end_ : Z) : list A :=
  let len := Z.of_nat (length l) in
  let k := if end_ <? 0 then Z.max (len + end_) 0 else Z.min end_ len in
  take (Z.to_nat k) l.

(** [flush] up to its first suspension: the batch it extracted, if any. *)
Definition flushBegin (m : manager) : option (list SettleItem) * manager :=
  let m1 := Manager (queue m) (pendingPromises m) None (processing m)
                    (batchSize m) (batchTimeout m) (nextPromise m) in
  if (processing m1 || (length (queue m1) =? 0)%nat)%bool then (None, m1)
  else
    (Some (slice0 (queue m1) (batchSize m1)),
     Manager (queue m1) (pendingPromises m1) (timer m1) true
             (batchSize m1) (batchTimeout m1) (nextPromise m1)).

Definition forget (id : string) (m : manager) : manager :=
  Manager (mapDelete id (queue m)) (delete id (pendingPromises m)) (timer m)
          (processing m) (batchSize m) (batchTimeout m) (nextPromise m).

(** The loop over the results of a batch. *)
Fixpoint deliver (results : list SettleResult) (m : manager)
  : list (nat * completion) * manager :=
  match results with
  | [] => ([], m)
  | result :: rest =>
      match pendingPromises m !! result_requestId result with
      | Some promise =>
          let c := if success result then Resolved result
                   else RejectedWith (Error (Js.strOr (error result) "Settle failed")) in
          let (cs, m') := deliver rest (forget (result_requestId result) m) in
          ((promise, c) :: cs, m')
      | None => deliver rest m
      end
  end.

(** The loop of the [catch] block. *)
Fixpoint rejectBatch (e : JsError) (batchItems : list SettleItem) (m : manager)
  : list (nat * completion) * manager :=
  match batchItems with
  | [] => ([], m)
  | i :: rest =>
      match pendingPromises m !! requestId i with
      | Some promise =>
          let (cs, m') := rejectBatch e rest (forget (requestId i) m) in
          ((promise, RejectedWith e) :: cs, m')
      | None => rejectBatch e rest m
      end
  end.

(** [flush] from the moment [batchSettle] has settled with [r]. *)
Definition flushEnd (batchItems : list SettleItem) (r : res (list SettleResult)) (m : manager)
  : list (nat * completion) * manager :=
  let (cs, m1) := match r with
                  | Ret results => deliver results m
                  | Thrown e => rejectBatch e batchItems m
                  end in
  (cs,
   Manager (queue m1) (pendingPromises m1)
           (if (0 <? length (queue m1))%nat then Some 100 else timer m1)
           false (batchSize m1) (batchTimeout m1) (nextPromise m1)).

(** A whole [flush] during which nothing else touches the manager. *)
Definition flush (f : Facilitator) (m : manager) (sent : posts)
  : list (nat * completion) * manager * posts :=
  match flushBegin m with
  | (None, m1) => ([], m1, sent)
  | (Some batchItems, m1) =>
      let (r, sent') := batchSettle f batchItems sent in
      let (cs, m2) := flushEnd batchItems r m1 in
      (cs, m2, sent')
  end.

(** [addToQueue], up to the point where it gives control back: the handle
    of the new promise and the batch of the flush it started, if any. *)
Definition addToQueue (requestId : string) (paymentPayload : PaymentPayload)
           (paymentRequirements : PaymentRequirements) (dateNow : Z) (m : manager)
  : nat * option (list SettleItem) * manager :=
  let i := {| requestId := requestId; paymentPayload := paymentPayload;
              paymentRequirements := paymentRequirements; timestamp := dateNow |} in
  let handle := nextPromise m in
  let m1 := Manager (mapSet i (queue m)) (<[requestId := handle]> (pendingPromises m))
                    (timer m) (processing m) (batchSize m) (batchTimeout m) (S handle) in
  if batchSize m1 <=? Z.of_nat (length (queue m1)) then
    let (b, m2) := flushBegin m1 in (handle, b, m2)
  else
    match timer m1 with
    | None =>
        (handle, None,
         Manager (queue m1) (pendingPromises m1) (Some (batchTimeout m1)) (processing m1)
                 (batchSize m1) (batchTimeout m1) (nextPromise m1))
    | Some _ => (handle, None, m1)
    end.

(** [getStatus()]; [Math.min(...timestamps)] of a non-empty queue. *)
Record Status := {
  queueSize : Z;
  status_processing : bool;
  status_pendingPromises : Z;
  oldestItemAge : Z
}.

Definition getStatus (dateNow : Z) (m : manager) : Status :=
  {| queueSize := Z.of_nat (length (queue m));
     status_processing := processing m;
     status_pendingPromises := Z.of_nat (size (pendingPromises m));
     oldestItemAge :=
       match map timestamp (queue m) with
       | [] => 0
       | t :: ts => dateNow - foldr Z.min t ts
       end |}.

(** [flushAll]: [while (this.queue.size > 0 && !this.processing) await
    this.flush()], nothing else touching the manager meanwhile.  The loop
    need not end; [fuel] bounds the number of its turns, and [None] says the
    bound was reached. *)
Fixpoint flushAll (fuel : nat) (f : Facilitator) (m : manager) (sent : posts)
  : option (list (nat * completion) * manager * posts) :=
  if ((0 <? length (queue m))%nat && negb (processing m))%bool then
    match fuel with
    | O => None
    | S fuel' =>
        let '(cs, m1, sent1) := flush f m sent in
        match flushAll fuel' f m1 sent1 with
        | Some (cs', m2, sent2) => Some (cs ++ cs', m2, sent2)
        | None => None
        end
    end
  else Some ([], m, sent).

(** One turn of the loop of [cleanupStale]: the promise rejected, if any,
    the increment of [cleaned], and the manager. *)
Definition cleanupOne (dateNow maxAge : Z) (item : SettleItem) (m : manager)
  : list (nat * completion) * Z * manager :=
  if dateNow - timestamp item >? maxAge then
    let '(rejected, pending) :=
      match pendingPromises m !! requestId item with
      | Some promise =>
          ([(promise, RejectedWith (Error "Request timeout"))],
           delete (requestId item) (pendingPromises m))
      | None => ([], pendingPromises m)
      end in
    (rejected, 1,
     Manager (mapDelete (requestId item) (queue m)) pending (timer m) (processing m)
             (batchSize m) (batchTimeout m) (nextPromise m))
  else ([], 0, m).

Fixpoint cleanupLoop (dateNow maxAge : Z) (entries : list SettleItem) (m : manager)
  : list (nat * completion) * Z * manager :=
  match entries with
  | [] => ([], 0, m)
  | item :: rest =>
      let '(rejected, n, m1) := cleanupOne dateNow maxAge item m in
      let '(rejected', n', m2) := cleanupLoop dateNow maxAge rest m1 in
      (rejected ++ rejected', n + n', m2)
  end.

(** [cleanupStale(maxAge = 60000)]: the promises rejected, the number of
    requests removed, and the manager. *)
Definition cleanupStale (maxAge : option Z) (dateNow : Z) (m : manager)
  : list (nat * completion) * Z * manager :=
  cleanupLoop dateNow (match maxAge with Some a => a | None => 60000 end) (queue m) m.

End BatchSettleManager.

(* ===================================================================== *)
(** ** The HTTP handler of POST /api/mint                                 *)
(* ===================================================================== *)

(** JSON values of response bodies. A property whose value is [undefined]
    is left out, as [JSON.stringify] does. *)
#[local] Unset Elimination Schemes.
Inductive json :=
| JNull
| JBool (b : bool)
| JNum (z : Z)
| JStr (s : string)
| JObj (fields : list (string * json)).
#[local] Set Elimination Schemes.

Module Mint.

Record Request := {
  x_forwarded_for : option string;
  x_real_ip : option string;
  remoteAddress : option string;
  x_payment : option string;
  body_tokenAddress : option string;
  body_recipients : option (list string);   (* [None]: absent or not an array *)
  url : string     (* protocol://host/originalUrl *)
}.

Record Response := {
  status : Z;
  headers : list (string * string);
  body : json
}.

Record VerifyResponse := {
  isValid : bool;
  vr_reason : option string;
  vr_invalidReason : option string;
  vr_message : option string;
  vr_activeTransactions : option Z;
  vr_maxCapacity : option Z
}.

(** The object the handler calls [settleResponse], with the properties it
    reads. *)
Record SettleResponse := {
  sr_success : bool;
  sr_transaction : string;
  sr_network : string;
  sr_payer : string;
  sr_error : option string;
  sr_errorReason : option string;
  sr_reason : option string;
  sr_message : option string;
  sr_transactionId : option string;
  sr_transactionHash : option string
}.

(** What surrounds one run of the handler.  [facilitatorVerify] and
    [batchSettle] answer [None] when their promise is still pending at the
    bound of [withTimeout]. *)
Record Env := {
  chain : Chain;
  dateNow : Z;
  handlerRequestId : string;
  IS_PRODUCTION : bool;
  FACILITATOR_API_URL : string;
  decodePayment : string -> res PaymentPayload;
  facilitatorVerify : PaymentPayload -> PaymentRequirements -> option (res VerifyResponse);
  batchSettle : string -> PaymentPayload -> PaymentRequirements
                -> option BatchSettleManager.completion;
  settleResponseHeader : SettleResponse -> string
}.

(** The module-level singletons. *)
Record App := {
  tokenCapacityManager : TokenCapacityManager.t;
  abuseDetector : AbuseDetector.t
}.

Definition PAYMENT_TOKEN_ADDRESS : string := "0x2CBa817f6e3Ca58ff702Dc66feEEcb230A2EF349".
Definition PAYMENT_TOKEN_NAME : string := "USD4".
(** [parseUnits('10', 6)]. *)
Definition MINT_PRICE_USDT : Z := 10 * 10 ^ 6.

Definition quote : string := String (ascii_of_nat 34) EmptyString.

(** [withTimeout(promise, timeoutMs, operationName)]. *)
Definition withTimeout {A} (promise : option (res A)) (timeoutMs : Z) (operationName : string)
  : res A :=
  match promise with
  | Some r => r
  | None => Thrown (Error (operationName +:+ " timed out after " +:+ pretty timeoutMs +:+ "ms"))
  end.

(** [s.split(',')[0]]. *)
Fixpoint beforeComma (s : string) : string :=
  match s with
  | EmptyString => EmptyString
  | String c r => if Ascii.eqb c ","%char then EmptyString else String c (beforeComma r)
  end.

Definition orElse (a : option string) (b : option string) : option string :=
  if Js.truthyOpt a then a else b.

Definition clientIP (req : Request) : string :=
  let forwarded := (fun s => Js.trim (beforeComma s)) <$> x_forwarded_for req in
  match orElse (orElse (orElse forwarded (x_real_ip req)) (remoteAddress req)) (Some "unknown") with
  | Some ip => ip
  | None => "unknown"
  end.

(** [haystack.includes(needle)]. *)
Fixpoint includes (needle haystack : string) : bool :=
  if String.prefix needle haystack then true
  else match haystack with
       | EmptyString => false
       | String _ r => includes needle r
       end.

Definition optField (k : string) (v : option json) : list (string * json) :=
  match v with Some x => [(k, x)] | None => [] end.

Definition send (status : Z) (headers : list (string * string)) (body : json)
  : Async world Response :=
  let* _ := emit (Responded status) in
  ret {| status := status; headers := headers; body := body |}.

(** One stretch of the handler either falls through with a value or has
    returned the response. *)
Inductive step (A : Type) :=
| Next (a : A)
| Return (r : Response).
Arguments Next {A} a.
Arguments Return {A} r.

Definition returning {A} (m : Async world Response) : Async world (step A) :=
  let* r := m in ret (Return r).

Definition andThen {A} (m : Async world (step A)) (k : A -> Async world Response)
  : Async world Response :=
  let* s := m in
  match s with
  | Next a => k a
  | Return r => ret r
  end.

Section Handler.

Variable app : App.
Variable env : Env.
Variable req : Request.

Definition record (identifier : string) : Async world AbuseDetector.verdict :=
  onRedis (AbuseDetector.recordRequest (abuseDetector app) identifier).

Definition release (capacityReserved : bool) (tokenAddress : string) (count : Z)
  : Async world unit :=
  if capacityReserved
  then TokenCapacityManager.releaseCapacity (tokenCapacityManager app) tokenAddress count
  else ret tt.

(** Step 0: whitelist check. *)
Definition whitelistStep (requireWhitelist : bool) : Async world (step unit) :=
  if requireWhitelist then
    let identifier := createIdentifier None (Some (clientIP req)) in
    let* stats := onRedis (AbuseDetector.getStats (abuseDetector app) identifier) in
    if negb (AbuseDetector.stats_isWhitelisted stats) then
      returning (send 403 []
        (JObj [("error", JStr "Access denied");
               ("message", JStr "This endpoint is only accessible to whitelisted IPs")]))
    else ret (Next tt)
  else ret (Next tt).

(** Validation of the body: the trimmed token address and the recipients. *)
Definition validateStep : Async world (step (string * list string)) :=
  let tokenAddress := Js.trim <$> body_tokenAddress req in
  match tokenAddress with
  | Some tokenAddress =>
      if negb (Js.truthy tokenAddress) then
        returning (send 400 [] (JObj [("error", JStr "Missing required field: tokenAddress")]))
      else
        match body_recipients req with
        | None =>
            returning (send 400 [] (JObj [("error", JStr "Missing required field: recipients")]))
        | Some recipients =>
            if ((length recipients =? 0)%nat || (100 <? length recipients)%nat)%bool then
              returning (send 400 []
                (JObj [("error", JStr "Recipients must be between 1 and 100 addresses")]))
            else ret (Next (tokenAddress, recipients))
        end
  | None =>
      returning (send 400 [] (JObj [("error", JStr "Missing required field: tokenAddress")]))
  end.

(** Step 0.5: token deployment deadline. *)
Definition deadlineStep (tokenAddress : string) : Async world (step unit) :=
  try_catch
    (let* deadline := TokenDeadlineCache.getDeploymentDeadline (chain env) tokenAddress in
     let now := dateNow env / 1000 in
     let difference := deadline - now in
     if difference <=? 0 then
       let expiredTokenIdentifier :=
         createIdentifier None (Some (clientIP req +:+ ":expired")) in
       let* expiredCheck := record expiredTokenIdentifier in
       if negb (AbuseDetector.allowed expiredCheck) then
         returning (send 410 []
           (JObj [("error", JStr "Token deployment period has ended");
                  ("tokenAddress", JStr tokenAddress)]))
       else
         returning (send 410 []
           (JObj [("error", JStr "Token deployment period has ended");
                  ("message", JStr "This token's deployment deadline has passed");
                  ("tokenAddress", JStr tokenAddress);
                  ("remainingTime", JNum difference)]))
     else ret (Next tt))
    (fun _ => ret (Next tt)).

(** Step 1: no payment header, the 402 challenge. *)
Definition paymentOptionsHeader (tokenAddress : string) : string :=
  "scheme=" +:+ quote +:+ "exact" +:+ quote
    +:+ ", network=" +:+ quote +:+ "bsc" +:+ quote
    +:+ ", token=" +:+ quote +:+ PAYMENT_TOKEN_ADDRESS +:+ quote
    +:+ ", payee=" +:+ quote +:+ tokenAddress +:+ quote
    +:+ ", amount=" +:+ quote +:+ pretty MINT_PRICE_USDT +:+ quote.

Definition challenge (tokenAddress : string) : Async world Response :=
  send 402 [("X-Payment-Options", paymentOptionsHeader tokenAddress)]
    (JObj [("error", JStr "Payment required");
           ("message", JStr "Please include X-PAYMENT header with signed authorization");
           ("paymentRequired",
            JObj [("price", JStr "10 USD4");
                  ("amount", JStr (pretty MINT_PRICE_USDT));
                  ("payTo", JStr tokenAddress);
                  ("token", JStr PAYMENT_TOKEN_ADDRESS);
                  ("tokenName", JStr PAYMENT_TOKEN_NAME);
                  ("tokenVersion", JStr "1");
                  ("network", JStr "bsc")])]).

Definition requirements (tokenAddress : string) : PaymentRequirements :=
  {| scheme := "exact";
     network := "bsc";
     maxAmountRequired := pretty MINT_PRICE_USDT;
     resource := url req;
     description := "Token mint payment";
     mimeType := "application/json";
     payTo := tokenAddress;
     maxTimeoutSeconds := 600;
     asset := PAYMENT_TOKEN_ADDRESS;
     extra_name := PAYMENT_TOKEN_NAME;
     extra_version := "1" |}.

(** Step 2: decode and verify. *)
Definition decodeStep (paymentHeader : string) : Async world (step PaymentPayload) :=
  match decodePayment env paymentHeader with
  | Ret decodedPayment => ret (Next decodedPayment)
  | Thrown error =>
      returning (send 400 []
        (JObj [("error", JStr "Invalid payment format");
               ("details", JStr (message error))]))
  end.

Definition verifyStep (tokenAddress : string) (decodedPayment : PaymentPayload)
  : Async world (step unit) :=
  let abuseIdentifier := createIdentifier None (Some (clientIP req)) in
  match withTimeout (facilitatorVerify env decodedPayment (requirements tokenAddress))
                    60000 "Facilitator verify" with
  | Thrown error =>
      let* _ := record abuseIdentifier in
      if bool_decide (reason error = Some "mempool_capacity_exceeded") then
        returning (send 402 []
          (JObj [("error", JStr "Payment verification failed");
                 ("reason", JStr "mempool_capacity_exceeded");
                 ("message", JStr (message error));
                 ("details",
                  JObj (optField "activeTransactions" (JNum <$> details_activeTransactions error)
                        ++ optField "maxCapacity" (JNum <$> details_maxCapacity error)
                        ++ [("facilitator", JStr (FACILITATOR_API_URL env))]))]))
      else
        returning (send 500 []
          (JObj ([("error", JStr "Failed to verify payment with facilitator")]
                 ++ optField "reason" (JStr <$> reason error)
                 ++ [("details", JStr (message error));
                     ("facilitator", JStr (FACILITATOR_API_URL env));
                     ("errorType", JStr "Error")])))
  | Ret verifyResponse =>
      if negb (isValid verifyResponse) then
        let* _ := record abuseIdentifier in
        returning (send 402 []
          (JObj ([("error", JStr "Payment verification failed")]
                 ++ optField "reason"
                      (JStr <$> orElse (vr_reason verifyResponse) (vr_invalidReason verifyResponse))
                 ++ optField "message" (JStr <$> vr_message verifyResponse)
                 ++ (if bool_decide (vr_reason verifyResponse = Some "mempool_capacity_exceeded")
                     then [("details",
                            JObj (optField "activeTransactions"
                                           (JNum <$> vr_activeTransactions verifyResponse)
                                  ++ optField "maxCapacity"
                                           (JNum <$> vr_maxCapacity verifyResponse)))]
                     else []))))
      else ret (Next tt)
  end.

(** Step 3: rate limit for valid payments. *)
Definition rateLimitStep (skipRateLimit : bool) (decodedPayment : PaymentPayload)
  : Async world (step unit) :=
  let abuseIdentifier := createIdentifier None (Some (clientIP req)) in
  let payerAddress := authorization_from decodedPayment in
  if negb skipRateLimit then
    let* abuseCheck := record abuseIdentifier in
    if negb (AbuseDetector.allowed abuseCheck) then
      returning (send 429 []
        (JObj ([("error", JStr "Too many requests")]
               ++ optField "message" (JStr <$> AbuseDetector.reason abuseCheck)
               ++ [("address", JStr payerAddress);
                   ("retryAfter", JNum 3600)])))
    else ret (Next tt)
  else ret (Next tt).

(** Step 4: capacity check before settlement. *)
Definition capacityStep (tokenAddress : string) (recipients : list string)
  : Async world (step unit) :=
  try_catch
    (let* _ := TokenCapacityManager.checkCapacity (tokenCapacityManager app) (chain env)
                 (dateNow env) tokenAddress (Z.of_nat (length recipients)) in
     ret (Next tt))
    (fun error =>
       if bool_decide (code error = Some "CAPACITY_EXCEEDED") then
         match capacityInfo error with
         | Some info =>
             returning (send 429 []
               (JObj [("error", JStr "Mint capacity exceeded");
                      ("message", JStr "Token has reached or will exceed maximum mint limit");
                      ("current", JNum (currentMintCount info));
                      ("pending", JNum (pendingCount info));
                      ("max", JNum (maxMintCount info));
                      ("requested", JNum (Z.of_nat (length recipients)));
                      ("available", JNum (availableSlots info));
                      ("retryAfter", JNull)]))
         | None =>
             throw (Error "Cannot read properties of undefined (reading 'currentMintCount')")
         end
       else
         returning (send 503 []
           (JObj [("error", JStr "Failed to check mint capacity");
                  ("message", JStr "Unable to verify available mint slots");
                  ("reason", JStr (message error))]))).

(** Step 5: reserve; the value passed on is [capacityReserved]. *)
Definition reserveStep (tokenAddress : string) (recipients : list string)
  : Async world (step bool) :=
  try_catch
    (let* _ := TokenCapacityManager.reserveCapacity (tokenCapacityManager app)
                 tokenAddress (Z.of_nat (length recipients)) in
     ret (Next true))
    (fun error =>
       returning (send 503 []
         (JObj [("error", JStr "Failed to reserve mint capacity");
                ("message", JStr "Unable to reserve mint slots");
                ("reason", JStr (message error))]))).

(** Step 6, [try] part: the promise of [addToQueue] under [withTimeout],
    and the conversion of its result. *)
Definition settleCall (tokenAddress : string) (decodedPayment : PaymentPayload)
  : res SettleResponse :=
  let awaited :=
    match batchSettle env (handlerRequestId env) decodedPayment (requirements tokenAddress) with
    | Some (BatchSettleManager.Resolved r) => Some (Ret r)
    | Some (BatchSettleManager.RejectedWith e) => Some (Thrown e)
    | None => None
    end in
  match withTimeout awaited 180000 "Batch settle" with
  | Ret settleResult =>
      Ret {| sr_success := true;
             sr_transaction :=
               Js.strOr (BatchSettleManager.transaction settleResult) EmptyString;
             sr_network := "bsc";
             sr_payer := authorization_from decodedPayment;
             sr_error := None; sr_errorReason := None; sr_reason := None;
             sr_message := None; sr_transactionId := None; sr_transactionHash := None |}
  | Thrown e => Thrown e
  end.

(** Step 6, [catch] part. *)
Definition settleFailed (capacityReserved : bool) (tokenAddress : string)
           (recipients : list string) (error : JsError) : Async world Response :=
  let count := Z.of_nat (length recipients) in
  if bool_decide (reason error = Some "mempool_capacity_exceeded") then
    let* _ := release capacityReserved tokenAddress count in
    send 400 []
      (JObj [("error", JStr "Payment settlement failed");
             ("reason", JStr "mempool_capacity_exceeded");
             ("message", JStr (message error));
             ("details",
              JObj (optField "activeTransactions" (JNum <$> activeTransactions error)
                    ++ optField "maxCapacity" (JNum <$> maxCapacity error)
                    ++ [("facilitator", JStr (FACILITATOR_API_URL env))]))])
  else if bool_decide (reason error = Some "chain_query_failed") then
    let* _ := release capacityReserved tokenAddress count in
    send 503 []
      (JObj [("error", JStr "Payment settlement failed");
             ("reason", JStr "chain_query_failed");
             ("message", JStr (message error));
             ("facilitator", JStr (FACILITATOR_API_URL env))])
  else
    let* _ := release capacityReserved tokenAddress count in
    send 500 []
      (JObj ([("error", JStr "Failed to settle payment with facilitator")]
             ++ optField "reason" (JStr <$> reason error)
             ++ [("details", JStr (message error));
                 ("facilitator", JStr (FACILITATOR_API_URL env))])).

(** The checks on [settleResponse], step 7 and the success response. *)
Definition afterSettle (capacityReserved : bool) (tokenAddress : string)
           (recipients : list string) (settleResponse : SettleResponse)
  : Async world Response :=
  let count := Z.of_nat (length recipients) in
  if (negb (sr_success settleResponse) || Js.truthyOpt (sr_error settleResponse))%bool then
    let* _ := release capacityReserved tokenAddress count in
    send 402 []
      (JObj ([("error", JStr "Payment settlement failed")]
             ++ optField "reason"
                  (JStr <$> orElse (sr_errorReason settleResponse) (sr_reason settleResponse))
             ++ [("message",
                  JStr (Js.strOr (sr_message settleResponse)
                                                 "Payment must be settled before minting"))]))
  else if (negb (Js.truthy (sr_transaction settleResponse))
           && negb (Js.truthyOpt (sr_transactionId settleResponse))
           && negb (Js.truthyOpt (sr_transactionHash settleResponse)))%bool then
    let* _ := release capacityReserved tokenAddress count in
    send 500 []
      (JObj [("error", JStr "Invalid settlement response");
             ("message", JStr "Settlement response missing transaction ID");
             ("response",
              JObj [("success", JBool (sr_success settleResponse));
                    ("transaction", JStr (sr_transaction settleResponse));
                    ("network", JStr (sr_network settleResponse));
                    ("payer", JStr (sr_payer settleResponse))])])
  else
    let paymentTxId :=
      match orElse (orElse (Some (sr_transaction settleResponse))
                           (sr_transactionId settleResponse))
                   (sr_transactionHash settleResponse) with
      | Some t => t
      | None => EmptyString
      end in
    let* _ := release capacityReserved tokenAddress count in
    send 200 [("X-PAYMENT-RESPONSE", settleResponseHeader env settleResponse)]
      (JObj [("success", JBool true);
             ("paymentTxHash", JStr paymentTxId);
             ("paymentChain", JStr "BNB Smart Chain");
             ("paymentChainId", JNum 56);
             ("recipients", JNum count);
             ("message", JStr "Payment settled successfully")]).

Definition settleStep (capacityReserved : bool) (tokenAddress : string)
           (recipients : list string) (decodedPayment : PaymentPayload)
  : Async world Response :=
  match settleCall tokenAddress decodedPayment with
  | Thrown error => settleFailed capacityReserved tokenAddress recipients error
  | Ret settleResponse => afterSettle capacityReserved tokenAddress recipients settleResponse
  end.

(** The outer [catch]. *)
Definition mintError (error : JsError) : Async world Response :=
  if includes "AlreadyMinted" (message error) then
    send 400 [] (JObj [("error", JStr "Some recipients have already minted")])
  else if includes "MaxMintCountExceeded" (message error) then
    send 400 [] (JObj [("error", JStr "Maximum mint count exceeded")])
  else
    send 500 []
      (JObj ([("error", JStr "Failed to execute mint")]
             ++ optField "details"
                  (if IS_PRODUCTION env then None else Some (JStr (message error))))).

Definition handleMintRequest (skipRateLimit requireWhitelist : bool) : Async world Response :=
  try_catch
    (andThen (whitelistStep requireWhitelist) (fun _ =>
     andThen validateStep (fun validated =>
     let tokenAddress := fst validated in
     let recipients := snd validated in
     andThen (deadlineStep tokenAddress) (fun _ =>
     match x_payment req with
     | Some paymentHeader =>
         if negb (Js.truthy paymentHeader) then challenge tokenAddress
         else
           andThen (decodeStep paymentHeader) (fun decodedPayment =>
           andThen (verifyStep tokenAddress decodedPayment) (fun _ =>
           andThen (rateLimitStep skipRateLimit decodedPayment) (fun _ =>
           andThen (capacityStep tokenAddress recipients) (fun _ =>
           andThen (reserveStep tokenAddress recipients) (fun capacityReserved =>
           settleStep capacityReserved tokenAddress recipients decodedPayment)))))
     | None => challenge tokenAddress
     end))))
    mintError.

End Handler.

End Mint.

(* ===================================================================== *)
(** ** Vocabulary of the statements                                       *)
(* ===================================================================== *)

(** *** Sequences of reservations and releases on one token *)

Inductive capacityCall :=
| Reserve (count : Z)
| Release (count : Z)
| Elapse (ms : Z).          (* time passing on the Redis server *)

Definition call (self : TokenCapacityManager.t) (token : string) (c : capacityCall) (w : world)
  : world :=
  match c with
  | Reserve n => snd (TokenCapacityManager.reserveCapacity self token n w)
  | Release n => snd (TokenCapacityManager.releaseCapacity self token n w)
  | Elapse ms => set_redis (Redis.advance ms (redis w)) w
  end.

Definition calls (self : TokenCapacityManager.t) (token : string) (cs : list capacityCall)
           (w : world) : world :=
  fold_left (fun w c => call self token c w) cs w.

(** Remove one occurrence of [n]. *)
Fixpoint takeOut (n : Z) (l : list Z) : option (list Z) :=
  match l with
  | [] => None
  | m :: r => if m =? n then Some r else (fun r' => m :: r') <$> takeOut n r
  end.

(** Every release gives back the count of an earlier reservation that is
    still outstanding, counts are positive, and nothing is outstanding at the
    end. *)
Fixpoint matched (outstanding : list Z) (cs : list capacityCall) : bool :=
  match cs with
  | [] => match outstanding with [] => true | _ => false end
  | Reserve n :: r => (0 <? n) && matched (n :: outstanding) r
  | Release n :: r =>
      match takeOut n outstanding with
      | Some rest => matched rest r
      | None => false
      end
  | Elapse _ :: r => matched outstanding r
  end.

(** The value a client reads under the pending key. *)
Definition pendingValue (s : Redis.server) (token : string) : Z :=
  match Redis.live s (PendingMintTracker.key token) with
  | Some e => Redis.value e
  | None => 0
  end.

Definition total (l : list Z) : Z := foldr Z.add 0 l.

(** What holds of the server between two calls: the stored counter, when
    there is one, is positive and bounded by the outstanding reservations. *)
Definition pendingInv (token : string) (outstanding : list Z) (s : Redis.server) : Prop :=
  Redis.healthy s
  /\ Forall (fun m => 0 < m) outstanding
  /\ match Redis.store s !! PendingMintTracker.key token with
     | None => True
     | Some e => 0 < Redis.value e <= total outstanding
     end.

(** *** The capacity check *)

(** None of the sums that [checkCapacity] forms is rounded: each is at most
    2^53 in magnitude. *)
Definition exactCounts (cur mx pend n : Z) : Prop :=
  Z.abs (cur + pend) <= 2 ^ 53 /\ Z.abs (cur + pend + n) <= 2 ^ 53
  /\ Z.abs (mx - cur) <= 2 ^ 53 /\ Z.abs (mx - cur - pend) <= 2 ^ 53.

(** *** Trace of the handler *)

(** A stretch of the handler before the reservation writes nothing, except
    the response when it returns one. *)
Definition stepOk {A} (m : Async world (Mint.step A)) (w : world) : Prop :=
  match m w with
  | (Ret (Mint.Next _), w') => trace w' = trace w
  | (Ret (Mint.Return r), w') => trace w' = trace w ++ [Responded (Mint.status r)]
  | (Thrown _, w') => trace w' = trace w
  end.

(** The reservation a request asks for: its trimmed token address and the
    number of its recipients. *)
Definition reservationOf (req : Mint.Request) (token : string) (count : Z) : Prop :=
  exists raw recipients,
    Mint.body_tokenAddress req = Some raw
    /\ token = Js.trim raw
    /\ Mint.body_recipients req = Some recipients
    /\ count = Z.of_nat (length recipients).

(** A run that ends with a response either wrote the response only, or the
    reservation of the request, its release, and then the response; a run
    that throws wrote nothing. *)
Definition respondsTo (req : Mint.Request) (m : Async world Mint.Response) (w : world) : Prop :=
  match m w with
  | (Ret r, w') =>
      trace w' = trace w ++ [Responded (Mint.status r)]
      \/ exists token count,
           reservationOf req token count
           /\ trace w' = trace w ++ [Reserving count token; Releasing count token;
                                     Responded (Mint.status r)]
  | (Thrown _, w') => trace w' = trace w
  end.

(** *** Deadline gate and challenge *)

(** The identifier of the expired-token sub-counter of a request. *)
Definition expiredIdentifier (req : Mint.Request) : string :=
  "ip:" +:+ Mint.clientIP req +:+ ":expired".

(** The two bodies of the 410 answer. *)
Definition minimalBody (tokenAddress : string) : json :=
  JObj [("error", JStr "Token deployment period has ended");
        ("tokenAddress", JStr tokenAddress)].

Definition remainingTimeBody (tokenAddress : string) (difference : Z) : json :=
  JObj [("error", JStr "Token deployment period has ended");
        ("message", JStr "This token's deployment deadline has passed");
        ("tokenAddress", JStr tokenAddress);
        ("remainingTime", JNum difference)].

(** The 402 answer for a token address. *)
Definition challengeOf (tokenAddress : string) : Mint.Response :=
  {| Mint.status := 402;
     Mint.headers := [("X-Payment-Options", Mint.paymentOptionsHeader tokenAddress)];
     Mint.body :=
       JObj [("error", JStr "Payment required");
             ("message", JStr "Please include X-PAYMENT header with signed authorization");
             ("paymentRequired",
              JObj [("price", JStr "10 USD4");
                    ("amount", JStr (pretty Mint.MINT_PRICE_USDT));
                    ("payTo", JStr tokenAddress);
                    ("token", JStr Mint.PAYMENT_TOKEN_ADDRESS);
                    ("tokenName", JStr Mint.PAYMENT_TOKEN_NAME);
                    ("tokenVersion", JStr "1");
                    ("network", JStr "bsc")])] |}.

(** *** The abuse detector in the words of the specification *)

Definition whitelistKey (identifier : string) : string :=
  AbuseDetector.WHITELIST_PREFIX +:+ Js.toLowerCase identifier.

Definition banKey (identifier : string) : string :=
  AbuseDetector.BAN_PREFIX +:+ Js.toLowerCase identifier.

Definition countKey (identifier : string) : string :=
  AbuseDetector.REQUEST_COUNT_PREFIX +:+ Js.toLowerCase identifier.

(** The server after the count key was incremented to [count] and, on the
    transition to 1, given the window as its expiry. *)
Definition counted (self : AbuseDetector.t) (identifier : string) (s : Redis.server)
  : Z * Redis.server :=
  let (count, s1) := Redis.run_incrby (countKey identifier) 1 s in
  (count,
   if count =? 1
   then snd (Redis.run_expire (countKey identifier)
                              (AbuseDetector.timeWindowMs (AbuseDetector.config self)) s1)
   else s1).

(** Increment the count key, set the window on the transition to 1; beyond
    the limit, set the ban key for the ban duration and deny. *)
Definition countAndBan (self : AbuseDetector.t) (identifier : string) (s : Redis.server)
  : AbuseDetector.verdict * Redis.server :=
  let (count, s2) := counted self identifier s in
  if count >? AbuseDetector.maxRequestsPerWindow (AbuseDetector.config self) then
    (AbuseDetector.deny (AbuseDetector.limitText (AbuseDetector.config self)),
     snd (Redis.run_set (banKey identifier) 1
                        (Some (AbuseDetector.banDurationMs (AbuseDetector.config self))) s2))
  else (AbuseDetector.allow, s2).

(** Whitelisted: allow.  Banned: deny and report the remaining time.
    Otherwise count, and ban beyond the limit. *)
Definition recorded (self : AbuseDetector.t) (identifier : string) (s : Redis.server)
  : AbuseDetector.verdict * Redis.server :=
  match Redis.live s (whitelistKey identifier), Redis.live s (banKey identifier) with
  | Some _, _ => (AbuseDetector.allow, s)
  | None, Some _ =>
      (AbuseDetector.deny
         (AbuseDetector.bannedText (Some (fst (Redis.run_ttl (banKey identifier) s)))), s)
  | None, None => countAndBan self identifier s
  end.

(** The part of [recordRequest] that follows the two checks. *)
Definition counting (self : AbuseDetector.t) (identifier : string)
  : Async Redis.server AbuseDetector.verdict :=
  let cfg := AbuseDetector.config self in
  let* count := Redis.incr (countKey identifier) in
  let* _ := (if Js.strictEq count 1
             then let* _ := Redis.pexpire (countKey identifier) (AbuseDetector.timeWindowMs cfg)
                  in ret tt
             else ret tt) in
  if Js.toNumber count >? AbuseDetector.maxRequestsPerWindow cfg then
    let* _ := AbuseDetector.banIdentifier self (Js.toLowerCase identifier) in
    ret (AbuseDetector.deny (AbuseDetector.limitText cfg))
  else ret AbuseDetector.allow.

(** *** The coalescer *)

(** The items of a batch that pass the re-verification, in batch order, and
    the number of those that fail it. *)
Definition validItems (f : BatchSettleManager.Facilitator)
           (items : list BatchSettleManager.SettleItem) : list BatchSettleManager.SettleItem :=
  filter (fun i => BatchSettleManager.valid (BatchSettleManager.reverify f i) = true) items.

Definition invalidCount (f : BatchSettleManager.Facilitator)
           (items : list BatchSettleManager.SettleItem) : nat :=
  length (filter (fun i => BatchSettleManager.valid (BatchSettleManager.reverify f i) = false)
                 items).

(** The three shapes of a per-item result. *)
Definition failedVerification (f : BatchSettleManager.Facilitator)
           (i : BatchSettleManager.SettleItem) : BatchSettleManager.SettleResult :=
  {| BatchSettleManager.result_requestId := BatchSettleManager.requestId i;
     BatchSettleManager.success := false;
     BatchSettleManager.transaction := None;
     BatchSettleManager.nonce := None;
     BatchSettleManager.error :=
       Some ("Verification failed: "
               +:+ Js.strOr
                     (BatchSettleManager.verify_reason (BatchSettleManager.reverify f i))
                     "unknown") |}.

Definition allFailed (i : BatchSettleManager.SettleItem) : BatchSettleManager.SettleResult :=
  {| BatchSettleManager.result_requestId := BatchSettleManager.requestId i;
     BatchSettleManager.success := false;
     BatchSettleManager.transaction := None;
     BatchSettleManager.nonce := None;
     BatchSettleManager.error := Some "All payments failed verification" |}.

Definition settledAs (i : BatchSettleManager.SettleItem) (r : BatchSettleManager.batchEntry)
  : BatchSettleManager.SettleResult :=
  {| BatchSettleManager.result_requestId := BatchSettleManager.requestId i;
     BatchSettleManager.success := BatchSettleManager.entry_success r;
     BatchSettleManager.transaction := BatchSettleManager.entry_transaction r;
     BatchSettleManager.nonce := Some (BatchSettleManager.entry_nonce r);
     BatchSettleManager.error := BatchSettleManager.entry_error r |}.

(** The result of item [i] of the batch [items], given the positional
    results of the facilitator: a valid item takes the entry at its position
    among the valid items, an invalid one its verification failure. *)
Definition resultFor (f : BatchSettleManager.Facilitator)
           (items : list BatchSettleManager.SettleItem)
           (results : list BatchSettleManager.batchEntry)
           (i : BatchSettleManager.SettleItem) (fr : BatchSettleManager.SettleResult) : Prop :=
  if BatchSettleManager.valid (BatchSettleManager.reverify f i) then
    exists j r, validItems f items !! j = Some i /\ results !! j = Some r /\ fr = settledAs i r
  else fr = failedVerification f i.

(** How [flush] completes the promise of a result. *)
Definition completionOf (r : BatchSettleManager.SettleResult) : BatchSettleManager.completion :=
  if BatchSettleManager.success r then BatchSettleManager.Resolved r
  else BatchSettleManager.RejectedWith
         (Error (Js.strOr (BatchSettleManager.error r) "Settle failed")).

(** [addToQueue] called for each item in turn, nothing else happening in
    between: the batches of the flushes started on the way, and the manager
    at the end. *)
Fixpoint enqueueAll (items : list BatchSettleManager.SettleItem) (m : BatchSettleManager.manager)
  : list (list BatchSettleManager.SettleItem) * BatchSettleManager.manager :=
  match items with
  | [] => ([], m)
  | i :: rest =>
      let '(_, started, m1) :=
        BatchSettleManager.addToQueue
          (BatchSettleManager.requestId i) (BatchSettleManager.paymentPayload i)
          (BatchSettleManager.paymentRequirements i) (BatchSettleManager.timestamp i) m in
      let (batches, m2) := enqueueAll rest m1 in
      (match started with Some b => b :: batches | None => batches end, m2)
  end.

(** The batch of the first flush after the enqueues: the one started by an
    enqueue that filled the batch, or else the one of the timer. *)
Definition firstBatch (items : list BatchSettleManager.SettleItem) (m : BatchSettleManager.manager)
  : option (list BatchSettleManager.SettleItem) * BatchSettleManager.manager :=
  match enqueueAll items m with
  | (b :: _, m') => (Some b, m')
  | ([], m') => BatchSettleManager.flushBegin m'
  end.

Definition freshManager (batchSize batchTimeout : Z) : BatchSettleManager.manager :=
  BatchSettleManager.Manager [] ∅ None false batchSize batchTimeout 0.

(** The manager after the items [pre] were enqueued in order. *)
Definition accumulated (bs : Z) (pre : list BatchSettleManager.SettleItem)
           (m : BatchSettleManager.manager) : Prop :=
  BatchSettleManager.queue m = pre
  /\ BatchSettleManager.batchSize m = bs
  /\ BatchSettleManager.nextPromise m = length pre
  /\ (forall k i, pre !! k = Some i ->
                  BatchSettleManager.pendingPromises m !! BatchSettleManager.requestId i = Some k)
  /\ BatchSettleManager.processing m = bool_decide (Z.to_nat bs <= length pre)%nat.

(** *** Concrete instances used in the examples *)

Definition localRedis : option string := Some "redis://localhost:6379".

Definition emptyServer : Redis.server := Redis.Server ∅ 0 (fun _ _ => Redis.Healthy).

Definition theManager : TokenCapacityManager.t :=
  {| TokenCapacityManager.pendingTracker := {| PendingMintTracker.redisUrl := localRedis |} |}.

Definition tokenAA : string := "0xAA".

Definition freshWorld (r : Redis.server) : world := World r ∅ ∅ ∅ [].

(** Scenario 4 of the specification: max 100, current 95, pending 3. *)
Definition chain4 : Chain :=
  {| chain_maxMintCount := fun _ => ReadOk 100;
     chain_mintCount := fun _ => ReadOk 95;
     chain_deploymentDeadline := fun _ => ReadOk 2000 |}.

Definition world4 : world :=
  freshWorld (Redis.Server {[ PendingMintTracker.key tokenAA := Redis.Entry 3 None ]} 0
                           (fun _ _ => Redis.Healthy)).

(** A server on which one kind of command is rejected. *)
Definition failing (o : Redis.op) (msg : string) : Redis.server :=
  Redis.Server ∅ 0
    (fun o' _ => if bool_decide (o' = o) then Redis.CommandError msg else Redis.Healthy).

(** A token whose supply and cap are both 2^53. *)
Definition hugeChain : Chain :=
  {| chain_maxMintCount := fun _ => ReadOk (2 ^ 53);
     chain_mintCount := fun _ => ReadOk (2 ^ 53);
     chain_deploymentDeadline := fun _ => ReadOk 2000 |}.

Definition theDetector : AbuseDetector.t := AbuseDetector.make localRedis (Some 10) (Some 3000) None.

Definition theApp : Mint.App :=
  {| Mint.tokenCapacityManager := theManager; Mint.abuseDetector := theDetector |}.

Definition somePayment : PaymentPayload :=
  {| authorization_from := "0xPayer"; authorization_nonce := "0x01"; envelope := "signed" |}.

Definition validResponse : Mint.VerifyResponse :=
  {| Mint.isValid := true; Mint.vr_reason := None; Mint.vr_invalidReason := None;
     Mint.vr_message := None; Mint.vr_activeTransactions := None; Mint.vr_maxCapacity := None |}.

Definition settledResult : BatchSettleManager.SettleResult :=
  {| BatchSettleManager.result_requestId := "req-1";
     BatchSettleManager.success := true;
     BatchSettleManager.transaction := Some "0xabc";
     BatchSettleManager.nonce := Some 7;
     BatchSettleManager.error := None |}.

(** An environment in which everything outside Redis goes well: deadline far
    away (2000 s, the clock reads 1000 s), payment valid, batch settled.
    [settles] is the outcome of the batch promise. *)
Definition envWith (settles : option BatchSettleManager.completion) : Mint.Env :=
  {| Mint.chain := {| chain_maxMintCount := fun _ => ReadOk 100;
                      chain_mintCount := fun _ => ReadOk 95;
                      chain_deploymentDeadline := fun _ => ReadOk 2000 |};
     Mint.dateNow := 1000000;
     Mint.handlerRequestId := "req-1";
     Mint.IS_PRODUCTION := false;
     Mint.FACILITATOR_API_URL := "http://localhost:3002";
     Mint.decodePayment := fun _ => Ret somePayment;
     Mint.facilitatorVerify := fun _ _ => Some (Ret validResponse);
     Mint.batchSettle := fun _ _ _ => settles;
     Mint.settleResponseHeader := fun _ => "receipt" |}.

Definition paidRequest : Mint.Request :=
  {| Mint.x_forwarded_for := None; Mint.x_real_ip := None;
     Mint.remoteAddress := Some "10.0.0.1";
     Mint.x_payment := Some "payment-header";
     Mint.body_tokenAddress := Some " 0xAA ";
     Mint.body_recipients := Some ["0x01"];
     Mint.url := "http://localhost:3001/api/mint" |}.

(** The same environment read at another time of the day. *)
Definition envAt (dateNow : Z) : Mint.Env :=
  {| Mint.chain := Mint.chain (envWith None);
     Mint.dateNow := dateNow;
     Mint.handlerRequestId := "req-2";
     Mint.IS_PRODUCTION := true;
     Mint.FACILITATOR_API_URL := "http://localhost:3002";
     Mint.decodePayment := fun _ => Ret somePayment;
     Mint.facilitatorVerify := fun _ _ => None;
     Mint.batchSettle := fun _ _ _ => None;
     Mint.settleResponseHeader := fun _ => "receipt" |}.

Definition unpaidRequest (ip : string) : Mint.Request :=
  {| Mint.x_forwarded_for := Some ip; Mint.x_real_ip := None;
     Mint.remoteAddress := Some "10.0.0.1";
     Mint.x_payment := None;
     Mint.body_tokenAddress := Some " 0xAA ";
     Mint.body_recipients := Some ["0x01"];
     Mint.url := "http://localhost:3001/api/mint" |}.

(** A client at the limit of its window, on a server that rejects SET. *)
Definition atTheLimit : Redis.server :=
  Redis.Server {[ countKey "ip:203.0.113.7" := Redis.Entry 10 (Some 2500) ]} 0
    (fun o _ => if bool_decide (o = Redis.SET) then Redis.CommandError "ETIMEDOUT"
                else Redis.Healthy).

(** A pool at its maximum whose only connection is in use. *)
Definition busyPool : RedisConnectionPool.pool :=
  RedisConnectionPool.Pool
    {| RedisConnectionPool.min := 1; RedisConnectionPool.max := 1;
       RedisConnectionPool.acquireTimeout := 5000 |}
    [RedisConnectionPool.Connection 1 RedisConnectionPool.ready true]
    [] [] false [1%nat] 2 0.

Definition alwaysConnects : nat -> RedisConnectionPool.attempt :=
  fun _ => RedisConnectionPool.Connected true.

(** A facilitator that finds every authorization expired. *)
Definition rejectingFacilitator : BatchSettleManager.Facilitator :=
  {| BatchSettleManager.verify :=
       fun _ => BatchSettleManager.VerifyJson false (Some "authorization expired");
     BatchSettleManager.settleBatch := fun _ => BatchSettleManager.BatchJson [] |}.

Definition itemOf (id : string) : BatchSettleManager.SettleItem :=
  {| BatchSettleManager.requestId := id;
     BatchSettleManager.paymentPayload := somePayment;
     BatchSettleManager.paymentRequirements := Mint.requirements paidRequest tokenAA;
     BatchSettleManager.timestamp := 0 |}.

(** A facilitator that refuses the authorization of request ["req-2"] and
    settles every item it is sent. *)
Definition mixedFacilitator : BatchSettleManager.Facilitator :=
  {| BatchSettleManager.verify :=
       fun i => if String.eqb (BatchSettleManager.requestId i) "req-2"
                then BatchSettleManager.VerifyJson false (Some "authorization expired")
                else BatchSettleManager.VerifyJson true None;
     BatchSettleManager.settleBatch :=
       fun body =>
         BatchSettleManager.BatchJson
           (imap (fun k _ =>
                    {| BatchSettleManager.entry_index := Z.of_nat k;
                       BatchSettleManager.entry_success := true;
                       BatchSettleManager.entry_transaction := Some ("0xtx" +:+ pretty k);
                       BatchSettleManager.entry_nonce := Z.of_nat k;
                       BatchSettleManager.entry_error := None |}) body) |}.

Definition threeItems : list BatchSettleManager.SettleItem :=
  [itemOf "req-1"; itemOf "req-2"; itemOf "req-3"].

(** The verdicts of [n] successive requests of one identifier. *)
Fixpoint verdicts (self : AbuseDetector.t) (identifier : string) (n : nat) (s : Redis.server)
  : list bool :=
  match n with
  | O => []
  | S n' =>
      let (r, s') := AbuseDetector.recordRequest self identifier s in
      match r with
      | Ret v => AbuseDetector.allowed v :: verdicts self identifier n' s'
      | Thrown _ => []
      end
  end.

(* ===================================================================== *)
(** ** Vocabulary and instances of the further properties                 *)
(* ===================================================================== *)

(** A healthy server holding a client at the limit of its window. *)
Definition atTheLimit_healthy : Redis.server :=
  Redis.Server {[ countKey "ip:203.0.113.7" := Redis.Entry 10 (Some 2500) ]} 0
    (fun _ _ => Redis.Healthy).

(** The identifier is neither whitelisted nor banned and has made [k]
    requests in its current window. *)
Definition inWindow (identifier : string) (k : Z) (s : Redis.server) : Prop :=
  Redis.healthy s
  /\ Redis.live s (whitelistKey identifier) = None
  /\ Redis.live s (banKey identifier) = None
  /\ (if k =? 0 then Redis.live s (countKey identifier) = None
      else exists t, Redis.clock s < t
                     /\ Redis.live s (countKey identifier)
                        = Some (Redis.Entry k (Some t))).

(** The identifier is banned and not whitelisted. *)
Definition underBan (identifier : string) (s : Redis.server) : Prop :=
  Redis.healthy s
  /\ Redis.live s (whitelistKey identifier) = None
  /\ is_Some (Redis.live s (banKey identifier)).

(** *** The connection pool *)

(** The bookkeeping of the pool is consistent: connections are known by
    distinct ids below the next id; the free list has no duplicates and
    holds known connections only, as does the in-use set; and no connection
    is both free and in use. *)
Definition wellFormed (p : RedisConnectionPool.pool) : Prop :=
  let known := map RedisConnectionPool.connId (RedisConnectionPool.connections p) in
  let free := map RedisConnectionPool.connId (RedisConnectionPool.availableConnections p) in
  NoDup known
  /\ NoDup free
  /\ (forall i, i ∈ free -> i ∈ known)
  /\ (forall i, i ∈ RedisConnectionPool.connectionsInUse p -> i ∈ known)
  /\ (forall i, i ∈ free -> i ∉ RedisConnectionPool.connectionsInUse p)
  /\ (forall i, i ∈ known -> (i < RedisConnectionPool.nextConnectionId p)%nat).

(** Successive releases: the callers served, oldest release first. *)
Fixpoint releaseAll (connects : nat -> RedisConnectionPool.attempt) (cs : list RedisConnectionPool.connection)
         (p : RedisConnectionPool.pool)
  : list (nat * RedisConnectionPool.settled (option RedisConnectionPool.connection))
    * RedisConnectionPool.pool :=
  match cs with
  | [] => ([], p)
  | c :: rest =>
      let (served, p1) := RedisConnectionPool.release connects c p in
      let (more, p2) := releaseAll connects rest p1 in
      (match served with Some x => x :: more | None => more end, p2)
  end.

(** A pool at its maximum: both connections are in use and one caller
    waits already. *)
Definition crowdedPool : RedisConnectionPool.pool :=
  RedisConnectionPool.Pool
    {| RedisConnectionPool.min := 1; RedisConnectionPool.max := 2;
       RedisConnectionPool.acquireTimeout := 5000 |}
    [RedisConnectionPool.Connection 1 RedisConnectionPool.ready true;
     RedisConnectionPool.Connection 2 RedisConnectionPool.ready true]
    [] [RedisConnectionPool.Handover 0] false [2%nat; 1%nat] 3 1.

(** A server that accepts connections and then answers no ping. *)
Definition muteConnects : nat -> RedisConnectionPool.attempt :=
  fun _ => RedisConnectionPool.Connected false.

(** A pool below its maximum whose only connection is in use. *)
Definition drainedPool : RedisConnectionPool.pool :=
  RedisConnectionPool.Pool
    {| RedisConnectionPool.min := 1; RedisConnectionPool.max := 3;
       RedisConnectionPool.acquireTimeout := 5000 |}
    [RedisConnectionPool.Connection 1 RedisConnectionPool.ready true]
    [] [] false [1%nat] 2 0.

(** A pool of three connections, two of them free, the top one stale. *)
Definition smallPool : RedisConnectionPool.pool :=
  RedisConnectionPool.Pool
    {| RedisConnectionPool.min := 1; RedisConnectionPool.max := 3;
       RedisConnectionPool.acquireTimeout := 5000 |}
    [RedisConnectionPool.Connection 1 RedisConnectionPool.ready true;
     RedisConnectionPool.Connection 2 RedisConnectionPool.ready true;
     RedisConnectionPool.Connection 3 RedisConnectionPool.reconnecting true]
    [RedisConnectionPool.Connection 2 RedisConnectionPool.ready true;
     RedisConnectionPool.Connection 3 RedisConnectionPool.reconnecting true]
    [] false [1%nat] 4 0.

(** *** The coalescer *)

(** The two maps of the coalescer agree: the queued requests have distinct
    ids, a request is queued exactly when a promise is registered under its
    id, and the registered promises are distinct and were created by earlier
    enqueues. *)
Definition agree (m : BatchSettleManager.manager) : Prop :=
  let ids := map BatchSettleManager.requestId (BatchSettleManager.queue m) in
  NoDup ids
  /\ (forall id, id ∈ ids <-> is_Some (BatchSettleManager.pendingPromises m !! id))
  /\ (forall id h, BatchSettleManager.pendingPromises m !! id = Some h ->
                   (h < BatchSettleManager.nextPromise m)%nat)
  /\ (forall id id' h,
        BatchSettleManager.pendingPromises m !! id = Some h ->
        BatchSettleManager.pendingPromises m !! id' = Some h -> id = id').

(** The maps agree, and a queue that is not being processed has its timer
    armed. *)
Definition consistent (m : BatchSettleManager.manager) : Prop :=
  agree m
  /\ (BatchSettleManager.processing m = false ->
      BatchSettleManager.queue m <> [] ->
      is_Some (BatchSettleManager.timer m)).

(** A request is stale at [dateNow] for [maxAge]. *)
Definition stale (dateNow maxAge : Z) (i : BatchSettleManager.SettleItem) : bool :=
  dateNow - BatchSettleManager.timestamp i >? maxAge.

(** An item enqueued at a given time. *)
Definition itemAt (id : string) (timestamp : Z) : BatchSettleManager.SettleItem :=
  {| BatchSettleManager.requestId := id;
     BatchSettleManager.paymentPayload := somePayment;
     BatchSettleManager.paymentRequirements := Mint.requirements paidRequest tokenAA;
     BatchSettleManager.timestamp := timestamp |}.

(** Three requests enqueued at 0 s, 50 s and 100 s, waiting for the timer. *)
Definition waitingManager : BatchSettleManager.manager :=
  let enqueue id dateNow m :=
    snd (BatchSettleManager.addToQueue id somePayment (Mint.requirements paidRequest tokenAA)
                                       dateNow m) in
  enqueue "req-3" 100000
    (enqueue "req-2" 50000
       (enqueue "req-1" 0 (BatchSettleManager.make (Some 10) (Some 5000)))).

(** A facilitator that accepts every authorization and answers for the
    first item of a batch only. *)
Definition truncatingFacilitator : BatchSettleManager.Facilitator :=
  {| BatchSettleManager.verify := fun _ => BatchSettleManager.VerifyJson true None;
     BatchSettleManager.settleBatch :=
       fun body =>
         BatchSettleManager.BatchJson
           (take 1 (imap (fun k _ =>
                    {| BatchSettleManager.entry_index := Z.of_nat k;
                       BatchSettleManager.entry_success := true;
                       BatchSettleManager.entry_transaction := Some ("0xtx" +:+ pretty k);
                       BatchSettleManager.entry_nonce := Z.of_nat k;
                       BatchSettleManager.entry_error := None |}) body)) |}.

(** What a manager goes through: calls of [addToQueue] and [cleanupStale],
    timers that fire and run a whole [flush], and flushes started earlier
    that come back with the outcome of their [batchSettle]. *)
Inductive managerCall :=
| AddToQueue (requestId : string) (paymentPayload : PaymentPayload)
             (paymentRequirements : PaymentRequirements) (dateNow : Z)
| Flush (f : BatchSettleManager.Facilitator)
| FlushEnd (batchItems : list BatchSettleManager.SettleItem)
           (r : res (list BatchSettleManager.SettleResult))
| CleanupStale (maxAge : option Z) (dateNow : Z).

(** The promises one call settles, and the manager and the posts after it. *)
Definition perform (c : managerCall) (st : BatchSettleManager.manager * BatchSettleManager.posts)
  : list (nat * BatchSettleManager.completion)
    * (BatchSettleManager.manager * BatchSettleManager.posts) :=
  let (m, sent) := st in
  match c with
  | AddToQueue requestId paymentPayload paymentRequirements dateNow =>
      ([], (snd (BatchSettleManager.addToQueue requestId paymentPayload paymentRequirements
                                               dateNow m), sent))
  | Flush f =>
      let '(cs, m', sent') := BatchSettleManager.flush f m sent in (cs, (m', sent'))
  | FlushEnd batchItems r =>
      let (cs, m') := BatchSettleManager.flushEnd batchItems r m in (cs, (m', sent))
  | CleanupStale maxAge dateNow =>
      let '(cs, _, m') := BatchSettleManager.cleanupStale maxAge dateNow m in (cs, (m', sent))
  end.

Fixpoint performAll (calls : list managerCall)
         (st : BatchSettleManager.manager * BatchSettleManager.posts)
  : list (nat * BatchSettleManager.completion)
    * (BatchSettleManager.manager * BatchSettleManager.posts) :=
  match calls with
  | [] => ([], st)
  | c :: rest =>
      let (cs, st1) := perform c st in
      let (cs', st2) := performAll rest st1 in
      (cs ++ cs', st2)
  end.

(** No entry of the promise table holds the handle [h], and no later call
    of [addToQueue] will create it. *)
Definition lost (h : nat) (m : BatchSettleManager.manager) : Prop :=
  (h < BatchSettleManager.nextPromise m)%nat
  /\ forall id, BatchSettleManager.pendingPromises m !! id <> Some h.

(** The facilitator finds the authorization expired. *)
Definition invalidResponse : Mint.VerifyResponse :=
  {| Mint.isValid := false; Mint.vr_reason := Some "authorization_expired";
     Mint.vr_invalidReason := None; Mint.vr_message := None;
     Mint.vr_activeTransactions := None; Mint.vr_maxCapacity := None |}.

Definition refusingEnv : Mint.Env :=
  {| Mint.chain := Mint.chain (envWith None);
     Mint.dateNow := 1000000;
     Mint.handlerRequestId := "req-3";
     Mint.IS_PRODUCTION := true;
     Mint.FACILITATOR_API_URL := "http://localhost:3002";
     Mint.decodePayment := fun _ => Ret somePayment;
     Mint.facilitatorVerify := fun _ _ => Some (Ret invalidResponse);
     Mint.batchSettle := fun _ _ _ => None;
     Mint.settleResponseHeader := fun _ => "receipt" |}.

(** A pool that has been shut down: it is marked so, and it holds no
    connection and no waiting caller. *)
Definition closed (p : RedisConnectionPool.pool) : Prop :=
  RedisConnectionPool.isShuttingDown p = true
  /\ RedisConnectionPool.connections p = []
  /\ RedisConnectionPool.availableConnections p = []
  /\ RedisConnectionPool.waitingQueue p = [].

(** The caller a queued callback answers to. *)
Definition waiterOf (cb : RedisConnectionPool.callback) : nat :=
  match cb with
  | RedisConnectionPool.Resolve w => w
  | RedisConnectionPool.Handover w => w
  end.

(* ===================================================================== *)
(** * Properties                                                          *)
(* ===================================================================== *)

(** ** Basic facts about the Redis model *)

Section RedisFacts.

Context (s : Redis.server) (Hs : Redis.healthy s).

Lemma command_healthy {A} o k (run : Redis.server -> A * Redis.server) :
  Redis.command o k run s = (Ret (Some (fst (run s))), snd (run s)).
Proof. unfold Redis.command. rewrite Hs. by destruct (run s). Qed.

Lemma healthy_put k e : Redis.healthy (Redis.put k e s).
Proof. exact Hs. Qed.

Lemma healthy_remove k : Redis.healthy (Redis.remove k s).
Proof. exact Hs. Qed.

Lemma healthy_advance dt : Redis.healthy (Redis.advance dt s).
Proof. exact Hs. Qed.

End RedisFacts.

Lemma healthy_run_incrby s k n :
  Redis.healthy s -> Redis.healthy (snd (Redis.run_incrby k n s)).
Proof. intros H. exact H. Qed.

Lemma healthy_run_expire s k ms :
  Redis.healthy s -> Redis.healthy (snd (Redis.run_expire k ms s)).
Proof. intros H. unfold Redis.run_expire. destruct (Redis.live s k); exact H. Qed.

Lemma healthy_run_del s k :
  Redis.healthy s -> Redis.healthy (snd (Redis.run_del k s)).
Proof. intros H. exact H. Qed.

(** The store entry under [k] after the server-side effect of each command. *)
Lemma store_run_incrby s k n :
  Redis.store (snd (Redis.run_incrby k n s)) !! k =
    Some (match Redis.live s k with
          | Some e => Redis.Entry (Redis.value e + n) (Redis.expireAt e)
          | None => Redis.Entry n None
          end).
Proof. unfold Redis.run_incrby, Redis.put. simpl. by rewrite lookup_insert_eq. Qed.

Lemma store_run_expire_value s k ms :
  Redis.value <$> (Redis.store (snd (Redis.run_expire k ms s)) !! k) =
  Redis.value <$> (Redis.store s !! k).
Proof.
  unfold Redis.run_expire, Redis.live.
  destruct (Redis.store s !! k) as [e|] eqn:E; simpl; [|by rewrite E].
  destruct (Redis.expired s e); simpl; [by rewrite E|].
  by rewrite lookup_insert_eq.
Qed.

Lemma store_run_del s k : Redis.store (snd (Redis.run_del k s)) !! k = None.
Proof. unfold Redis.run_del, Redis.remove. simpl. by rewrite lookup_delete_eq. Qed.

(** ** The pending tracker on a healthy server *)

Section TrackerHealthy.

Context (self : PendingMintTracker.t) (token : string).
Context (Hconn : PendingMintTracker.ensureConnection self = true).

Let k := PendingMintTracker.key token.

Lemma incrementPending_healthy s n :
  Redis.healthy s ->
  PendingMintTracker.incrementPending self token n s =
    (Ret (Some (fst (Redis.run_incrby k n s))),
     snd (Redis.run_expire k (3600 * 1000) (snd (Redis.run_incrby k n s)))).
Proof.
  intros Hs. unfold PendingMintTracker.incrementPending. rewrite Hconn.
  cbn [negb]. unfold try_catch, bind, Redis.incrby, Redis.expire. fold k.
  rewrite (command_healthy s Hs). cbv beta iota.
  rewrite (command_healthy _ (healthy_run_incrby s k n Hs)).
  reflexivity.
Qed.

Lemma decrementPending_healthy s n :
  Redis.healthy s ->
  PendingMintTracker.decrementPending self token n s =
    (if fst (Redis.run_incrby k (- n) s) <=? 0
     then (Ret 0, snd (Redis.run_del k (snd (Redis.run_incrby k (- n) s))))
     else (Ret (fst (Redis.run_incrby k (- n) s)), snd (Redis.run_incrby k (- n) s))).
Proof.
  intros Hs. unfold PendingMintTracker.decrementPending. rewrite Hconn.
  cbn [negb]. unfold try_catch, bind, Redis.decrby, Redis.del. fold k.
  rewrite (command_healthy s Hs). cbv beta iota. cbn [Js.toNumber].
  destruct (fst (Redis.run_incrby k (- n) s) <=? 0) eqn:E; [|reflexivity].
  rewrite (command_healthy _ (healthy_run_incrby s k (- n) Hs)).
  reflexivity.
Qed.

Lemma getPendingCount_healthy s :
  Redis.healthy s ->
  PendingMintTracker.getPendingCount self token s = (Ret (pendingValue s token), s).
Proof.
  intros Hs. unfold PendingMintTracker.getPendingCount. rewrite Hconn.
  cbn [negb]. unfold try_catch, bind, Redis.get, bind. fold k.
  rewrite (command_healthy s Hs). cbv beta iota.
  unfold pendingValue, Redis.run_get, ret. fold k. cbn [fst snd].
  by destruct (Redis.live s k).
Qed.

End TrackerHealthy.

(** The pending tracker never rejects, whatever the server does. *)
Lemma incrementPending_returns self token n s :
  exists v, fst (PendingMintTracker.incrementPending self token n s) = Ret v.
Proof.
  unfold PendingMintTracker.incrementPending.
  destruct (negb _); [by eexists|].
  unfold try_catch, bind, Redis.incrby, Redis.expire, Redis.command, ret.
  destruct (Redis.faults s Redis.INCRBY _); simpl; try by eexists.
  - destruct (Redis.faults _ Redis.EXPIRE _); simpl; try by eexists.
    destruct (Redis.run_expire _ _ _). by eexists.
  - destruct (Redis.faults _ Redis.EXPIRE _); simpl; try by eexists.
    destruct (Redis.run_expire _ _ _). by eexists.
Qed.

Lemma decrementPending_returns self token n s :
  exists v, fst (PendingMintTracker.decrementPending self token n s) = Ret v.
Proof.
  unfold PendingMintTracker.decrementPending.
  destruct (negb _); [by eexists|].
  unfold try_catch, bind, Redis.decrby, Redis.del, Redis.command, ret.
  destruct (Redis.faults s Redis.DECRBY _); simpl; try by eexists.
  - destruct (_ <=? 0); [|by eexists].
    destruct (Redis.faults _ Redis.DEL _); simpl; by eexists.
  - destruct (Redis.faults _ Redis.DEL _); simpl; by eexists.
Qed.

Lemma getPendingCount_returns self token s :
  exists v, fst (PendingMintTracker.getPendingCount self token s) = Ret v.
Proof.
  unfold PendingMintTracker.getPendingCount.
  destruct (negb _); [by eexists|].
  unfold try_catch, bind, Redis.get, bind, Redis.command, ret.
  destruct (Redis.faults s Redis.GET _); simpl; by eexists.
Qed.

(** ** Capacity check *)

Lemma getCurrentMintCount_error chain now token w e :
  fst (TokenCapacityManager.getCurrentMintCount chain now token w) = Thrown e ->
  code e = None.
Proof.
  unfold TokenCapacityManager.getCurrentMintCount.
  destruct (mintCountCache w !! _) as [[v t]|]; [destruct (_ <? _)|];
    destruct (chain_mintCount chain token); cbn; intros H; try discriminate;
    by inversion H.
Qed.

Lemma getMaxMintCount_error chain token w e :
  fst (TokenMaxMintCache.getMaxMintCount chain token w) = Thrown e ->
  code e = None.
Proof.
  unfold TokenMaxMintCache.getMaxMintCount.
  destruct (maxMintCache w !! _); [discriminate|].
  destruct (chain_maxMintCount chain token); cbn; intros H; try discriminate.
  by inversion H.
Qed.

Lemma onRedis_fst {A} (m : Async Redis.server A) w :
  fst (onRedis m w) = fst (m (redis w)).
Proof. unfold onRedis, lift. by destruct (m (redis w)). Qed.

Lemma onRedis_redis {A} (m : Async Redis.server A) w :
  redis (snd (onRedis m w)) = snd (m (redis w)).
Proof. unfold onRedis, lift. by destruct (m (redis w)). Qed.

Lemma onRedis_trace {A} (m : Async Redis.server A) w :
  trace (snd (onRedis m w)) = trace w.
Proof. unfold onRedis, lift. by destruct (m (redis w)). Qed.

Lemma readCounts_error self chain now token w e :
  fst (TokenCapacityManager.readCounts self chain now token w) = Thrown e ->
  code e = None.
Proof.
  unfold TokenCapacityManager.readCounts, all3.
  destruct (TokenCapacityManager.getCurrentMintCount chain now token w) as [ra w1] eqn:Ea.
  destruct (TokenMaxMintCache.getMaxMintCount chain token w1) as [rb w2] eqn:Eb.
  destruct (onRedis _ w2) as [rc w3] eqn:Ec.
  pose proof (getCurrentMintCount_error chain now token w) as Ha. rewrite Ea in Ha.
  pose proof (getMaxMintCount_error chain token w1) as Hb. rewrite Eb in Hb.
  pose proof (getPendingCount_returns (TokenCapacityManager.pendingTracker self) token (redis w2))
    as [v Hc].
  rewrite <- onRedis_fst, Ec in Hc. cbn in Hc, Ha, Hb. subst rc.
  destruct ra, rb; cbn; intros H; inversion H; subst; auto.
Qed.

Lemma toDouble_exact z : Z.abs z <= 2 ^ 53 -> Js.toDouble z = z.
Proof.
  intros H. unfold Js.toDouble. cbv zeta.
  destruct (Z.abs z <=? 2 ^ 53) eqn:E; [done|]. apply Z.leb_gt in E. lia.
Qed.

Lemma checkCapacity_of_counts self chain now token n w cur mx pend w' :
  TokenCapacityManager.readCounts self chain now token w = (Ret (cur, mx, pend), w') ->
  let info := {| maxMintCount := mx; currentMintCount := cur; pendingCount := pend;
                 availableSlots := Js.sub (Js.sub mx cur) pend |} in
  TokenCapacityManager.checkCapacity self chain now token n w =
    (if Js.add (Js.add cur pend) n >? mx
     then Thrown (TokenCapacityManager.capacityExceeded info)
     else Ret info,
     w').
Proof.
  intros H info. unfold TokenCapacityManager.checkCapacity, bind. rewrite H.
  fold info. by destruct (Js.add (Js.add cur pend) n >? mx).
Qed.

Lemma checkCapacity_exact self chain now token n w cur mx pend w' :
  TokenCapacityManager.readCounts self chain now token w = (Ret (cur, mx, pend), w') ->
  exactCounts cur mx pend n ->
  TokenCapacityManager.checkCapacity self chain now token n w =
    (if cur + pend + n >? mx
     then Thrown (TokenCapacityManager.capacityExceeded
                    {| maxMintCount := mx; currentMintCount := cur; pendingCount := pend;
                       availableSlots := mx - cur - pend |})
     else Ret {| maxMintCount := mx; currentMintCount := cur; pendingCount := pend;
                 availableSlots := mx - cur - pend |},
     w').
Proof.
  intros H (E1 & E2 & E3 & E4).
  rewrite (checkCapacity_of_counts _ _ _ _ _ _ _ _ _ _ H). cbv zeta.
  unfold Js.add, Js.sub.
  rewrite (toDouble_exact (cur + pend) E1), (toDouble_exact (cur + pend + n) E2).
  rewrite (toDouble_exact (mx - cur) E3), (toDouble_exact (mx - cur - pend) E4).
  reflexivity.
Qed.

(** C2, as stated, fails beyond 2^53: the counts are JavaScript numbers and
    their sum is rounded.  With 2^53 tokens minted of a cap of 2^53 and
    nothing pending, one more mint exceeds the cap, yet the sum
    [2^53 + 0 + 1] is the double [2^53] and the check lets the request
    pass. *)
Lemma capacity_sum_is_rounded :
  let w := freshWorld emptyServer in
  let run := TokenCapacityManager.checkCapacity theManager hugeChain 0 tokenAA 1 w in
  fst (TokenCapacityManager.readCounts theManager hugeChain 0 tokenAA w)
  = Ret (2 ^ 53, 2 ^ 53, 0)
  /\ 2 ^ 53 + 0 + 1 > 2 ^ 53
  /\ fst run = Ret {| maxMintCount := 2 ^ 53; currentMintCount := 2 ^ 53;
                      pendingCount := 0; availableSlots := 0 |}
  /\ ~ (exists e w', run = (Thrown e, w') /\ code e = Some "CAPACITY_EXCEEDED").
Proof.
  cbv zeta. split_and!.
  - vm_compute. reflexivity.
  - lia.
  - vm_compute. reflexivity.
  - intros (e & w' & H & _).
    assert (fst (TokenCapacityManager.checkCapacity theManager hugeChain 0 tokenAA 1
                   (freshWorld emptyServer)) = Thrown e) as H' by (by rewrite H).
    vm_compute in H'. discriminate.
Qed.

(** C2 (amended).  When none of the sums of the three counts and [n] is
    rounded (each is at most 2^53 in magnitude), [checkCapacity(token, n)]
    rejects with code [CAPACITY_EXCEEDED] exactly when the three counts
    could be read and [current + pending + n > max]; when they could be read
    and the sum does not exceed [max] it returns a [TokenCapacityInfo] whose
    [availableSlots] is [max - current - pending], and the rejection carries
    the same capacity information.  With max 100, current 95, pending 3 and
    n = 5 it rejects with [availableSlots = 2]. *)
Theorem checkCapacity_exceeded_iff self chain now token n w :
  (forall cur mx pend w',
      TokenCapacityManager.readCounts self chain now token w = (Ret (cur, mx, pend), w') ->
      exactCounts cur mx pend n) ->
  ((exists e w', TokenCapacityManager.checkCapacity self chain now token n w = (Thrown e, w')
                 /\ code e = Some "CAPACITY_EXCEEDED")
   <-> (exists cur mx pend w',
          TokenCapacityManager.readCounts self chain now token w = (Ret (cur, mx, pend), w')
          /\ cur + pend + n > mx))
  /\ (forall cur mx pend w',
        TokenCapacityManager.readCounts self chain now token w = (Ret (cur, mx, pend), w') ->
        let info := {| maxMintCount := mx; currentMintCount := cur; pendingCount := pend;
                       availableSlots := mx - cur - pend |} in
        (cur + pend + n > mx ->
         TokenCapacityManager.checkCapacity self chain now token n w =
           (Thrown (TokenCapacityManager.capacityExceeded info), w'))
        /\ (cur + pend + n <= mx ->
            TokenCapacityManager.checkCapacity self chain now token n w = (Ret info, w')))
  /\ (exists w',
        TokenCapacityManager.checkCapacity theManager chain4 0 tokenAA 5 world4 =
          (Thrown (TokenCapacityManager.capacityExceeded
                     {| maxMintCount := 100; currentMintCount := 95; pendingCount := 3;
                        availableSlots := 2 |}), w')).
Proof.
  intros Hex. split; [split|split].
  - intros (e & w' & Hc & Hcode).
    destruct (TokenCapacityManager.readCounts self chain now token w) as [[[[cur mx] pend]|e0] w0] eqn:E.
    + exists cur, mx, pend, w0. split; [done|].
      rewrite (checkCapacity_exact _ _ _ _ _ _ _ _ _ _ E (Hex _ _ _ _ eq_refl)) in Hc.
      destruct (cur + pend + n >? mx) eqn:G; [lia|]. by inversion Hc.
    + pose proof (readCounts_error self chain now token w e0) as He0.
      rewrite E in He0. specialize (He0 eq_refl).
      unfold TokenCapacityManager.checkCapacity, bind in Hc. rewrite E in Hc.
      inversion Hc; subst. congruence.
  - intros (cur & mx & pend & w' & E & G).
    rewrite (checkCapacity_exact _ _ _ _ _ _ _ _ _ _ E (Hex _ _ _ _ E)).
    destruct (cur + pend + n >? mx) eqn:G'; [|lia].
    by eexists _, _.
  - intros cur mx pend w' E info.
    rewrite (checkCapacity_exact _ _ _ _ _ _ _ _ _ _ E (Hex _ _ _ _ E)). fold info.
    split; intros G.
    + by destruct (cur + pend + n >? mx) eqn:G'; [|lia].
    + by destruct (cur + pend + n >? mx) eqn:G'; [lia|].
  - eexists. vm_compute. reflexivity.
Qed.

Lemma checkCapacity_exceeded_iff_witness :
  (exists e w', TokenCapacityManager.checkCapacity theManager chain4 0 tokenAA 5 world4
                = (Thrown e, w')
                /\ code e = Some "CAPACITY_EXCEEDED")
  <-> (exists cur mx pend w',
         TokenCapacityManager.readCounts theManager chain4 0 tokenAA world4
         = (Ret (cur, mx, pend), w')
         /\ cur + pend + 5 > mx).
Proof.
  refine (proj1 (checkCapacity_exceeded_iff theManager chain4 0 tokenAA 5 world4 _)).
  intros cur mx pend w' H.
  assert (fst (TokenCapacityManager.readCounts theManager chain4 0 tokenAA world4)
          = Ret (cur, mx, pend)) as H' by (by rewrite H).
  vm_compute in H'. injection H' as <- <- <-.
  unfold exactCounts. vm_compute. intuition discriminate.
Defined.

(** ** Reserve and release on the state of the process *)

Lemma reserveCapacity_run self token n w :
  TokenCapacityManager.reserveCapacity self token n w =
    (Ret tt,
     World (snd (PendingMintTracker.incrementPending
                   (TokenCapacityManager.pendingTracker self) token n (redis w)))
           (mintCountCache w) (maxMintCache w) (deadlineCache w)
           (trace w ++ [Reserving n token])).
Proof.
  unfold TokenCapacityManager.reserveCapacity, bind, emit, onRedis, lift, ret. cbn.
  destruct (incrementPending_returns (TokenCapacityManager.pendingTracker self) token n (redis w))
    as [v Hv].
  destruct (PendingMintTracker.incrementPending _ token n (redis w)) as [r s'].
  cbn in Hv. subst r. reflexivity.
Qed.

Lemma releaseCapacity_run self token n w :
  TokenCapacityManager.releaseCapacity self token n w =
    (Ret tt,
     World (snd (PendingMintTracker.decrementPending
                   (TokenCapacityManager.pendingTracker self) token n (redis w)))
           (mintCountCache w) (maxMintCache w) (deadlineCache w)
           (trace w ++ [Releasing n token])).
Proof.
  unfold TokenCapacityManager.releaseCapacity, bind, emit, onRedis, lift, ret. cbn.
  destruct (decrementPending_returns (TokenCapacityManager.pendingTracker self) token n (redis w))
    as [v Hv].
  destruct (PendingMintTracker.decrementPending _ token n (redis w)) as [r s'].
  cbn in Hv. subst r. reflexivity.
Qed.

(** ** Conservation of the pending counter *)

Lemma takeOut_spec n l l' :
  takeOut n l = Some l' ->
  total l' = total l - n /\ (Forall (fun m => 0 < m) l -> 0 < n /\ Forall (fun m => 0 < m) l').
Proof.
  revert l'. induction l as [|m r IH]; intros l' H; [discriminate|].
  cbn in H. destruct (m =? n) eqn:E.
  - apply Z.eqb_eq in E. inversion H; subst. unfold total; cbn. split; [lia|].
    intros F. inversion F; subst. auto.
  - destruct (takeOut n r) as [r'|]; [|discriminate]. cbn in H. inversion H; subst.
    destruct (IH r' eq_refl) as [Ht Hf]. unfold total in *; cbn. split; [lia|].
    intros F. inversion F; subst. destruct (Hf H3). auto.
Qed.

Lemma total_pos l : Forall (fun m => 0 < m) l -> 0 <= total l.
Proof. induction 1; unfold total in *; cbn; lia. Qed.

Section Conservation.

Context (self : PendingMintTracker.t) (token : string).
Context (Hconn : PendingMintTracker.ensureConnection self = true).

Let k := PendingMintTracker.key token.

Lemma live_bound out s e :
  pendingInv token out s -> Redis.live s k = Some e -> 0 < Redis.value e <= total out.
Proof.
  intros (_ & _ & H) L. unfold Redis.live in L. fold k in H.
  destruct (Redis.store s !! k) as [e'|]; [|discriminate].
  destruct (Redis.expired s e'); [discriminate|]. by inversion L; subst.
Qed.

Lemma inv_reserve out s n :
  0 < n -> pendingInv token out s ->
  pendingInv token (n :: out) (snd (PendingMintTracker.incrementPending self token n s)).
Proof.
  intros Hn Hinv. pose proof Hinv as (Hs & Hf & Hv).
  rewrite (incrementPending_healthy self token Hconn s n Hs). cbn [snd]. fold k.
  split; [|split].
  - by apply healthy_run_expire, healthy_run_incrby.
  - by constructor.
  - fold k.
    pose proof (store_run_expire_value (snd (Redis.run_incrby k n s)) k (3600 * 1000)) as Hval.
    rewrite store_run_incrby in Hval.
    destruct (Redis.store (snd (Redis.run_expire _ _ _)) !! k) as [e'|]; [|done].
    cbn in Hval. inversion Hval as [Hval']. rewrite Hval'.
    pose proof (total_pos out Hf).
    change (total (n :: out)) with (n + total out).
    destruct (Redis.live s k) as [e|] eqn:L; cbn.
    + pose proof (live_bound out s e Hinv L). lia.
    + lia.
Qed.

Lemma inv_release out out' s n :
  takeOut n out = Some out' -> pendingInv token out s ->
  pendingInv token out' (snd (PendingMintTracker.decrementPending self token n s)).
Proof.
  intros Ht Hinv. pose proof Hinv as (Hs & Hf & Hv).
  destruct (takeOut_spec n out out' Ht) as [Htot Hpos]. destruct (Hpos Hf) as [Hn Hf'].
  rewrite (decrementPending_healthy self token Hconn s n Hs). fold k.
  destruct (fst (Redis.run_incrby k (- n) s) <=? 0) eqn:E; cbn [snd].
  - split; [|split]; [by apply healthy_run_del, healthy_run_incrby | done |].
    fold k. by rewrite store_run_del.
  - split; [|split]; [by apply healthy_run_incrby | done |].
    fold k. rewrite store_run_incrby.
    apply Z.leb_gt in E. unfold Redis.run_incrby in E. cbn [fst] in E.
    destruct (Redis.live s k) as [e|] eqn:L; cbn in *.
    + pose proof (live_bound out s e Hinv L). lia.
    + lia.
Qed.

Lemma inv_elapse out s ms :
  pendingInv token out s -> pendingInv token out (Redis.advance ms s).
Proof. intros (Hs & Hf & Hv). split; [|split]; done. Qed.

End Conservation.

Lemma inv_calls mgr token cs :
  PendingMintTracker.ensureConnection (TokenCapacityManager.pendingTracker mgr) = true ->
  forall out w,
    pendingInv token out (redis w) ->
    matched out cs = true ->
    pendingInv token [] (redis (calls mgr token cs w)).
Proof.
  intros Hconn. induction cs as [|c cs IH]; intros out w Hinv Hm; cbn in Hm.
  - by destruct out.
  - unfold calls. cbn [fold_left]. fold (calls mgr token cs).
    destruct c as [n|n|ms]; cbn [call].
    + apply andb_true_iff in Hm as [Hn Hm]. apply Z.ltb_lt in Hn.
      apply (IH (n :: out)); [|done].
      rewrite reserveCapacity_run. cbn [snd redis]. by apply inv_reserve.
    + destruct (takeOut n out) as [out'|] eqn:Et; [|discriminate].
      apply (IH out'); [|done].
      rewrite releaseCapacity_run. cbn [snd redis]. by eapply inv_release.
    + apply (IH out); [|done]. cbn. by apply inv_elapse.
Qed.

(** C6.  With a connected tracker: on a healthy server, [decrementPending]
    deletes the pending key and returns 0 whenever the decremented value is
    not positive; and after any sequence of reservations and releases in
    which every release gives back the count of an outstanding reservation
    and nothing stays outstanding (time may pass in between), started
    without the key, [getPendingCount] returns 0 and the key is absent. *)
Theorem pending_counter_conserved mgr token
  (Hconn : PendingMintTracker.ensureConnection (TokenCapacityManager.pendingTracker mgr) = true) :
  (forall s n,
      Redis.healthy s ->
      pendingValue s token - n <= 0 ->
      exists s',
        PendingMintTracker.decrementPending (TokenCapacityManager.pendingTracker mgr) token n s
          = (Ret 0, s')
        /\ Redis.store s' !! PendingMintTracker.key token = None)
  /\ (forall w cs,
        Redis.healthy (redis w) ->
        Redis.store (redis w) !! PendingMintTracker.key token = None ->
        matched [] cs = true ->
        let w' := calls mgr token cs w in
        PendingMintTracker.getPendingCount (TokenCapacityManager.pendingTracker mgr) token (redis w')
          = (Ret 0, redis w')
        /\ Redis.store (redis w') !! PendingMintTracker.key token = None).
Proof.
  split.
  - intros s n Hs Hle.
    rewrite (decrementPending_healthy _ token Hconn s n Hs).
    assert ((fst (Redis.run_incrby (PendingMintTracker.key token) (- n) s) <=? 0) = true) as ->.
    { apply Z.leb_le. unfold Redis.run_incrby, pendingValue in *. cbn [fst].
      destruct (Redis.live s _); cbn; lia. }
    eexists. split; [reflexivity|]. apply store_run_del.
  - intros w cs Hs Habs Hm w'.
    assert (pendingInv token [] (redis w')) as (Hs' & _ & Hv).
    { apply (inv_calls mgr token cs Hconn [] w); [|done].
      split; [done|split; [constructor|]]. by rewrite Habs. }
    assert (Redis.store (redis w') !! PendingMintTracker.key token = None) as Hnone.
    { destruct (Redis.store (redis w') !! _) as [e|]; [cbn in Hv; lia|done]. }
    split; [|done].
    rewrite (getPendingCount_healthy _ token Hconn _ Hs').
    unfold pendingValue, Redis.live. by rewrite Hnone.
Qed.

Lemma pending_counter_conserved_witness :
  PendingMintTracker.ensureConnection (TokenCapacityManager.pendingTracker theManager) = true
  /\ (let w' := calls theManager tokenAA
                      [Reserve 3; Reserve 5; Release 3; Elapse 4000000; Reserve 2; Release 2; Release 5]
                      (freshWorld emptyServer) in
      PendingMintTracker.getPendingCount (TokenCapacityManager.pendingTracker theManager)
                                         tokenAA (redis w') = (Ret 0, redis w')
      /\ Redis.store (redis w') !! PendingMintTracker.key tokenAA = None).
Proof.
  split; [reflexivity|].
  destruct (pending_counter_conserved theManager tokenAA eq_refl) as [_ H].
  apply (H (freshWorld emptyServer)); [intros o k0; reflexivity | reflexivity | reflexivity].
Defined.

(** ** What the handler writes on the trace *)

Lemma send_run st h b w :
  Mint.send st h b w =
    (Ret {| Mint.status := st; Mint.headers := h; Mint.body := b |},
     World (redis w) (mintCountCache w) (maxMintCache w) (deadlineCache w)
           (trace w ++ [Responded st])).
Proof. reflexivity. Qed.

Lemma returning_send_run {A} st h b w :
  @Mint.returning A (Mint.send st h b) w =
    (Ret (Mint.Return {| Mint.status := st; Mint.headers := h; Mint.body := b |}),
     World (redis w) (mintCountCache w) (maxMintCache w) (deadlineCache w)
           (trace w ++ [Responded st])).
Proof. reflexivity. Qed.


Lemma getDeploymentDeadline_trace chain token w :
  trace (snd (TokenDeadlineCache.getDeploymentDeadline chain token w)) = trace w
  /\ redis (snd (TokenDeadlineCache.getDeploymentDeadline chain token w)) = redis w.
Proof.
  unfold TokenDeadlineCache.getDeploymentDeadline.
  destruct (deadlineCache w !! _); [done|].
  destruct (chain_deploymentDeadline chain token) as [d|m]; [|done].
  by destruct (TokenDeadlineCache.validDate d).
Qed.

Lemma getCurrentMintCount_trace chain now token w :
  trace (snd (TokenCapacityManager.getCurrentMintCount chain now token w)) = trace w
  /\ redis (snd (TokenCapacityManager.getCurrentMintCount chain now token w)) = redis w.
Proof.
  unfold TokenCapacityManager.getCurrentMintCount.
  destruct (mintCountCache w !! _) as [[v t]|]; [destruct (_ <? _)|];
    by destruct (chain_mintCount chain token).
Qed.

Lemma getMaxMintCount_trace chain token w :
  trace (snd (TokenMaxMintCache.getMaxMintCount chain token w)) = trace w
  /\ redis (snd (TokenMaxMintCache.getMaxMintCount chain token w)) = redis w.
Proof.
  unfold TokenMaxMintCache.getMaxMintCount.
  destruct (maxMintCache w !! _); [done|].
  by destruct (chain_maxMintCount chain token).
Qed.

Lemma readCounts_trace self chain now token w :
  trace (snd (TokenCapacityManager.readCounts self chain now token w)) = trace w.
Proof.
  unfold TokenCapacityManager.readCounts, all3.
  pose proof (getCurrentMintCount_trace chain now token w) as [Ha _].
  destruct (TokenCapacityManager.getCurrentMintCount chain now token w) as [ra w1].
  pose proof (getMaxMintCount_trace chain token w1) as [Hb _].
  destruct (TokenMaxMintCache.getMaxMintCount chain token w1) as [rb w2].
  pose proof (onRedis_trace
                (PendingMintTracker.getPendingCount (TokenCapacityManager.pendingTracker self) token)
                w2) as Hc.
  destruct (onRedis _ w2) as [rc w3].
  cbn in *. congruence.
Qed.

Lemma checkCapacity_trace self chain now token n w :
  trace (snd (TokenCapacityManager.checkCapacity self chain now token n w)) = trace w.
Proof.
  unfold TokenCapacityManager.checkCapacity, bind.
  pose proof (readCounts_trace self chain now token w) as H.
  destruct (TokenCapacityManager.readCounts self chain now token w) as [[[[c m] p]|e] w1];
    [|done].
  by destruct (_ >? _).
Qed.

Section StepTraces.

Context (app : Mint.App) (env : Mint.Env) (req : Mint.Request).

Lemma record_trace id w :
  trace (snd (Mint.record app id w)) = trace w.
Proof. apply onRedis_trace. Qed.

Lemma whitelistStep_ok b w : stepOk (Mint.whitelistStep app req b) w.
Proof.
  unfold stepOk, Mint.whitelistStep. destruct b; [|done].
  unfold bind.
  pose proof (onRedis_trace
                (AbuseDetector.getStats (Mint.abuseDetector app)
                   (createIdentifier None (Some (Mint.clientIP req)))) w) as H.
  destruct (onRedis _ w) as [[st|e] w1]; cbn in H; [|done].
  destruct (negb _); [|done].
  rewrite returning_send_run. cbn. by rewrite H.
Qed.

Lemma validateStep_ok w : stepOk (Mint.validateStep req) w.
Proof.
  unfold stepOk, Mint.validateStep.
  destruct (Js.trim <$> Mint.body_tokenAddress req) as [t|]; [|done].
  destruct (negb (Js.truthy t)); [done|].
  destruct (Mint.body_recipients req) as [r|]; [|done].
  by destruct (_ || _)%bool.
Qed.

Lemma deadlineStep_ok token w : stepOk (Mint.deadlineStep app env req token) w.
Proof.
  unfold stepOk, Mint.deadlineStep, try_catch, bind.
  pose proof (getDeploymentDeadline_trace (Mint.chain env) token w) as [H _].
  destruct (TokenDeadlineCache.getDeploymentDeadline (Mint.chain env) token w) as [[d|e] w1];
    cbn in H; [|done].
  destruct (_ <=? 0); [|done].
  pose proof (record_trace
                (createIdentifier None (Some (Mint.clientIP req +:+ ":expired"))) w1) as H1.
  destruct (Mint.record app _ w1) as [[v|e] w2]; cbn in H1; [|cbn; congruence].
  destruct (negb _); rewrite returning_send_run; cbn; congruence.
Qed.

Lemma decodeStep_ok h w : stepOk (Mint.decodeStep env h) w.
Proof.
  unfold stepOk, Mint.decodeStep. by destruct (Mint.decodePayment env h).
Qed.

Lemma verifyStep_ok token p w : stepOk (Mint.verifyStep app env req token p) w.
Proof.
  unfold stepOk, Mint.verifyStep.
  pose proof (record_trace (createIdentifier None (Some (Mint.clientIP req))) w) as H1.
  destruct (Mint.withTimeout _ _ _) as [vr|e]; unfold bind.
  - destruct (negb _); [|done].
    destruct (Mint.record app _ w) as [[v|e] w2]; cbn in H1; [|done].
    rewrite returning_send_run; cbn; congruence.
  - destruct (Mint.record app _ w) as [[v|e'] w2]; cbn in H1; [|done].
    destruct (bool_decide _); rewrite returning_send_run; cbn; congruence.
Qed.

Lemma rateLimitStep_ok skip p w : stepOk (Mint.rateLimitStep app req skip p) w.
Proof.
  unfold stepOk, Mint.rateLimitStep. destruct (negb skip); [|done].
  unfold bind.
  pose proof (record_trace (createIdentifier None (Some (Mint.clientIP req))) w) as H1.
  destruct (Mint.record app _ w) as [[v|e] w2]; cbn in H1; [|done].
  destruct (negb _); [|done].
  rewrite returning_send_run; cbn; congruence.
Qed.

Lemma capacityStep_ok token recipients w :
  stepOk (Mint.capacityStep app env token recipients) w.
Proof.
  unfold stepOk, Mint.capacityStep, try_catch, bind.
  pose proof (checkCapacity_trace (Mint.tokenCapacityManager app) (Mint.chain env)
                (Mint.dateNow env) token (Z.of_nat (length recipients)) w) as H.
  destruct (TokenCapacityManager.checkCapacity _ _ _ _ _ w) as [[i|e] w1]; cbn in H; [done|].
  destruct (bool_decide _).
  - destruct (capacityInfo e); [|done].
    rewrite returning_send_run; cbn; congruence.
  - rewrite returning_send_run; cbn; congruence.
Qed.

End StepTraces.

(** ** After the reservation *)

Section AfterReserve.

Context (app : Mint.App) (env : Mint.Env) (req : Mint.Request).
Context (token : string) (recipients : list string).

Let count := Z.of_nat (length recipients).
Let tracker := TokenCapacityManager.pendingTracker (Mint.tokenCapacityManager app).

Lemma reserveStep_run w :
  Mint.reserveStep app token recipients w =
    (Ret (Mint.Next true),
     World (snd (PendingMintTracker.incrementPending tracker token count (redis w)))
           (mintCountCache w) (maxMintCache w) (deadlineCache w)
           (trace w ++ [Reserving count token])).
Proof.
  unfold Mint.reserveStep, try_catch, bind.
  rewrite reserveCapacity_run. reflexivity.
Qed.

Lemma release_then_send st h b w :
  (let* _ := Mint.release app true token count in Mint.send st h b) w =
    (Ret {| Mint.status := st; Mint.headers := h; Mint.body := b |},
     World (snd (PendingMintTracker.decrementPending tracker token count (redis w)))
           (mintCountCache w) (maxMintCache w) (deadlineCache w)
           (trace w ++ [Releasing count token; Responded st])).
Proof.
  unfold bind, Mint.release. rewrite releaseCapacity_run.
  rewrite send_run. cbn. by rewrite <- app_assoc.
Qed.

(** Every branch of the [catch] block and of the checks that follow the
    settlement is "release, then respond". *)
Lemma settleFailed_shape error :
  exists st h b,
    Mint.settleFailed app env true token recipients error =
      (let* _ := Mint.release app true token count in Mint.send st h b).
Proof.
  unfold Mint.settleFailed. fold count.
  destruct (bool_decide (reason error = Some "mempool_capacity_exceeded"));
    [by eexists _, _, _|].
  destruct (bool_decide (reason error = Some "chain_query_failed")); by eexists _, _, _.
Qed.

Lemma afterSettle_shape sr :
  exists st h b,
    Mint.afterSettle app env true token recipients sr =
      (let* _ := Mint.release app true token count in Mint.send st h b).
Proof.
  unfold Mint.afterSettle. fold count.
  destruct (_ || _)%bool; [by eexists _, _, _|].
  destruct (_ && _)%bool; by eexists _, _, _.
Qed.

Lemma settleStep_shape payment :
  exists st h b,
    Mint.settleStep app env req true token recipients payment =
      (let* _ := Mint.release app true token count in Mint.send st h b).
Proof.
  unfold Mint.settleStep.
  destruct (Mint.settleCall env req token payment).
  - apply afterSettle_shape.
  - apply settleFailed_shape.
Qed.

(** The status sent by each failure path. *)
Lemma settleFailed_status error w :
  Mint.status <$> (match fst (Mint.settleFailed app env true token recipients error w) with
                   | Ret r => Some r | Thrown _ => None end)
  = Some (if bool_decide (reason error = Some "mempool_capacity_exceeded") then 400
          else if bool_decide (reason error = Some "chain_query_failed") then 503
          else 500).
Proof.
  unfold Mint.settleFailed. fold count.
  destruct (bool_decide (reason error = Some "mempool_capacity_exceeded"));
    [by rewrite release_then_send|].
  destruct (bool_decide (reason error = Some "chain_query_failed"));
    by rewrite release_then_send.
Qed.

End AfterReserve.

(** ** The whole handler *)

Lemma andThen_responds req {A} (m : Async world (Mint.step A)) k w :
  stepOk m w ->
  (forall a w1, m w = (Ret (Mint.Next a), w1) -> respondsTo req (k a) w1) ->
  respondsTo req (Mint.andThen m k) w.
Proof.
  unfold stepOk, respondsTo, Mint.andThen, bind. intros Hm Hk.
  destruct (m w) as [[[a|r]|e] w1]; [|by left|done].
  specialize (Hk a w1 eq_refl).
  destruct (k a w1) as [[r|e] w2]; rewrite <- Hm; done.
Qed.

Lemma validateStep_next req t r w w1 :
  Mint.validateStep req w = (Ret (Mint.Next (t, r)), w1) ->
  reservationOf req t (Z.of_nat (length r)) /\ (1 <= length r <= 100)%nat /\ w1 = w.
Proof.
  unfold Mint.validateStep, reservationOf.
  destruct (Mint.body_tokenAddress req) as [raw|]; cbn -[Nat.ltb Nat.leb Nat.eqb Js.trim];
    [|discriminate].
  destruct (negb (Js.truthy (Js.trim raw))); [discriminate|].
  destruct (Mint.body_recipients req) as [r'|]; [|discriminate].
  destruct (_ || _)%bool eqn:E; [discriminate|].
  intros H. inversion H; subst.
  apply orb_false_iff in E as [E1 E2].
  apply Nat.eqb_neq in E1. apply Nat.ltb_ge in E2.
  split; [by eexists _, _|]. split; [lia|done].
Qed.

Section Handler.

Context (app : Mint.App) (env : Mint.Env) (req : Mint.Request).

Lemma paid_responds skip token recipients header w :
  reservationOf req token (Z.of_nat (length recipients)) ->
  respondsTo req
    (Mint.andThen (Mint.decodeStep env header) (fun decodedPayment =>
     Mint.andThen (Mint.verifyStep app env req token decodedPayment) (fun _ =>
     Mint.andThen (Mint.rateLimitStep app req skip decodedPayment) (fun _ =>
     Mint.andThen (Mint.capacityStep app env token recipients) (fun _ =>
     Mint.andThen (Mint.reserveStep app token recipients) (fun capacityReserved =>
     Mint.settleStep app env req capacityReserved token recipients decodedPayment)))))) w.
Proof.
  intros Hres.
  apply andThen_responds; [apply decodeStep_ok|]. intros p w1 _.
  apply andThen_responds; [apply verifyStep_ok|]. intros _ w2 _.
  apply andThen_responds; [apply rateLimitStep_ok|]. intros _ w3 _.
  apply andThen_responds; [apply capacityStep_ok|]. intros _ w4 _.
  unfold respondsTo, Mint.andThen, bind. rewrite reserveStep_run.
  destruct (settleStep_shape app env req token recipients p) as (st & h & b & ->).
  rewrite release_then_send. cbn [trace Mint.status].
  right. exists token, (Z.of_nat (length recipients)). split; [done|].
  by rewrite <- app_assoc.
Qed.

Lemma challenge_responds token w : respondsTo req (Mint.challenge token) w.
Proof. unfold respondsTo, Mint.challenge. rewrite send_run. by left. Qed.

Lemma mintError_run error w :
  exists r, Mint.mintError env error w =
              (Ret r, World (redis w) (mintCountCache w) (maxMintCache w) (deadlineCache w)
                            (trace w ++ [Responded (Mint.status r)])).
Proof.
  unfold Mint.mintError.
  destruct (Mint.includes _ _); [|destruct (Mint.includes _ _)]; rewrite send_run;
    match goal with |- exists r, (Ret ?x, _) = _ => exists x end; reflexivity.
Qed.

(** Every run of the handler sends one response, last; what precedes it is
    nothing, or the reservation of the request followed by its release. *)
Lemma handleMintRequest_trace skip requireWhitelist w :
  exists resp w',
    Mint.handleMintRequest app env req skip requireWhitelist w = (Ret resp, w')
    /\ (trace w' = trace w ++ [Responded (Mint.status resp)]
        \/ exists token count,
             reservationOf req token count
             /\ trace w' = trace w ++ [Reserving count token; Releasing count token;
                                       Responded (Mint.status resp)]).
Proof.
  unfold Mint.handleMintRequest, try_catch.
  match goal with |- context [Mint.andThen ?m ?k w] =>
    assert (respondsTo req (Mint.andThen m k) w) as H end.
  { apply andThen_responds; [apply whitelistStep_ok|]. intros _ w1 _.
    apply andThen_responds; [apply validateStep_ok|]. intros [t r] w2 Hv.
    apply validateStep_next in Hv as (Hres & _ & _). cbn [fst snd].
    apply andThen_responds; [apply deadlineStep_ok|]. intros _ w3 _.
    destruct (Mint.x_payment req) as [h|]; [|apply challenge_responds].
    destruct (negb (Js.truthy h)); [apply challenge_responds|].
    by apply paid_responds. }
  unfold respondsTo in H.
  destruct (Mint.andThen _ _ w) as [[r|e] w1].
  - by exists r, w1.
  - destruct (mintError_run e w1) as [r Hr]. rewrite Hr.
    eexists _, _. split; [reflexivity|]. left. cbn. by rewrite H.
Qed.

End Handler.

(** ** Reserve then release gives the counter back *)

Lemma live_put s k e :
  Redis.live (Redis.put k e s) k = if Redis.expired s e then None else Some e.
Proof. unfold Redis.live, Redis.put. cbn. by rewrite lookup_insert_eq. Qed.

Lemma live_remove s k : Redis.live (Redis.remove k s) k = None.
Proof. unfold Redis.live, Redis.remove. cbn. by rewrite lookup_delete_eq. Qed.

Lemma live_not_expired s k e : Redis.live s k = Some e -> Redis.expired s e = false.
Proof.
  unfold Redis.live. destruct (Redis.store s !! k) as [e'|]; [|discriminate].
  destruct (Redis.expired s e') eqn:E; [discriminate|]. by intros [= <-].
Qed.

Lemma pendingValue_roundtrip self token n s :
  PendingMintTracker.ensureConnection self = true ->
  Redis.healthy s ->
  0 <= pendingValue s token ->
  pendingValue
    (snd (PendingMintTracker.decrementPending self token n
            (snd (PendingMintTracker.incrementPending self token n s)))) token
  = pendingValue s token.
Proof.
  intros Hconn Hs Hp.
  rewrite (incrementPending_healthy self token Hconn s n Hs). cbn [snd].
  set (k := PendingMintTracker.key token).
  set (p := pendingValue s token) in *.
  (* the state after INCRBY and EXPIRE *)
  assert (exists t, Redis.clock s < t /\
            snd (Redis.run_expire k (3600 * 1000) (snd (Redis.run_incrby k n s)))
            = Redis.put k (Redis.Entry (p + n) (Some t))
                (snd (Redis.run_incrby k n s))) as (t & Ht & ->).
  { exists (Redis.clock s + 3600 * 1000). split; [lia|].
    unfold Redis.run_expire, Redis.run_incrby. cbn [snd]. rewrite live_put.
    unfold p, pendingValue. fold k.
    destruct (Redis.live s k) as [e|] eqn:L.
    - assert (Redis.expired s (Redis.Entry (Redis.value e + n) (Redis.expireAt e)) = false)
        as -> by exact (live_not_expired s k e L).
      reflexivity.
    - reflexivity. }
  set (s1 := Redis.put k _ _).
  assert (Redis.healthy s1) as Hs1 by exact Hs.
  assert (Redis.live s1 k = Some (Redis.Entry (p + n) (Some t))) as L1.
  { unfold s1. rewrite live_put. unfold Redis.expired. cbn.
    destruct (t <=? Redis.clock s) eqn:E; [apply Z.leb_le in E; lia|done]. }
  rewrite (decrementPending_healthy self token Hconn s1 n Hs1). fold k.
  unfold Redis.run_incrby at 1. rewrite L1. cbn [fst Redis.value].
  destruct (p + n + - n <=? 0) eqn:E.
  - cbn [snd]. unfold Redis.run_del. cbn [snd].
    unfold pendingValue at 1. fold k. rewrite live_remove.
    apply Z.leb_le in E. lia.
  - cbn [snd]. unfold Redis.run_incrby. rewrite L1. cbn [snd].
    unfold pendingValue at 1. fold k. rewrite live_put.
    unfold Redis.expired. cbn.
    destruct (t <=? Redis.clock s) eqn:E'; [apply Z.leb_le in E'; lia|].
    cbn [Redis.value]. lia.
Qed.

(** C1.  After the reservation, every path of the handler releases the same
    count on the same token and only then responds: the [catch] block of the
    settlement (rejection or timeout of the batch promise, statuses 400, 503,
    500), the refusal of a settle response with [success = false] or an
    [error] (402), the missing transaction id (500) -- and the success path.
    From the reservation on, the trace is exactly
    "reserving, releasing, responded"; on a healthy server holding a
    non-negative counter the pending count read afterwards is the one read
    before the reservation.  Over a whole run of the handler, a reservation
    is always followed by its release and then by the single response. *)
Theorem release_before_every_response app env req token recipients :
  let count := Z.of_nat (length recipients) in
  let tracker := TokenCapacityManager.pendingTracker (Mint.tokenCapacityManager app) in
  (forall error w,
      exists resp w',
        Mint.settleFailed app env true token recipients error w = (Ret resp, w')
        /\ Mint.status resp <> 200
        /\ trace w' = trace w ++ [Releasing count token; Responded (Mint.status resp)])
  /\ (forall sr w,
        exists resp w',
          Mint.afterSettle app env true token recipients sr w = (Ret resp, w')
          /\ trace w' = trace w ++ [Releasing count token; Responded (Mint.status resp)]
          /\ (Mint.sr_success sr = false \/ Js.truthyOpt (Mint.sr_error sr) = true ->
              Mint.status resp = 402)
          /\ (Mint.sr_success sr = true -> Js.truthyOpt (Mint.sr_error sr) = false ->
              Js.truthy (Mint.sr_transaction sr) = false ->
              Js.truthyOpt (Mint.sr_transactionId sr) = false ->
              Js.truthyOpt (Mint.sr_transactionHash sr) = false ->
              Mint.status resp = 500))
  /\ (forall payment w,
        exists w1 resp w2,
          Mint.reserveStep app token recipients w = (Ret (Mint.Next true), w1)
          /\ Mint.settleStep app env req true token recipients payment w1 = (Ret resp, w2)
          /\ trace w2 = trace w ++ [Reserving count token; Releasing count token;
                                    Responded (Mint.status resp)]
          /\ (Mint.batchSettle env (Mint.handlerRequestId env) payment
                               (Mint.requirements req token) = None ->
              Mint.status resp = 500)
          /\ (PendingMintTracker.ensureConnection tracker = true ->
              Redis.healthy (redis w) ->
              0 <= pendingValue (redis w) token ->
              pendingValue (redis w2) token = pendingValue (redis w) token))
  /\ (forall skipRateLimit requireWhitelist w,
        exists resp w',
          Mint.handleMintRequest app env req skipRateLimit requireWhitelist w = (Ret resp, w')
          /\ (trace w' = trace w ++ [Responded (Mint.status resp)]
              \/ exists tok cnt,
                   reservationOf req tok cnt
                   /\ trace w' = trace w ++ [Reserving cnt tok; Releasing cnt tok;
                                             Responded (Mint.status resp)])).
Proof.
  intros count tracker. subst count tracker. split; [|split; [|split]].
  - intros error w.
    pose proof (settleFailed_status app env token recipients error w) as Hst.
    destruct (settleFailed_shape app env token recipients error) as (st & h & b & E).
    rewrite E in Hst |- *. rewrite release_then_send in Hst |- *. cbn in Hst.
    eexists _, _. split; [reflexivity|]. cbn [Mint.status trace]. split; [|done].
    injection Hst as ->. repeat case_bool_decide; lia.
  - intros sr w. unfold Mint.afterSettle.
    destruct (negb (Mint.sr_success sr) || Js.truthyOpt (Mint.sr_error sr))%bool eqn:E1.
    + rewrite release_then_send. eexists _, _. split; [reflexivity|]. cbn [Mint.status trace].
      split; [done|]. split; [done|].
      intros Ha Hb. rewrite Ha, Hb in E1. discriminate.
    + apply orb_false_iff in E1 as [Ea Eb]. apply negb_false_iff in Ea.
      destruct (_ && _)%bool eqn:E2.
      * rewrite release_then_send. eexists _, _. split; [reflexivity|].
        cbn [Mint.status trace]. split; [done|]. split; [|done].
        intros [H|H]; congruence.
      * rewrite release_then_send. eexists _, _. split; [reflexivity|].
        cbn [Mint.status trace]. split; [done|]. split.
        -- intros [H|H]; congruence.
        -- intros _ _ H1 H2 H3. rewrite H1, H2, H3 in E2. discriminate.
  - intros payment w. rewrite reserveStep_run.
    pose proof (settleStep_shape app env req token recipients payment) as (st & h & b & E).
    eexists _, _, _. split; [reflexivity|]. rewrite E, release_then_send.
    split; [reflexivity|]. cbn [trace Mint.status redis]. split; [by rewrite <- app_assoc|].
    split.
    + intros Hnone.
      assert (Mint.settleStep app env req true token recipients payment w
              = Mint.settleFailed app env true token recipients
                  (Error ("Batch settle" +:+ " timed out after " +:+ pretty 180000 +:+ "ms")) w)
        as Hstep.
      { unfold Mint.settleStep, Mint.settleCall. by rewrite Hnone. }
      pose proof (settleFailed_status app env token recipients
                    (Error ("Batch settle" +:+ " timed out after " +:+ pretty 180000 +:+ "ms")) w)
        as Hst.
      rewrite <- Hstep, E, release_then_send in Hst. cbn in Hst. by injection Hst.
    + intros Hconn Hs Hp. by apply pendingValue_roundtrip.
  - intros skip wl w. apply handleMintRequest_trace.
Qed.

(** ** Reserve and release under Redis failures *)

Lemma incrementPending_disconnected self token n s :
  PendingMintTracker.ensureConnection self = false ->
  PendingMintTracker.incrementPending self token n s = (Ret (Some 0), s).
Proof. intros H. unfold PendingMintTracker.incrementPending. by rewrite H. Qed.

Lemma decrementPending_disconnected self token n s :
  PendingMintTracker.ensureConnection self = false ->
  PendingMintTracker.decrementPending self token n s = (Ret 0, s).
Proof. intros H. unfold PendingMintTracker.decrementPending. by rewrite H. Qed.

Lemma incrementPending_incrby_fails self token n s msg :
  PendingMintTracker.ensureConnection self = true ->
  Redis.faults s Redis.INCRBY (PendingMintTracker.key token) = Redis.CommandError msg ->
  PendingMintTracker.incrementPending self token n s = (Ret (Some 0), s).
Proof.
  intros Hc Hf. unfold PendingMintTracker.incrementPending. rewrite Hc. cbn [negb].
  unfold try_catch, bind, Redis.incrby, Redis.command. by rewrite Hf.
Qed.

Lemma decrementPending_decrby_fails self token n s msg :
  PendingMintTracker.ensureConnection self = true ->
  Redis.faults s Redis.DECRBY (PendingMintTracker.key token) = Redis.CommandError msg ->
  PendingMintTracker.decrementPending self token n s = (Ret 0, s).
Proof.
  intros Hc Hf. unfold PendingMintTracker.decrementPending. rewrite Hc. cbn [negb].
  unfold try_catch, bind, Redis.decrby, Redis.command. by rewrite Hf.
Qed.

Lemma incrementPending_expire_fails self token n s msg :
  PendingMintTracker.ensureConnection self = true ->
  Redis.faults s Redis.INCRBY (PendingMintTracker.key token) = Redis.Healthy ->
  Redis.faults s Redis.EXPIRE (PendingMintTracker.key token) = Redis.CommandError msg ->
  PendingMintTracker.incrementPending self token n s =
    (Ret (Some 0), snd (Redis.run_incrby (PendingMintTracker.key token) n s)).
Proof.
  intros Hc Hi He. unfold PendingMintTracker.incrementPending. rewrite Hc. cbn [negb].
  unfold try_catch, bind, Redis.incrby, Redis.expire, Redis.command. rewrite Hi.
  unfold Redis.run_incrby at 1. cbn [Redis.faults Redis.put]. by rewrite He.
Qed.

(** C10, as stated, fails when EXPIRE is the command that is rejected:
    [incrementPending] returns 0, yet the counter has moved from nothing to 3
    (and carries no expiry). *)
Lemma reservation_stays_when_expire_fails :
  let s := failing Redis.EXPIRE "ETIMEDOUT" in
  let r := PendingMintTracker.incrementPending
             (TokenCapacityManager.pendingTracker theManager) tokenAA 3 s in
  Redis.faults s Redis.EXPIRE (PendingMintTracker.key tokenAA) = Redis.CommandError "ETIMEDOUT"
  /\ fst r = Ret (Some 0)
  /\ Redis.store s !! PendingMintTracker.key tokenAA = None
  /\ Redis.store (snd r) !! PendingMintTracker.key tokenAA = Some (Redis.Entry 3 None)
  /\ pendingValue (snd r) tokenAA = 3.
Proof. vm_compute. repeat split. Qed.

(** C10 (amended).  [reserveCapacity] and [releaseCapacity] never throw.
    Without a connection, or when INCRBY (resp. DECRBY) is rejected,
    [incrementPending] (resp. [decrementPending]) returns 0 and leaves the
    server as it was: no reservation is recorded.  When EXPIRE is rejected
    after INCRBY went through, [incrementPending] also returns 0, but the
    increment stays.  Hence step 5 of the handler always falls through with
    [capacityReserved = true] -- its 503 answer cannot be produced -- and a
    request can be settled (status 200) although no pending count was ever
    recorded for it. *)
Theorem reserve_release_never_throw mgr token n :
  let tracker := TokenCapacityManager.pendingTracker mgr in
  (forall w, exists w1 w2,
      TokenCapacityManager.reserveCapacity mgr token n w = (Ret tt, w1)
      /\ TokenCapacityManager.releaseCapacity mgr token n w = (Ret tt, w2))
  /\ (forall s,
        PendingMintTracker.ensureConnection tracker = false ->
        PendingMintTracker.incrementPending tracker token n s = (Ret (Some 0), s)
        /\ PendingMintTracker.decrementPending tracker token n s = (Ret 0, s))
  /\ (forall s msg,
        PendingMintTracker.ensureConnection tracker = true ->
        Redis.faults s Redis.INCRBY (PendingMintTracker.key token) = Redis.CommandError msg ->
        PendingMintTracker.incrementPending tracker token n s = (Ret (Some 0), s))
  /\ (forall s msg,
        PendingMintTracker.ensureConnection tracker = true ->
        Redis.faults s Redis.DECRBY (PendingMintTracker.key token) = Redis.CommandError msg ->
        PendingMintTracker.decrementPending tracker token n s = (Ret 0, s))
  /\ (forall s msg,
        PendingMintTracker.ensureConnection tracker = true ->
        Redis.faults s Redis.INCRBY (PendingMintTracker.key token) = Redis.Healthy ->
        Redis.faults s Redis.EXPIRE (PendingMintTracker.key token) = Redis.CommandError msg ->
        PendingMintTracker.incrementPending tracker token n s =
          (Ret (Some 0), snd (Redis.run_incrby (PendingMintTracker.key token) n s)))
  /\ (forall app recipients w,
        exists w1, Mint.reserveStep app token recipients w = (Ret (Mint.Next true), w1))
  /\ (let w := freshWorld (failing Redis.INCRBY "ECONNRESET") in
      let env := envWith (Some (BatchSettleManager.Resolved settledResult)) in
      let run := Mint.handleMintRequest theApp env paidRequest false false w in
      (exists resp, fst run = Ret resp /\ Mint.status resp = 200)
      /\ redis (snd (Mint.reserveStep theApp tokenAA ["0x01"] w)) = redis w
      /\ trace (snd run) = [Reserving 1 tokenAA; Releasing 1 tokenAA; Responded 200]
      /\ Redis.store (redis (snd run)) !! PendingMintTracker.key tokenAA = None).
Proof.
  intros tracker. cbv zeta. split_and!.
  - intros w. rewrite reserveCapacity_run, releaseCapacity_run. by eexists _, _.
  - intros s H. split.
    + by apply incrementPending_disconnected.
    + by apply decrementPending_disconnected.
  - intros s msg. apply incrementPending_incrby_fails.
  - intros s msg. apply decrementPending_decrby_fails.
  - intros s msg. apply incrementPending_expire_fails.
  - intros app recipients w. rewrite reserveStep_run. by eexists.
  - eexists. split; vm_compute; reflexivity.
  - rewrite reserveStep_run. cbn [snd redis].
    by rewrite (incrementPending_incrby_fails _ _ _ _ "ECONNRESET").
  - vm_compute. reflexivity.
  - vm_compute. reflexivity.
Qed.

(** ** The abuse detector always answers *)

Lemma try_catch_returns {S A} (m : Async S A) (a : A) s :
  exists v, fst (try_catch m (fun _ => ret a) s) = Ret v.
Proof. unfold try_catch, ret. destruct (m s) as [[v|e] s']; by eexists. Qed.

Lemma recordRequest_returns self id s :
  exists v, fst (AbuseDetector.recordRequest self id s) = Ret v.
Proof.
  unfold AbuseDetector.recordRequest.
  destruct (negb _); [by eexists|]. apply try_catch_returns.
Qed.

Lemma truthy_append_expired ip : Js.truthy (ip +:+ ":expired") = true.
Proof. by destruct ip. Qed.

Lemma createIdentifier_expired req :
  createIdentifier None (Some (Mint.clientIP req +:+ ":expired")) = expiredIdentifier req.
Proof.
  unfold createIdentifier, expiredIdentifier. cbn [Js.truthyOpt].
  by rewrite truthy_append_expired.
Qed.

(** ** The deadline gate *)

Section DeadlineGate.

Context (app : Mint.App) (env : Mint.Env) (req : Mint.Request) (token : string).

Let now := Mint.dateNow env / 1000.

Lemma deadlineStep_expired w deadline w1 verdict s' :
  TokenDeadlineCache.getDeploymentDeadline (Mint.chain env) token w = (Ret deadline, w1) ->
  deadline - now <= 0 ->
  AbuseDetector.recordRequest (Mint.abuseDetector app) (expiredIdentifier req) (redis w1)
    = (Ret verdict, s') ->
  Mint.deadlineStep app env req token w =
    (Ret (Mint.Return
            {| Mint.status := 410; Mint.headers := [];
               Mint.body := if AbuseDetector.allowed verdict
                            then remainingTimeBody token (deadline - now)
                            else minimalBody token |}),
     World s' (mintCountCache w1) (maxMintCache w1) (deadlineCache w1)
           (trace w1 ++ [Responded 410])).
Proof.
  intros Hd Hle Hrec. unfold Mint.deadlineStep, try_catch, bind. rewrite Hd.
  fold now. destruct (deadline - now <=? 0) eqn:E; [|apply Z.leb_gt in E; lia].
  rewrite createIdentifier_expired. unfold Mint.record, onRedis, lift. rewrite Hrec.
  by destruct (AbuseDetector.allowed verdict).
Qed.

Lemma deadlineStep_open w deadline w1 :
  TokenDeadlineCache.getDeploymentDeadline (Mint.chain env) token w = (Ret deadline, w1) ->
  0 < deadline - now ->
  Mint.deadlineStep app env req token w = (Ret (Mint.Next tt), w1).
Proof.
  intros Hd Hlt. unfold Mint.deadlineStep, try_catch, bind. rewrite Hd.
  fold now. by destruct (deadline - now <=? 0) eqn:E; [apply Z.leb_le in E; lia|].
Qed.

Lemma deadlineStep_unknown w e w1 :
  TokenDeadlineCache.getDeploymentDeadline (Mint.chain env) token w = (Thrown e, w1) ->
  Mint.deadlineStep app env req token w = (Ret (Mint.Next tt), w1).
Proof. intros Hd. unfold Mint.deadlineStep, try_catch, bind. by rewrite Hd. Qed.

Lemma deadlineStep_status w r w' :
  Mint.deadlineStep app env req token w = (Ret (Mint.Return r), w') -> Mint.status r = 410.
Proof.
  destruct (TokenDeadlineCache.getDeploymentDeadline (Mint.chain env) token w)
    as [[deadline|e] w1] eqn:Hd.
  - destruct (Z_le_gt_dec (deadline - now) 0) as [Hle|Hgt].
    + destruct (recordRequest_returns (Mint.abuseDetector app) (expiredIdentifier req) (redis w1))
        as [v Hv].
      destruct (AbuseDetector.recordRequest _ _ (redis w1)) as [r0 s'] eqn:Hrec.
      cbn in Hv. subst r0.
      rewrite (deadlineStep_expired w deadline w1 v s' Hd Hle Hrec).
      by intros [= <- _].
    + rewrite (deadlineStep_open w deadline w1 Hd); [discriminate|lia].
  - by rewrite (deadlineStep_unknown w e w1 Hd).
Qed.

End DeadlineGate.

(** C7, as stated, fails at the boundary: at [now = deadline] (both 2000 s)
    [isTokenExpired] answers [false], and the gate of POST /mint answers 410
    all the same. *)
Lemma gate_closes_at_the_deadline :
  let env := envAt 2000999 in
  let w := freshWorld emptyServer in
  let req := unpaidRequest "203.0.113.7" in
  Mint.dateNow env / 1000 <= 2000
  /\ TokenDeadlineCache.getDeploymentDeadline (Mint.chain env) tokenAA w
     = (Ret 2000, World emptyServer ∅ ∅ {[ Js.toLowerCase tokenAA := 2000 ]} [])
  /\ fst (TokenDeadlineCache.isTokenExpired (Mint.chain env) (Mint.dateNow env) tokenAA w)
     = Ret false
  /\ (exists r, fst (Mint.deadlineStep theApp env req tokenAA w) = Ret (Mint.Return r)
                /\ Mint.status r = 410)
  /\ (exists r, fst (Mint.handleMintRequest theApp env req false false w) = Ret r
                /\ Mint.status r = 410).
Proof.
  cbv zeta. split_and!.
  - vm_compute. discriminate.
  - vm_compute. reflexivity.
  - vm_compute. reflexivity.
  - eexists. split; vm_compute; reflexivity.
  - eexists. split; vm_compute; reflexivity.
Qed.

(** C7 (amended).  [isTokenExpired] answers [true] exactly when
    [now > deadline] (seconds).  The gate of POST /mint answers 410 exactly
    when the deadline could be read and [deadline - now <= 0], that is when
    [now >= deadline]: it then records one tick against [ip:<ip>:expired] and
    the body is the minimal one if that record denies, the remaining-time one
    otherwise.  When [now < deadline], or when the deadline cannot be read,
    the gate lets the request through. *)
Theorem deadline_gate app env req token w :
  let now := Mint.dateNow env / 1000 in
  (forall deadline w1,
      TokenDeadlineCache.getDeploymentDeadline (Mint.chain env) token w = (Ret deadline, w1) ->
      TokenDeadlineCache.isTokenExpired (Mint.chain env) (Mint.dateNow env) token w
        = (Ret (bool_decide (now > deadline)), w1)
      /\ (now >= deadline ->
          exists verdict s',
            AbuseDetector.recordRequest (Mint.abuseDetector app) (expiredIdentifier req)
                                        (redis w1) = (Ret verdict, s')
            /\ Mint.deadlineStep app env req token w =
                 (Ret (Mint.Return
                         {| Mint.status := 410; Mint.headers := [];
                            Mint.body := if AbuseDetector.allowed verdict
                                         then remainingTimeBody token (deadline - now)
                                         else minimalBody token |}),
                  World s' (mintCountCache w1) (maxMintCache w1) (deadlineCache w1)
                        (trace w ++ [Responded 410])))
      /\ (now < deadline ->
          Mint.deadlineStep app env req token w = (Ret (Mint.Next tt), w1)))
  /\ (forall e w1,
        TokenDeadlineCache.getDeploymentDeadline (Mint.chain env) token w = (Thrown e, w1) ->
        Mint.deadlineStep app env req token w = (Ret (Mint.Next tt), w1))
  /\ (forall r w',
        Mint.deadlineStep app env req token w = (Ret (Mint.Return r), w') ->
        Mint.status r = 410
        /\ exists deadline w1,
             TokenDeadlineCache.getDeploymentDeadline (Mint.chain env) token w = (Ret deadline, w1)
             /\ now >= deadline).
Proof.
  intros now. split_and!.
  - intros deadline w1 Hd. split_and!.
    + unfold TokenDeadlineCache.isTokenExpired, bind, ret. rewrite Hd. fold now.
      f_equal. f_equal. case_bool_decide; lia.
    + intros Hge.
      destruct (recordRequest_returns (Mint.abuseDetector app) (expiredIdentifier req) (redis w1))
        as [v Hv].
      destruct (AbuseDetector.recordRequest _ _ (redis w1)) as [r0 s'] eqn:Hrec.
      cbn in Hv. subst r0. exists v, s'. split; [done|].
      rewrite (deadlineStep_expired app env req token w deadline w1 v s' Hd); [|unfold now in *; lia|done].
      pose proof (getDeploymentDeadline_trace (Mint.chain env) token w) as [Ht _].
      rewrite Hd in Ht. cbn in Ht. by rewrite Ht.
    + intros Hlt. apply (deadlineStep_open app env req token w deadline w1 Hd).
      unfold now in *. lia.
  - intros e w1. apply deadlineStep_unknown.
  - intros r w' Hr. split; [by eapply deadlineStep_status|].
    destruct (TokenDeadlineCache.getDeploymentDeadline (Mint.chain env) token w)
      as [[deadline|e] w1] eqn:Hd.
    + exists deadline, w1. split; [done|].
      destruct (Z_lt_ge_dec now deadline) as [Hlt|Hge]; [|done].
      rewrite (deadlineStep_open app env req token w deadline w1 Hd) in Hr;
        [discriminate|unfold now in *; lia].
    + by rewrite (deadlineStep_unknown app env req token w e w1 Hd) in Hr.
Qed.

(** ** The 402 challenge *)

Lemma whitelistStep_status app req b w r w' :
  Mint.whitelistStep app req b w = (Ret (Mint.Return r), w') -> Mint.status r = 403.
Proof.
  unfold Mint.whitelistStep. destruct b; [|discriminate]. unfold bind.
  destruct (onRedis _ w) as [[st|e] w1]; [|discriminate].
  destruct (negb _); [|discriminate]. rewrite returning_send_run. by intros [= <- _].
Qed.

Lemma validateStep_status req w r w' :
  Mint.validateStep req w = (Ret (Mint.Return r), w') -> Mint.status r = 400.
Proof.
  unfold Mint.validateStep.
  destruct (Js.trim <$> Mint.body_tokenAddress req) as [t|];
    [|rewrite returning_send_run; by intros [= <- _]].
  destruct (negb (Js.truthy t)); [rewrite returning_send_run; by intros [= <- _]|].
  destruct (Mint.body_recipients req) as [rs|];
    [|rewrite returning_send_run; by intros [= <- _]].
  destruct (_ || _)%bool; [rewrite returning_send_run; by intros [= <- _]|discriminate].
Qed.

Lemma mintError_status env error w r w' :
  Mint.mintError env error w = (Ret r, w') -> Mint.status r = 400 \/ Mint.status r = 500.
Proof.
  unfold Mint.mintError.
  destruct (Mint.includes _ _); [rewrite send_run; intros [= <- _]; by left|].
  destruct (Mint.includes _ _); rewrite send_run; intros [= <- _]; [by left|by right].
Qed.

Lemma challenge_run token w :
  fst (Mint.challenge token w) = Ret (challengeOf token).
Proof. reflexivity. Qed.

(** Without a payment header, a 402 answer is the challenge for the trimmed
    token address of the body. *)
Lemma unpaid_402 app env req skip requireWhitelist w resp w' :
  Js.truthyOpt (Mint.x_payment req) = false ->
  Mint.handleMintRequest app env req skip requireWhitelist w = (Ret resp, w') ->
  Mint.status resp = 402 ->
  exists raw, Mint.body_tokenAddress req = Some raw /\ resp = challengeOf (Js.trim raw).
Proof.
  intros Hpay. unfold Mint.handleMintRequest, try_catch, Mint.andThen, bind.
  destruct (Mint.whitelistStep app req requireWhitelist w) as [[[[]|r0]|e0] w0] eqn:Ew.
  - destruct (Mint.validateStep req w0) as [[[[t rs]|r1]|e1] w1] eqn:Ev.
    + apply validateStep_next in Ev as ((raw & rs' & Hraw & -> & _) & _ & _).
      cbn [fst snd].
      destruct (Mint.deadlineStep app env req (Js.trim raw) w1) as [[[[]|r2]|e2] w2] eqn:Ed.
      * assert (forall k, match Mint.x_payment req with
                          | Some h => if negb (Js.truthy h) then Mint.challenge (Js.trim raw) else k h
                          | None => Mint.challenge (Js.trim raw)
                          end = Mint.challenge (Js.trim raw)) as ->.
        { intros k. destruct (Mint.x_payment req) as [h|]; [|done].
          cbn in Hpay. by rewrite Hpay. }
        intros H _. exists raw. split; [done|].
        pose proof (challenge_run (Js.trim raw) w2) as Hc.
        destruct (Mint.challenge (Js.trim raw) w2) as [rr ww]. cbn in Hc. subst rr.
        by injection H as <- _.
      * apply deadlineStep_status in Ed. intros [= <- _]. lia.
      * intros H. apply mintError_status in H. lia.
    + apply validateStep_status in Ev. intros [= <- _]. lia.
    + intros H. apply mintError_status in H. lia.
  - apply whitelistStep_status in Ew. intros [= <- _]. lia.
  - intros H. apply mintError_status in H. lia.
Qed.

(** C9.  Two runs of the handler on requests with the same body and no
    payment header that both answer 402 answer the same response -- status,
    [X-Payment-Options] header and JSON body -- whatever the time, the state
    of Redis and of the caches, the client address, the request id or the
    endpoint flags of each run. *)
Theorem challenge_is_deterministic
        app1 env1 req1 skip1 wl1 w1 resp1 w1'
        app2 env2 req2 skip2 wl2 w2 resp2 w2' :
  Mint.body_tokenAddress req1 = Mint.body_tokenAddress req2 ->
  Mint.body_recipients req1 = Mint.body_recipients req2 ->
  Js.truthyOpt (Mint.x_payment req1) = false ->
  Js.truthyOpt (Mint.x_payment req2) = false ->
  Mint.handleMintRequest app1 env1 req1 skip1 wl1 w1 = (Ret resp1, w1') ->
  Mint.handleMintRequest app2 env2 req2 skip2 wl2 w2 = (Ret resp2, w2') ->
  Mint.status resp1 = 402 ->
  Mint.status resp2 = 402 ->
  resp1 = resp2.
Proof.
  intros Htok _ Hp1 Hp2 H1 H2 S1 S2.
  destruct (unpaid_402 _ _ _ _ _ _ _ _ Hp1 H1 S1) as (raw1 & E1 & ->).
  destruct (unpaid_402 _ _ _ _ _ _ _ _ Hp2 H2 S2) as (raw2 & E2 & ->).
  congruence.
Qed.

Lemma challenge_is_deterministic_witness :
  let run1 := Mint.handleMintRequest theApp (envAt 1000000) (unpaidRequest "203.0.113.7")
                                     false false (freshWorld emptyServer) in
  let run2 := Mint.handleMintRequest theApp (envWith None) (unpaidRequest "198.51.100.9, 10.1.1.1")
                                     true false world4 in
  exists resp1 resp2,
    fst run1 = Ret resp1 /\ fst run2 = Ret resp2
    /\ Mint.status resp1 = 402 /\ Mint.status resp2 = 402
    /\ resp1 = resp2.
Proof.
  cbv zeta. exists (challengeOf tokenAA), (challengeOf tokenAA).
  split; [vm_compute; reflexivity|]. split; [vm_compute; reflexivity|].
  split; [reflexivity|]. split; [reflexivity|].
  refine (challenge_is_deterministic
            theApp (envAt 1000000) (unpaidRequest "203.0.113.7") false false
            (freshWorld emptyServer) (challengeOf tokenAA)
            (snd (Mint.handleMintRequest theApp (envAt 1000000) (unpaidRequest "203.0.113.7")
                    false false (freshWorld emptyServer)))
            theApp (envWith None) (unpaidRequest "198.51.100.9, 10.1.1.1") true false
            world4 (challengeOf tokenAA)
            (snd (Mint.handleMintRequest theApp (envWith None)
                    (unpaidRequest "198.51.100.9, 10.1.1.1") true false world4))
            eq_refl eq_refl eq_refl eq_refl _ _ eq_refl eq_refl);
    vm_compute; reflexivity.
Defined.

(** ** The abuse detector *)

Section RecordRequest.

Context (self : AbuseDetector.t) (identifier : string).
Context (Hconn : AbuseDetector.ensureConnection self = true).

Let cfg := AbuseDetector.config self.

Lemma isWhitelisted_healthy s :
  Redis.faults s Redis.EXISTS (whitelistKey identifier) = Redis.Healthy ->
  AbuseDetector.isWhitelisted self (Js.toLowerCase identifier) s =
    (Ret (match Redis.live s (whitelistKey identifier) with Some _ => true | None => false end), s).
Proof.
  intros Hf. unfold AbuseDetector.isWhitelisted. rewrite Hconn. cbn [negb].
  unfold bind, Redis.exists_, Redis.command. fold (whitelistKey identifier). rewrite Hf.
  unfold Redis.run_exists, ret. by destruct (Redis.live s _).
Qed.

Lemma isBanned_healthy s :
  Redis.faults s Redis.EXISTS (banKey identifier) = Redis.Healthy ->
  AbuseDetector.isBanned self (Js.toLowerCase identifier) s =
    (Ret (match Redis.live s (banKey identifier) with Some _ => true | None => false end), s).
Proof.
  intros Hf. unfold AbuseDetector.isBanned. rewrite Hconn. cbn [negb].
  unfold try_catch, bind, Redis.exists_, Redis.command. fold (banKey identifier). rewrite Hf.
  unfold Redis.run_exists, ret. by destruct (Redis.live s _).
Qed.

Lemma isBanned_fails s msg :
  Redis.faults s Redis.EXISTS (banKey identifier) = Redis.CommandError msg ->
  AbuseDetector.isBanned self (Js.toLowerCase identifier) s = (Ret false, s).
Proof.
  intros Hf. unfold AbuseDetector.isBanned. rewrite Hconn. cbn [negb].
  unfold try_catch, bind, Redis.exists_, Redis.command. fold (banKey identifier). by rewrite Hf.
Qed.

Lemma recordRequest_unfold s :
  AbuseDetector.recordRequest self identifier s =
    try_catch
      (let* whitelisted := AbuseDetector.isWhitelisted self (Js.toLowerCase identifier) in
       if whitelisted then ret AbuseDetector.allow
       else
         let* banned := AbuseDetector.isBanned self (Js.toLowerCase identifier) in
         if banned then
           let* ttl := Redis.ttl (banKey identifier) in
           ret (AbuseDetector.deny (AbuseDetector.bannedText ttl))
         else counting self identifier)
      (fun _ => ret AbuseDetector.allow) s.
Proof. unfold AbuseDetector.recordRequest. rewrite Hconn. reflexivity. Qed.

Lemma counting_incr_fails s msg :
  Redis.faults s Redis.INCR (countKey identifier) = Redis.CommandError msg ->
  counting self identifier s = (Thrown (Error msg), s).
Proof.
  intros Hf. unfold counting, bind, Redis.incr, Redis.command. by rewrite Hf.
Qed.

Lemma counting_pexpire_fails s msg :
  Redis.faults s Redis.INCR (countKey identifier) = Redis.Healthy ->
  fst (Redis.run_incrby (countKey identifier) 1 s) = 1 ->
  Redis.faults s Redis.PEXPIRE (countKey identifier) = Redis.CommandError msg ->
  counting self identifier s =
    (Thrown (Error msg), snd (Redis.run_incrby (countKey identifier) 1 s)).
Proof.
  intros Hi H1 Hp. unfold counting, bind, Redis.incr, Redis.pexpire, Redis.command.
  rewrite Hi. destruct (Redis.run_incrby (countKey identifier) 1 s) as [c s1] eqn:E.
  cbn [fst snd] in *. subst c. cbn [Js.strictEq Z.eqb Pos.eqb].
  assert (Redis.faults s1 = Redis.faults s) as -> by (by injection E as _ <-).
  by rewrite Hp.
Qed.

(** The count key after a successful INCR and, if it applies, PEXPIRE. *)
Lemma counting_counted s :
  Redis.faults s Redis.INCR (countKey identifier) = Redis.Healthy ->
  Redis.faults s Redis.PEXPIRE (countKey identifier) = Redis.Healthy ->
  counting self identifier s =
    (let (count, s2) := counted self identifier s in
     if count >? AbuseDetector.maxRequestsPerWindow cfg then
       (let* _ := AbuseDetector.banIdentifier self (Js.toLowerCase identifier) in
        ret (AbuseDetector.deny (AbuseDetector.limitText cfg))) s2
     else (Ret AbuseDetector.allow, s2)).
Proof.
  intros Hi Hp. unfold counting, counted, bind, Redis.incr, Redis.pexpire, Redis.command.
  rewrite Hi. destruct (Redis.run_incrby (countKey identifier) 1 s) as [c s1] eqn:E.
  assert (Redis.faults s1 = Redis.faults s) as Hf by (by injection E as _ <-).
  cbn [Js.strictEq Js.toNumber]. fold cfg.
  destruct (c =? 1) eqn:E1.
  - rewrite Hf, Hp.
    destruct (Redis.run_expire (countKey identifier) (AbuseDetector.timeWindowMs cfg) s1)
      as [x s2] eqn:E2.
    cbn [ret fst snd]. by destruct (c >? _).
  - cbn [ret]. by destruct (c >? _).
Qed.

Lemma faults_counted s :
  Redis.faults (snd (counted self identifier s)) = Redis.faults s.
Proof.
  unfold counted, Redis.run_incrby, Redis.run_expire. cbn [snd fst].
  destruct (_ =? 1); [|done]. by destruct (Redis.live _ _).
Qed.

Lemma banIdentifier_healthy s :
  Redis.faults s Redis.SET (banKey identifier) = Redis.Healthy ->
  AbuseDetector.banIdentifier self (Js.toLowerCase identifier) s =
    (Ret tt, snd (Redis.run_set (banKey identifier) 1
                                (Some (AbuseDetector.banDurationMs cfg)) s)).
Proof.
  intros Hf. unfold AbuseDetector.banIdentifier. rewrite Hconn. cbn [negb].
  unfold try_catch, bind, Redis.set_px, Redis.commandR. fold (banKey identifier).
  rewrite Hf. unfold Redis.run_set. by destruct (_ <=? 0).
Qed.

Lemma banIdentifier_fails s msg :
  Redis.faults s Redis.SET (banKey identifier) = Redis.CommandError msg ->
  AbuseDetector.banIdentifier self (Js.toLowerCase identifier) s = (Ret tt, s).
Proof.
  intros Hf. unfold AbuseDetector.banIdentifier. rewrite Hconn. cbn [negb].
  unfold try_catch, bind, Redis.set_px, Redis.commandR. fold (banKey identifier).
  by rewrite Hf.
Qed.

Lemma counting_healthy s :
  Redis.faults s Redis.INCR (countKey identifier) = Redis.Healthy ->
  Redis.faults s Redis.PEXPIRE (countKey identifier) = Redis.Healthy ->
  Redis.faults s Redis.SET (banKey identifier) = Redis.Healthy ->
  counting self identifier s =
    (Ret (fst (countAndBan self identifier s)), snd (countAndBan self identifier s)).
Proof.
  intros Hi Hp Hs. rewrite (counting_counted s Hi Hp). unfold countAndBan.
  pose proof (faults_counted s) as Hf.
  destruct (counted self identifier s) as [c s2]. cbn [snd] in Hf. fold cfg.
  destruct (c >? _); [|done].
  unfold bind. rewrite banIdentifier_healthy; [done|]. by rewrite Hf.
Qed.

Lemma counting_ban_fails s msg :
  Redis.faults s Redis.INCR (countKey identifier) = Redis.Healthy ->
  Redis.faults s Redis.PEXPIRE (countKey identifier) = Redis.Healthy ->
  Redis.faults s Redis.SET (banKey identifier) = Redis.CommandError msg ->
  fst (counted self identifier s) > AbuseDetector.maxRequestsPerWindow cfg ->
  counting self identifier s =
    (Ret (AbuseDetector.deny (AbuseDetector.limitText cfg)), snd (counted self identifier s)).
Proof.
  intros Hi Hp Hs Hgt. rewrite (counting_counted s Hi Hp).
  pose proof (faults_counted s) as Hf.
  destruct (counted self identifier s) as [c s2]. cbn [fst snd] in *.
  destruct (c >? _) eqn:E; [|lia].
  unfold bind. rewrite (banIdentifier_fails s2 msg); [done|]. by rewrite Hf.
Qed.

End RecordRequest.

Lemma run_ttl_state k s : snd (Redis.run_ttl k s) = s.
Proof.
  unfold Redis.run_ttl. destruct (Redis.live s k) as [e|]; [|done].
  by destruct (Redis.expireAt e).
Qed.

(** C3, as stated, fails for its last sentence: a rejected SET of the ban key
    does not make the detector allow.  The client is at the limit (10), the
    11th request is counted and denied, the rejection of SET is swallowed by
    [banIdentifier], and no ban key is written. *)
Lemma denied_although_a_command_fails :
  let r := AbuseDetector.recordRequest theDetector "ip:203.0.113.7" atTheLimit in
  Redis.faults atTheLimit Redis.SET (banKey "ip:203.0.113.7") = Redis.CommandError "ETIMEDOUT"
  /\ fst r = Ret (AbuseDetector.deny (AbuseDetector.limitText (AbuseDetector.config theDetector)))
  /\ AbuseDetector.allowed
       (AbuseDetector.deny (AbuseDetector.limitText (AbuseDetector.config theDetector))) = false
  /\ Redis.value <$> (Redis.store (snd r) !! countKey "ip:203.0.113.7") = Some 11
  /\ Redis.store (snd r) !! banKey "ip:203.0.113.7" = None.
Proof. cbv zeta. split_and!; vm_compute; reflexivity. Qed.

(** C3 (amended).  Without a connection [recordRequest] allows.  With one
    and on a server whose commands all run it behaves as [recorded]: allow a
    whitelisted identifier; else, if the ban key exists, deny and report the
    remaining ban time; else increment the count key, set the window as its
    expiry exactly when the new count is 1, and beyond
    [maxRequestsPerWindow] set the ban key for the ban duration and deny;
    allow otherwise.  A rejected command makes it allow when it is the
    whitelist check, the TTL read, the increment or the expiry of the count
    key.  A rejected ban check counts as "not banned" and the request goes on
    to be counted; a rejected SET of the ban key leaves the denial in
    place. *)
Theorem recordRequest_semantics self identifier s :
  let cfg := AbuseDetector.config self in
  let wl := whitelistKey identifier in
  let ban := banKey identifier in
  let cnt := countKey identifier in
  (AbuseDetector.ensureConnection self = false ->
   AbuseDetector.recordRequest self identifier s = (Ret AbuseDetector.allow, s))
  /\ (AbuseDetector.ensureConnection self = true ->
      (Redis.healthy s ->
       AbuseDetector.recordRequest self identifier s =
         (Ret (fst (recorded self identifier s)), snd (recorded self identifier s)))
      /\ (forall msg,
            Redis.faults s Redis.EXISTS wl = Redis.CommandError msg ->
            AbuseDetector.recordRequest self identifier s = (Ret AbuseDetector.allow, s))
      /\ (forall msg e,
            Redis.faults s Redis.EXISTS wl = Redis.Healthy -> Redis.live s wl = None ->
            Redis.faults s Redis.EXISTS ban = Redis.Healthy -> Redis.live s ban = Some e ->
            Redis.faults s Redis.TTL ban = Redis.CommandError msg ->
            AbuseDetector.recordRequest self identifier s = (Ret AbuseDetector.allow, s))
      /\ (forall msg,
            Redis.faults s Redis.EXISTS wl = Redis.Healthy -> Redis.live s wl = None ->
            Redis.faults s Redis.EXISTS ban = Redis.Healthy -> Redis.live s ban = None ->
            Redis.faults s Redis.INCR cnt = Redis.CommandError msg ->
            AbuseDetector.recordRequest self identifier s = (Ret AbuseDetector.allow, s))
      /\ (forall msg,
            Redis.faults s Redis.EXISTS wl = Redis.Healthy -> Redis.live s wl = None ->
            Redis.faults s Redis.EXISTS ban = Redis.Healthy -> Redis.live s ban = None ->
            Redis.faults s Redis.INCR cnt = Redis.Healthy ->
            fst (Redis.run_incrby cnt 1 s) = 1 ->
            Redis.faults s Redis.PEXPIRE cnt = Redis.CommandError msg ->
            AbuseDetector.recordRequest self identifier s =
              (Ret AbuseDetector.allow, snd (Redis.run_incrby cnt 1 s)))
      /\ (forall msg,
            Redis.faults s Redis.EXISTS wl = Redis.Healthy -> Redis.live s wl = None ->
            Redis.faults s Redis.EXISTS ban = Redis.CommandError msg ->
            Redis.faults s Redis.INCR cnt = Redis.Healthy ->
            Redis.faults s Redis.PEXPIRE cnt = Redis.Healthy ->
            Redis.faults s Redis.SET ban = Redis.Healthy ->
            AbuseDetector.recordRequest self identifier s =
              (Ret (fst (countAndBan self identifier s)), snd (countAndBan self identifier s)))
      /\ (forall msg,
            Redis.faults s Redis.EXISTS wl = Redis.Healthy -> Redis.live s wl = None ->
            Redis.faults s Redis.EXISTS ban = Redis.Healthy -> Redis.live s ban = None ->
            Redis.faults s Redis.INCR cnt = Redis.Healthy ->
            Redis.faults s Redis.PEXPIRE cnt = Redis.Healthy ->
            Redis.faults s Redis.SET ban = Redis.CommandError msg ->
            fst (counted self identifier s) > AbuseDetector.maxRequestsPerWindow cfg ->
            AbuseDetector.recordRequest self identifier s =
              (Ret (AbuseDetector.deny (AbuseDetector.limitText cfg)),
               snd (counted self identifier s)))).
Proof.
  intros cfg wl ban cnt. split.
  { intros Hc. unfold AbuseDetector.recordRequest. by rewrite Hc. }
  intros Hc. split_and!.
  - intros Hs. rewrite (recordRequest_unfold self identifier Hc). unfold try_catch, bind.
    rewrite (isWhitelisted_healthy self identifier Hc s (Hs _ _)). unfold recorded.
    destruct (Redis.live s (whitelistKey identifier)); [done|].
    rewrite (isBanned_healthy self identifier Hc s (Hs _ _)).
    destruct (Redis.live s (banKey identifier)) eqn:Lb.
    + unfold Redis.ttl. rewrite (command_healthy s Hs), run_ttl_state. reflexivity.
    + by rewrite (counting_healthy self identifier Hc s (Hs _ _) (Hs _ _) (Hs _ _)).
  - intros msg Hw. rewrite (recordRequest_unfold self identifier Hc). unfold try_catch, bind.
    unfold AbuseDetector.isWhitelisted. rewrite Hc. cbn [negb].
    unfold bind, Redis.exists_, Redis.command. fold (whitelistKey identifier). fold wl.
    by rewrite Hw.
  - intros msg e Hw Lw Hb Lb Ht.
    rewrite (recordRequest_unfold self identifier Hc). unfold try_catch, bind.
    rewrite (isWhitelisted_healthy self identifier Hc s Hw). fold wl. rewrite Lw.
    rewrite (isBanned_healthy self identifier Hc s Hb). fold ban. rewrite Lb.
    unfold Redis.ttl, Redis.command. by rewrite Ht.
  - intros msg Hw Lw Hb Lb Hi.
    rewrite (recordRequest_unfold self identifier Hc). unfold try_catch, bind.
    rewrite (isWhitelisted_healthy self identifier Hc s Hw). fold wl. rewrite Lw.
    rewrite (isBanned_healthy self identifier Hc s Hb). fold ban. rewrite Lb.
    by rewrite (counting_incr_fails self identifier s msg Hi).
  - intros msg Hw Lw Hb Lb Hi H1 Hp.
    rewrite (recordRequest_unfold self identifier Hc). unfold try_catch, bind.
    rewrite (isWhitelisted_healthy self identifier Hc s Hw). fold wl. rewrite Lw.
    rewrite (isBanned_healthy self identifier Hc s Hb). fold ban. rewrite Lb.
    by rewrite (counting_pexpire_fails self identifier s msg Hi H1 Hp).
  - intros msg Hw Lw Hb Hi Hp Hs.
    rewrite (recordRequest_unfold self identifier Hc). unfold try_catch, bind.
    rewrite (isWhitelisted_healthy self identifier Hc s Hw). fold wl. rewrite Lw.
    rewrite (isBanned_fails self identifier Hc s msg Hb).
    by rewrite (counting_healthy self identifier Hc s Hi Hp Hs).
  - intros msg Hw Lw Hb Lb Hi Hp Hs Hgt.
    rewrite (recordRequest_unfold self identifier Hc). unfold try_catch, bind.
    rewrite (isWhitelisted_healthy self identifier Hc s Hw). fold wl. rewrite Lw.
    rewrite (isBanned_healthy self identifier Hc s Hb). fold ban. rewrite Lb.
    by rewrite (counting_ban_fails self identifier Hc s msg Hi Hp Hs Hgt).
Qed.

(** ** The connection pool *)

Lemma validate_none stack p p' :
  RedisConnectionPool.validate stack p = (None, p') ->
  RedisConnectionPool.availableConnections p' = []
  /\ RedisConnectionPool.waitingQueue p' = RedisConnectionPool.waitingQueue p
  /\ RedisConnectionPool.isShuttingDown p' = RedisConnectionPool.isShuttingDown p.
Proof.
  revert p. induction stack as [|c rest IH]; intros p; cbn.
  - by intros [= <-].
  - destruct (_ && _)%bool; [discriminate|]. intros H. by apply IH in H.
Qed.

Lemma enqueueWaiter_spec p a p' :
  RedisConnectionPool.enqueueWaiter p = (a, p') ->
  a = RedisConnectionPool.Waiting (RedisConnectionPool.nextWaiter p)
  /\ RedisConnectionPool.waitingQueue p'
     = RedisConnectionPool.waitingQueue p
         ++ [RedisConnectionPool.Handover (RedisConnectionPool.nextWaiter p)]
  /\ RedisConnectionPool.availableConnections p' = RedisConnectionPool.availableConnections p
  /\ RedisConnectionPool.connectionsInUse p' = RedisConnectionPool.connectionsInUse p
  /\ RedisConnectionPool.isShuttingDown p' = RedisConnectionPool.isShuttingDown p.
Proof. unfold RedisConnectionPool.enqueueWaiter. by intros [= <- <-]. Qed.

Lemma createConnection_failed connects p e p' :
  RedisConnectionPool.createConnection connects p = (Thrown e, p') ->
  RedisConnectionPool.availableConnections p' = RedisConnectionPool.availableConnections p
  /\ RedisConnectionPool.waitingQueue p' = RedisConnectionPool.waitingQueue p
  /\ RedisConnectionPool.isShuttingDown p' = RedisConnectionPool.isShuttingDown p.
Proof.
  unfold RedisConnectionPool.createConnection.
  destruct (_ <=? _)%nat; [by intros [= _ <-]|].
  destruct (connects _); [discriminate|]. by intros [= _ <-].
Qed.

Lemma createConnection_pops connects p p' :
  RedisConnectionPool.createConnection connects p = (Ret tt, p') ->
  exists c p'', RedisConnectionPool.popAvailable p' = (Some c, p'').
Proof.
  unfold RedisConnectionPool.createConnection.
  destruct (_ <=? _)%nat; [discriminate|].
  destruct (connects _); [|discriminate]. intros [= <-].
  unfold RedisConnectionPool.popAvailable. cbn [RedisConnectionPool.availableConnections].
  rewrite rev_app_distr. cbn. by eexists _, _.
Qed.

(** A caller is queued only on a running pool with an empty free list, and
    at the end of the queue. *)
Lemma acquire_waiting connects p w p1 :
  RedisConnectionPool.acquire connects p = (RedisConnectionPool.Waiting w, p1) ->
  RedisConnectionPool.isShuttingDown p1 = false
  /\ RedisConnectionPool.waitingQueue p1
     = RedisConnectionPool.waitingQueue p ++ [RedisConnectionPool.Handover w]
  /\ RedisConnectionPool.availableConnections p1 = [].
Proof.
  unfold RedisConnectionPool.acquire.
  destruct (RedisConnectionPool.isShuttingDown p) eqn:Hsd; [discriminate|].
  destruct (RedisConnectionPool.validate _ p) as [[c|] p0] eqn:Ev; [discriminate|].
  apply validate_none in Ev as (Ev & Eq & Es).
  destruct (_ <? _)%nat.
  - destruct (RedisConnectionPool.createConnection connects p0) as [[[]|e] p2] eqn:Ec.
    + destruct (createConnection_pops connects p0 p2 Ec) as (c & p3 & ->). discriminate.
    + apply createConnection_failed in Ec as (Ec & Ecq & Ecs). intros H.
      apply enqueueWaiter_spec in H as ([= ->] & Hq & Ha & _ & Hs).
      split_and!; congruence.
  - intros H. apply enqueueWaiter_spec in H as ([= ->] & Hq & Ha & _ & Hs).
    split_and!; congruence.
Qed.

Lemma acquire_never_rejects connects p e :
  fst (RedisConnectionPool.acquire connects p)
  <> RedisConnectionPool.Settled (RedisConnectionPool.Rejected e).
Proof.
  unfold RedisConnectionPool.acquire, RedisConnectionPool.enqueueWaiter.
  destruct (RedisConnectionPool.isShuttingDown p); [discriminate|].
  destruct (RedisConnectionPool.validate _ p) as [[c|] p0]; [discriminate|].
  destruct (_ <? _)%nat; [|discriminate].
  destruct (RedisConnectionPool.createConnection connects p0) as [[[]|e'] p2]; [|discriminate].
  destruct (RedisConnectionPool.popAvailable p2) as [[c|] p3]; discriminate.
Qed.

(** C8, as stated, fails: when the timer of a queued caller fires, the
    caller receives no error -- and nothing else: the timer looks for
    [resolve] in a queue that holds the hand-over callback, finds nothing,
    and leaves the caller queued.  What ends the wait without a connection
    is [shutdown], with [null]. *)
Lemma waiter_gets_no_timeout_error :
  let a := RedisConnectionPool.acquire alwaysConnects busyPool in
  let t := RedisConnectionPool.acquireTimedOut 0 (snd a) in
  fst a = RedisConnectionPool.Waiting 0
  /\ RedisConnectionPool.waitingQueue (snd a) = [RedisConnectionPool.Handover 0]
  /\ fst t = None
  /\ (forall e, fst t <> Some (RedisConnectionPool.Rejected e))
  /\ RedisConnectionPool.waitingQueue (snd t) = [RedisConnectionPool.Handover 0]
  /\ fst (RedisConnectionPool.shutdown (snd t)) = [(0%nat, RedisConnectionPool.Fulfilled None)].
Proof. cbv zeta. split_and!; try (vm_compute; reflexivity). intros e. vm_compute. discriminate. Qed.

(** The releases of ready connections serve the queue from its head. *)
Lemma releaseAll_serves connects cs p :
  RedisConnectionPool.isShuttingDown p = false ->
  (length cs <= length (RedisConnectionPool.waitingQueue p))%nat ->
  NoDup (map RedisConnectionPool.connId cs) ->
  (forall c, c ∈ cs ->
             RedisConnectionPool.isReady c = true
             /\ RedisConnectionPool.connId c ∈ RedisConnectionPool.connectionsInUse p) ->
  let r := releaseAll connects cs p in
  fst r = zip_with (fun cb c => (waiterOf cb, RedisConnectionPool.Fulfilled (Some c)))
                   (RedisConnectionPool.waitingQueue p) cs
  /\ RedisConnectionPool.waitingQueue (snd r)
     = drop (length cs) (RedisConnectionPool.waitingQueue p)
  /\ RedisConnectionPool.isShuttingDown (snd r) = false
  /\ (forall i, i ∈ RedisConnectionPool.connectionsInUse p ->
                i ∉ map RedisConnectionPool.connId cs ->
                i ∈ RedisConnectionPool.connectionsInUse (snd r)).
Proof.
  revert p. induction cs as [|c cs IH]; intros p Hsd Hlen Hnd Hcs; cbv zeta.
  { cbn [releaseAll fst snd length drop]. split_and!; try done.
    by destruct (RedisConnectionPool.waitingQueue p). }
  destruct (RedisConnectionPool.waitingQueue p) as [|cb q] eqn:Hq; [cbn in Hlen; lia|].
  cbn [map] in Hnd. apply NoDup_cons in Hnd as [Hn Hnd].
  destruct (Hcs c) as [Hr Hu]; [left|].
  cbn [releaseAll]. unfold RedisConnectionPool.release.
  rewrite bool_decide_eq_true_2 by done. cbn [negb].
  cbn [RedisConnectionPool.isShuttingDown RedisConnectionPool.waitingQueue
       RedisConnectionPool.options RedisConnectionPool.connections
       RedisConnectionPool.availableConnections RedisConnectionPool.connectionsInUse
       RedisConnectionPool.nextConnectionId RedisConnectionPool.nextWaiter].
  rewrite Hr, Hsd, Hq. cbn [andb negb].
  set (p0 := RedisConnectionPool.Pool _ _ _ q _ _ _ _).
  assert (exists p',
            RedisConnectionPool.invoke cb (Some c) p0
            = ((waiterOf cb, RedisConnectionPool.Fulfilled (Some c)), p')
            /\ RedisConnectionPool.isShuttingDown p' = false
            /\ RedisConnectionPool.waitingQueue p' = q
            /\ (forall i, i ∈ RedisConnectionPool.connectionsInUse p ->
                          i <> RedisConnectionPool.connId c ->
                          i ∈ RedisConnectionPool.connectionsInUse p'))
    as (p' & -> & Hsd' & Hq' & Hu').
  { destruct cb as [w|w]; eexists; (split; [reflexivity|]); split_and!; try done;
      intros i Hi Hne; unfold p0, RedisConnectionPool.markInUse;
      cbn [RedisConnectionPool.connectionsInUse]; [|right];
      (apply list_elem_of_filter; by split). }
  destruct (IH p') as (I1 & I2 & I3 & I4); try done.
  { rewrite Hq'. cbn in Hlen. lia. }
  { intros c' Hc'. destruct (Hcs c') as [Hr' Hu'']; [by right|]. split; [done|].
    apply Hu'; [done|]. intros E. apply Hn. rewrite <- E. apply list_elem_of_fmap. by exists c'. }
  destruct (releaseAll connects cs p') as [more p2]. cbn [fst snd] in *.
  rewrite I1, I2, I3, Hq'. split_and!; try done.
  intros i Hi Hni. cbn [map] in Hni. apply not_elem_of_cons in Hni as [Hne Hni].
  apply I4; [by apply Hu'|done].
Qed.

(** C8 (amended).  When [acquire] cannot hand out a connection -- the free
    list is exhausted and the pool is at its maximum or cannot create a
    connection -- the caller is queued last.  The ready connections that are
    released next go to the callers ahead of it, in their order, one each;
    once at the head of the queue the caller is handed the next ready
    connection that is released.  Failures of acquisition are reported as
    [null], never as errors: [acquire] does not reject, it resolves to
    [null] on a pool that is shutting down, [shutdown] resolves the queued
    caller with [null], and [execute] on [null] resolves to [null] without
    running the command. *)
Theorem acquire_reports_null connects p w p1 :
  RedisConnectionPool.acquire connects p = (RedisConnectionPool.Waiting w, p1) ->
  RedisConnectionPool.availableConnections p1 = []
  /\ RedisConnectionPool.waitingQueue p1
     = RedisConnectionPool.waitingQueue p ++ [RedisConnectionPool.Handover w]
  /\ (forall cs c,
        length cs = length (RedisConnectionPool.waitingQueue p) ->
        NoDup (map RedisConnectionPool.connId (cs ++ [c])) ->
        (forall x, x ∈ cs ++ [c] ->
                   RedisConnectionPool.isReady x = true
                   /\ RedisConnectionPool.connId x ∈ RedisConnectionPool.connectionsInUse p1) ->
        let r := releaseAll connects cs p1 in
        fst r = zip_with (fun cb x => (waiterOf cb, RedisConnectionPool.Fulfilled (Some x)))
                         (RedisConnectionPool.waitingQueue p) cs
        /\ RedisConnectionPool.waitingQueue (snd r) = [RedisConnectionPool.Handover w]
        /\ fst (RedisConnectionPool.release connects c (snd r))
           = Some (w, RedisConnectionPool.Fulfilled (Some c)))
  /\ (forall q e,
        fst (RedisConnectionPool.acquire connects q)
          <> RedisConnectionPool.Settled (RedisConnectionPool.Rejected e))
  /\ (forall q,
        RedisConnectionPool.isShuttingDown q = true ->
        RedisConnectionPool.acquire connects q
        = (RedisConnectionPool.Settled (RedisConnectionPool.Fulfilled None), q))
  /\ (w, RedisConnectionPool.Fulfilled None) ∈ fst (RedisConnectionPool.shutdown p1)
  /\ (forall (fn : RedisConnectionPool.connection -> Async Redis.server (option Z)) q s,
        RedisConnectionPool.execute connects (RedisConnectionPool.Fulfilled None) fn (q, s)
        = (Ret None, (q, s))).
Proof.
  intros Ha. apply acquire_waiting in Ha as (Hsd & Hw & Hav).
  split_and!; [done|done| | | | |].
  - intros cs c Hlen Hnd Hall. cbv zeta.
    rewrite map_app in Hnd. apply NoDup_app in Hnd as (Hnd & Hdis & _).
    destruct (releaseAll_serves connects cs p1 Hsd) as (S1 & S2 & S3 & S4).
    { rewrite Hw, length_app. cbn [length]. lia. }
    { done. }
    { intros x Hx. apply Hall. apply elem_of_app. by left. }
    destruct (Hall c) as [Hr Hu]; [apply elem_of_app; right; left|].
    assert (RedisConnectionPool.connId c
            ∈ RedisConnectionPool.connectionsInUse (snd (releaseAll connects cs p1))) as Hu'.
    { apply S4; [done|]. intros Hin. apply (Hdis _ Hin). cbn [map]. left. }
    rewrite Hw in S1, S2. rewrite drop_app_length' in S2 by done.
    split_and!.
    + rewrite S1. rewrite zip_with_app_l. rewrite <- Hlen, take_ge by lia.
      rewrite drop_ge by lia. cbn [zip_with]. by rewrite app_nil_r.
    + exact S2.
    + unfold RedisConnectionPool.release.
      rewrite bool_decide_eq_true_2 by done. cbn [negb].
      cbn [RedisConnectionPool.isShuttingDown RedisConnectionPool.waitingQueue].
      rewrite Hr, S3, S2. reflexivity.
  - intros q e. apply acquire_never_rejects.
  - intros q Hq. unfold RedisConnectionPool.acquire. by rewrite Hq.
  - unfold RedisConnectionPool.shutdown. cbn [fst RedisConnectionPool.waitingQueue].
    rewrite Hw, map_app. apply elem_of_app. right. cbn. left.
  - done.
Qed.

Lemma acquire_reports_null_witness :
  let one := RedisConnectionPool.Connection 1 RedisConnectionPool.ready true in
  let two := RedisConnectionPool.Connection 2 RedisConnectionPool.ready true in
  let waiting := snd (RedisConnectionPool.acquire alwaysConnects crowdedPool) in
  RedisConnectionPool.acquire alwaysConnects crowdedPool
  = (RedisConnectionPool.Waiting 1, waiting)
  /\ fst (releaseAll alwaysConnects [one] waiting)
     = [(0%nat, RedisConnectionPool.Fulfilled (Some one))]
  /\ fst (RedisConnectionPool.release alwaysConnects two
            (snd (releaseAll alwaysConnects [one] waiting)))
     = Some (1%nat, RedisConnectionPool.Fulfilled (Some two)).
Proof.
  cbv zeta.
  assert (RedisConnectionPool.acquire alwaysConnects crowdedPool
          = (RedisConnectionPool.Waiting 1,
             snd (RedisConnectionPool.acquire alwaysConnects crowdedPool))) as H
    by (vm_compute; reflexivity).
  split; [exact H|].
  destruct (proj1 (proj2 (proj2 (acquire_reports_null alwaysConnects crowdedPool 1 _ H)))
              [RedisConnectionPool.Connection 1 RedisConnectionPool.ready true]
              (RedisConnectionPool.Connection 2 RedisConnectionPool.ready true))
    as (H1 & _ & H3).
  - reflexivity.
  - refine (bool_decide_unpack _ _). vm_compute. exact I.
  - intros x Hx. repeat (apply elem_of_cons in Hx as [->|Hx]).
    + split; [reflexivity|]. refine (bool_decide_unpack _ _). vm_compute. exact I.
    + split; [reflexivity|]. refine (bool_decide_unpack _ _). vm_compute. exact I.
    + by apply elem_of_nil in Hx.
  - split; [exact H1|exact H3].
Defined.

(** ** The coalescer: re-verification and mapping back *)

Section BatchSettle.

Import BatchSettleManager.

Context (f : Facilitator).

Lemma item_reverify i : item (reverify f i) = i.
Proof. unfold reverify. by destruct (verify f i). Qed.

Lemma valid_split items :
  map item (filter (fun r => valid r = true) (map (reverify f) items)) = validItems f items.
Proof.
  unfold validItems. induction items as [|i r IH]; [done|].
  cbn [map]. rewrite !filter_cons.
  destruct (decide (valid (reverify f i) = true)); cbn [map]; rewrite ?item_reverify; congruence.
Qed.

Lemma invalid_split items :
  filter (fun r => valid r = false) (map (reverify f) items)
  = map (reverify f) (filter (fun i => valid (reverify f i) = false) items).
Proof.
  induction items as [|i r IH]; [done|].
  cbn [map]. rewrite !filter_cons.
  destruct (decide (valid (reverify f i) = false)); cbn [map]; congruence.
Qed.

Lemma valid_invalid_length items :
  (length (validItems f items) + invalidCount f items = length items)%nat.
Proof.
  unfold validItems, invalidCount. induction items as [|i r IH]; [done|].
  rewrite !filter_cons.
  destruct (valid (reverify f i)) eqn:E;
    repeat (case_decide; try congruence); cbn [length]; lia.
Qed.

Lemma validItems_valid items i :
  i ∈ validItems f items <-> valid (reverify f i) = true /\ i ∈ items.
Proof.
  exact (list_elem_of_filter (fun i => valid (reverify f i) = true) items i).
Qed.

Lemma validItems_NoDup items :
  NoDup (map requestId items) -> NoDup (map requestId (validItems f items)).
Proof.
  unfold validItems. induction items as [|i r IH]; [done|].
  cbn [map]. rewrite NoDup_cons. intros [Hn Hr]. rewrite filter_cons.
  case_decide; [|by apply IH].
  cbn [map]. rewrite NoDup_cons. split; [|by apply IH].
  intros Hin. apply Hn. apply list_elem_of_fmap in Hin as (x & -> & Hx).
  apply list_elem_of_fmap. exists x. split; [done|].
  by apply list_elem_of_filter in Hx as [_ ?].
Qed.

(** The index map sends the id of the [j]-th valid item to [j]. *)
Lemma indexMapFrom_fresh l from m id :
  id ∉ map requestId l -> indexMapFrom l from m !! id = m !! id.
Proof.
  revert from m. induction l as [|i r IH]; intros from m Hid; [done|].
  cbn [map] in Hid. apply not_elem_of_cons in Hid as [Hne Hr].
  cbn [indexMapFrom]. rewrite IH by done. by rewrite lookup_insert_ne.
Qed.

Lemma indexMapFrom_lookup l from m j v :
  NoDup (map requestId l) -> l !! j = Some v ->
  indexMapFrom l from m !! requestId v = Some (from + j)%nat.
Proof.
  revert from m j. induction l as [|i r IH]; intros from m j Hnd Hj; [done|].
  cbn [map] in Hnd. apply NoDup_cons in Hnd as [Hn Hr].
  destruct j as [|j]; cbn in Hj.
  - injection Hj as ->. cbn [indexMapFrom]. rewrite indexMapFrom_fresh by done.
    rewrite lookup_insert_eq. f_equal. lia.
  - cbn [indexMapFrom]. rewrite (IH (S from) _ j) by done. f_equal. lia.
Qed.

Lemma indexMap_valid items j v :
  NoDup (map requestId items) -> validItems f items !! j = Some v ->
  indexMap (validItems f items) !! requestId v = Some j.
Proof.
  intros Hnd Hj. unfold indexMap.
  by rewrite (indexMapFrom_lookup _ 0 ∅ j v (validItems_NoDup items Hnd) Hj).
Qed.

Lemma same_id_same_item items a b :
  NoDup (map requestId items) -> a ∈ items -> b ∈ items ->
  requestId a = requestId b -> a = b.
Proof.
  intros Hnd Ha Hb Hid.
  apply list_elem_of_lookup in Ha as [ka Ha]. apply list_elem_of_lookup in Hb as [kb Hb].
  assert (ka = kb) as ->; [|congruence].
  eapply NoDup_lookup; [exact Hnd| |]; rewrite list_lookup_fmap.
  - by rewrite Ha.
  - rewrite Hb. cbn. by rewrite Hid.
Qed.

Lemma indexMap_invalid items i :
  NoDup (map requestId items) -> i ∈ items -> valid (reverify f i) = false ->
  indexMap (validItems f items) !! requestId i = None.
Proof.
  intros Hnd Hi Hv. unfold indexMap. rewrite indexMapFrom_fresh; [done|].
  intros Hin. apply list_elem_of_fmap in Hin as (x & Hid & Hx).
  apply validItems_valid in Hx as [Hxv Hxi].
  assert (x = i) as ->; [|congruence].
  by apply (same_id_same_item items).
Qed.

(** [invalidItems.find] returns the verification of the item itself. *)
Lemma find_invalid items i :
  NoDup (map requestId items) -> i ∈ items -> valid (reverify f i) = false ->
  find (fun inv => String.eqb (requestId (item inv)) (requestId i))
       (filter (fun r => valid r = false) (map (reverify f) items))
  = Some (reverify f i).
Proof.
  intros Hnd Hi Hv. induction items as [|a r IH]; [by apply elem_of_nil in Hi|].
  cbn [map] in *. apply NoDup_cons in Hnd as [Hn Hr]. rewrite filter_cons.
  apply elem_of_cons in Hi as [->|Hi].
  - rewrite decide_True by done. cbn [find]. rewrite item_reverify.
    by rewrite String.eqb_refl.
  - assert (requestId a <> requestId i) as Hne.
    { intros E. apply Hn. rewrite E. apply list_elem_of_fmap. by exists i. }
    case_decide; [|by apply IH].
    cbn [find]. rewrite item_reverify.
    destruct (String.eqb_spec (requestId a) (requestId i)); [done|]. by apply IH.
Qed.

(** The loop that maps results back, on any stretch [l] of the batch. *)
Lemma mapBack_stretch items results l :
  NoDup (map requestId items) ->
  (length (validItems f items) <= length results)%nat ->
  l ⊆ items ->
  exists finals,
    mapBack l (indexMap (validItems f items))
            (filter (fun r => valid r = false) (map (reverify f) items)) results
    = Ret finals
    /\ Forall2 (resultFor f items results) l finals.
Proof.
  intros Hnd Hlen. induction l as [|i r IH]; intros Hsub.
  - exists []. split; [done|constructor].
  - destruct IH as (finals & Hm & HF); [set_solver|].
    assert (i ∈ items) as Hi by set_solver.
    cbn [mapBack]. rewrite Hm.
    destruct (valid (reverify f i)) eqn:Hv.
    + assert (i ∈ validItems f items) as Hin by by apply validItems_valid.
      apply list_elem_of_lookup in Hin as [j Hj].
      rewrite (indexMap_valid items j i Hnd Hj).
      destruct (results !! j) as [e|] eqn:Hr.
      * eexists. split; [reflexivity|]. constructor; [|done].
        unfold resultFor. rewrite Hv. by exists j, e.
      * apply lookup_ge_None in Hr. apply lookup_lt_Some in Hj. lia.
    + rewrite (indexMap_invalid items i Hnd Hi Hv).
      rewrite (find_invalid items i Hnd Hi Hv).
      eexists. split; [reflexivity|]. constructor; [|done].
      unfold resultFor. by rewrite Hv.
Qed.

(** What [batchSettle] does, case by case. *)
Lemma batchSettle_none_valid items sent :
  validItems f items = [] ->
  batchSettle f items sent = (Ret (map allFailed items), sent).
Proof.
  intros Hv. unfold batchSettle. rewrite valid_split, Hv. reflexivity.
Qed.

Lemma batchSettle_posts items sent :
  validItems f items <> [] ->
  snd (batchSettle f items sent) = sent ++ [map toBody (validItems f items)].
Proof.
  intros Hv. unfold batchSettle. rewrite valid_split.
  destruct (validItems f items) as [|v vs] eqn:E; [done|]. cbn [length Nat.eqb].
  by destruct (settleBatch f _).
Qed.

Lemma batchSettle_settled items sent results :
  NoDup (map requestId items) ->
  validItems f items <> [] ->
  settleBatch f (map toBody (validItems f items)) = BatchJson results ->
  (length (validItems f items) <= length results)%nat ->
  exists finals,
    batchSettle f items sent = (Ret finals, sent ++ [map toBody (validItems f items)])
    /\ Forall2 (resultFor f items results) items finals.
Proof.
  intros Hnd Hv Hs Hlen.
  destruct (mapBack_stretch items results items Hnd Hlen) as (finals & Hm & HF); [done|].
  exists finals. split; [|done].
  unfold batchSettle. rewrite valid_split.
  destruct (validItems f items) as [|v vs] eqn:E; [done|]. cbn [length Nat.eqb].
  rewrite Hs. by rewrite Hm.
Qed.

Lemma batchSettle_transport_error items sent :
  validItems f items <> [] ->
  (forall results, settleBatch f (map toBody (validItems f items)) <> BatchJson results) ->
  exists e, fst (batchSettle f items sent) = Thrown e.
Proof.
  intros Hv Hs. unfold batchSettle. rewrite valid_split.
  destruct (validItems f items) as [|v vs] eqn:E; [done|]. cbn [length Nat.eqb].
  destruct (settleBatch f _) as [st t|rs|m]; [by eexists| |by eexists].
  by destruct (Hs rs).
Qed.

End BatchSettle.

(** ** The coalescer: delivery of the results *)

Section Deliver.

Import BatchSettleManager.

Lemma resultFor_id f items results i fr :
  resultFor f items results i fr -> result_requestId fr = requestId i.
Proof.
  unfold resultFor. destruct (valid (reverify f i)).
  - by intros (j & r & _ & _ & ->).
  - by intros ->.
Qed.

Lemma resultFor_ids f items results l finals :
  Forall2 (resultFor f items results) l finals ->
  map result_requestId finals = map requestId l.
Proof.
  induction 1 as [|i fr l finals H _ IH]; [done|].
  cbn [map]. by rewrite (resultFor_id _ _ _ _ _ H), IH.
Qed.

Lemma filter_filter_ids (q : list SettleItem) id (ids : list string) :
  filter (fun i => requestId i ∉ ids) (mapDelete id q)
  = filter (fun i => requestId i ∉ id :: ids) q.
Proof.
  unfold mapDelete. induction q as [|a q IH]; [done|].
  rewrite !filter_cons.
  destruct (decide (requestId a = id)) as [E|E].
  - rewrite decide_False by tauto. rewrite (decide_False (P := requestId a ∉ id :: ids)); [done|].
    intros H. apply H. rewrite E. left.
  - rewrite decide_True by done. rewrite filter_cons.
    destruct (decide (requestId a ∉ ids)) as [N|N].
    + rewrite (decide_True (P := requestId a ∉ id :: ids)); [by rewrite IH|].
      rewrite not_elem_of_cons. done.
    + rewrite (decide_False (P := requestId a ∉ id :: ids)); [done|].
      rewrite not_elem_of_cons. tauto.
Qed.

(** Each result is delivered to the promise registered under its id, in
    the order of the results; the delivered ids leave the queue. *)
Lemma deliver_spec (h : string -> nat) rs m :
  NoDup (map result_requestId rs) ->
  (forall r, r ∈ rs -> pendingPromises m !! result_requestId r = Some (h (result_requestId r))) ->
  fst (deliver rs m) = map (fun r => (h (result_requestId r), completionOf r)) rs
  /\ queue (snd (deliver rs m))
     = filter (fun i => requestId i ∉ map result_requestId rs) (queue m)
  /\ processing (snd (deliver rs m)) = processing m
  /\ timer (snd (deliver rs m)) = timer m
  /\ batchSize (snd (deliver rs m)) = batchSize m.
Proof.
  revert m. induction rs as [|r rs IH]; intros m Hnd Hp.
  - cbn. split_and!; try done. symmetry. induction (queue m) as [|a q IHq]; [done|].
    rewrite filter_cons. case_decide as N; [by rewrite IHq|].
    by apply elem_of_nil in N.
  - cbn [map] in Hnd. apply NoDup_cons in Hnd as [Hn Hr].
    cbn [deliver]. rewrite (Hp r) by left.
    destruct (IH (forget (result_requestId r) m) Hr) as (H1 & H2 & H3 & H4 & H5).
    { intros r' Hr'. cbn. rewrite lookup_delete_ne; [apply Hp; by right|].
      intros E. apply Hn. rewrite E. apply list_elem_of_fmap. by exists r'. }
    destruct (deliver rs (forget (result_requestId r) m)) as [cs m'].
    cbn [fst snd] in *. split_and!; try done.
    + cbn [map]. rewrite H1. reflexivity.
    + rewrite H2. cbn [queue forget map]. apply filter_filter_ids.
Qed.

Lemma rejectBatch_spec (h : string -> nat) e l m :
  NoDup (map requestId l) ->
  (forall i, i ∈ l -> pendingPromises m !! requestId i = Some (h (requestId i))) ->
  fst (rejectBatch e l m) = map (fun i => (h (requestId i), RejectedWith e)) l.
Proof.
  revert m. induction l as [|i l IH]; intros m Hnd Hp; [done|].
  cbn [map] in Hnd. apply NoDup_cons in Hnd as [Hn Hr].
  cbn [rejectBatch]. rewrite (Hp i) by left.
  specialize (IH (forget (requestId i) m) Hr).
  destruct (rejectBatch e l (forget (requestId i) m)) as [cs m'].
  cbn [fst map] in *. rewrite IH; [done|].
  intros i' Hi'. cbn. rewrite lookup_delete_ne; [apply Hp; by right|].
  intros E. apply Hn. rewrite E. apply list_elem_of_fmap. by exists i'.
Qed.

(** Removing the ids of a prefix leaves the rest of the queue. *)
Lemma filter_out_front (pre post : list SettleItem) :
  NoDup (map requestId (pre ++ post)) ->
  filter (fun i => requestId i ∉ map requestId pre) (pre ++ post) = post.
Proof.
  rewrite map_app. intros Hnd. apply NoDup_app in Hnd as (_ & Hdisj & _).
  rewrite filter_app.
  assert (forall (ids : list string) (l : list SettleItem),
             (forall i, i ∈ l -> requestId i ∈ ids) ->
                        filter (fun i : SettleItem => requestId i ∉ ids) l = []) as Hdrop.
  { intros ids. induction l as [|a l IH]; intros Hin; [done|].
    rewrite filter_cons, decide_False; [apply IH; intros i Hi; apply Hin; by right|].
    intros H. apply H, Hin. left. }
  assert (forall (ids : list string) (l : list SettleItem),
             (forall i, i ∈ l -> requestId i ∉ ids) ->
                        filter (fun i : SettleItem => requestId i ∉ ids) l = l) as Hkeep.
  { intros ids. induction l as [|a l IH]; intros Hl; [done|].
    rewrite filter_cons, decide_True by (apply Hl; left).
    rewrite IH; [done|]. intros i Hi. apply Hl. by right. }
  rewrite Hdrop, Hkeep; [done| |].
  - intros i Hi Hin. apply (Hdisj _ Hin). apply list_elem_of_fmap. by exists i.
  - intros i Hi. apply list_elem_of_fmap. by exists i.
Qed.

Lemma filter_out_prefix (items : list SettleItem) n :
  NoDup (map requestId items) ->
  filter (fun i => requestId i ∉ map requestId (take n items)) items = drop n items.
Proof.
  intros Hnd. rewrite <- (take_drop n items) in Hnd.
  pose proof (filter_out_front _ _ Hnd) as H. by rewrite take_drop in H.
Qed.

End Deliver.

(** ** The coalescer: verification failures of a batch *)

(** C4, as stated, fails for K = N: when the only item of a batch fails the
    re-verification, nothing is posted to [/settle/batch] and the item fails
    with "All payments failed verification", not with its own reason. *)
Lemma all_invalid_batch_is_not_posted :
  let items := [itemOf "req-1"] in
  let r := BatchSettleManager.batchSettle rejectingFacilitator items [] in
  invalidCount rejectingFacilitator items = length items
  /\ BatchSettleManager.verify_reason
       (BatchSettleManager.reverify rejectingFacilitator (itemOf "req-1"))
     = Some "authorization expired"
  /\ snd r = []
  /\ fst r = Ret [allFailed (itemOf "req-1")]
  /\ BatchSettleManager.error (allFailed (itemOf "req-1"))
     = Some "All payments failed verification"
  /\ allFailed (itemOf "req-1") <> failedVerification rejectingFacilitator (itemOf "req-1").
Proof. cbv zeta. split_and!; try (vm_compute; reflexivity). vm_compute. discriminate. Qed.

Lemma failedVerification_completion f i :
  completionOf (failedVerification f i)
  = BatchSettleManager.RejectedWith
      (Error ("Verification failed: "
                +:+ Js.strOr
                      (BatchSettleManager.verify_reason (BatchSettleManager.reverify f i))
                      "unknown")).
Proof. reflexivity. Qed.

Lemma invalidCount_full f items :
  invalidCount f items = length items <-> validItems f items = [].
Proof.
  pose proof (valid_invalid_length f items) as H. split; intros E.
  - apply length_zero_iff_nil. lia.
  - rewrite E in H. cbn in H. lia.
Qed.

(** C4 (amended).  In a batch of N items with distinct ids of which K fail
    the re-verification: if K = N nothing is posted and every item fails
    with "All payments failed verification"; if K < N the body posted to
    [/settle/batch] holds exactly the N - K valid items, in batch order, and,
    when the facilitator answers with results for them, each of the K
    failures is completed with the rejection
    "Verification failed: <reason>" (<reason> being "unknown" when the
    verification gave none) while the valid items take the facilitator's
    results. *)
Theorem verification_failures_of_a_batch f items sent :
  NoDup (map BatchSettleManager.requestId items) ->
  let N := length items in
  let K := invalidCount f items in
  let body := map BatchSettleManager.toBody (validItems f items) in
  (K <= N)%nat
  /\ (K = N -> BatchSettleManager.batchSettle f items sent = (Ret (map allFailed items), sent))
  /\ ((K < N)%nat ->
      snd (BatchSettleManager.batchSettle f items sent) = sent ++ [body]
      /\ length body = (N - K)%nat
      /\ forall results,
           BatchSettleManager.settleBatch f body = BatchSettleManager.BatchJson results ->
           (N - K <= length results)%nat ->
           exists finals,
             fst (BatchSettleManager.batchSettle f items sent) = Ret finals
             /\ Forall2 (resultFor f items results) items finals
             /\ forall m h i,
                  (forall i', i' ∈ items ->
                              BatchSettleManager.pendingPromises m !! BatchSettleManager.requestId i'
                              = Some (h (BatchSettleManager.requestId i'))) ->
                  i ∈ items ->
                  BatchSettleManager.valid (BatchSettleManager.reverify f i) = false ->
                  (h (BatchSettleManager.requestId i),
                   BatchSettleManager.RejectedWith
                     (Error ("Verification failed: "
                               +:+ Js.strOr
                                     (BatchSettleManager.verify_reason
                                        (BatchSettleManager.reverify f i))
                                     "unknown")))
                    ∈ fst (BatchSettleManager.flushEnd items (Ret finals) m)).
Proof.
  intros Hnd N K body. pose proof (valid_invalid_length f items) as Hlen.
  fold N K in Hlen. split_and!.
  - lia.
  - intros E. apply batchSettle_none_valid. by apply invalidCount_full.
  - intros Hlt.
    assert (validItems f items <> []) as Hne.
    { intros E. apply invalidCount_full in E. fold N K in E. lia. }
    assert (length body = (N - K)%nat) as Hbody.
    { unfold body. rewrite length_map. lia. }
    split_and!; [by apply batchSettle_posts | done |].
    intros results Hs Hres.
    destruct (batchSettle_settled f items sent results Hnd Hne Hs) as (finals & Hb & HF);
      [lia|].
    exists finals. rewrite Hb. split_and!; [done..|].
    intros m h i Hp Hi Hv.
    pose proof (resultFor_ids _ _ _ _ _ HF) as Hids.
    destruct (deliver_spec h finals m) as (Hcs & _).
    { by rewrite Hids. }
    { intros r Hr. apply list_elem_of_lookup in Hr as [k Hk].
      destruct (Forall2_lookup_r _ _ _ _ _ HF Hk) as (i' & Hi' & Hrf).
      rewrite (resultFor_id _ _ _ _ _ Hrf). apply Hp.
      apply list_elem_of_lookup. by exists k. }
    unfold BatchSettleManager.flushEnd.
    destruct (BatchSettleManager.deliver finals m) as [cs m1]. cbn [fst] in *. subst cs.
    apply list_elem_of_lookup in Hi as [k Hk].
    destruct (Forall2_lookup_l _ _ _ _ _ HF Hk) as (fr & Hfr & Hrf).
    unfold resultFor in Hrf. rewrite Hv in Hrf. subst fr.
    apply list_elem_of_fmap. exists (failedVerification f i).
    split; [|apply list_elem_of_lookup; by exists k].
    by rewrite failedVerification_completion.
Qed.

Lemma verification_failures_of_a_batch_witness :
  NoDup (map BatchSettleManager.requestId threeItems)
  /\ snd (BatchSettleManager.batchSettle mixedFacilitator threeItems [])
     = [[BatchSettleManager.toBody (itemOf "req-1"); BatchSettleManager.toBody (itemOf "req-3")]].
Proof.
  assert (NoDup (map BatchSettleManager.requestId threeItems)) as Hnd.
  { refine (bool_decide_unpack (NoDup (map BatchSettleManager.requestId threeItems)) _).
    vm_compute. exact I. }
  split; [exact Hnd|].
  destruct (verification_failures_of_a_batch mixedFacilitator threeItems [] Hnd)
    as (_ & _ & Hlt).
  destruct Hlt as (Hposts & _); [vm_compute; lia|].
  rewrite Hposts. vm_compute. reflexivity.
Defined.

(** ** The coalescer: the first flush *)

Section FirstFlush.

Import BatchSettleManager.

Lemma mapSet_fresh i q :
  requestId i ∉ map requestId q -> mapSet i q = q ++ [i].
Proof.
  induction q as [|j r IH]; [done|]. cbn [map]. intros H.
  apply not_elem_of_cons in H as [Hne Hr]. cbn [mapSet].
  destruct (String.eqb_spec (requestId j) (requestId i)); [congruence|].
  cbn. by rewrite IH.
Qed.

Lemma item_eta i :
  {| requestId := requestId i; paymentPayload := paymentPayload i;
     paymentRequirements := paymentRequirements i; timestamp := timestamp i |} = i.
Proof. by destruct i. Qed.

Lemma slice0_take {A} (l : list A) bs :
  0 < bs -> slice0 l bs = take (Z.to_nat bs) l.
Proof.
  intros Hbs. unfold slice0. destruct (bs <? 0) eqn:E; [apply Z.ltb_lt in E; lia|].
  destruct (Z_le_gt_dec bs (Z.of_nat (length l))).
  - by rewrite Z.min_l by lia.
  - rewrite Z.min_r by lia. rewrite Nat2Z.id. rewrite !take_ge; [done|lia..].
Qed.

Context (bs : Z) (Hbs : 0 < bs).

Let b := Z.to_nat bs.

(** One enqueue on a manager that holds [pre]. *)
Lemma addToQueue_accumulated pre i m :
  accumulated bs pre m ->
  requestId i ∉ map requestId pre ->
  let '(h, started, m1) :=
    addToQueue (requestId i) (paymentPayload i) (paymentRequirements i) (timestamp i) m in
  h = length pre
  /\ accumulated bs (pre ++ [i]) m1
  /\ started = (if bool_decide (length (pre ++ [i]) = b) then Some (pre ++ [i]) else None).
Proof.
  intros (Hq & Hb & Hn & Hp & Hpr) Hfresh. unfold b in *. unfold addToQueue.
  rewrite item_eta, Hq, (mapSet_fresh i pre Hfresh), Hb, Hn.
  cbn [queue batchSize timer processing pendingPromises nextPromise].
  assert (forall k j, (pre ++ [i]) !! k = Some j ->
                      <[requestId i := length pre]> (pendingPromises m) !! requestId j = Some k)
    as Hp'.
  { intros k j Hk. apply lookup_app_Some in Hk as [Hk|[Hge Hk]].
    - rewrite lookup_insert_ne; [by apply Hp|].
      intros E. apply Hfresh. rewrite E. apply list_elem_of_fmap. exists j.
      split; [done|]. apply list_elem_of_lookup. by exists k.
    - destruct (k - length pre)%nat as [|?] eqn:Ek; [|done]. cbn in Hk.
      injection Hk as <-. rewrite lookup_insert_eq. f_equal. lia. }
  assert (forall t p, p = bool_decide (Z.to_nat bs <= length (pre ++ [i]))%nat ->
            accumulated bs (pre ++ [i])
              (Manager (pre ++ [i]) (<[requestId i := length pre]> (pendingPromises m))
                       t p bs (batchTimeout m) (S (length pre)))) as Hacc.
  { intros t p ->. unfold accumulated.
    cbn [queue batchSize timer processing pendingPromises nextPromise].
    split_and!; try done. rewrite length_app. cbn [length]. lia. }
  rewrite length_app in *. cbn [length] in *.
  destruct (bs <=? Z.of_nat (length pre + 1)) eqn:E.
  - apply Z.leb_le in E. unfold flushBegin.
    cbn [queue batchSize timer processing pendingPromises nextPromise batchTimeout].
    rewrite Hpr. rewrite length_app. cbn [length].
    destruct (bool_decide (Z.to_nat bs <= length pre)%nat) eqn:Ep.
    + apply bool_decide_eq_true in Ep. rewrite orb_true_l. split; [done|]. split.
      * apply Hacc. symmetry. apply bool_decide_eq_true. rewrite ?length_app; cbn [length]; lia.
      * rewrite bool_decide_eq_false_2; [done|]. lia.
    + apply bool_decide_eq_false in Ep. rewrite orb_false_l.
      assert ((length pre + 1 =? 0)%nat = false) as -> by (apply Nat.eqb_neq; lia).
      split; [done|]. split.
      * apply Hacc. symmetry. apply bool_decide_eq_true. rewrite ?length_app; cbn [length]; lia.
      * rewrite bool_decide_eq_true_2 by lia.
        rewrite slice0_take by done. f_equal. apply take_ge.
        rewrite ?length_app; cbn [length]; lia.
  - apply Z.leb_gt in E.
    assert (processing m = bool_decide (Z.to_nat bs <= length (pre ++ [i]))%nat) as Hpf.
    { rewrite Hpr. rewrite !bool_decide_eq_false_2; [done| |]; rewrite ?length_app; cbn [length]; lia. }
    destruct (timer m); (split; [done|]); split.
    + apply Hacc. by rewrite Hpf, length_app.
    + rewrite bool_decide_eq_false_2; [done|]. lia.
    + apply Hacc. by rewrite Hpf, length_app.
    + rewrite bool_decide_eq_false_2; [done|]. lia.
Qed.

(** All the enqueues: at most one flush starts, when the queue reaches the
    batch size, and its batch is the queue at that moment. *)
Lemma enqueueAll_accumulated rest :
  forall pre m,
    accumulated bs pre m ->
    NoDup (map requestId (pre ++ rest)) ->
    accumulated bs (pre ++ rest) (snd (enqueueAll rest m))
    /\ fst (enqueueAll rest m)
       = (if bool_decide (length pre < b <= length (pre ++ rest))%nat
          then [take b (pre ++ rest)] else []).
Proof.
  induction rest as [|i r IH]; intros pre m Hacc Hnd.
  - cbn [enqueueAll fst snd]. rewrite app_nil_r. split; [done|].
    rewrite bool_decide_eq_false_2; [done|lia].
  - assert (requestId i ∉ map requestId pre) as Hfresh.
    { rewrite map_app in Hnd. apply NoDup_app in Hnd as (_ & Hd & _).
      intros Hin. apply (Hd _ Hin). cbn. left. }
    pose proof (addToQueue_accumulated pre i m Hacc Hfresh) as Ha.
    cbn [enqueueAll].
    destruct (addToQueue _ _ _ _ m) as [[h started] m1].
    destruct Ha as (_ & Hacc1 & Hst).
    assert (pre ++ i :: r = (pre ++ [i]) ++ r) as Eq by by rewrite <- app_assoc.
    rewrite Eq in Hnd |- *.
    destruct (IH (pre ++ [i]) m1 Hacc1 Hnd) as (Hacc2 & Hb).
    destruct (enqueueAll r m1) as [batches m2]. cbn [fst snd] in *.
    split; [done|]. subst started batches.
    rewrite !length_app in *. cbn [length] in *.
    destruct (decide (length pre + 1 = b)%nat) as [E|E].
    + rewrite bool_decide_eq_true_2 by done.
      rewrite (bool_decide_eq_false_2 (length pre + 1 < b <= _)%nat) by lia.
      rewrite bool_decide_eq_true_2 by lia.
      f_equal. rewrite take_app_le by (rewrite length_app; cbn [length]; lia).
      symmetry. apply take_ge. rewrite length_app. cbn [length]. lia.
    + rewrite bool_decide_eq_false_2 by done.
      destruct (decide (length pre + 1 < b <= length pre + 1 + length r)%nat) as [D|D].
      * rewrite !bool_decide_eq_true_2; [done|lia|done].
      * rewrite !bool_decide_eq_false_2; [done|lia|done].
Qed.

Lemma accumulated_fresh bt : accumulated bs [] (freshManager bs bt).
Proof.
  unfold accumulated, freshManager. cbn. split_and!; try done.
  symmetry. apply bool_decide_eq_false. lia.
Qed.

(** The first flush takes the prefix; the manager then holds every item and
    the promise of the [k]-th enqueue under the id of the [k]-th item. *)
Lemma firstBatch_prefix bt items :
  NoDup (map requestId items) -> items <> [] ->
  exists m1,
    firstBatch items (freshManager bs bt) = (Some (take b items), m1)
    /\ queue m1 = items
    /\ processing m1 = true
    /\ (forall k i, items !! k = Some i -> pendingPromises m1 !! requestId i = Some k).
Proof.
  intros Hnd Hne.
  destruct (enqueueAll_accumulated items [] (freshManager bs bt) (accumulated_fresh bt) Hnd)
    as (Hacc & Hb).
  cbn [app length] in *. unfold firstBatch.
  destruct (enqueueAll items (freshManager bs bt)) as [batches m']. cbn [fst snd] in *.
  destruct Hacc as (Hq & Hbs' & Hn & Hp & Hpr).
  destruct (decide (b <= length items)%nat) as [D|D].
  - rewrite bool_decide_eq_true_2 in Hb by (unfold b in *; lia). subst batches.
    exists m'. split_and!; try done. rewrite Hpr. by apply bool_decide_eq_true.
  - rewrite bool_decide_eq_false_2 in Hb by lia. subst batches.
    unfold flushBegin. cbn [queue processing batchSize pendingPromises timer].
    rewrite Hpr, Hq, Hbs'. rewrite bool_decide_eq_false_2 by done.
    destruct items as [|i0 items']; [done|]. cbn [length Nat.eqb orb].
    eexists. split; [rewrite slice0_take by done; reflexivity|].
    cbn [queue processing pendingPromises]. by split_and!.
Qed.

End FirstFlush.

Lemma NoDup_take_ids (items : list BatchSettleManager.SettleItem) n :
  NoDup (map BatchSettleManager.requestId items) ->
  NoDup (map BatchSettleManager.requestId (take n items)).
Proof.
  intros Hnd. rewrite <- (take_drop n items), map_app in Hnd.
  by apply NoDup_app in Hnd as (H & _ & _).
Qed.

(** C5.  After N enqueues with distinct ids on a fresh coalescer (batch size
    at least 1), no flush having completed in between, the first flush takes
    exactly the first min(N, batchSize) items, in enqueue order.  When the
    facilitator answers the batch with results covering the valid items, the
    result of each valid item is the entry of [results] at the item's
    position in the valid-item list, the [k]-th completion of the flush goes
    to the promise of the [k]-th enqueue, and the items beyond the head stay
    in the queue. *)
Theorem first_flush_settles_the_prefix bs bt items :
  0 < bs ->
  NoDup (map BatchSettleManager.requestId items) ->
  items <> [] ->
  let n := Nat.min (length items) (Z.to_nat bs) in
  let batch := take n items in
  exists m1,
    firstBatch items (freshManager bs bt) = (Some batch, m1)
    /\ BatchSettleManager.queue m1 = items
    /\ forall f results,
         validItems f batch <> [] ->
         BatchSettleManager.settleBatch f (map BatchSettleManager.toBody (validItems f batch))
           = BatchSettleManager.BatchJson results ->
         (length (validItems f batch) <= length results)%nat ->
         exists finals,
           fst (BatchSettleManager.batchSettle f batch []) = Ret finals
           /\ Forall2 (resultFor f batch results) batch finals
           /\ (forall j i, validItems f batch !! j = Some i ->
                           exists e, results !! j = Some e /\ settledAs i e ∈ finals)
           /\ (forall k r, finals !! k = Some r ->
                           fst (BatchSettleManager.flushEnd batch (Ret finals) m1) !! k
                           = Some (k, completionOf r))
           /\ BatchSettleManager.queue (snd (BatchSettleManager.flushEnd batch (Ret finals) m1))
              = drop n items.
Proof.
  intros Hbs Hnd Hne n batch.
  destruct (firstBatch_prefix bs Hbs bt items Hnd Hne) as (m1 & Hfb & Hq & Hpr & Hp).
  assert (take (Z.to_nat bs) items = batch) as Htake.
  { unfold batch, n. destruct (Nat.min_spec (length items) (Z.to_nat bs)) as [[Hlt ->]|[Hle ->]].
    - rewrite !take_ge; [done|lia..].
    - done. }
  rewrite Htake in Hfb. exists m1. split; [done|]. split; [done|].
  intros f results Hv Hs Hlen.
  assert (NoDup (map BatchSettleManager.requestId batch)) as Hndb by by apply NoDup_take_ids.
  destruct (batchSettle_settled f batch [] results Hndb Hv Hs Hlen) as (finals & Hb & HF).
  exists finals. rewrite Hb. split; [done|]. split; [done|].
  pose proof (resultFor_ids _ _ _ _ _ HF) as Hids.
  set (h := fun id => default 0%nat (BatchSettleManager.pendingPromises m1 !! id)).
  assert (forall k i, batch !! k = Some i -> h (BatchSettleManager.requestId i) = k) as Hh.
  { intros k i Hk. unfold h. apply lookup_take_Some in Hk as [Hk _]. by rewrite (Hp k i Hk). }
  assert (forall k r, finals !! k = Some r -> h (BatchSettleManager.result_requestId r) = k) as Hh'.
  { intros k r Hk. destruct (Forall2_lookup_r _ _ _ _ _ HF Hk) as (i & Hi & Hrf).
    rewrite (resultFor_id _ _ _ _ _ Hrf). by apply Hh. }
  destruct (deliver_spec h finals m1) as (Hcs & Hqd & _).
  { by rewrite Hids. }
  { intros r Hr. apply list_elem_of_lookup in Hr as [k Hk].
    destruct (Forall2_lookup_r _ _ _ _ _ HF Hk) as (i & Hi & Hrf).
    rewrite (resultFor_id _ _ _ _ _ Hrf).
    apply lookup_take_Some in Hi as [Hi _]. rewrite (Hp k i Hi). f_equal.
    unfold h. by rewrite (Hp k i Hi). }
  unfold BatchSettleManager.flushEnd.
  destruct (BatchSettleManager.deliver finals m1) as [cs m2]. cbn [fst snd] in *.
  split_and!.
  - intros j i Hj.
    assert (i ∈ validItems f batch) as Hin by (apply list_elem_of_lookup; by exists j).
    apply validItems_valid in Hin as [Hval Hib].
    apply list_elem_of_lookup in Hib as [k Hk].
    destruct (Forall2_lookup_l _ _ _ _ _ HF Hk) as (fr & Hfr & Hrf).
    unfold resultFor in Hrf. rewrite Hval in Hrf. destruct Hrf as (j' & e & Hj' & He & ->).
    assert (j' = j) as ->.
    { eapply NoDup_lookup; [exact (validItems_NoDup f batch Hndb)| |];
        rewrite list_lookup_fmap; [by rewrite Hj'|by rewrite Hj]. }
    exists e. split; [done|]. apply list_elem_of_lookup. by exists k.
  - intros k r Hk. subst cs. rewrite list_lookup_fmap, Hk. cbn. by rewrite (Hh' k r Hk).
  - cbn [BatchSettleManager.queue]. rewrite Hqd, Hq, Hids.
    unfold batch. by apply filter_out_prefix.
Qed.

Lemma first_flush_settles_the_prefix_witness :
  0 < 2
  /\ NoDup (map BatchSettleManager.requestId threeItems)
  /\ threeItems <> []
  /\ fst (firstBatch threeItems (freshManager 2 5000)) = Some [itemOf "req-1"; itemOf "req-2"].
Proof.
  assert (NoDup (map BatchSettleManager.requestId threeItems)) as Hnd.
  { refine (bool_decide_unpack (NoDup (map BatchSettleManager.requestId threeItems)) _).
    vm_compute. exact I. }
  assert (threeItems <> []) as Hne by discriminate.
  split; [lia|]. split; [exact Hnd|]. split; [exact Hne|].
  destruct (first_flush_settles_the_prefix 2 5000 threeItems ltac:(lia) Hnd Hne)
    as (m1 & H & _).
  rewrite H. reflexivity.
Defined.

(** ** Runs of the model on the scenarios of the specification *)

(** Rate-limit sharpness: with a limit of 10, ten requests pass, the eleventh
    is denied and sets the ban, the twelfth is denied as banned. *)
Example rate_limit_sharpness :
  verdicts theDetector "ip:203.0.113.7" 12 emptyServer
  = [true; true; true; true; true; true; true; true; true; true; false; false]
  /\ fst (AbuseDetector.recordRequest theDetector "ip:203.0.113.7"
            (Redis.Server {[ banKey "ip:203.0.113.7" := Redis.Entry 1 (Some 3600000) ]} 0
                          (fun _ _ => Redis.Healthy)))
     = Ret (AbuseDetector.deny "Banned for excessive requests. Try again in 60 minutes.").
Proof. split; vm_compute; reflexivity. Qed.

(** A whitelisted identifier is never counted. *)
Example whitelist_override :
  verdicts theDetector "IP:203.0.113.7" 30
           (Redis.Server {[ whitelistKey "ip:203.0.113.7" := Redis.Entry 1 None ]} 0
                         (fun _ _ => Redis.Healthy))
  = repeat true 30.
Proof. vm_compute. reflexivity. Qed.

(** Settlement that never completes: after 180 s the handler answers 500,
    having released the slot it reserved; the counter reads 3 as before. *)
Example settle_timeout_releases :
  let run := Mint.handleMintRequest theApp (envWith None) paidRequest false false world4 in
  (Mint.status <$> (match fst run with Ret r => Some r | Thrown _ => None end)) = Some 500
  /\ trace (snd run) = [Reserving 1 tokenAA; Releasing 1 tokenAA; Responded 500]
  /\ pendingValue (redis world4) tokenAA = 3
  /\ pendingValue (redis (snd run)) tokenAA = 3.
Proof. cbv zeta. split_and!; vm_compute; reflexivity. Qed.

(** Scenario 4 through the handler: 95 minted, 3 pending, 5 requested of 100. *)
Example capacity_exceeded_429 :
  let req := {| Mint.x_forwarded_for := None; Mint.x_real_ip := None;
                Mint.remoteAddress := Some "10.0.0.1";
                Mint.x_payment := Some "payment-header";
                Mint.body_tokenAddress := Some "0xAA";
                Mint.body_recipients := Some ["0x01"; "0x02"; "0x03"; "0x04"; "0x05"];
                Mint.url := "http://localhost:3001/api/mint" |} in
  let run := Mint.handleMintRequest theApp (envWith None) req false false world4 in
  fst run
  = Ret {| Mint.status := 429; Mint.headers := [];
           Mint.body :=
             JObj [("error", JStr "Mint capacity exceeded");
                   ("message", JStr "Token has reached or will exceed maximum mint limit");
                   ("current", JNum 95); ("pending", JNum 3); ("max", JNum 100);
                   ("requested", JNum 5); ("available", JNum 2);
                   ("retryAfter", JNull)] |}
  /\ trace (snd run) = [Responded 429].
Proof. cbv zeta. split; vm_compute; reflexivity. Qed.

(** Scenario 1: the challenge for token 0xAA. *)
Example challenge_for_0xAA :
  Mint.headers (challengeOf tokenAA)
  = [("X-Payment-Options",
      "scheme=" +:+ Mint.quote +:+ "exact" +:+ Mint.quote
        +:+ ", network=" +:+ Mint.quote +:+ "bsc" +:+ Mint.quote
        +:+ ", token=" +:+ Mint.quote +:+ "0x2CBa817f6e3Ca58ff702Dc66feEEcb230A2EF349" +:+ Mint.quote
        +:+ ", payee=" +:+ Mint.quote +:+ "0xAA" +:+ Mint.quote
        +:+ ", amount=" +:+ Mint.quote +:+ "10000000" +:+ Mint.quote)].
Proof. vm_compute. reflexivity. Qed.

(** Scenario 5: twelve enqueues with a batch size of ten. *)
Example twelve_enqueues :
  let ids := ["r01"; "r02"; "r03"; "r04"; "r05"; "r06"; "r07"; "r08"; "r09"; "r10"; "r11"; "r12"] in
  let '(batch, m1) := firstBatch (map itemOf ids) (freshManager 10 5000) in
  batch = Some (map itemOf (take 10 ids))
  /\ (let '(cs, m2, sent) :=
        match batch with
        | Some b =>
            let (r, sent) := BatchSettleManager.batchSettle mixedFacilitator b [] in
            (BatchSettleManager.flushEnd b r m1, sent)
        | None => (([], m1), [])
        end in
      map fst cs = seq 0 10
      /\ map BatchSettleManager.requestId (BatchSettleManager.queue m2) = ["r11"; "r12"]
      /\ BatchSettleManager.timer m2 = Some 100
      /\ length <$> sent = [10%nat]).
Proof. vm_compute. repeat split. Qed.

(* ===================================================================== *)
(** * Further properties                                                  *)
(* ===================================================================== *)

Lemma emptyServer_healthy : Redis.healthy emptyServer.
Proof. intros o k. reflexivity. Qed.

(** ** The pending tracker: expiry, partial release, clearing *)

Section TrackerMore.

Context (self : PendingMintTracker.t) (token : string).
Context (Hconn : PendingMintTracker.ensureConnection self = true).

Let k := PendingMintTracker.key token.

(** The key after [INCRBY] and [EXPIRE 3600]. *)
Lemma incrementPending_state s n :
  Redis.healthy s ->
  snd (PendingMintTracker.incrementPending self token n s)
  = Redis.put k (Redis.Entry (pendingValue s token + n) (Some (Redis.clock s + 3600 * 1000)))
      (snd (Redis.run_incrby k n s)).
Proof.
  intros Hs. rewrite (incrementPending_healthy self token Hconn s n Hs). cbn [snd]. fold k.
  unfold Redis.run_expire, Redis.run_incrby. cbn [snd]. rewrite live_put.
  unfold pendingValue. fold k.
  destruct (Redis.live s k) as [e|] eqn:L.
  - assert (Redis.expired s (Redis.Entry (Redis.value e + n) (Redis.expireAt e)) = false)
      as -> by exact (live_not_expired s k e L).
    reflexivity.
  - reflexivity.
Qed.

Lemma clearPending_healthy s :
  Redis.healthy s ->
  PendingMintTracker.clearPending self token s = (Ret tt, Redis.remove k s).
Proof.
  intros Hs. unfold PendingMintTracker.clearPending. rewrite Hconn. cbn [negb].
  unfold try_catch, bind, Redis.del. fold k. rewrite (command_healthy s Hs).
  reflexivity.
Qed.

End TrackerMore.

(** X1.  A reservation lives for one hour.  On a healthy server
    [incrementPending] answers the former count plus [n]; the count read
    afterwards is that value as long as less than 3 600 000 ms have passed on
    the server, and 0 from then on, whatever was reserved before. *)
Theorem reservation_expires_after_an_hour self token n s elapsed :
  PendingMintTracker.ensureConnection self = true ->
  Redis.healthy s ->
  let run := PendingMintTracker.incrementPending self token n s in
  let later := Redis.advance elapsed (snd run) in
  fst run = Ret (Some (pendingValue s token + n))
  /\ (elapsed < 3600000 ->
      PendingMintTracker.getPendingCount self token later
      = (Ret (pendingValue s token + n), later))
  /\ (3600000 <= elapsed ->
      PendingMintTracker.getPendingCount self token later = (Ret 0, later)).
Proof.
  intros Hconn Hs run later.
  assert (Redis.healthy later) as Hl.
  { unfold later, run. rewrite (incrementPending_state self token Hconn s n Hs). exact Hs. }
  assert (fst run = Ret (Some (pendingValue s token + n))) as Hrun.
  { unfold run. rewrite (incrementPending_healthy self token Hconn s n Hs). cbn [fst].
    unfold Redis.run_incrby, pendingValue. cbn [fst].
    by destruct (Redis.live s (PendingMintTracker.key token)). }
  split; [exact Hrun|].
  rewrite (getPendingCount_healthy self token Hconn later Hl).
  assert (Redis.live later (PendingMintTracker.key token)
          = if 3600000 <=? elapsed then None
            else Some (Redis.Entry (pendingValue s token + n)
                                   (Some (Redis.clock s + 3600 * 1000)))) as L.
  { unfold later, run. rewrite (incrementPending_state self token Hconn s n Hs).
    unfold Redis.live, Redis.advance, Redis.put, Redis.expired. cbn.
    rewrite lookup_insert_eq. cbn.
    destruct (3600000 <=? elapsed) eqn:E.
    - apply Z.leb_le in E.
      destruct (Redis.clock s + _ <=? Redis.clock s + elapsed) eqn:E'; [done|].
      apply Z.leb_gt in E'. lia.
    - apply Z.leb_gt in E.
      destruct (Redis.clock s + _ <=? Redis.clock s + elapsed) eqn:E'; [|done].
      apply Z.leb_le in E'. lia. }
  unfold pendingValue at 1 3. rewrite L.
  split; intros H.
  - destruct (3600000 <=? elapsed) eqn:E; [apply Z.leb_le in E; lia|done].
  - destruct (3600000 <=? elapsed) eqn:E; [done|apply Z.leb_gt in E; lia].
Qed.

Lemma reservation_expires_after_an_hour_witness :
  let tracker := TokenCapacityManager.pendingTracker theManager in
  let run := PendingMintTracker.incrementPending tracker tokenAA 4 emptyServer in
  fst run = Ret (Some 4)
  /\ fst (PendingMintTracker.getPendingCount tracker tokenAA (Redis.advance 3599999 (snd run)))
     = Ret 4
  /\ fst (PendingMintTracker.getPendingCount tracker tokenAA (Redis.advance 3600000 (snd run)))
     = Ret 0.
Proof.
  cbv zeta.
  pose proof (reservation_expires_after_an_hour
                (TokenCapacityManager.pendingTracker theManager) tokenAA 4 emptyServer 3599999
                eq_refl emptyServer_healthy) as (H1 & H2 & _).
  pose proof (reservation_expires_after_an_hour
                (TokenCapacityManager.pendingTracker theManager) tokenAA 4 emptyServer 3600000
                eq_refl emptyServer_healthy) as (_ & _ & H3).
  split; [exact H1|]. split.
  - rewrite H2 by lia. reflexivity.
  - rewrite H3 by lia. reflexivity.
Defined.

(** X2.  A release never leaves a negative counter on a healthy server:
    [decrementPending] answers [max 0 (pending - n)], the count read
    afterwards is that value, and when something remains the entry keeps
    the expiry it had (the hour granted by the last reservation is not
    renewed). *)
Theorem release_floors_at_zero self token n s :
  PendingMintTracker.ensureConnection self = true ->
  Redis.healthy s ->
  let run := PendingMintTracker.decrementPending self token n s in
  let rest := Z.max 0 (pendingValue s token - n) in
  fst run = Ret rest
  /\ PendingMintTracker.getPendingCount self token (snd run) = (Ret rest, snd run)
  /\ (forall e,
        Redis.live s (PendingMintTracker.key token) = Some e ->
        0 < Redis.value e - n ->
        Redis.live (snd run) (PendingMintTracker.key token)
        = Some (Redis.Entry (Redis.value e - n) (Redis.expireAt e))).
Proof.
  intros Hconn Hs run rest.
  set (k := PendingMintTracker.key token).
  assert (fst (Redis.run_incrby k (- n) s) = pendingValue s token - n) as Hv.
  { unfold Redis.run_incrby, pendingValue. fold k. cbn [fst].
    destruct (Redis.live s k); cbn [Redis.value]; lia. }
  assert (run = if pendingValue s token - n <=? 0
                then (Ret 0, Redis.remove k (snd (Redis.run_incrby k (- n) s)))
                else (Ret (pendingValue s token - n), snd (Redis.run_incrby k (- n) s))) as Hrun.
  { unfold run. rewrite (decrementPending_healthy self token Hconn s n Hs). fold k.
    rewrite Hv. reflexivity. }
  assert (Redis.healthy (snd run)) as Hh.
  { rewrite Hrun. destruct (_ <=? 0); exact Hs. }
  rewrite (getPendingCount_healthy self token Hconn _ Hh).
  assert (Redis.live (snd (Redis.run_incrby k (- n) s)) k
          = Some (match Redis.live s k with
                  | Some e => Redis.Entry (Redis.value e + - n) (Redis.expireAt e)
                  | None => Redis.Entry (- n) None
                  end)) as Hl.
  { unfold Redis.run_incrby. cbn [snd]. rewrite live_put.
    destruct (Redis.live s k) as [e|] eqn:L; [|done].
    assert (Redis.expired s (Redis.Entry (Redis.value e + - n) (Redis.expireAt e)) = false)
      as -> by exact (live_not_expired s k e L).
    done. }
  rewrite Hrun. destruct (pendingValue s token - n <=? 0) eqn:E.
  - apply Z.leb_le in E. cbn [fst snd]. split_and!.
    + unfold rest. f_equal. lia.
    + unfold pendingValue at 1. fold k. rewrite live_remove. unfold rest. do 2 f_equal. lia.
    + intros e L Hpos. unfold pendingValue in E. fold k in E. rewrite L in E. lia.
  - apply Z.leb_gt in E. cbn [fst snd]. split_and!.
    + unfold rest. f_equal. lia.
    + unfold pendingValue at 1. fold k. rewrite Hl. unfold rest.
      unfold pendingValue. fold k.
      unfold pendingValue in E. fold k in E.
      destruct (Redis.live s k) as [e|]; cbn [Redis.value] in *;
        rewrite Z.max_r by lia; reflexivity.
    + intros e L Hpos. rewrite Hl, L. do 2 f_equal; lia.
Qed.

Lemma release_floors_at_zero_witness :
  let tracker := TokenCapacityManager.pendingTracker theManager in
  fst (PendingMintTracker.decrementPending tracker tokenAA 2 (redis world4)) = Ret 1
  /\ fst (PendingMintTracker.decrementPending tracker tokenAA 5 (redis world4)) = Ret 0.
Proof.
  cbv zeta.
  assert (Redis.healthy (redis world4)) as Hh by (intros o k; reflexivity).
  split.
  - exact (proj1 (release_floors_at_zero (TokenCapacityManager.pendingTracker theManager)
                    tokenAA 2 (redis world4) eq_refl Hh)).
  - exact (proj1 (release_floors_at_zero (TokenCapacityManager.pendingTracker theManager)
                    tokenAA 5 (redis world4) eq_refl Hh)).
Defined.

(** X3.  [clearPending] forgets the reservations of one token and of no
    other: on a healthy server the count read afterwards is 0 and every other
    key is as before; and it never rejects, whatever the server does. *)
Theorem clearPending_forgets_the_token self token s :
  PendingMintTracker.ensureConnection self = true ->
  Redis.healthy s ->
  let run := PendingMintTracker.clearPending self token s in
  fst run = Ret tt
  /\ PendingMintTracker.getPendingCount self token (snd run) = (Ret 0, snd run)
  /\ (forall k', k' <> PendingMintTracker.key token ->
                 Redis.store (snd run) !! k' = Redis.store s !! k')
  /\ (forall s0, fst (PendingMintTracker.clearPending self token s0) = Ret tt).
Proof.
  intros Hconn Hs run. unfold run.
  rewrite (clearPending_healthy self token Hconn s Hs). cbn [fst snd].
  split_and!.
  - done.
  - rewrite (getPendingCount_healthy self token Hconn _ (healthy_remove s Hs _)).
    unfold pendingValue. by rewrite live_remove.
  - intros k' Hk. unfold Redis.remove. cbn. by rewrite lookup_delete_ne.
  - intros s0. unfold PendingMintTracker.clearPending. rewrite Hconn. cbn [negb].
    unfold try_catch, bind, Redis.del, Redis.command.
    by destruct (Redis.faults s0 Redis.DEL _).
Qed.

Lemma clearPending_forgets_the_token_witness :
  let tracker := TokenCapacityManager.pendingTracker theManager in
  let run := PendingMintTracker.clearPending tracker tokenAA (redis world4) in
  fst run = Ret tt
  /\ PendingMintTracker.getPendingCount tracker tokenAA (snd run) = (Ret 0, snd run).
Proof.
  cbv zeta.
  assert (Redis.healthy (redis world4)) as Hh by (intros o k; reflexivity).
  destruct (clearPending_forgets_the_token (TokenCapacityManager.pendingTracker theManager)
              tokenAA (redis world4) eq_refl Hh) as (H1 & H2 & _).
  split; [exact H1|exact H2].
Defined.

(** ** The caches of the capacity layer *)

(** X4.  The two contract constants are read from the chain once.  After a
    first successful [getDeploymentDeadline] (resp. [getMaxMintCount]) every
    later call for the same address, in any spelling of its letters and
    whatever the chain answers by then, returns the same value and changes
    nothing; a call changes nothing but its own cache.  A call rejects only
    when nothing is cached and either the chain read fails or, for the
    deadline, the value read is no valid date (more than 8 640 000 000 000 s
    from the epoch: the log line throws a [RangeError]); it then leaves the
    cache without an entry, so that the next call asks the chain again, as
    does the call that follows [clearCache]. *)
Theorem contract_constants_are_cached_forever chain token w :
  (forall deadline w1,
      TokenDeadlineCache.getDeploymentDeadline chain token w = (Ret deadline, w1) ->
      (forall chain' token',
          Js.toLowerCase token' = Js.toLowerCase token ->
          TokenDeadlineCache.getDeploymentDeadline chain' token' w1 = (Ret deadline, w1))
      /\ redis w1 = redis w /\ trace w1 = trace w
      /\ mintCountCache w1 = mintCountCache w /\ maxMintCache w1 = maxMintCache w
      /\ (deadlineCache w !! Js.toLowerCase token = Some deadline
          \/ (chain_deploymentDeadline chain token = ReadOk deadline
              /\ TokenDeadlineCache.validDate deadline = true))
      /\ (forall chain',
            fst (TokenDeadlineCache.getDeploymentDeadline chain' token
                   (TokenDeadlineCache.clearCache (Some token) w1))
            = match chain_deploymentDeadline chain' token with
              | ReadOk d =>
                  if TokenDeadlineCache.validDate d then Ret d
                  else Thrown (RangeError "Invalid time value")
              | ReadFail m => Thrown (Error m)
              end))
  /\ (forall e w1,
        TokenDeadlineCache.getDeploymentDeadline chain token w = (Thrown e, w1) ->
        w1 = w /\ deadlineCache w !! Js.toLowerCase token = None
        /\ (chain_deploymentDeadline chain token = ReadFail (message e)
            \/ exists d, chain_deploymentDeadline chain token = ReadOk d
                         /\ TokenDeadlineCache.validDate d = false
                         /\ e = RangeError "Invalid time value"))
  /\ (forall maxCount w1,
        TokenMaxMintCache.getMaxMintCount chain token w = (Ret maxCount, w1) ->
        (forall chain' token',
            Js.toLowerCase token' = Js.toLowerCase token ->
            TokenMaxMintCache.getMaxMintCount chain' token' w1 = (Ret maxCount, w1))
        /\ redis w1 = redis w /\ trace w1 = trace w
        /\ mintCountCache w1 = mintCountCache w /\ deadlineCache w1 = deadlineCache w
        /\ (forall chain',
              fst (TokenMaxMintCache.getMaxMintCount chain' token
                     (TokenMaxMintCache.clearCache (Some token) w1))
              = match chain_maxMintCount chain' token with
                | ReadOk d => Ret d
                | ReadFail m => Thrown (Error m)
                end))
  /\ (forall e w1,
        TokenMaxMintCache.getMaxMintCount chain token w = (Thrown e, w1) ->
        w1 = w /\ maxMintCache w !! Js.toLowerCase token = None
        /\ chain_maxMintCount chain token = ReadFail (message e)).
Proof.
  split_and!.
  - intros deadline w1. unfold TokenDeadlineCache.getDeploymentDeadline.
    destruct (deadlineCache w !! Js.toLowerCase token) as [c|] eqn:Ec.
    + intros [= <- <-]. split_and!; try done.
      * intros chain' token' ->. by rewrite Ec.
      * by left.
      * intros chain'. unfold TokenDeadlineCache.clearCache. cbn [deadlineCache].
        destruct (Js.truthy token);
          [rewrite lookup_delete_eq|rewrite lookup_empty];
          (destruct (chain_deploymentDeadline chain' token) as [d'|m']; [|done]);
          by destruct (TokenDeadlineCache.validDate d').
    + destruct (chain_deploymentDeadline chain token) as [d|m]; [|discriminate].
      destruct (TokenDeadlineCache.validDate d) eqn:Ev; [|discriminate].
      intros [= <- <-]. cbn [redis trace mintCountCache maxMintCache deadlineCache].
      split_and!; try done.
      * intros chain' token' ->. by rewrite lookup_insert_eq.
      * by right.
      * intros chain'. unfold TokenDeadlineCache.clearCache. cbn [deadlineCache].
        destruct (Js.truthy token);
          [rewrite lookup_delete_eq|rewrite lookup_empty];
          (destruct (chain_deploymentDeadline chain' token) as [d'|m']; [|done]);
          by destruct (TokenDeadlineCache.validDate d').
  - intros e w1. unfold TokenDeadlineCache.getDeploymentDeadline.
    destruct (deadlineCache w !! Js.toLowerCase token) as [c|]; [discriminate|].
    destruct (chain_deploymentDeadline chain token) as [d|m].
    + destruct (TokenDeadlineCache.validDate d) eqn:Ev; [discriminate|].
      intros [= <- <-]. split_and!; try done. right. by exists d.
    + intros [= <- <-]. split_and!; try done. by left.
  - intros maxCount w1. unfold TokenMaxMintCache.getMaxMintCount.
    destruct (maxMintCache w !! Js.toLowerCase token) as [c|] eqn:Ec.
    + intros [= <- <-]. split_and!; try done.
      * intros chain' token' ->. by rewrite Ec.
      * intros chain'. unfold TokenMaxMintCache.clearCache. cbn [maxMintCache].
        destruct (Js.truthy token);
          [rewrite lookup_delete_eq|rewrite lookup_empty];
          by destruct (chain_maxMintCount chain' token).
    + destruct (chain_maxMintCount chain token) as [d|m]; [|discriminate].
      intros [= <- <-]. cbn [redis trace mintCountCache maxMintCache deadlineCache].
      split_and!; try done.
      * intros chain' token' ->. by rewrite lookup_insert_eq.
      * intros chain'. unfold TokenMaxMintCache.clearCache. cbn [maxMintCache].
        destruct (Js.truthy token);
          [rewrite lookup_delete_eq|rewrite lookup_empty];
          by destruct (chain_maxMintCount chain' token).
  - intros e w1. unfold TokenMaxMintCache.getMaxMintCount.
    destruct (maxMintCache w !! Js.toLowerCase token) as [c|]; [discriminate|].
    destruct (chain_maxMintCount chain token) as [d|m]; [discriminate|].
    by intros [= <- <-].
Qed.

(** X5.  The minted count is cached for six seconds and survives the
    failures of the chain node.  Once [getCurrentMintCount] has returned a
    value, a later call for the same address never rejects: made less than
    6000 ms after the value was fetched it returns that value without asking
    the chain; made later it returns what the chain answers, and the cached
    value when the chain read fails.  It rejects only when the chain read
    fails and nothing was ever cached for the address. *)
Theorem mintCount_cache_window chain t0 token w :
  (forall v w1,
      TokenCapacityManager.getCurrentMintCount chain t0 token w = (Ret v, w1) ->
      exists fetchedAt,
        mintCountCache w1 !! Js.toLowerCase token = Some (v, fetchedAt)
        /\ forall chain' t1 token',
             Js.toLowerCase token' = Js.toLowerCase token ->
             (t1 - fetchedAt < 6000 ->
              TokenCapacityManager.getCurrentMintCount chain' t1 token' w1 = (Ret v, w1))
             /\ (forall m, chain_mintCount chain' token' = ReadFail m ->
                           TokenCapacityManager.getCurrentMintCount chain' t1 token' w1
                           = (Ret v, w1))
             /\ (forall v', 6000 <= t1 - fetchedAt ->
                            chain_mintCount chain' token' = ReadOk v' ->
                            let run := TokenCapacityManager.getCurrentMintCount chain' t1 token' w1 in
                            fst run = Ret v'
                            /\ mintCountCache (snd run) !! Js.toLowerCase token = Some (v', t1)))
  /\ (forall e w1,
        TokenCapacityManager.getCurrentMintCount chain t0 token w = (Thrown e, w1) ->
        w1 = w /\ mintCountCache w !! Js.toLowerCase token = None
        /\ chain_mintCount chain token = ReadFail (message e)).
Proof.
  assert (forall chain' t1 token' w1 v fetchedAt,
             Js.toLowerCase token' = Js.toLowerCase token ->
             mintCountCache w1 !! Js.toLowerCase token = Some (v, fetchedAt) ->
             (t1 - fetchedAt < 6000 ->
              TokenCapacityManager.getCurrentMintCount chain' t1 token' w1 = (Ret v, w1))
             /\ (forall m, chain_mintCount chain' token' = ReadFail m ->
                           TokenCapacityManager.getCurrentMintCount chain' t1 token' w1
                           = (Ret v, w1))
             /\ (forall v', 6000 <= t1 - fetchedAt ->
                            chain_mintCount chain' token' = ReadOk v' ->
                            let run := TokenCapacityManager.getCurrentMintCount chain' t1 token' w1 in
                            fst run = Ret v'
                            /\ mintCountCache (snd run) !! Js.toLowerCase token = Some (v', t1)))
    as Hlater.
  { intros chain' t1 token' w1 v fetchedAt Hk Hc.
    unfold TokenCapacityManager.getCurrentMintCount, TokenCapacityManager.mintCountTTL.
    rewrite Hk, Hc. split_and!.
    - intros Hlt. destruct (t1 - fetchedAt <? 6000) eqn:E; [done|]. apply Z.ltb_ge in E. lia.
    - intros m Hm. rewrite Hm. by destruct (t1 - fetchedAt <? 6000).
    - intros v' Hge Hv'. rewrite Hv'.
      destruct (t1 - fetchedAt <? 6000) eqn:E; [apply Z.ltb_lt in E; lia|].
      cbn [fst snd mintCountCache]. by rewrite lookup_insert_eq. }
  split.
  - intros v w1 Hrun.
    assert (exists fetchedAt, mintCountCache w1 !! Js.toLowerCase token = Some (v, fetchedAt))
      as [fetchedAt Hf].
    { revert Hrun. unfold TokenCapacityManager.getCurrentMintCount.
      destruct (mintCountCache w !! Js.toLowerCase token) as [[c t]|] eqn:Ec.
      - destruct (t0 - t <? TokenCapacityManager.mintCountTTL).
        + intros [= <- <-]. by exists t.
        + destruct (chain_mintCount chain token) as [d|m]; intros [= <- <-].
          * exists t0. cbn [mintCountCache]. by rewrite lookup_insert_eq.
          * by exists t.
      - destruct (chain_mintCount chain token) as [d|m]; [|discriminate].
        intros [= <- <-]. exists t0. cbn [mintCountCache]. by rewrite lookup_insert_eq. }
    exists fetchedAt. split; [done|].
    intros chain' t1 token' Hk. by apply Hlater.
  - intros e w1. unfold TokenCapacityManager.getCurrentMintCount.
    destruct (mintCountCache w !! Js.toLowerCase token) as [[c t]|] eqn:Ec.
    + destruct (t0 - t <? TokenCapacityManager.mintCountTTL); [discriminate|].
      destruct (chain_mintCount chain token) as [d|m]; discriminate.
    + destruct (chain_mintCount chain token) as [d|m]; [discriminate|].
      by intros [= <- <-].
Qed.

Lemma getPendingCount_state self token s :
  snd (PendingMintTracker.getPendingCount self token s) = s.
Proof.
  unfold PendingMintTracker.getPendingCount.
  destruct (negb _); [done|].
  unfold try_catch, bind, Redis.get, bind, Redis.command, ret.
  by destruct (Redis.faults s Redis.GET _).
Qed.

Lemma getPendingCount_unreachable self token s :
  Redis.faults s Redis.GET (PendingMintTracker.key token) <> Redis.Healthy ->
  fst (PendingMintTracker.getPendingCount self token s) = Ret 0.
Proof.
  intros Hf. unfold PendingMintTracker.getPendingCount.
  destruct (negb _); [done|].
  unfold try_catch, bind, Redis.get, bind, Redis.command, ret.
  by destruct (Redis.faults s Redis.GET _).
Qed.

(** X6.  [checkCapacity] only reads.  It leaves the Redis server, the
    deadline cache and the trace as they are, and Redis cannot make it
    fail: it rejects either with [CAPACITY_EXCEEDED] or with the error of a
    failed chain read.  When the [GET] of the pending key does not go
    through (command rejected, or no connection), the pending count is taken
    to be 0. *)
Theorem checkCapacity_only_reads self chain now token n w :
  let run := TokenCapacityManager.checkCapacity self chain now token n w in
  redis (snd run) = redis w
  /\ trace (snd run) = trace w
  /\ deadlineCache (snd run) = deadlineCache w
  /\ (forall e, fst run = Thrown e ->
        code e = Some "CAPACITY_EXCEEDED"
        \/ chain_mintCount chain token = ReadFail (message e)
        \/ chain_maxMintCount chain token = ReadFail (message e))
  /\ (Redis.faults (redis w) Redis.GET (PendingMintTracker.key token) <> Redis.Healthy ->
      forall cur mx pend w',
        TokenCapacityManager.readCounts self chain now token w = (Ret (cur, mx, pend), w') ->
        pend = 0).
Proof.
  cbv zeta.
  unfold TokenCapacityManager.checkCapacity, bind, TokenCapacityManager.readCounts, all3.
  destruct (TokenCapacityManager.getCurrentMintCount chain now token w) as [ra w1] eqn:Ea.
  destruct (TokenMaxMintCache.getMaxMintCount chain token w1) as [rb w2] eqn:Eb.
  destruct (onRedis _ w2) as [rc w3] eqn:Ec.
  assert (redis w1 = redis w /\ trace w1 = trace w /\ deadlineCache w1 = deadlineCache w
          /\ forall e, ra = Thrown e -> chain_mintCount chain token = ReadFail (message e))
    as (Hr1 & Ht1 & Hd1 & He1).
  { revert Ea. unfold TokenCapacityManager.getCurrentMintCount.
    destruct (mintCountCache w !! _) as [[c t]|]; [destruct (_ <? _)|];
      destruct (chain_mintCount chain token); intros [= <- <-];
      (split_and!; try done; by intros e0 [= <-]). }
  assert (redis w2 = redis w1 /\ trace w2 = trace w1 /\ deadlineCache w2 = deadlineCache w1
          /\ forall e, rb = Thrown e -> chain_maxMintCount chain token = ReadFail (message e))
    as (Hr2 & Ht2 & Hd2 & He2).
  { revert Eb. unfold TokenMaxMintCache.getMaxMintCount.
    destruct (maxMintCache w1 !! _); [|destruct (chain_maxMintCount chain token)];
      intros [= <- <-]; (split_and!; try done; by intros e0 [= <-]). }
  assert (w3 = w2 /\ rc = fst (PendingMintTracker.getPendingCount
                                 (TokenCapacityManager.pendingTracker self) token (redis w2)))
    as (-> & Hrc).
  { revert Ec. unfold onRedis, lift.
    pose proof (getPendingCount_state (TokenCapacityManager.pendingTracker self) token (redis w2))
      as Hst.
    destruct (PendingMintTracker.getPendingCount _ token (redis w2)) as [r s'].
    cbn [snd fst] in *. subst s'. intros [= <- <-]. by destruct w2. }
  destruct (getPendingCount_returns (TokenCapacityManager.pendingTracker self) token (redis w2))
    as [pv Hpv].
  rewrite Hpv in Hrc. subst rc.
  assert (ra = ra) as _ by done.
  split_and!.
  - destruct ra as [cur|ea], rb as [mx|eb]; cbn [snd]; try congruence.
    destruct (_ >? _); unfold throw, ret; cbn [snd]; congruence.
  - destruct ra as [cur|ea], rb as [mx|eb]; cbn [snd]; try congruence.
    destruct (_ >? _); unfold throw, ret; cbn [snd]; congruence.
  - destruct ra as [cur|ea], rb as [mx|eb]; cbn [snd]; try congruence.
    destruct (_ >? _); unfold throw, ret; cbn [snd]; congruence.
  - intros e. destruct ra as [cur|ea], rb as [mx|eb]; cbn [fst].
    + destruct (_ >? _); unfold throw, ret; cbn [fst]; [|discriminate]. intros [= <-]. by left.
    + intros [= <-]. right. right. by apply He2.
    + intros [= <-]. right. left. by apply He1.
    + intros [= <-]. right. left. by apply He1.
  - intros Hf cur mx pend w'. destruct ra as [c|ea], rb as [m|eb]; try discriminate.
    intros [= _ _ <- _].
    pose proof (getPendingCount_unreachable (TokenCapacityManager.pendingTracker self) token
                  (redis w2)) as Hu.
    rewrite Hr2, Hr1 in Hu. specialize (Hu Hf). rewrite Hr2, Hr1 in Hpv. congruence.
Qed.

(** ** The abuse detector: whitelist, manual bans, the window *)

Lemma live_put_ne s k k' e : k <> k' -> Redis.live (Redis.put k e s) k' = Redis.live s k'.
Proof. intros H. unfold Redis.live, Redis.put. cbn. by rewrite lookup_insert_ne. Qed.

Lemma live_remove_ne s k k' : k <> k' -> Redis.live (Redis.remove k s) k' = Redis.live s k'.
Proof. intros H. unfold Redis.live, Redis.remove. cbn. by rewrite lookup_delete_ne. Qed.

(** A key that does not exist does not come back with time. *)
Lemma live_advance_none s k dt :
  0 <= dt -> Redis.live s k = None -> Redis.live (Redis.advance dt s) k = None.
Proof.
  unfold Redis.live, Redis.advance, Redis.expired. cbn. intros Hdt.
  destruct (Redis.store s !! k) as [e|]; [|done].
  destruct (Redis.expireAt e) as [t|]; [|done].
  destruct (t <=? Redis.clock s) eqn:E; [|done]. intros _.
  apply Z.leb_le in E.
  destruct (t <=? Redis.clock s + dt) eqn:E'; [done|]. apply Z.leb_gt in E'. lia.
Qed.

(** A key without expiry stays. *)
Lemma live_advance_persistent s k dt v :
  Redis.live s k = Some (Redis.Entry v None) ->
  Redis.live (Redis.advance dt s) k = Some (Redis.Entry v None).
Proof.
  unfold Redis.live, Redis.advance, Redis.expired. cbn.
  destruct (Redis.store s !! k) as [e|]; [|done].
  destruct e as [v' [t|]]; cbn; [|done].
  by destruct (t <=? Redis.clock s).
Qed.

Lemma whitelist_ban_keys a b : whitelistKey a <> banKey b.
Proof. unfold whitelistKey, banKey. cbn. discriminate. Qed.

Lemma whitelist_count_keys a b : whitelistKey a <> countKey b.
Proof. unfold whitelistKey, countKey. cbn. discriminate. Qed.

Lemma ban_count_keys a b : banKey a <> countKey b.
Proof. unfold banKey, countKey. cbn. discriminate. Qed.

Section DetectorMore.

Context (self : AbuseDetector.t) (identifier : string).
Context (Hconn : AbuseDetector.ensureConnection self = true).

(** On a healthy server [recordRequest] is the three-way decision on the
    whitelist key, the ban key and the counter. *)
Lemma recordRequest_healthy s :
  Redis.healthy s ->
  AbuseDetector.recordRequest self identifier s
  = (Ret (fst (recorded self identifier s)), snd (recorded self identifier s)).
Proof.
  intros Hs. rewrite (recordRequest_unfold self identifier Hconn).
  unfold try_catch, bind, recorded.
  rewrite (isWhitelisted_healthy self identifier Hconn s (Hs _ _)).
  destruct (Redis.live s (whitelistKey identifier)); [done|].
  rewrite (isBanned_healthy self identifier Hconn s (Hs _ _)).
  destruct (Redis.live s (banKey identifier)).
  - unfold Redis.ttl. rewrite (command_healthy s Hs). cbv beta iota.
    by rewrite run_ttl_state.
  - rewrite (counting_healthy self identifier Hconn s (Hs _ _) (Hs _ _) (Hs _ _)).
    reflexivity.
Qed.

Lemma addToWhitelist_healthy s :
  Redis.healthy s ->
  AbuseDetector.addToWhitelist self identifier s
  = (Ret tt, Redis.put (whitelistKey identifier) (Redis.Entry 1 None) s).
Proof.
  intros Hs. unfold AbuseDetector.addToWhitelist. rewrite Hconn. cbn [negb].
  unfold try_catch, bind, Redis.set, Redis.commandR. fold (whitelistKey identifier).
  rewrite (Hs Redis.SET _). reflexivity.
Qed.

Lemma removeFromWhitelist_healthy s :
  Redis.healthy s ->
  AbuseDetector.removeFromWhitelist self identifier s
  = (Ret tt, Redis.remove (whitelistKey identifier) s).
Proof.
  intros Hs. unfold AbuseDetector.removeFromWhitelist. rewrite Hconn. cbn [negb].
  unfold try_catch, bind, Redis.del. fold (whitelistKey identifier).
  rewrite (command_healthy s Hs). reflexivity.
Qed.

End DetectorMore.

(** X7.  A whitelisted identifier is exempt for good.  After
    [addToWhitelist] on a healthy server, [recordRequest] allows every
    request of the identifier, in any spelling of its letters, at any later
    time and whatever ban or count the server holds for it, and it writes
    nothing: the request is not even counted. *)
Theorem whitelisted_requests_are_not_counted self identifier identifier' s elapsed :
  AbuseDetector.ensureConnection self = true ->
  Redis.healthy s ->
  Js.toLowerCase identifier' = Js.toLowerCase identifier ->
  let added := AbuseDetector.addToWhitelist self identifier s in
  let later := Redis.advance elapsed (snd added) in
  fst added = Ret tt
  /\ AbuseDetector.recordRequest self identifier' later = (Ret AbuseDetector.allow, later).
Proof.
  intros Hconn Hs Hk added later. unfold later, added.
  rewrite (addToWhitelist_healthy self identifier Hconn s Hs). cbn [fst snd].
  split; [done|].
  rewrite (recordRequest_healthy self identifier' Hconn); [|exact Hs].
  unfold recorded, whitelistKey. rewrite Hk. fold (whitelistKey identifier).
  rewrite (live_advance_persistent _ _ _ 1); [done|].
  by rewrite live_put.
Qed.

Lemma whitelisted_requests_are_not_counted_witness :
  let s1 := snd (AbuseDetector.addToWhitelist theDetector "IP:203.0.113.7" atTheLimit_healthy) in
  AbuseDetector.recordRequest theDetector "ip:203.0.113.7" (Redis.advance 86400000 s1)
  = (Ret AbuseDetector.allow, Redis.advance 86400000 s1).
Proof.
  cbv zeta.
  assert (Redis.healthy atTheLimit_healthy) as Hh by (intros o k; reflexivity).
  exact (proj2 (whitelisted_requests_are_not_counted theDetector "IP:203.0.113.7"
                  "ip:203.0.113.7" atTheLimit_healthy 86400000 eq_refl Hh eq_refl)).
Defined.

(** X8.  [removeFromWhitelist] undoes [addToWhitelist]: afterwards the
    identifier is not whitelisted, no other key has changed, and when the
    identifier had no whitelist entry to begin with the server is exactly as
    it was. *)
Theorem whitelist_removal_round_trip self identifier s :
  AbuseDetector.ensureConnection self = true ->
  Redis.healthy s ->
  let added := snd (AbuseDetector.addToWhitelist self identifier s) in
  let removed := AbuseDetector.removeFromWhitelist self identifier added in
  fst removed = Ret tt
  /\ AbuseDetector.isWhitelisted self (Js.toLowerCase identifier) (snd removed)
     = (Ret false, snd removed)
  /\ (forall k', k' <> whitelistKey identifier ->
                 Redis.store (snd removed) !! k' = Redis.store s !! k')
  /\ (Redis.store s !! whitelistKey identifier = None -> snd removed = s).
Proof.
  intros Hconn Hs added removed. unfold removed, added.
  rewrite (addToWhitelist_healthy self identifier Hconn s Hs). cbn [snd].
  rewrite (removeFromWhitelist_healthy self identifier Hconn); [|exact Hs].
  cbn [fst snd]. split_and!.
  - done.
  - rewrite (isWhitelisted_healthy self identifier Hconn); [|apply Hs].
    by rewrite live_remove.
  - intros k' Hk. unfold Redis.remove, Redis.put. cbn.
    rewrite lookup_delete_ne by done. by rewrite lookup_insert_ne.
  - intros Hnone. unfold Redis.remove, Redis.put. cbn.
    rewrite delete_insert_id by done. by destruct s.
Qed.

Lemma whitelist_removal_round_trip_witness :
  snd (AbuseDetector.removeFromWhitelist theDetector "ip:203.0.113.7"
         (snd (AbuseDetector.addToWhitelist theDetector "ip:203.0.113.7" atTheLimit_healthy)))
  = atTheLimit_healthy.
Proof.
  assert (Redis.healthy atTheLimit_healthy) as Hh by (intros o k; reflexivity).
  destruct (whitelist_removal_round_trip theDetector "ip:203.0.113.7" atTheLimit_healthy
              eq_refl Hh) as (_ & _ & _ & H).
  apply H. vm_compute. reflexivity.
Defined.

(** X9.  The whitelist calls report their failures, the ban calls swallow
    them.  Without a Redis URL [addToWhitelist] and [removeFromWhitelist]
    reject with "Redis not available", and a rejected command is rethrown;
    [manualBan] and [unban] return normally in both cases, having written
    nothing.  When the pool hands out no connection, [addToWhitelist] too
    returns normally and nothing is written. *)
Theorem admin_calls_failure_modes self identifier durationMs s :
  (AbuseDetector.ensureConnection self = false ->
   AbuseDetector.addToWhitelist self identifier s = (Thrown (Error "Redis not available"), s)
   /\ AbuseDetector.removeFromWhitelist self identifier s
      = (Thrown (Error "Redis not available"), s)
   /\ AbuseDetector.manualBan self identifier durationMs s = (Ret tt, s)
   /\ AbuseDetector.unban self identifier s = (Ret tt, s))
  /\ (AbuseDetector.ensureConnection self = true ->
      (forall msg,
          Redis.faults s Redis.SET (whitelistKey identifier) = Redis.CommandError msg ->
          AbuseDetector.addToWhitelist self identifier s = (Thrown (Error msg), s))
      /\ (forall msg,
            Redis.faults s Redis.DEL (whitelistKey identifier) = Redis.CommandError msg ->
            AbuseDetector.removeFromWhitelist self identifier s = (Thrown (Error msg), s))
      /\ (forall msg,
            Redis.faults s Redis.SET (AbuseDetector.BAN_PREFIX +:+ identifier)
            = Redis.CommandError msg ->
            AbuseDetector.manualBan self identifier durationMs s = (Ret tt, s))
      /\ (forall msg,
            Redis.faults s Redis.DEL (AbuseDetector.REQUEST_COUNT_PREFIX +:+ identifier)
            = Redis.CommandError msg ->
            AbuseDetector.unban self identifier s = (Ret tt, s))
      /\ (Redis.faults s Redis.SET (whitelistKey identifier) = Redis.NoConnection ->
          AbuseDetector.addToWhitelist self identifier s = (Ret tt, s))).
Proof.
  split.
  - intros Hn. unfold AbuseDetector.addToWhitelist, AbuseDetector.removeFromWhitelist,
      AbuseDetector.manualBan, AbuseDetector.unban. by rewrite Hn.
  - intros Hc. unfold AbuseDetector.addToWhitelist, AbuseDetector.removeFromWhitelist,
      AbuseDetector.manualBan, AbuseDetector.unban. rewrite Hc. cbn [negb].
    unfold try_catch, bind, Redis.set, Redis.set_px, Redis.del, Redis.del2, Redis.command,
      Redis.commandR.
    fold (whitelistKey identifier).
    split_and!; intros; by rewrite H.
Qed.

Section ManualBan.

Context (self : AbuseDetector.t) (identifier : string).
Context (Hconn : AbuseDetector.ensureConnection self = true).

Lemma manualBan_healthy durationMs s :
  Redis.healthy s ->
  0 < Js.orDefault durationMs (AbuseDetector.banDurationMs (AbuseDetector.config self)) ->
  AbuseDetector.manualBan self identifier durationMs s
  = (Ret tt,
     Redis.put (AbuseDetector.BAN_PREFIX +:+ identifier)
       (Redis.Entry 1 (Some (Redis.clock s
                             + Js.orDefault durationMs
                                 (AbuseDetector.banDurationMs (AbuseDetector.config self)))))
       s).
Proof.
  intros Hs Hd. unfold AbuseDetector.manualBan. rewrite Hconn. cbn [negb].
  unfold try_catch, bind, Redis.set_px, Redis.commandR, Redis.run_set.
  rewrite (Hs Redis.SET _).
  destruct (_ <=? 0) eqn:E; [apply Z.leb_le in E; lia|]. reflexivity.
Qed.

(** The server refuses an expiry that is not positive; the error is
    swallowed. *)
Lemma manualBan_refused durationMs s :
  Js.orDefault durationMs (AbuseDetector.banDurationMs (AbuseDetector.config self)) <= 0 ->
  AbuseDetector.manualBan self identifier durationMs s = (Ret tt, s).
Proof.
  intros Hd. unfold AbuseDetector.manualBan. rewrite Hconn. cbn [negb].
  unfold try_catch, bind, Redis.set_px, Redis.commandR, Redis.run_set.
  destruct (Redis.faults s Redis.SET _); [|done..].
  destruct (_ <=? 0) eqn:E; [done|]. apply Z.leb_gt in E. lia.
Qed.

Lemma unban_healthy s :
  Redis.healthy s ->
  AbuseDetector.unban self identifier s
  = (Ret tt,
     Redis.remove (AbuseDetector.BAN_PREFIX +:+ identifier)
       (Redis.remove (AbuseDetector.REQUEST_COUNT_PREFIX +:+ identifier) s)).
Proof.
  intros Hs. unfold AbuseDetector.unban. rewrite Hconn. cbn [negb].
  unfold try_catch, bind, Redis.del2. rewrite (command_healthy s Hs). reflexivity.
Qed.

Lemma isBanned_raw s :
  Redis.healthy s ->
  AbuseDetector.isBanned self identifier s
  = (Ret (match Redis.live s (AbuseDetector.BAN_PREFIX +:+ identifier) with
          | Some _ => true
          | None => false
          end), s).
Proof.
  intros Hs. unfold AbuseDetector.isBanned. rewrite Hconn. cbn [negb].
  unfold try_catch, bind, Redis.exists_. rewrite (command_healthy s Hs).
  unfold Redis.run_exists, ret. cbn [fst snd]. by destruct (Redis.live s _).
Qed.

Lemma getRequestCount_raw s :
  Redis.healthy s ->
  AbuseDetector.getRequestCount self identifier s
  = (Ret (match Redis.live s (AbuseDetector.REQUEST_COUNT_PREFIX +:+ identifier) with
          | Some e => Redis.value e
          | None => 0
          end), s).
Proof.
  intros Hs. unfold AbuseDetector.getRequestCount. rewrite Hconn. cbn [negb].
  unfold try_catch, bind, Redis.get, bind. rewrite (command_healthy s Hs).
  unfold Redis.run_get, ret. cbn [fst snd]. by destruct (Redis.live s _).
Qed.

End ManualBan.

(** X10.  A manual ban lasts exactly its duration, [durationMs] or by
    default the configured ban duration, when that is positive.  For an
    identifier of ASCII text written in lower case that is not whitelisted:
    as long as less than the duration has passed, [isBanned] holds and
    [recordRequest] denies, announcing the remaining time in minutes rounded
    up, and writes nothing; from the duration on, [isBanned] no longer
    holds.  With a duration that is not positive the server refuses the
    command and [manualBan] changes nothing: a ban set earlier stays. *)
Theorem manual_ban_lasts_its_duration self identifier durationMs s elapsed :
  AbuseDetector.ensureConnection self = true ->
  Redis.healthy s ->
  Js.isAscii identifier = true ->
  Js.toLowerCase identifier = identifier ->
  Redis.live s (whitelistKey identifier) = None ->
  let duration :=
    Js.orDefault durationMs (AbuseDetector.banDurationMs (AbuseDetector.config self)) in
  0 <= elapsed ->
  let banned := AbuseDetector.manualBan self identifier durationMs s in
  let later := Redis.advance elapsed (snd banned) in
  fst banned = Ret tt
  /\ (elapsed < duration ->
      AbuseDetector.isBanned self identifier later = (Ret true, later)
      /\ AbuseDetector.recordRequest self identifier later
         = (Ret (AbuseDetector.deny
                   ("Banned for excessive requests. Try again in "
                      +:+ pretty (Js.ceilDiv ((duration - elapsed + 500) / 1000) 60)
                      +:+ " minutes.")),
            later))
  /\ (0 < duration -> duration <= elapsed ->
      AbuseDetector.isBanned self identifier later = (Ret false, later))
  /\ (duration <= 0 -> snd banned = s).
Proof.
  intros Hconn Hs Hascii Hlow Hwl duration Hel banned later.
  destruct (Z_le_gt_dec duration 0) as [Hneg|Hpos].
  { unfold later, banned.
    rewrite (manualBan_refused self identifier Hconn durationMs s Hneg).
    split_and!; [done|intros; lia|intros; lia|done]. }
  assert (duration <= 0 -> snd banned = s) as Hlast by (intros; lia).
  revert Hlast. unfold later, banned.
  rewrite (manualBan_healthy self identifier Hconn durationMs s Hs) by (fold duration; lia).
  cbn [fst snd]. intros Hlast.
  fold duration.
  assert (AbuseDetector.BAN_PREFIX +:+ identifier = banKey identifier) as Hk
    by (unfold banKey; by rewrite Hlow).
  rewrite Hk.
  set (s1 := Redis.advance elapsed _).
  assert (Redis.healthy s1) as Hs1 by exact Hs.
  assert (Redis.live s1 (banKey identifier)
          = if duration <=? elapsed then None
            else Some (Redis.Entry 1 (Some (Redis.clock s + duration)))) as Hb.
  { unfold s1, Redis.live, Redis.advance, Redis.put, Redis.expired. cbn.
    rewrite lookup_insert_eq. cbn.
    destruct (duration <=? elapsed) eqn:E.
    - apply Z.leb_le in E.
      destruct (Redis.clock s + duration <=? Redis.clock s + elapsed) eqn:E'; [done|].
      apply Z.leb_gt in E'. lia.
    - apply Z.leb_gt in E.
      destruct (Redis.clock s + duration <=? Redis.clock s + elapsed) eqn:E'; [|done].
      apply Z.leb_le in E'. lia. }
  assert (Redis.live s1 (whitelistKey identifier) = None) as Hw.
  { unfold s1. apply live_advance_none; [done|].
    rewrite live_put_ne; [done|]. intros E. by apply (whitelist_ban_keys identifier identifier). }
  split; [done|]. split; [|split; [|intros; lia]].
  - intros Hlt. destruct (duration <=? elapsed) eqn:E; [apply Z.leb_le in E; lia|].
    split.
    + rewrite (isBanned_raw self identifier Hconn s1 Hs1), Hk, Hb. done.
    + rewrite (recordRequest_healthy self identifier Hconn s1 Hs1).
      unfold recorded. rewrite Hw, Hb. cbn [fst snd].
      unfold Redis.run_ttl. rewrite Hb. cbn [Redis.expireAt fst].
      unfold AbuseDetector.deny, AbuseDetector.bannedText. cbn [Js.toNumber].
      replace (Redis.clock s + duration - Redis.clock s1 + 500) with (duration - elapsed + 500)
        by (unfold s1; cbn [Redis.clock Redis.advance Redis.put]; lia).
      reflexivity.
  - intros _ Hge. destruct (duration <=? elapsed) eqn:E; [|apply Z.leb_gt in E; lia].
    rewrite (isBanned_raw self identifier Hconn s1 Hs1), Hk, Hb. done.
Qed.

Lemma manual_ban_lasts_its_duration_witness :
  let banned := AbuseDetector.manualBan theDetector "ip:203.0.113.7" (Some 90000) emptyServer in
  AbuseDetector.recordRequest theDetector "ip:203.0.113.7" (Redis.advance 20000 (snd banned))
  = (Ret (AbuseDetector.deny "Banned for excessive requests. Try again in 2 minutes."),
     Redis.advance 20000 (snd banned))
  /\ AbuseDetector.isBanned theDetector "ip:203.0.113.7" (Redis.advance 90000 (snd banned))
     = (Ret false, Redis.advance 90000 (snd banned)).
Proof.
  cbv zeta. split.
  - destruct (manual_ban_lasts_its_duration theDetector "ip:203.0.113.7" (Some 90000)
                emptyServer 20000 eq_refl emptyServer_healthy eq_refl eq_refl eq_refl)
      as (_ & H & _); [lia|].
    destruct H as [_ H]; [vm_compute; reflexivity|]. exact H.
  - destruct (manual_ban_lasts_its_duration theDetector "ip:203.0.113.7" (Some 90000)
                emptyServer 90000 eq_refl emptyServer_healthy eq_refl eq_refl eq_refl)
      as (_ & _ & H & _); [lia|].
    apply H; [vm_compute; reflexivity|vm_compute; discriminate].
Defined.

(** X11.  [unban] lifts the ban and forgets the count.  For an identifier
    of ASCII text written in lower case that is not whitelisted, on a
    healthy server:
    afterwards [isBanned] does not hold, the request count reads 0, and the
    next request is allowed and counted as the first of a new window. *)
Theorem unban_restarts_the_count self identifier s :
  AbuseDetector.ensureConnection self = true ->
  Redis.healthy s ->
  Js.isAscii identifier = true ->
  Js.toLowerCase identifier = identifier ->
  Redis.live s (whitelistKey identifier) = None ->
  1 <= AbuseDetector.maxRequestsPerWindow (AbuseDetector.config self) ->
  0 < AbuseDetector.timeWindowMs (AbuseDetector.config self) ->
  let unbanned := AbuseDetector.unban self identifier s in
  let next := AbuseDetector.recordRequest self identifier (snd unbanned) in
  fst unbanned = Ret tt
  /\ AbuseDetector.isBanned self identifier (snd unbanned) = (Ret false, snd unbanned)
  /\ AbuseDetector.getRequestCount self identifier (snd unbanned) = (Ret 0, snd unbanned)
  /\ fst next = Ret AbuseDetector.allow
  /\ AbuseDetector.getRequestCount self identifier (snd next) = (Ret 1, snd next).
Proof.
  intros Hconn Hs Hascii Hlow Hwl Hmax Hwin unbanned next. unfold next, unbanned.
  rewrite (unban_healthy self identifier Hconn s Hs). cbn [fst snd].
  assert (AbuseDetector.BAN_PREFIX +:+ identifier = banKey identifier) as Hb
    by (unfold banKey; by rewrite Hlow).
  assert (AbuseDetector.REQUEST_COUNT_PREFIX +:+ identifier = countKey identifier) as Hc
    by (unfold countKey; by rewrite Hlow).
  rewrite Hb, Hc.
  set (s1 := Redis.remove _ _).
  assert (Redis.healthy s1) as Hs1 by exact Hs.
  assert (Redis.live s1 (banKey identifier) = None) as Lb by apply live_remove.
  assert (Redis.live s1 (countKey identifier) = None) as Lc.
  { unfold s1. rewrite live_remove_ne by apply ban_count_keys. apply live_remove. }
  assert (Redis.live s1 (whitelistKey identifier) = None) as Lw.
  { unfold s1. rewrite live_remove_ne.
    - rewrite live_remove_ne; [done|]. intros E. by apply (whitelist_count_keys identifier identifier).
    - intros E. by apply (whitelist_ban_keys identifier identifier). }
  split; [done|]. split.
  { rewrite (isBanned_raw self identifier Hconn s1 Hs1), Hb, Lb. done. }
  split.
  { rewrite (getRequestCount_raw self identifier Hconn s1 Hs1), Hc, Lc. done. }
  rewrite (recordRequest_healthy self identifier Hconn s1 Hs1).
  unfold recorded. rewrite Lw, Lb. unfold countAndBan, counted, Redis.run_incrby.
  rewrite Lc. cbn [fst snd Redis.value Z.eqb Pos.eqb].
  unfold Redis.run_expire. rewrite live_put. cbn [Redis.expired Redis.expireAt snd].
  destruct (1 >? _) eqn:E; [lia|]. cbn [fst snd]. split; [done|].
  set (s2 := Redis.put _ _ _).
  rewrite (getRequestCount_raw self identifier Hconn s2); [|exact Hs]. rewrite Hc.
  unfold s2. rewrite live_put. unfold Redis.expired. cbn.
  destruct (Redis.clock s + _ <=? Redis.clock s) eqn:E'; [apply Z.leb_le in E'; lia|done].
Qed.

Lemma unban_restarts_the_count_witness :
  let unbanned := AbuseDetector.unban theDetector "ip:203.0.113.7" atTheLimit_healthy in
  AbuseDetector.getRequestCount theDetector "ip:203.0.113.7" atTheLimit_healthy
  = (Ret 10, atTheLimit_healthy)
  /\ AbuseDetector.getRequestCount theDetector "ip:203.0.113.7" (snd unbanned)
     = (Ret 0, snd unbanned).
Proof.
  cbv zeta. split; [vm_compute; reflexivity|].
  assert (Redis.healthy atTheLimit_healthy) as Hh by (intros o k; reflexivity).
  destruct (unban_restarts_the_count theDetector "ip:203.0.113.7" atTheLimit_healthy
              eq_refl Hh eq_refl eq_refl eq_refl) as (_ & _ & H & _);
    [vm_compute; discriminate|reflexivity|].
  exact H.
Defined.

Lemma run_set_positive k v ms s :
  0 < ms ->
  Redis.run_set k v (Some ms) s
  = (Ret tt, Redis.put k (Redis.Entry v (Some (Redis.clock s + ms))) s).
Proof.
  intros H. unfold Redis.run_set.
  destruct (ms <=? 0) eqn:E; [apply Z.leb_le in E; lia|done].
Qed.

(** ** The window of the rate limiter *)

Section Window.

Context (self : AbuseDetector.t) (identifier : string).
Context (Hconn : AbuseDetector.ensureConnection self = true).
Context (Hwin : 0 < AbuseDetector.timeWindowMs (AbuseDetector.config self)).
Context (Hban : 0 < AbuseDetector.banDurationMs (AbuseDetector.config self)).

Let maxRequests := AbuseDetector.maxRequestsPerWindow (AbuseDetector.config self).

(** The counter after one more request. *)
Lemma counted_inWindow k s :
  0 <= k -> inWindow identifier k s ->
  fst (counted self identifier s) = k + 1
  /\ inWindow identifier (k + 1) (snd (counted self identifier s)).
Proof.
  intros Hk (Hs & Lw & Lb & Lc).
  unfold counted, Redis.run_incrby.
  destruct (k =? 0) eqn:E.
  - apply Z.eqb_eq in E. subst k. rewrite Lc. cbn [fst snd Redis.value Z.eqb Pos.eqb Z.add].
    unfold Redis.run_expire. rewrite live_put. cbn [Redis.expired Redis.expireAt snd fst].
    split; [done|]. unfold inWindow. cbn [Z.eqb Z.add]. split_and!.
    + exact Hs.
    + rewrite !live_put_ne; [done| |]; intros H; by apply (whitelist_count_keys identifier identifier).
    + rewrite !live_put_ne; [done| |]; intros H; by apply (ban_count_keys identifier identifier).
    + exists (Redis.clock s + AbuseDetector.timeWindowMs (AbuseDetector.config self)).
      split; [cbn; lia|]. rewrite live_put. unfold Redis.expired. cbn.
      destruct (_ <=? Redis.clock s) eqn:E'; [apply Z.leb_le in E'; lia|done].
  - apply Z.eqb_neq in E. destruct Lc as (t & Ht & Lc). rewrite Lc.
    cbn [fst snd Redis.value Redis.expireAt].
    destruct (k + 1 =? 1) eqn:E1; [apply Z.eqb_eq in E1; lia|].
    cbn [fst snd]. split; [done|]. unfold inWindow.
    destruct (k + 1 =? 0) eqn:E0; [apply Z.eqb_eq in E0; lia|]. split_and!.
    + exact Hs.
    + rewrite live_put_ne; [done|]. intros H. by apply (whitelist_count_keys identifier identifier).
    + rewrite live_put_ne; [done|]. intros H. by apply (ban_count_keys identifier identifier).
    + exists t. split; [done|]. rewrite live_put. unfold Redis.expired. cbn.
      destruct (t <=? Redis.clock s) eqn:E'; [apply Z.leb_le in E'; lia|done].
Qed.

Lemma request_within_the_limit k s :
  0 <= k -> inWindow identifier k s -> k + 1 <= maxRequests ->
  exists s', AbuseDetector.recordRequest self identifier s = (Ret AbuseDetector.allow, s')
             /\ inWindow identifier (k + 1) s'.
Proof.
  intros Hk Hin Hle. pose proof Hin as (Hs & Lw & Lb & _).
  destruct (counted_inWindow k s Hk Hin) as [Hc Hin'].
  rewrite (recordRequest_healthy self identifier Hconn s Hs).
  unfold recorded. rewrite Lw, Lb. unfold countAndBan.
  destruct (counted self identifier s) as [c s2]. cbn [fst snd] in *. subst c.
  fold maxRequests. destruct (k + 1 >? maxRequests) eqn:E; [lia|].
  by exists s2.
Qed.

Lemma request_beyond_the_limit k s :
  0 <= k -> inWindow identifier k s -> maxRequests < k + 1 ->
  exists s', AbuseDetector.recordRequest self identifier s
             = (Ret (AbuseDetector.deny (AbuseDetector.limitText (AbuseDetector.config self))), s')
             /\ underBan identifier s'.
Proof.
  intros Hk Hin Hgt. pose proof Hin as (Hs & Lw & Lb & _).
  destruct (counted_inWindow k s Hk Hin) as [Hc (Hs2 & Lw2 & Lb2 & _)].
  rewrite (recordRequest_healthy self identifier Hconn s Hs).
  unfold recorded. rewrite Lw, Lb. unfold countAndBan.
  destruct (counted self identifier s) as [c s2]. cbn [fst snd] in *. subst c.
  fold maxRequests. destruct (k + 1 >? maxRequests) eqn:E; [|lia].
  rewrite (run_set_positive _ _ _ _ Hban).
  eexists. split; [reflexivity|]. unfold underBan. cbn [snd]. split_and!.
  - exact Hs2.
  - rewrite live_put_ne; [done|]. intros H. by apply (whitelist_ban_keys identifier identifier).
  - rewrite live_put. unfold Redis.expired. cbn.
    destruct (_ <=? Redis.clock s2) eqn:E'; [apply Z.leb_le in E'; lia|done].
Qed.

Lemma request_under_ban s :
  underBan identifier s ->
  exists text, AbuseDetector.recordRequest self identifier s
               = (Ret (AbuseDetector.deny text), s).
Proof.
  intros (Hs & Lw & [e Lb]).
  rewrite (recordRequest_healthy self identifier Hconn s Hs).
  unfold recorded. rewrite Lw, Lb. by eexists.
Qed.

Lemma verdicts_under_ban n s :
  underBan identifier s -> verdicts self identifier n s = replicate n false.
Proof.
  intros Hb. induction n as [|n IH]; [done|].
  cbn [verdicts]. destruct (request_under_ban s Hb) as [text ->].
  cbn [AbuseDetector.allowed AbuseDetector.deny replicate]. by rewrite IH.
Qed.

End Window.

(** X12.  The window of the rate limiter.  When an identifier that is
    neither whitelisted nor banned has made [k] requests in its window, then
    of its next [n] requests, made before the window ends, exactly the first
    [max - k] are allowed and all the others are denied: the request that
    exceeds the limit sets the ban, and the requests after it meet the
    ban. *)
Theorem rate_limit_sequence self identifier k s n :
  AbuseDetector.ensureConnection self = true ->
  0 < AbuseDetector.timeWindowMs (AbuseDetector.config self) ->
  0 < AbuseDetector.banDurationMs (AbuseDetector.config self) ->
  0 <= k ->
  inWindow identifier k s ->
  let left := Z.to_nat (AbuseDetector.maxRequestsPerWindow (AbuseDetector.config self) - k) in
  verdicts self identifier n s
  = replicate (Nat.min n left) true ++ replicate (n - left) false.
Proof.
  intros Hconn Hwin Hban Hk Hin. cbv zeta.
  revert k s Hk Hin. induction n as [|n IH]; intros k s Hk Hin; [done|].
  set (maxRequests := AbuseDetector.maxRequestsPerWindow (AbuseDetector.config self)) in *.
  destruct (Z.le_gt_cases (k + 1) maxRequests) as [Hle|Hgt].
  - destruct (request_within_the_limit self identifier Hconn Hwin k s Hk Hin Hle)
      as (s' & Hr & Hin').
    cbn [verdicts]. rewrite Hr. cbn [AbuseDetector.allowed AbuseDetector.allow].
    rewrite (IH (k + 1) s') by (done || lia).
    replace (Z.to_nat (maxRequests - k)) with (S (Z.to_nat (maxRequests - (k + 1)))) by lia.
    reflexivity.
  - destruct (request_beyond_the_limit self identifier Hconn Hwin Hban k s Hk Hin Hgt)
      as (s' & Hr & Hb).
    cbn [verdicts]. rewrite Hr. cbn [AbuseDetector.allowed AbuseDetector.deny].
    rewrite (verdicts_under_ban self identifier Hconn n s' Hb).
    replace (Z.to_nat (maxRequests - k)) with 0%nat by lia.
    rewrite Nat.min_0_r, Nat.sub_0_r. reflexivity.
Qed.

Lemma rate_limit_sequence_witness :
  verdicts theDetector "ip:203.0.113.7" 13 emptyServer
  = replicate 10 true ++ replicate 3 false.
Proof.
  refine (rate_limit_sequence theDetector "ip:203.0.113.7" 0 emptyServer 13
            eq_refl _ _ _ _).
  - reflexivity.
  - reflexivity.
  - lia.
  - split; [exact emptyServer_healthy|]. split; [reflexivity|]. split; reflexivity.
Defined.

(** ** The whitelist gate of the handler *)

Lemma set_redis_same w : set_redis (redis w) w = w.
Proof. by destruct w. Qed.

Lemma getRequestCount_reads self identifier s :
  exists v, AbuseDetector.getRequestCount self identifier s = (Ret v, s).
Proof.
  unfold AbuseDetector.getRequestCount. destruct (negb _); [by eexists|].
  unfold try_catch, bind, Redis.get, bind, Redis.command, ret.
  destruct (Redis.faults s Redis.GET _); by eexists.
Qed.

Lemma isBanned_reads self identifier s :
  exists v, AbuseDetector.isBanned self identifier s = (Ret v, s).
Proof.
  unfold AbuseDetector.isBanned. destruct (negb _); [by eexists|].
  unfold try_catch, bind, Redis.exists_, Redis.command, ret.
  destruct (Redis.faults s Redis.EXISTS _); by eexists.
Qed.

(** [getStats] only reads, and reports an identifier as whitelisted only
    when both the [EXISTS] of its whitelist key and the [TTL] of its ban key
    went through. *)
Lemma getStats_whitelisted self identifier s :
  exists st,
    AbuseDetector.getStats self identifier s = (Ret st, s)
    /\ (AbuseDetector.stats_isWhitelisted st = true <->
        AbuseDetector.ensureConnection self = true
        /\ Redis.faults s Redis.EXISTS (whitelistKey identifier) = Redis.Healthy
        /\ is_Some (Redis.live s (whitelistKey identifier))
        /\ forall msg, Redis.faults s Redis.TTL (AbuseDetector.BAN_PREFIX +:+ identifier)
                       <> Redis.CommandError msg).
Proof.
  unfold AbuseDetector.getStats.
  destruct (AbuseDetector.ensureConnection self) eqn:Hc; cbn [negb].
  2:{ eexists. split; [reflexivity|]. cbn. split; [discriminate|]. by intros [? _]. }
  unfold try_catch, bind, all4.
  destruct (getRequestCount_reads self identifier s) as [c ->].
  destruct (isBanned_reads self identifier s) as [b ->].
  unfold AbuseDetector.isWhitelisted. rewrite Hc. cbn [negb].
  unfold bind, Redis.exists_, Redis.command. fold (whitelistKey identifier).
  pose proof (run_ttl_state (AbuseDetector.BAN_PREFIX +:+ identifier) s) as Hst.
  destruct (Redis.run_ttl (AbuseDetector.BAN_PREFIX +:+ identifier) s) as [ttl s'] eqn:Et.
  cbn [snd] in Hst. subst s'.
  destruct (Redis.faults s Redis.EXISTS (whitelistKey identifier)) eqn:Fe;
    cbn [Redis.run_exists ret fst snd]; unfold Redis.ttl, Redis.command; rewrite ?Et;
    destruct (Redis.faults s Redis.TTL (AbuseDetector.BAN_PREFIX +:+ identifier)) eqn:Ft;
    cbn [ret fst snd];
    eexists; (split; [reflexivity|]); cbn [AbuseDetector.stats_isWhitelisted AbuseDetector.noStats].
  all: try (split; [discriminate|]; intros (_ & H1 & H2 & H3); try discriminate;
            by (exfalso; eapply H3)).
  - destruct (Redis.live s (whitelistKey identifier)) as [e|]; cbn [Js.strictEq Z.eqb Pos.eqb].
    + split; [|done]. intros _. split_and!; try done; by eexists.
    + split; [discriminate|]. intros (_ & _ & [? H] & _). discriminate.
  - destruct (Redis.live s (whitelistKey identifier)) as [e|]; cbn [Js.strictEq Z.eqb Pos.eqb].
    + split; [|done]. intros _. split_and!; try done; by eexists.
    + split; [discriminate|]. intros (_ & _ & [? H] & _). discriminate.
Qed.

(** X13.  The whitelist-only gate fails closed.  With [requireWhitelist]
    the handler lets a request pass exactly when a Redis URL is configured,
    the [EXISTS] of the whitelist key of the client's address went through
    and found the key, and the [TTL] of its ban key was not rejected; in
    every other case -- no Redis, no connection, a rejected command -- it
    answers 403, and it never writes to Redis.  Without [requireWhitelist]
    the gate does nothing. *)
Theorem whitelist_gate_fails_closed app req w :
  let identifier := createIdentifier None (Some (Mint.clientIP req)) in
  let passes :=
    AbuseDetector.ensureConnection (Mint.abuseDetector app) = true
    /\ Redis.faults (redis w) Redis.EXISTS (whitelistKey identifier) = Redis.Healthy
    /\ is_Some (Redis.live (redis w) (whitelistKey identifier))
    /\ forall msg, Redis.faults (redis w) Redis.TTL (AbuseDetector.BAN_PREFIX +:+ identifier)
                   <> Redis.CommandError msg in
  (passes -> Mint.whitelistStep app req true w = (Ret (Mint.Next tt), w))
  /\ (~ passes ->
      Mint.whitelistStep app req true w
      = (Ret (Mint.Return
                {| Mint.status := 403; Mint.headers := [];
                   Mint.body :=
                     JObj [("error", JStr "Access denied");
                           ("message",
                            JStr "This endpoint is only accessible to whitelisted IPs")] |}),
         World (redis w) (mintCountCache w) (maxMintCache w) (deadlineCache w)
               (trace w ++ [Responded 403])))
  /\ Mint.whitelistStep app req false w = (Ret (Mint.Next tt), w).
Proof.
  cbv zeta. unfold Mint.whitelistStep.
  destruct (getStats_whitelisted (Mint.abuseDetector app)
              (createIdentifier None (Some (Mint.clientIP req))) (redis w)) as (st & Hst & Hiff).
  unfold bind, onRedis, lift. rewrite Hst, set_redis_same.
  split_and!.
  - intros Hp. apply Hiff in Hp. rewrite Hp. reflexivity.
  - intros Hn. destruct (AbuseDetector.stats_isWhitelisted st) eqn:E.
    + exfalso. apply Hn, Hiff. reflexivity.
    + cbn [negb]. reflexivity.
  - reflexivity.
Qed.

(** ** The connection pool: reconnection delays *)

(** X14.  The reconnection delays form a capped exponential backoff.  For
    an attempt within the budget ([1 <= times <= retryAttempts]) the delay
    is 2000 ms doubled at each attempt and capped at 30000 ms: it lies
    between 2000 and 30000, never decreases from one attempt to the next,
    and reaches the cap from the fifth attempt on; and the strategy stops
    ([null]) exactly when the attempts exceed the budget. *)
Theorem retry_delays_are_capped retryAttempts times :
  1 <= times ->
  (times <= retryAttempts ->
   exists delay,
     RedisConnectionPool.retryStrategy retryAttempts times = Some delay
     /\ 2000 <= delay <= 30000
     /\ (times <= 4 -> delay = 2000 * 2 ^ (times - 1))
     /\ (5 <= times -> delay = 30000)
     /\ (forall delay', times + 1 <= retryAttempts ->
                        RedisConnectionPool.retryStrategy retryAttempts (times + 1) = Some delay' ->
                        delay <= delay'))
  /\ (retryAttempts < times -> RedisConnectionPool.retryStrategy retryAttempts times = None)
  /\ (RedisConnectionPool.retryStrategy retryAttempts times = None -> retryAttempts < times).
Proof.
  intros H1.
  assert (forall t, 1 <= t -> 2 ^ (t - 1) >= 1) as Hpow.
  { intros t Ht. pose proof (Z.pow_pos_nonneg 2 (t - 1)). lia. }
  assert (forall t, 5 <= t -> 16 <= 2 ^ (t - 1)) as Hbig.
  { intros t Ht. change 16 with (2 ^ 4). apply Z.pow_le_mono_r; lia. }
  assert (forall t, 1 <= t -> 2 ^ (t - 1) <= 2 ^ (t + 1 - 1)) as Hmono.
  { intros t Ht. apply Z.pow_le_mono_r; lia. }
  unfold RedisConnectionPool.retryStrategy. split_and!.
  - intros Hle. destruct (times >? retryAttempts) eqn:E; [lia|].
    eexists. split; [reflexivity|]. cbv zeta. specialize (Hpow times H1).
    split; [lia|]. split; [|split].
    + intros H4.
      assert (times = 1 \/ times = 2 \/ times = 3 \/ times = 4) as [-> | [-> | [-> | ->]]] by lia;
        reflexivity.
    + intros H5. specialize (Hbig times H5). lia.
    + intros delay' Hn. destruct (times + 1 >? retryAttempts) eqn:E'; [lia|].
      intros [= <-]. specialize (Hmono times H1). lia.
  - intros Hlt. destruct (times >? retryAttempts) eqn:E; [done|lia].
  - destruct (times >? retryAttempts) eqn:E; [lia|discriminate].
Qed.

Lemma retry_delays_are_capped_witness :
  RedisConnectionPool.retryStrategy 5 3 = Some 8000
  /\ RedisConnectionPool.retryStrategy 5 5 = Some 30000
  /\ RedisConnectionPool.retryStrategy 5 6 = None.
Proof.
  split; [|split].
  - destruct (retry_delays_are_capped 5 3) as [H _]; [lia|].
    destruct H as (d & -> & _ & Hd & _); [lia|]. rewrite Hd by lia. reflexivity.
  - destruct (retry_delays_are_capped 5 5) as [H _]; [lia|].
    destruct H as (d & -> & _ & _ & Hd & _); [lia|]. rewrite Hd by lia. reflexivity.
  - destruct (retry_delays_are_capped 5 6) as (_ & H & _); [lia|]. apply H. lia.
Defined.

(** ** The connection pool: ownership of the connections *)

Section PoolOwnership.

Import RedisConnectionPool.

Lemma removeFirst_elem i id l :
  i ∈ map connId (removeFirst id l) -> i ∈ map connId l.
Proof.
  induction l as [|c l IH]; [done|]. cbn [removeFirst map].
  destruct (connId c =? id)%nat.
  - intros H. by right.
  - cbn [map]. rewrite !elem_of_cons. intros [->|H]; [by left|right; by apply IH].
Qed.

Lemma removeFirst_keep i id l :
  i ∈ map connId l -> i <> id -> i ∈ map connId (removeFirst id l).
Proof.
  induction l as [|c l IH]; [done|]. cbn [removeFirst map].
  rewrite elem_of_cons. intros [->|H] Hne.
  - destruct (connId c =? id)%nat eqn:E; [apply Nat.eqb_eq in E; done|]. cbn [map]. left.
  - destruct (connId c =? id)%nat eqn:E; [done|]. cbn [map]. right. by apply IH.
Qed.

Lemma removeFirst_NoDup id l :
  NoDup (map connId l) -> NoDup (map connId (removeFirst id l)).
Proof.
  induction l as [|c l IH]; [done|]. cbn [removeFirst map].
  rewrite NoDup_cons. intros [Hn Hd].
  destruct (connId c =? id)%nat; [done|]. cbn [map]. apply NoDup_cons. split; [|by apply IH].
  intros H. apply Hn. by apply removeFirst_elem in H.
Qed.

Lemma removeFirst_gone id l :
  NoDup (map connId l) -> id ∉ map connId (removeFirst id l).
Proof.
  induction l as [|c l IH]; [intros _; apply not_elem_of_nil|]. cbn [removeFirst map].
  rewrite NoDup_cons. intros [Hn Hd].
  destruct (connId c =? id)%nat eqn:E.
  - apply Nat.eqb_eq in E. by subst id.
  - apply Nat.eqb_neq in E. cbn [map]. rewrite not_elem_of_cons. split; [done|by apply IH].
Qed.

Lemma elem_of_rev {A} (x : A) l : x ∈ rev l <-> x ∈ l.
Proof. rewrite !list_elem_of_In. symmetry. apply in_rev. Qed.

Lemma removeConnection_wellFormed c p :
  wellFormed p -> wellFormed (removeConnection c p).
Proof.
  intros (Hk & Hf & Hfk & Huk & Hfu & Hlt). unfold wellFormed, removeConnection.
  cbn [connections availableConnections connectionsInUse nextConnectionId].
  split_and!.
  - by apply removeFirst_NoDup.
  - by apply removeFirst_NoDup.
  - intros i Hi. apply removeFirst_keep.
    + apply Hfk. by apply removeFirst_elem in Hi.
    + intros ->. by apply (removeFirst_gone (connId c) _ Hf).
  - intros i Hi. apply list_elem_of_filter in Hi as [Hne Hi]. apply removeFirst_keep; [by apply Huk|done].
  - intros i Hi Hu. apply list_elem_of_filter in Hu as [_ Hu].
    apply (Hfu i); [by apply removeFirst_elem in Hi|done].
  - intros i Hi. apply Hlt. by apply removeFirst_elem in Hi.
Qed.

Lemma removeConnection_inUse c p i :
  i ∈ connectionsInUse (removeConnection c p) -> i ∈ connectionsInUse p.
Proof.
  unfold removeConnection. cbn [connectionsInUse]. intros H.
  by apply list_elem_of_filter in H as [_ H].
Qed.

Lemma validate_connections stack p i :
  i ∈ map connId (connections (snd (validate stack p))) -> i ∈ map connId (connections p).
Proof.
  revert p. induction stack as [|c rest IH]; intros p; cbn [validate]; [done|].
  destruct (_ && _)%bool; cbn [snd]; [done|].
  intros H. apply IH in H. unfold removeConnection, setAvailable in H.
  cbn [connections] in H. by apply removeFirst_elem in H.
Qed.

(** The validation loop on a free list whose top is [stack]. *)
Lemma validate_wellFormed stack p :
  wellFormed p ->
  availableConnections p = rev stack ->
  let r := validate stack p in
  wellFormed (snd r)
  /\ (forall i, i ∈ connectionsInUse p -> i ∈ connectionsInUse (snd r))
  /\ (forall c, fst r = Some c ->
                isReady c = true /\ pingAnswers c = true
                /\ (connId c ∉ connectionsInUse p)
                /\ (connId c ∈ connectionsInUse (snd r))
                /\ (connId c ∉ map connId (availableConnections (snd r)))
                /\ c ∈ stack)
  /\ (fst r = None -> Forall (fun x => (isReady x && pingAnswers x)%bool = false) stack)
  /\ (forall i, i ∈ connectionsInUse (snd r) ->
                i ∈ connectionsInUse p \/ exists c, fst r = Some c /\ i = connId c)
  /\ nextConnectionId (snd r) = nextConnectionId p
  /\ waitingQueue (snd r) = waitingQueue p
  /\ options (snd r) = options p.
Proof.
  revert p. induction stack as [|c rest IH]; intros p Hwf Hav; cbv zeta.
  - cbn [validate fst snd]. cbn [rev] in Hav.
    assert (setAvailable [] p = p) as -> by (destruct p; cbn in *; by subst).
    split_and!; try done. intros i Hi. by left.
  - cbn [validate]. cbn [rev] in Hav.
    pose proof Hwf as (Hk & Hf & Hfk & Huk & Hfu & Hlt).
    rewrite Hav, map_app in Hf, Hfk, Hfu. cbn [map] in Hf, Hfk, Hfu.
    apply NoDup_app in Hf as (Hf1 & Hf2 & _).
    assert (connId c ∉ map connId (rev rest)) as Hc.
    { intros H. apply (Hf2 _ H). left. }
    assert (wellFormed (setAvailable (rev rest) p)) as Hwf1.
    { unfold wellFormed, setAvailable.
      cbn [connections availableConnections connectionsInUse nextConnectionId].
      split_and!; try done.
      - intros i Hi. apply Hfk. apply elem_of_app. by left.
      - intros i Hi. apply Hfu. apply elem_of_app. by left. }
    destruct (isReady c && pingAnswers c)%bool eqn:Eh.
    + apply andb_prop in Eh as [Er Ep]. cbn [fst snd].
      assert (connId c ∉ connectionsInUse p) as Hnu.
      { apply Hfu. apply elem_of_app. right. left. }
      split_and!.
      * destruct Hwf1 as (Hk1 & Hf1' & Hfk1 & Huk1 & Hfu1 & Hlt1).
        unfold wellFormed, markInUse, setAvailable in *.
        cbn [connections availableConnections connectionsInUse nextConnectionId] in *.
        split_and!; try done.
        -- intros i Hi. apply elem_of_cons in Hi as [->|Hi]; [|by apply Huk].
           apply Hfk. apply elem_of_app. right. left.
        -- intros i Hi Hu. apply elem_of_cons in Hu as [->|Hu]; [done|]. by apply (Hfu1 i).
      * intros i Hi. unfold markInUse, setAvailable. cbn [connectionsInUse]. by right.
      * intros c' [= <-]. split_and!; try done.
        -- unfold markInUse, setAvailable. cbn [connectionsInUse]. left.
        -- left.
      * discriminate.
      * intros i Hi. unfold markInUse, setAvailable in Hi. cbn [connectionsInUse] in Hi.
        apply elem_of_cons in Hi as [->|Hi]; [right; by eexists|by left].
      * done.
      * done.
      * done.
    + set (p1 := removeConnection c (setAvailable (rev rest) p)).
      assert (wellFormed p1) as Hwf2 by (by apply removeConnection_wellFormed).
      assert (availableConnections p1 = rev rest) as Hav1.
      { unfold p1, removeConnection, setAvailable. cbn [availableConnections].
        clear -Hc. induction (rev rest) as [|a l IHl]; [done|].
        cbn [map] in Hc. apply not_elem_of_cons in Hc as [Hne Hc].
        cbn [removeFirst]. destruct (connId a =? connId c)%nat eqn:E;
          [apply Nat.eqb_eq in E; congruence|]. by rewrite IHl. }
      destruct (IH p1 Hwf2 Hav1) as (H1 & H2 & H3 & H3' & H4 & H5 & H6 & H7).
      split_and!.
      * exact H1.
      * intros i Hi. apply H2.
        unfold p1, removeConnection, setAvailable. cbn [connectionsInUse].
        apply list_elem_of_filter. split; [|done]. intros ->.
        apply (Hfu (connId c)); [|done]. apply elem_of_app. right. left.
      * intros c' Hc'. destruct (H3 c' Hc') as (G1 & G2 & G3 & G4 & G5 & G6).
        split_and!; try done; [|by right]. intros Hu. apply G3.
        unfold p1, removeConnection, setAvailable. cbn [connectionsInUse].
        apply list_elem_of_filter. split; [|done]. intros E.
        apply (Hfu (connId c')); [|done]. rewrite E. apply elem_of_app. right. left.
      * intros Hn. constructor; [done|by apply H3'].
      * intros i Hi. destruct (H4 i Hi) as [Hu|Hu]; [left|by right].
        unfold p1 in Hu. by apply removeConnection_inUse in Hu.
      * rewrite H5. reflexivity.
      * rewrite H6. reflexivity.
      * rewrite H7. reflexivity.
Qed.

Lemma createConnection_wellFormed connects p :
  wellFormed p ->
  let r := createConnection connects p in
  wellFormed (snd r)
  /\ connectionsInUse (snd r) = connectionsInUse p
  /\ (fst r = Ret tt ->
      exists answersPing,
        connects (nextConnectionId p) = Connected answersPing
        /\ availableConnections (snd r)
           = availableConnections p ++ [Connection (nextConnectionId p) ready answersPing])
  /\ (forall e, fst r = Thrown e -> availableConnections (snd r) = availableConnections p).
Proof.
  intros (Hk & Hf & Hfk & Huk & Hfu & Hlt). cbv zeta. unfold createConnection.
  destruct (max (options p) <=? length (connections p))%nat; cbn [fst snd].
  { split_and!; try done. }
  destruct (connects (nextConnectionId p)) as [a|] eqn:Ea; cbn [fst snd].
  - split_and!; try done; [|intros _; by exists a].
    unfold wellFormed. cbn [connections availableConnections connectionsInUse nextConnectionId].
    rewrite !map_app. cbn [map connId].
    assert (nextConnectionId p ∉ map connId (connections p)) as Hfresh.
    { intros H. apply Hlt in H. lia. }
    split_and!.
    + apply NoDup_app. split_and!; [done| |apply NoDup_singleton].
      intros i Hi Hn. apply list_elem_of_singleton in Hn as ->. done.
    + apply NoDup_app. split_and!; [done| |apply NoDup_singleton].
      intros i Hi Hn. apply list_elem_of_singleton in Hn as ->. by apply Hfresh, Hfk.
    + intros i Hi. apply elem_of_app in Hi as [Hi|Hi]; apply elem_of_app; [left; by apply Hfk|by right].
    + intros i Hi. apply elem_of_app. left. by apply Huk.
    + intros i Hi Hu. apply elem_of_app in Hi as [Hi|Hi]; [by apply (Hfu i)|].
      apply list_elem_of_singleton in Hi as ->. by apply Hfresh, Huk.
    + intros i Hi. apply elem_of_app in Hi as [Hi|Hi]; [apply Hlt in Hi; lia|].
      apply list_elem_of_singleton in Hi as ->. lia.
  - split_and!; try done.
    unfold wellFormed. cbn [connections availableConnections connectionsInUse nextConnectionId].
    split_and!; try done. intros i Hi. apply Hlt in Hi. lia.
Qed.

Lemma popAvailable_wellFormed p :
  wellFormed p ->
  let r := popAvailable p in
  wellFormed (snd r)
  /\ (forall i, i ∈ connectionsInUse p -> i ∈ connectionsInUse (snd r))
  /\ (forall c, fst r = Some c ->
                (exists front, availableConnections p = front ++ [c])
                /\ (connId c ∉ connectionsInUse p)
                /\ (connId c ∈ connectionsInUse (snd r))
                /\ (connId c ∉ map connId (availableConnections (snd r))))
  /\ (fst r = None -> snd r = p).
Proof.
  intros Hwf. cbv zeta. unfold popAvailable.
  destruct (rev (availableConnections p)) as [|c rest] eqn:Er; cbn [fst snd].
  { split_and!; try done. }
  assert (availableConnections p = rev rest ++ [c]) as Hav.
  { rewrite <- (rev_involutive (availableConnections p)), Er. reflexivity. }
  pose proof Hwf as (Hk & Hf & Hfk & Huk & Hfu & Hlt).
  rewrite Hav, map_app in Hf, Hfk, Hfu. cbn [map] in Hf, Hfk, Hfu.
  apply NoDup_app in Hf as (Hf1 & Hf2 & _).
  assert (connId c ∉ map connId (rev rest)) as Hc.
  { intros H. apply (Hf2 _ H). left. }
  assert (connId c ∉ connectionsInUse p) as Hnu.
  { apply Hfu. apply elem_of_app. right. left. }
  split_and!.
  - unfold wellFormed, markInUse, setAvailable.
    cbn [connections availableConnections connectionsInUse nextConnectionId].
    split_and!; try done.
    + intros i Hi. apply Hfk. apply elem_of_app. by left.
    + intros i Hi. apply elem_of_cons in Hi as [->|Hi]; [|by apply Huk].
      apply Hfk. apply elem_of_app. right. left.
    + intros i Hi Hu. apply elem_of_cons in Hu as [->|Hu]; [done|].
      apply (Hfu i); [|done]. apply elem_of_app. by left.
  - intros i Hi. unfold markInUse, setAvailable. cbn [connectionsInUse]. by right.
  - intros c' [= <-]. split_and!; try done.
    + by exists (rev rest).
    + unfold markInUse, setAvailable. cbn [connectionsInUse]. left.
  - discriminate.
Qed.

End PoolOwnership.

(** X15.  A connection has one holder.  On a pool whose bookkeeping is
    consistent, [acquire] hands out only a connection that nobody held, and
    that it has taken off the free list and marked in use.  The connection
    is either one of the free list, and then it is ready and answered the
    ping; or, when every free connection failed that test, a connection
    created on the spot under a fresh id, which is handed out without being
    pinged.  The callers that held a connection still hold it; [acquire]
    resolves to [null] only when the pool is shutting down, and then changes
    nothing; and the bookkeeping stays consistent. *)
Theorem acquire_gives_exclusive_connections connects p :
  wellFormed p ->
  let r := RedisConnectionPool.acquire connects p in
  wellFormed (snd r)
  /\ (forall c,
        fst r = RedisConnectionPool.Settled (RedisConnectionPool.Fulfilled (Some c)) ->
        (RedisConnectionPool.connId c ∉ RedisConnectionPool.connectionsInUse p)
        /\ (RedisConnectionPool.connId c ∈ RedisConnectionPool.connectionsInUse (snd r))
        /\ (RedisConnectionPool.connId c
            ∉ map RedisConnectionPool.connId (RedisConnectionPool.availableConnections (snd r)))
        /\ ((c ∈ RedisConnectionPool.availableConnections p
             /\ RedisConnectionPool.isReady c = true
             /\ RedisConnectionPool.pingAnswers c = true)
            \/ (RedisConnectionPool.connId c = RedisConnectionPool.nextConnectionId p
                /\ (RedisConnectionPool.connId c
                    ∉ map RedisConnectionPool.connId (RedisConnectionPool.connections p))
                /\ connects (RedisConnectionPool.nextConnectionId p)
                   = RedisConnectionPool.Connected (RedisConnectionPool.pingAnswers c)
                /\ Forall (fun x => (RedisConnectionPool.isReady x
                                     && RedisConnectionPool.pingAnswers x)%bool = false)
                          (RedisConnectionPool.availableConnections p))))
  /\ (forall i, i ∈ RedisConnectionPool.connectionsInUse p ->
                i ∈ RedisConnectionPool.connectionsInUse (snd r))
  /\ (fst r = RedisConnectionPool.Settled (RedisConnectionPool.Fulfilled None) ->
      RedisConnectionPool.isShuttingDown p = true /\ snd r = p).
Proof.
  intros Hwf. cbv zeta. unfold RedisConnectionPool.acquire.
  destruct (RedisConnectionPool.isShuttingDown p) eqn:Hsd; cbn [fst snd].
  { split_and!; try done. }
  destruct (validate_wellFormed (rev (RedisConnectionPool.availableConnections p)) p Hwf)
    as (V1 & V2 & V3 & V3' & V4 & V5 & V6 & V7).
  { by rewrite rev_involutive. }
  destruct (RedisConnectionPool.validate _ p) as [[c|] p0] eqn:Ev; cbn [fst snd] in *.
  { split_and!; try done. intros c' [= <-].
    destruct (V3 c eq_refl) as (G1 & G2 & G3 & G4 & G5 & G6).
    split_and!; try done. left. split_and!; try done. exact (proj1 (elem_of_rev _ _) G6). }
  assert (Forall (fun x => (RedisConnectionPool.isReady x
                            && RedisConnectionPool.pingAnswers x)%bool = false)
                 (RedisConnectionPool.availableConnections p)) as Hall.
  { specialize (V3' eq_refl). apply Forall_forall. intros x Hx.
    rewrite Forall_forall in V3'. apply V3'. exact (proj2 (elem_of_rev _ _) Hx). }
  assert (forall q, wellFormed q ->
            wellFormed (snd (RedisConnectionPool.enqueueWaiter q))
            /\ RedisConnectionPool.connectionsInUse (snd (RedisConnectionPool.enqueueWaiter q))
               = RedisConnectionPool.connectionsInUse q) as Henq.
  { intros q Hq. split; [exact Hq|done]. }
  destruct (_ <? _)%nat.
  - destruct (createConnection_wellFormed connects p0 V1) as (C1 & C2 & C3 & C4).
    destruct (RedisConnectionPool.createConnection connects p0) as [[[]|e] p2] eqn:Ec;
      cbn [fst snd] in *.
    + destruct (popAvailable_wellFormed p2 C1) as (P1 & P2 & P3 & P4).
      destruct (RedisConnectionPool.popAvailable p2) as [[c|] p3] eqn:Ep; cbn [fst snd] in *.
      * split_and!; try done.
        -- intros c' [= <-]. destruct (P3 c eq_refl) as ([front Hfront] & G2 & G3 & G4).
           destruct (C3 eq_refl) as (a & Ha & Hav). rewrite Hav in Hfront.
           apply app_inj_tail in Hfront as [_ <-].
           cbn [RedisConnectionPool.connId RedisConnectionPool.pingAnswers].
           split_and!; try done.
           ++ rewrite C2 in G2. intros H. by apply G2, V2.
           ++ right. rewrite <- V5. split_and!; [done| |exact Ha|exact Hall].
              destruct Hwf as (_ & _ & _ & _ & _ & Hlt). intros H. apply Hlt in H.
              rewrite V5 in H. lia.
        -- intros i Hi. apply P2. rewrite C2. by apply V2.
      * destruct (Henq p3 P1) as [E1 E2]. split_and!; try done;
          intros i Hi; rewrite E2; apply P2; rewrite C2; by apply V2.
    + destruct (Henq p2 C1) as [E1 E2]. split_and!; try done;
        intros i Hi; rewrite E2, C2; by apply V2.
  - destruct (Henq p0 V1) as [E1 E2]. split_and!; try done;
      intros i Hi; rewrite E2; by apply V2.
Qed.

Lemma acquire_gives_exclusive_connections_witness :
  wellFormed drainedPool
  /\ fst (RedisConnectionPool.acquire muteConnects drainedPool)
     = RedisConnectionPool.Settled
         (RedisConnectionPool.Fulfilled
            (Some (RedisConnectionPool.Connection 2 RedisConnectionPool.ready false)))
  /\ fst (RedisConnectionPool.acquire alwaysConnects smallPool)
     = RedisConnectionPool.Settled
         (RedisConnectionPool.Fulfilled
            (Some (RedisConnectionPool.Connection 2 RedisConnectionPool.ready true)))
  /\ wellFormed (snd (RedisConnectionPool.acquire muteConnects drainedPool)).
Proof.
  assert (wellFormed drainedPool) as Hwf.
  { unfold wellFormed. cbn.
    split_and!;
      try (refine (bool_decide_unpack _ _); vm_compute; exact I);
      intros i Hi; repeat (apply elem_of_cons in Hi as [->|Hi]);
      try (by apply elem_of_nil in Hi);
      try (refine (bool_decide_unpack _ _); vm_compute; exact I). }
  split; [exact Hwf|]. split; [vm_compute; reflexivity|]. split; [vm_compute; reflexivity|].
  exact (proj1 (acquire_gives_exclusive_connections muteConnects drainedPool Hwf)).
Defined.

(** X16.  A released connection goes to exactly one place.  On a pool whose
    bookkeeping is consistent, releasing a connection that is in use: when
    it is ready and the pool is running, hands it to the caller at the head
    of the waiting queue, who now holds it, and leaves the free list alone,
    or, when nobody waits, pushes it on top of the free list and takes it out
    of the in-use set, so that a second release of it changes nothing; when
    it is not ready, or the pool is shutting down, drops it from the pool.
    Releasing a connection that is not in use changes nothing.  The
    bookkeeping stays consistent. *)
Theorem release_returns_or_hands_over connects c p :
  wellFormed p ->
  let r := RedisConnectionPool.release connects c p in
  let held := RedisConnectionPool.connId c ∈ RedisConnectionPool.connectionsInUse p in
  wellFormed (snd r)
  /\ (~ held -> r = (None, p))
  /\ (held ->
      RedisConnectionPool.isReady c = true ->
      RedisConnectionPool.isShuttingDown p = false ->
      forall w rest,
        RedisConnectionPool.waitingQueue p = RedisConnectionPool.Handover w :: rest ->
        fst r = Some (w, RedisConnectionPool.Fulfilled (Some c))
        /\ RedisConnectionPool.waitingQueue (snd r) = rest
        /\ (RedisConnectionPool.connId c ∈ RedisConnectionPool.connectionsInUse (snd r))
        /\ RedisConnectionPool.availableConnections (snd r)
           = RedisConnectionPool.availableConnections p)
  /\ (held ->
      RedisConnectionPool.isReady c = true ->
      RedisConnectionPool.isShuttingDown p = false ->
      RedisConnectionPool.waitingQueue p = [] ->
      fst r = None
      /\ RedisConnectionPool.availableConnections (snd r)
         = RedisConnectionPool.availableConnections p ++ [c]
      /\ (RedisConnectionPool.connId c ∉ RedisConnectionPool.connectionsInUse (snd r))
      /\ RedisConnectionPool.release connects c (snd r) = (None, snd r))
  /\ (held ->
      RedisConnectionPool.isReady c = false \/ RedisConnectionPool.isShuttingDown p = true ->
      fst r = None
      /\ (RedisConnectionPool.connId c
          ∉ map RedisConnectionPool.connId (RedisConnectionPool.connections (snd r)))
      /\ (RedisConnectionPool.connId c ∉ RedisConnectionPool.connectionsInUse (snd r))).
Proof.
  intros Hwf. cbv zeta. unfold RedisConnectionPool.release.
  destruct (bool_decide (RedisConnectionPool.connId c ∈ RedisConnectionPool.connectionsInUse p))
    eqn:Hheld; cbn [negb].
  2:{ apply bool_decide_eq_false in Hheld. cbn [fst snd]. split_and!; [done|done|..]; by intros. }
  apply bool_decide_eq_true in Hheld.
  pose proof Hwf as (Hk & Hf & Hfk & Huk & Hfu & Hlt).
  cbn [RedisConnectionPool.isShuttingDown RedisConnectionPool.waitingQueue
       RedisConnectionPool.options RedisConnectionPool.connections
       RedisConnectionPool.availableConnections RedisConnectionPool.connectionsInUse
       RedisConnectionPool.nextConnectionId RedisConnectionPool.nextWaiter].
  set (p1 := RedisConnectionPool.Pool _ _ _ _ _ (filter _ _) _ _).
  assert (wellFormed p1) as Hwf1.
  { unfold wellFormed, p1.
    cbn [RedisConnectionPool.connections RedisConnectionPool.availableConnections
         RedisConnectionPool.connectionsInUse RedisConnectionPool.nextConnectionId].
    split_and!; [done|done|done| | |done].
    - intros i Hi. apply list_elem_of_filter in Hi as [_ Hi]. by apply Huk.
    - intros i Hi Hu. apply list_elem_of_filter in Hu as [_ Hu]. by apply (Hfu i). }
  assert (RedisConnectionPool.connId c
          ∉ filter (fun i => i <> RedisConnectionPool.connId c)
                   (RedisConnectionPool.connectionsInUse p)) as Hout.
  { intros H. by apply list_elem_of_filter in H as [H _]. }
  assert (RedisConnectionPool.connId c
          ∉ map RedisConnectionPool.connId (RedisConnectionPool.availableConnections p)) as Hnf.
  { intros H. by apply (Hfu _ H). }
  destruct (RedisConnectionPool.isReady c) eqn:Er;
    destruct (RedisConnectionPool.isShuttingDown p) eqn:Hsd; cbn [andb negb].
  2:{ (* ready, running *)
    change (RedisConnectionPool.waitingQueue p1) with (RedisConnectionPool.waitingQueue p).
    destruct (RedisConnectionPool.waitingQueue p) as [|cb rest] eqn:Hq.
    - cbn [fst snd]. split_and!.
      + destruct Hwf1 as (Hk1 & Hf1 & Hfk1 & Huk1 & Hfu1 & Hlt1).
        unfold wellFormed, RedisConnectionPool.setAvailable, p1 in *.
        cbn [RedisConnectionPool.connections RedisConnectionPool.availableConnections
             RedisConnectionPool.connectionsInUse RedisConnectionPool.nextConnectionId] in *.
        rewrite map_app. cbn [map].
        split_and!; [done| | | | |done].
        * apply NoDup_app. split_and!; [done| |apply NoDup_singleton].
          intros i Hi Hn. apply list_elem_of_singleton in Hn as ->. done.
        * intros i Hi. apply elem_of_app in Hi as [Hi|Hi]; [by apply Hfk|].
          apply list_elem_of_singleton in Hi as ->. by apply Huk.
        * done.
        * intros i Hi Hu. apply elem_of_app in Hi as [Hi|Hi]; [by apply (Hfu1 i)|].
          apply list_elem_of_singleton in Hi as ->. done.
      + intros Hn. done.
      + intros _ _ _ w rest' [=].
      + intros _ _ _ _. split_and!; [done|done|done|].
        unfold RedisConnectionPool.setAvailable, p1.
        cbn [RedisConnectionPool.connectionsInUse].
        rewrite bool_decide_eq_false_2 by done. reflexivity.
      + intros _ [?|?]; discriminate.
    - destruct cb as [w|w]; cbn [RedisConnectionPool.invoke fst snd].
      + split_and!.
        * exact Hwf1.
        * intros Hn. done.
        * intros _ _ _ w' rest' [=].
        * intros _ _ _ [=].
        * intros _ [?|?]; discriminate.
      + split_and!.
        * destruct Hwf1 as (Hk1 & Hf1 & Hfk1 & Huk1 & Hfu1 & Hlt1).
          unfold wellFormed, RedisConnectionPool.markInUse, p1 in *.
          cbn [RedisConnectionPool.connections RedisConnectionPool.availableConnections
               RedisConnectionPool.connectionsInUse RedisConnectionPool.nextConnectionId] in *.
          split_and!; [done|done|done| | |done].
          -- intros i Hi. apply elem_of_cons in Hi as [->|Hi]; [by apply Huk|by apply Huk1].
          -- intros i Hi Hu. apply elem_of_cons in Hu as [->|Hu]; [done|by apply (Hfu1 i)].
        * intros Hn. done.
        * intros _ _ _ w' rest' [= <- <-]. split_and!; [done|done| |done].
          unfold RedisConnectionPool.markInUse. cbn [RedisConnectionPool.connectionsInUse]. left.
        * intros _ _ _ [=].
        * intros _ [?|?]; discriminate. }
  all: set (p2 := RedisConnectionPool.removeConnection c p1).
  all: assert (wellFormed p2) as Hwf2 by (by apply removeConnection_wellFormed).
  all: assert (RedisConnectionPool.connId c
               ∉ map RedisConnectionPool.connId (RedisConnectionPool.connections p2)) as Hgone
      by (unfold p2, RedisConnectionPool.removeConnection, p1;
          cbn [RedisConnectionPool.connections]; by apply removeFirst_gone).
  all: assert (RedisConnectionPool.connId c ∉ RedisConnectionPool.connectionsInUse p2) as Hnu
      by (intros H; apply removeConnection_inUse in H; by apply Hout).
  all: first [ change (RedisConnectionPool.isShuttingDown p2) with true
             | change (RedisConnectionPool.isShuttingDown p2) with false ].
  all: cbn [negb andb fst snd].
  - split_and!; [done|done| | |done]; intros; congruence.
  - split_and!; [done|done| | |done]; intros; congruence.
  - (* not ready, running: a replacement below the floor *)
    destruct (createConnection_wellFormed connects p2 Hwf2) as (C1 & C2 & C3 & C4).
    destruct (_ <? _)%nat; cbn [fst snd].
    + split_and!; [done|done| | |]; try (intros; congruence).
      intros _ _. split_and!; [done| |by rewrite C2].
      intros H. revert C1 C3 C4 H. unfold RedisConnectionPool.createConnection.
      destruct (_ <=? _)%nat; cbn [fst snd]; [done|].
      destruct (connects _); cbn [fst snd]; [|done].
      intros _ _ _ H. cbn [RedisConnectionPool.connections] in H.
      rewrite map_app in H. apply elem_of_app in H as [H|H]; [done|].
      cbn [map RedisConnectionPool.connId] in H. apply list_elem_of_singleton in H.
      assert (RedisConnectionPool.connId c
              ∈ map RedisConnectionPool.connId (RedisConnectionPool.connections p)) as Hin
        by (by apply Huk).
      apply Hlt in Hin.
      change (RedisConnectionPool.nextConnectionId p2)
        with (RedisConnectionPool.nextConnectionId p) in H.
      lia.
    + split_and!; [done|done| | |done]; intros; congruence.
Qed.

Lemma release_returns_or_hands_over_witness :
  let c := RedisConnectionPool.Connection 1 RedisConnectionPool.ready true in
  let r := RedisConnectionPool.release alwaysConnects c smallPool in
  wellFormed (snd r)
  /\ RedisConnectionPool.availableConnections (snd r)
     = RedisConnectionPool.availableConnections smallPool ++ [c].
Proof.
  cbv zeta.
  assert (wellFormed smallPool) as Hwf.
  { unfold wellFormed. cbn.
    split_and!;
      try (refine (bool_decide_unpack _ _); vm_compute; exact I);
      intros i Hi; repeat (apply elem_of_cons in Hi as [->|Hi]);
      try (by apply elem_of_nil in Hi);
      try (refine (bool_decide_unpack _ _); vm_compute; exact I). }
  destruct (release_returns_or_hands_over alwaysConnects
              (RedisConnectionPool.Connection 1 RedisConnectionPool.ready true) smallPool Hwf)
    as (H1 & _ & _ & H2 & _).
  split; [exact H1|].
  apply H2; try reflexivity. refine (bool_decide_unpack _ _). vm_compute. exact I.
Defined.

(** X17.  Waiting callers are served first come, first served.  On a
    running pool whose waiting queue holds the callers [ws], oldest first,
    the release of ready connections held by distinct holders hands the
    first connection to the first waiter, the second to the second, and so
    on; the waiters not yet served stay queued in their order, and no
    connection reaches the free list while a caller waits. *)
Theorem waiters_are_served_in_order connects ws cs p :
  RedisConnectionPool.isShuttingDown p = false ->
  RedisConnectionPool.waitingQueue p = map RedisConnectionPool.Handover ws ->
  (length cs <= length ws)%nat ->
  NoDup (map RedisConnectionPool.connId cs) ->
  (forall c, c ∈ cs ->
             RedisConnectionPool.isReady c = true
             /\ RedisConnectionPool.connId c ∈ RedisConnectionPool.connectionsInUse p) ->
  let r := releaseAll connects cs p in
  fst r = zip_with (fun w c => (w, RedisConnectionPool.Fulfilled (Some c))) ws cs
  /\ RedisConnectionPool.waitingQueue (snd r)
     = map RedisConnectionPool.Handover (drop (length cs) ws)
  /\ RedisConnectionPool.availableConnections (snd r)
     = RedisConnectionPool.availableConnections p.
Proof.
  revert ws p. induction cs as [|c cs IH]; intros ws p Hsd Hq Hlen Hnd Hcs; cbv zeta.
  { cbn [releaseAll fst snd length drop]. split_and!; try done. by destruct ws. }
  destruct ws as [|w ws]; [cbn in Hlen; lia|].
  cbn [map] in Hq, Hnd. apply NoDup_cons in Hnd as [Hn Hnd].
  destruct (Hcs c) as [Hr Hu]; [left|].
  cbn [releaseAll]. unfold RedisConnectionPool.release.
  rewrite bool_decide_eq_true_2 by done. cbn [negb].
  cbn [RedisConnectionPool.isShuttingDown RedisConnectionPool.waitingQueue
       RedisConnectionPool.options RedisConnectionPool.connections
       RedisConnectionPool.availableConnections RedisConnectionPool.connectionsInUse
       RedisConnectionPool.nextConnectionId RedisConnectionPool.nextWaiter].
  rewrite Hr, Hsd, Hq. cbn [andb negb RedisConnectionPool.invoke].
  set (p' := RedisConnectionPool.markInUse c _).
  specialize (IH ws p').
  destruct IH as (I1 & I2 & I3); try done.
  { cbn in Hlen. lia. }
  { intros c' Hc'. destruct (Hcs c') as [Hr' Hu']; [by right|]. split; [done|].
    unfold p', RedisConnectionPool.markInUse. cbn [RedisConnectionPool.connectionsInUse].
    right. apply list_elem_of_filter. split; [|done].
    intros E. apply Hn. rewrite <- E. apply list_elem_of_fmap. by exists c'. }
  destruct (releaseAll connects cs p') as [more p2]. cbn [fst snd] in *.
  rewrite I1, I2, I3. done.
Qed.

Lemma waiters_are_served_in_order_witness :
  let p := snd (RedisConnectionPool.acquire alwaysConnects busyPool) in
  fst (releaseAll alwaysConnects [RedisConnectionPool.Connection 1 RedisConnectionPool.ready true] p)
  = [(0%nat, RedisConnectionPool.Fulfilled
               (Some (RedisConnectionPool.Connection 1 RedisConnectionPool.ready true)))].
Proof.
  cbv zeta.
  refine (proj1 (waiters_are_served_in_order alwaysConnects [0%nat]
                   [RedisConnectionPool.Connection 1 RedisConnectionPool.ready true]
                   (snd (RedisConnectionPool.acquire alwaysConnects busyPool))
                   eq_refl eq_refl _ _ _)).
  - cbn. lia.
  - refine (bool_decide_unpack _ _). vm_compute. exact I.
  - intros c Hc. apply list_elem_of_singleton in Hc as ->. split; [reflexivity|].
    refine (bool_decide_unpack _ _). vm_compute. exact I.
Defined.

(** ** The coalescer: stale requests *)

Section Cleanup.

Import BatchSettleManager.

Context (now maxAge : Z).

Let isStale (i : SettleItem) : Prop := stale now maxAge i = true.

Lemma filter_no_ids (q : list SettleItem) :
  filter (fun i => requestId i ∉ @nil string) q = q.
Proof.
  induction q as [|a q IHq]; [done|].
  rewrite filter_cons. rewrite decide_True by apply not_elem_of_nil. by rewrite IHq.
Qed.

Lemma cleanupLoop_spec (h : string -> nat) entries m :
  NoDup (map requestId entries) ->
  (forall i, i ∈ entries -> pendingPromises m !! requestId i = Some (h (requestId i))) ->
  let r := cleanupLoop now maxAge entries m in
  let gone := map requestId (filter isStale entries) in
  queue (snd r) = filter (fun i => requestId i ∉ gone) (queue m)
  /\ snd (fst r) = Z.of_nat (length (filter isStale entries))
  /\ fst (fst r)
     = map (fun i => (h (requestId i), RejectedWith (Error "Request timeout")))
           (filter isStale entries)
  /\ (forall id, pendingPromises (snd r) !! id
                 = if bool_decide (id ∈ gone) then None else pendingPromises m !! id)
  /\ timer (snd r) = timer m /\ processing (snd r) = processing m
  /\ batchSize (snd r) = batchSize m /\ nextPromise (snd r) = nextPromise m.
Proof.
  revert m. induction entries as [|i rest IH]; intros m Hnd Hp; cbv zeta.
  - cbn [cleanupLoop fst snd]. rewrite filter_nil. cbn [map length].
    split_and!; try done. by rewrite filter_no_ids.
  - cbn [map] in Hnd. apply NoDup_cons in Hnd as [Hn Hr].
    cbn [cleanupLoop]. unfold cleanupOne. rewrite filter_cons.
    destruct (decide (isStale i)) as [Hst|Hst].
    + unfold isStale, stale in Hst. rewrite Hst. rewrite (Hp i) by left.
      set (m1 := Manager _ _ _ _ _ _ _).
      specialize (IH m1 Hr). cbv zeta in IH.
      destruct IH as (I1 & I2 & I3 & I4 & I5 & I6 & I7 & I8).
      { intros i' Hi'. unfold m1. cbn [pendingPromises].
        rewrite lookup_delete_ne; [apply Hp; by right|].
        intros E. apply Hn. rewrite E. apply list_elem_of_fmap. by exists i'. }
      destruct (cleanupLoop now maxAge rest m1) as [[rej' n'] m2]. cbn [fst snd] in *.
      cbn [map length]. split_and!.
      * rewrite I1. unfold m1. cbn [queue]. apply filter_filter_ids.
      * rewrite I2. lia.
      * rewrite I3. reflexivity.
      * intros id. rewrite I4. unfold m1. cbn [pendingPromises].
        destruct (decide (id = requestId i)) as [->|Hne].
        -- rewrite (bool_decide_eq_true_2 (requestId i ∈ requestId i :: _)) by left.
           rewrite lookup_delete_eq. by destruct (bool_decide _).
        -- rewrite lookup_delete_ne by done.
           destruct (bool_decide (id ∈ map requestId (filter isStale rest))) eqn:B.
           ++ apply bool_decide_eq_true in B. rewrite bool_decide_eq_true_2; [done|by right].
           ++ apply bool_decide_eq_false in B. rewrite bool_decide_eq_false_2; [done|].
              rewrite not_elem_of_cons. done.
      * by rewrite I5.
      * by rewrite I6.
      * by rewrite I7.
      * by rewrite I8.
    + unfold isStale, stale in Hst. apply not_true_is_false in Hst. rewrite Hst.
      specialize (IH m Hr). cbv zeta in IH.
      destruct IH as (I1 & I2 & I3 & I4 & I5 & I6 & I7 & I8).
      { intros i' Hi'. apply Hp. by right. }
      destruct (cleanupLoop now maxAge rest m) as [[rej' n'] m2]. cbn [fst snd app] in *.
      split_and!; try done; rewrite I2; lia.
Qed.

Lemma filter_ext_in {A} (P Q : A -> Prop) `{!forall x, Decision (P x), !forall x, Decision (Q x)}
      (l : list A) :
  (forall x, x ∈ l -> P x <-> Q x) -> filter P l = filter Q l.
Proof.
  induction l as [|a l IH]; intros Hext; [done|].
  rewrite !filter_cons.
  assert (filter P l = filter Q l) as -> by (apply IH; intros x Hx; apply Hext; by right).
  destruct (decide (P a)) as [Hp|Hp].
  - rewrite decide_True; [done|]. apply Hext; [left|done].
  - rewrite decide_False; [done|]. intros Hq. apply Hp. apply Hext; [left|done].
Qed.

(** With distinct ids, removing the ids of the stale requests removes the
    stale requests. *)
Lemma filter_stale_ids (q : list SettleItem) :
  NoDup (map requestId q) ->
  filter (fun i => requestId i ∉ map requestId (filter isStale q)) q
  = filter (fun i => stale now maxAge i = false) q.
Proof.
  intros Hnd. apply filter_ext_in. intros x Hx. split.
  - intros Hn. destruct (stale now maxAge x) eqn:E; [|done].
    exfalso. apply Hn. apply list_elem_of_fmap. exists x. split; [done|].
    apply list_elem_of_filter. by split.
  - intros Hf Hin. apply list_elem_of_fmap in Hin as (y & Hid & Hy).
    apply list_elem_of_filter in Hy as [Hys Hyq].
    assert (x = y) as -> by (by apply (same_id_same_item q)).
    unfold isStale in Hys. congruence.
Qed.

End Cleanup.

(** X18.  [cleanupStale] removes exactly the requests that are older than
    [maxAge] (60 s by default) and rejects each of them once, with "Request
    timeout", through the promise registered under its id; the younger
    requests stay queued in their order with their promises; the count
    returned is the number of requests removed; and the age of the oldest
    request reported by [getStatus] at that moment is then at most
    [maxAge]. *)
Theorem cleanupStale_removes_the_stale maxAge now m :
  consistent m ->
  let age := match maxAge with Some a => a | None => 60000 end in
  let r := BatchSettleManager.cleanupStale maxAge now m in
  let old := filter (fun i => stale now age i = true) (BatchSettleManager.queue m) in
  BatchSettleManager.queue (snd r)
  = filter (fun i => stale now age i = false) (BatchSettleManager.queue m)
  /\ snd (fst r) = Z.of_nat (length old)
  /\ Forall2 (fun i c =>
                BatchSettleManager.pendingPromises m !! BatchSettleManager.requestId i
                = Some (fst c)
                /\ snd c = BatchSettleManager.RejectedWith (Error "Request timeout"))
             old (fst (fst r))
  /\ (forall i, i ∈ old ->
                BatchSettleManager.pendingPromises (snd r) !! BatchSettleManager.requestId i
                = None)
  /\ (forall i, i ∈ BatchSettleManager.queue (snd r) ->
                BatchSettleManager.pendingPromises (snd r) !! BatchSettleManager.requestId i
                = BatchSettleManager.pendingPromises m !! BatchSettleManager.requestId i)
  /\ BatchSettleManager.oldestItemAge (BatchSettleManager.getStatus now (snd r)) <= Z.max age 0.
Proof.
  intros ((Hnd & Hiff & Hlt & Hinj) & Htimer). cbv zeta.
  set (age := match maxAge with Some a => a | None => 60000 end).
  set (h := fun id => default 0%nat (BatchSettleManager.pendingPromises m !! id)).
  destruct (cleanupLoop_spec now age h (BatchSettleManager.queue m) m Hnd)
    as (H1 & H2 & H3 & H4 & _).
  { intros i Hi. unfold h.
    assert (is_Some (BatchSettleManager.pendingPromises m !! BatchSettleManager.requestId i))
      as [x ->]; [|done].
    apply Hiff. apply list_elem_of_fmap. by exists i. }
  unfold BatchSettleManager.cleanupStale. fold age.
  rewrite (filter_stale_ids now age _ Hnd) in H1.
  split_and!.
  - exact H1.
  - exact H2.
  - rewrite H3. apply Forall2_fmap_r. apply Forall_Forall2_diag. apply Forall_forall.
    intros i Hi. cbn [fst snd]. split; [|done].
    apply list_elem_of_filter in Hi as [_ Hi]. unfold h.
    assert (is_Some (BatchSettleManager.pendingPromises m !! BatchSettleManager.requestId i))
      as [x ->]; [|done].
    apply Hiff. apply list_elem_of_fmap. by exists i.
  - intros i Hi. rewrite H4. rewrite bool_decide_eq_true_2; [done|].
    apply list_elem_of_fmap. by exists i.
  - intros i Hi. rewrite H4. rewrite bool_decide_eq_false_2; [done|].
    rewrite H1 in Hi. apply list_elem_of_filter in Hi as [Hns Hi].
    intros Hin. apply list_elem_of_fmap in Hin as (y & Hid & Hy).
    apply list_elem_of_filter in Hy as [Hys Hyq].
    assert (i = y) as -> by (by apply (same_id_same_item (BatchSettleManager.queue m))).
    congruence.
  - unfold BatchSettleManager.getStatus. cbn [BatchSettleManager.oldestItemAge].
    rewrite H1.
    assert (Forall (fun t => now - t <= age)
              (map BatchSettleManager.timestamp
                 (filter (fun i => stale now age i = false) (BatchSettleManager.queue m)))) as Hall.
    { apply Forall_fmap, Forall_forall. intros i Hi. apply list_elem_of_filter in Hi as [Hs _].
      cbn. unfold stale in Hs. destruct (_ >? _) eqn:E; [done|]. lia. }
    destruct (map BatchSettleManager.timestamp _) as [|t ts]; [lia|].
    apply Forall_cons in Hall as [Ht Hts].
    assert (foldr Z.min t ts <= t) as Hmin.
    { clear. induction ts as [|a l IH]; cbn [foldr]; lia. }
    enough (now - foldr Z.min t ts <= age) by lia.
    clear Hmin. induction ts as [|a l IH]; cbn [foldr]; [lia|].
    apply Forall_cons in Hts as [Ha Hl]. specialize (IH Hl). lia.
Qed.


(** ** The coalescer: what every operation keeps *)

Section Consistency.

Import BatchSettleManager.

Lemma mapSet_ids i q :
  map requestId (mapSet i q)
  = if bool_decide (requestId i ∈ map requestId q) then map requestId q
    else map requestId q ++ [requestId i].
Proof.
  induction q as [|a q IH]; cbn [mapSet map].
  - rewrite bool_decide_eq_false_2 by apply not_elem_of_nil. done.
  - destruct (String.eqb_spec (requestId a) (requestId i)) as [E|E]; cbn [map].
    + rewrite bool_decide_eq_true_2 by (rewrite E; left). by rewrite E.
    + rewrite IH. destruct (bool_decide (requestId i ∈ map requestId q)) eqn:B.
      * apply bool_decide_eq_true in B. rewrite bool_decide_eq_true_2; [done|by right].
      * apply bool_decide_eq_false in B. rewrite bool_decide_eq_false_2; [done|].
        rewrite not_elem_of_cons. split; [congruence|done].
Qed.

Lemma mapDelete_ids id q :
  map requestId (mapDelete id q) = filter (fun x => x <> id) (map requestId q).
Proof.
  unfold mapDelete. induction q as [|a q IH]; [done|].
  cbn [map]. rewrite !filter_cons.
  destruct (decide (requestId a <> id)); cbn [map]; by rewrite IH.
Qed.

Lemma agree_fields m m' :
  queue m' = queue m -> pendingPromises m' = pendingPromises m ->
  nextPromise m' = nextPromise m -> agree m -> agree m'.
Proof. unfold agree. by intros -> -> ->. Qed.

Lemma agree_make bs bt : agree (make bs bt).
Proof.
  unfold agree, make. cbn [queue pendingPromises nextPromise map]. split_and!.
  - constructor.
  - intros id. rewrite lookup_empty. split; [by intros ?%elem_of_nil|by intros [? ?]].
  - intros id h. by rewrite lookup_empty.
  - intros id id' h. by rewrite lookup_empty.
Qed.

Lemma agree_forget id m : agree m -> agree (forget id m).
Proof.
  intros (Hnd & Hiff & Hlt & Hinj). unfold agree, forget.
  cbn [queue pendingPromises nextPromise]. rewrite mapDelete_ids. split_and!.
  - by apply NoDup_filter.
  - intros id'. rewrite list_elem_of_filter, Hiff.
    destruct (decide (id' = id)) as [->|Hne].
    + rewrite lookup_delete_eq. split; [by intros [? _]|by intros [? ?]].
    + rewrite lookup_delete_ne by done. tauto.
  - intros id' h Hh. apply lookup_delete_Some in Hh as [_ Hh]. by apply (Hlt id').
  - intros id1 id2 h H1 H2. apply lookup_delete_Some in H1 as [_ H1].
    apply lookup_delete_Some in H2 as [_ H2]. by apply (Hinj id1 id2 h).
Qed.

Lemma agree_deliver rs m : agree m -> agree (snd (deliver rs m)).
Proof.
  revert m. induction rs as [|r rs IH]; intros m Ha; [done|].
  cbn [deliver]. destruct (pendingPromises m !! result_requestId r).
  - specialize (IH (forget (result_requestId r) m) (agree_forget _ _ Ha)).
    by destruct (deliver rs (forget (result_requestId r) m)).
  - by apply IH.
Qed.

Lemma agree_rejectBatch e l m : agree m -> agree (snd (rejectBatch e l m)).
Proof.
  revert m. induction l as [|i l IH]; intros m Ha; [done|].
  cbn [rejectBatch]. destruct (pendingPromises m !! requestId i).
  - specialize (IH (forget (requestId i) m) (agree_forget _ _ Ha)).
    by destruct (rejectBatch e l (forget (requestId i) m)).
  - by apply IH.
Qed.

Lemma cleanupOne_state now maxAge item m :
  snd (cleanupOne now maxAge item m)
  = if stale now maxAge item then forget (requestId item) m else m.
Proof.
  unfold cleanupOne, stale. destruct (_ >? _); [|done].
  destruct (pendingPromises m !! requestId item) eqn:L; cbn [snd]; unfold forget; [done|].
  by rewrite (delete_id _ _ L).
Qed.

Lemma cleanupLoop_keeps now maxAge entries m :
  let m' := snd (cleanupLoop now maxAge entries m) in
  (agree m -> agree m')
  /\ timer m' = timer m /\ processing m' = processing m
  /\ (queue m' <> [] -> queue m <> []).
Proof.
  revert m. induction entries as [|i rest IH]; intros m; cbv zeta; [done|].
  cbn [cleanupLoop].
  pose proof (cleanupOne_state now maxAge i m) as Hst.
  destruct (cleanupOne now maxAge i m) as [[rej n] m1]. cbn [snd] in Hst.
  specialize (IH m1). cbv zeta in IH.
  destruct (cleanupLoop now maxAge rest m1) as [[rej' n'] m2]. cbn [snd] in *.
  destruct IH as (I1 & I2 & I3 & I4). subst m1.
  destruct (stale now maxAge i).
  - split_and!.
    + intros Ha. by apply I1, agree_forget.
    + by rewrite I2.
    + by rewrite I3.
    + intros Hq. specialize (I4 Hq). intros E. apply I4.
      unfold forget, mapDelete. cbn [queue]. by rewrite E.
  - by split_and!.
Qed.

Lemma agree_enqueue requestId0 paymentPayload0 paymentRequirements0 dateNow m :
  agree m ->
  agree (Manager (mapSet {| requestId := requestId0; paymentPayload := paymentPayload0;
                            paymentRequirements := paymentRequirements0;
                            timestamp := dateNow |} (queue m))
                 (<[requestId0 := nextPromise m]> (pendingPromises m))
                 (timer m) (processing m) (batchSize m) (batchTimeout m)
                 (S (nextPromise m))).
Proof.
  intros (Hnd & Hiff & Hlt & Hinj). unfold agree.
  cbn [queue pendingPromises nextPromise]. rewrite mapSet_ids. cbn [requestId].
  split_and!.
  - destruct (bool_decide _) eqn:B; [done|]. apply bool_decide_eq_false in B.
    apply NoDup_app. split_and!; [done| |apply NoDup_singleton].
    intros x Hx Hs. apply list_elem_of_singleton in Hs as ->. done.
  - intros id. rewrite lookup_insert_is_Some'.
    destruct (bool_decide _) eqn:B.
    + apply bool_decide_eq_true in B. rewrite <- Hiff. split; [by right|].
      intros [<-|?]; done.
    + rewrite elem_of_app, list_elem_of_singleton, <- Hiff. split; intros [?|?]; auto.
  - intros id h Hh. apply lookup_insert_Some in Hh as [[_ <-]|[_ Hh]]; [lia|].
    apply Hlt in Hh. lia.
  - intros id1 id2 h H1 H2.
    apply lookup_insert_Some in H1 as [[E1 <-]|[N1 H1]];
      apply lookup_insert_Some in H2 as [[E2 E]|[N2 H2]].
    + congruence.
    + apply Hlt in H2. lia.
    + subst h. apply Hlt in H1. lia.
    + by apply (Hinj id1 id2 h).
Qed.

Lemma consistent_flushBegin m : agree m -> consistent (snd (flushBegin m)).
Proof.
  intros Ha. unfold flushBegin.
  cbn [processing queue pendingPromises timer batchSize batchTimeout nextPromise].
  destruct (processing m) eqn:Hp; cbn [orb snd].
  - split; [by apply (agree_fields m)|]. cbn [processing]. congruence.
  - destruct (length (queue m) =? 0)%nat eqn:E; cbn [snd].
    + split; [by apply (agree_fields m)|]. cbn [queue]. intros _ Hq.
      apply Nat.eqb_eq in E. by destruct (queue m).
    + split; [by apply (agree_fields m)|]. cbn [processing]. discriminate.
Qed.

Lemma consistent_addToQueue requestId0 paymentPayload0 paymentRequirements0 dateNow m :
  agree m ->
  consistent (snd (addToQueue requestId0 paymentPayload0 paymentRequirements0 dateNow m)).
Proof.
  intros Ha. unfold addToQueue.
  pose proof (agree_enqueue requestId0 paymentPayload0 paymentRequirements0 dateNow m Ha) as Ha1.
  set (m1 := Manager _ _ _ _ _ _ _) in *.
  destruct (batchSize m1 <=? _).
  - pose proof (consistent_flushBegin m1 Ha1) as Hc.
    by destruct (flushBegin m1).
  - destruct (timer m1) eqn:Ht; cbn [snd].
    + split; [done|]. intros _ _. rewrite Ht. by eexists.
    + split; [by apply (agree_fields m1)|]. intros _ _. cbn [timer]. by eexists.
Qed.

Lemma consistent_flushEnd batchItems r m :
  agree m -> consistent (snd (flushEnd batchItems r m)).
Proof.
  intros Ha. unfold flushEnd.
  assert (agree (snd (match r with
                      | Ret results => deliver results m
                      | Thrown e => rejectBatch e batchItems m
                      end))) as Ha1.
  { destruct r; [by apply agree_deliver|by apply agree_rejectBatch]. }
  destruct (match r with Ret results => deliver results m | Thrown e => _ end) as [cs m1].
  cbn [snd] in *. split; [by apply (agree_fields m1)|].
  cbn [processing queue timer]. intros _ Hq.
  destruct (queue m1) as [|a q]; [done|]. cbn [length Nat.ltb Nat.leb]. by eexists.
Qed.

Lemma consistent_cleanupStale maxAge now m :
  consistent m -> consistent (snd (cleanupStale maxAge now m)).
Proof.
  intros [Ha Ht]. unfold cleanupStale.
  destruct (cleanupLoop_keeps now (match maxAge with Some a => a | None => 60000 end)
              (queue m) m) as (K1 & K2 & K3 & K4).
  split; [by apply K1|]. rewrite K2, K3. intros Hp Hq. apply Ht; [done|by apply K4].
Qed.

Lemma consistent_flush f m sent :
  agree m -> consistent (snd (fst (flush f m sent))).
Proof.
  intros Ha. unfold flush.
  pose proof (consistent_flushBegin m Ha) as Hb.
  destruct (flushBegin m) as [[batch|] m1]; cbn [snd] in Hb; [|done].
  destruct (batchSettle f batch sent) as [r sent'].
  pose proof (consistent_flushEnd batch r m1 (proj1 Hb)) as He.
  by destruct (flushEnd batch r m1).
Qed.

End Consistency.

(** X19.  The coalescer keeps its two maps in step and strands no request.
    A new manager is consistent, and every operation on a consistent manager
    -- [addToQueue], the start and the end of a [flush] whatever the batch
    and its outcome, a whole [flush], [cleanupStale] -- leaves it consistent:
    the queued requests have distinct ids, a request is queued exactly when a
    promise is registered under its id, no promise is registered twice, and
    whenever requests are queued and no flush is in progress a timer is
    armed. *)
Theorem coalescer_stays_consistent m :
  consistent m ->
  (forall requestId paymentPayload paymentRequirements dateNow,
      consistent (snd (BatchSettleManager.addToQueue requestId paymentPayload
                                                     paymentRequirements dateNow m)))
  /\ consistent (snd (BatchSettleManager.flushBegin m))
  /\ (forall batchItems r, consistent (snd (BatchSettleManager.flushEnd batchItems r m)))
  /\ (forall f sent, consistent (snd (fst (BatchSettleManager.flush f m sent))))
  /\ (forall maxAge dateNow,
        consistent (snd (BatchSettleManager.cleanupStale maxAge dateNow m)))
  /\ (forall batchSize batchTimeout,
        consistent (BatchSettleManager.make batchSize batchTimeout)).
Proof.
  intros Hc. pose proof Hc as [Ha _]. split_and!.
  - intros. by apply consistent_addToQueue.
  - by apply consistent_flushBegin.
  - intros. by apply consistent_flushEnd.
  - intros. by apply consistent_flush.
  - intros. by apply consistent_cleanupStale.
  - intros. split; [apply agree_make|]. intros _ Hq. by destruct Hq.
Qed.

Lemma waitingManager_consistent : consistent waitingManager.
Proof.
  unfold waitingManager. cbv zeta.
  apply consistent_addToQueue. eapply proj1.
  apply consistent_addToQueue. eapply proj1.
  apply consistent_addToQueue. apply agree_make.
Qed.

Lemma coalescer_stays_consistent_witness :
  consistent waitingManager
  /\ consistent (snd (fst (BatchSettleManager.flush mixedFacilitator waitingManager []))).
Proof.
  split; [exact waitingManager_consistent|].
  exact (proj1 (proj2 (proj2 (proj2
           (coalescer_stays_consistent waitingManager waitingManager_consistent))))
           mixedFacilitator []).
Defined.

Lemma cleanupStale_removes_the_stale_witness :
  let r := BatchSettleManager.cleanupStale (Some 60000) 120000 waitingManager in
  consistent waitingManager
  /\ BatchSettleManager.queue (snd r) = [itemAt "req-3" 100000]
  /\ snd (fst r) = 2.
Proof.
  cbv zeta.
  pose proof waitingManager_consistent as Hc.
  split; [exact Hc|].
  destruct (cleanupStale_removes_the_stale (Some 60000) 120000 waitingManager Hc)
    as (H1 & H2 & _).
  split; [rewrite H1|rewrite H2]; vm_compute; reflexivity.
Defined.


(** ** The coalescer: flushing everything *)

Section FlushAll.

Import BatchSettleManager.

Lemma mapBack_ids items validItemsMap invalidItems results rs :
  mapBack items validItemsMap invalidItems results = Ret rs ->
  map result_requestId rs = map requestId items.
Proof.
  revert rs. induction items as [|i rest IH]; intros rs; cbn [mapBack].
  - by intros [= <-].
  - destruct (validItemsMap !! requestId i) as [k|].
    + destruct (results !! k) as [e|]; [|discriminate].
      destruct (mapBack rest validItemsMap invalidItems results) as [rs'|]; [|discriminate].
      intros [= <-]. cbn [map result_requestId]. by rewrite (IH rs').
    + destruct (mapBack rest validItemsMap invalidItems results) as [rs'|]; [|discriminate].
      intros [= <-]. cbn [map result_requestId]. by rewrite (IH rs').
Qed.

(** [batchSettle] answers once for each item, in the order of the items. *)
Lemma batchSettle_ids f items sent rs sent' :
  batchSettle f items sent = (Ret rs, sent') ->
  map result_requestId rs = map requestId items.
Proof.
  unfold batchSettle. destruct (length _ =? 0)%nat.
  - intros [= <- _]. rewrite map_map. reflexivity.
  - destruct (settleBatch f _) as [st t|results|msg]; try discriminate.
    intros [= H _]. by apply mapBack_ids in H.
Qed.

Lemma deliver_pending rs m id h :
  pendingPromises (snd (deliver rs m)) !! id = Some h -> pendingPromises m !! id = Some h.
Proof.
  revert m. induction rs as [|r rs IH]; intros m; [done|].
  cbn [deliver]. destruct (pendingPromises m !! result_requestId r).
  - specialize (IH (forget (result_requestId r) m)).
    destruct (deliver rs (forget (result_requestId r) m)). cbn [snd] in *.
    intros H. apply IH in H. unfold forget in H. cbn [pendingPromises] in H.
    by apply lookup_delete_Some in H as [_ H].
  - apply IH.
Qed.

Lemma rejectBatch_queue (h : string -> nat) e l m :
  NoDup (map requestId l) ->
  (forall i, i ∈ l -> pendingPromises m !! requestId i = Some (h (requestId i))) ->
  queue (snd (rejectBatch e l m)) = filter (fun i => requestId i ∉ map requestId l) (queue m)
  /\ processing (snd (rejectBatch e l m)) = processing m
  /\ batchSize (snd (rejectBatch e l m)) = batchSize m
  /\ (forall id x, pendingPromises (snd (rejectBatch e l m)) !! id = Some x ->
                   pendingPromises m !! id = Some x).
Proof.
  revert m. induction l as [|i l IH]; intros m Hnd Hp.
  - cbn [rejectBatch snd map]. split_and!; try done. by rewrite filter_no_ids.
  - cbn [map] in Hnd. apply NoDup_cons in Hnd as [Hn Hr].
    cbn [rejectBatch]. rewrite (Hp i) by left.
    destruct (IH (forget (requestId i) m) Hr) as (H1 & H2 & H3 & H4).
    { intros i' Hi'. cbn. rewrite lookup_delete_ne; [apply Hp; by right|].
      intros E. apply Hn. rewrite E. apply list_elem_of_fmap. by exists i'. }
    destruct (rejectBatch e l (forget (requestId i) m)) as [cs m'].
    cbn [fst snd] in *. split_and!; try done.
    + rewrite H1. cbn [queue forget map]. apply filter_filter_ids.
    + intros id x Hx. apply H4 in Hx. unfold forget in Hx. cbn [pendingPromises] in Hx.
      by apply lookup_delete_Some in Hx as [_ Hx].
Qed.

Lemma completions_of_results (pending : gmap string nat) (h : string -> nat)
      (l : list SettleItem) (rs : list SettleResult) :
  map result_requestId rs = map requestId l ->
  (forall i, i ∈ l -> pending !! requestId i = Some (h (requestId i))) ->
  Forall2 (fun i c => pending !! requestId i = Some (fst c)) l
          (map (fun r => (h (result_requestId r), completionOf r)) rs).
Proof.
  revert rs. induction l as [|i l IH]; intros rs Hids Hp.
  - destruct rs; [constructor|discriminate].
  - destruct rs as [|r rs]; [discriminate|]. cbn [map] in *. injection Hids as Hid Hids.
    constructor.
    + cbn [fst]. rewrite Hid. apply Hp. left.
    + apply IH; [done|]. intros i' Hi'. apply Hp. by right.
Qed.

(** One turn of [flushAll]. *)
Lemma flush_step f m sent :
  agree m -> processing m = false -> queue m <> [] -> 0 < batchSize m ->
  let r := flush f m sent in
  let b := Z.to_nat (batchSize m) in
  queue (snd (fst r)) = drop b (queue m)
  /\ processing (snd (fst r)) = false
  /\ batchSize (snd (fst r)) = batchSize m
  /\ Forall2 (fun i c => pendingPromises m !! requestId i = Some (fst c))
             (take b (queue m)) (fst (fst r))
  /\ (forall id x, pendingPromises (snd (fst r)) !! id = Some x ->
                   pendingPromises m !! id = Some x)
  /\ agree (snd (fst r))
  /\ snd r = snd (batchSettle f (take b (queue m)) sent)
  /\ (forall e, fst (batchSettle f (take b (queue m)) sent) = Thrown e ->
                 Forall (fun c => snd c = RejectedWith e) (fst (fst r))).
Proof.
  intros Ha Hp Hq Hbs. cbv zeta.
  pose proof (consistent_flush f m sent Ha) as [Ha' _].
  pose proof Ha as (Hnd & Hiff & Hlt & Hinj).
  set (b := Z.to_nat (batchSize m)).
  set (h := fun id => default 0%nat (pendingPromises m !! id)).
  assert (forall i, i ∈ queue m -> pendingPromises m !! requestId i = Some (h (requestId i)))
    as Hh.
  { intros i Hi. unfold h.
    assert (is_Some (pendingPromises m !! requestId i)) as [x ->]; [|done].
    apply Hiff. apply list_elem_of_fmap. by exists i. }
  assert (NoDup (map requestId (take b (queue m)))) as Hndb.
  { eapply sublist_NoDup; [exact Hnd|]. apply (fmap_sublist requestId), sublist_take. }
  assert (forall i, i ∈ take b (queue m) -> i ∈ queue m) as Hsub.
  { intros i Hi. apply list_elem_of_lookup in Hi as [k Hk].
    apply lookup_take_Some in Hk as [Hk _]. apply list_elem_of_lookup. by exists k. }
  revert Ha'. unfold flush, flushBegin.
  cbn [processing queue pendingPromises timer batchSize batchTimeout nextPromise].
  rewrite Hp. cbn [orb].
  destruct (length (queue m) =? 0)%nat eqn:E.
  { apply Nat.eqb_eq in E. by destruct (queue m). }
  rewrite (slice0_take _ _ Hbs). fold b.
  set (m1 := Manager _ _ _ true _ _ _).
  destruct (batchSettle f (take b (queue m)) sent) as [[rs|e] sent'] eqn:Eb.
  - pose proof (batchSettle_ids f _ _ _ _ Eb) as Hids.
    destruct (deliver_spec h rs m1) as (D1 & D2 & D3 & D4 & D5).
    { by rewrite Hids. }
    { intros r Hr. unfold m1. cbn [pendingPromises].
      assert (result_requestId r ∈ map requestId (take b (queue m))) as Hin.
      { rewrite <- Hids. apply list_elem_of_fmap. by exists r. }
      apply list_elem_of_fmap in Hin as (i & -> & Hi). apply Hh. by apply Hsub. }
    pose proof (deliver_pending rs m1) as D6.
    unfold flushEnd. destruct (deliver rs m1) as [cs m2]. cbn [fst snd] in *.
    intros Ha'. split_and!; try done.
    + rewrite D2, Hids. unfold m1. cbn [queue]. by apply filter_out_prefix.
    + rewrite D1. apply completions_of_results; [done|].
      intros i Hi. apply Hh. by apply Hsub.
  - destruct (rejectBatch_queue h e (take b (queue m)) m1 Hndb) as (R1 & R2 & R3 & R4).
    { intros i Hi. unfold m1. cbn [pendingPromises]. apply Hh. by apply Hsub. }
    pose proof (rejectBatch_spec h e (take b (queue m)) m1 Hndb) as R0.
    unfold flushEnd. destruct (rejectBatch e (take b (queue m)) m1) as [cs m2].
    cbn [fst snd] in *.
    intros Ha'. split_and!; try done.
    + rewrite R1. unfold m1. cbn [queue]. by apply filter_out_prefix.
    + rewrite R0.
      * apply Forall2_fmap_r. apply Forall_Forall2_diag. apply Forall_forall.
        intros i Hi. cbn [fst]. apply Hh. by apply Hsub.
      * intros i Hi. unfold m1. cbn [pendingPromises]. apply Hh. by apply Hsub.
    + intros e0 [= <-]. rewrite R0.
      * apply Forall_fmap, Forall_forall. by intros i Hi.
      * intros i Hi. unfold m1. cbn [pendingPromises]. apply Hh. by apply Hsub.
Qed.

Lemma flushAll_terminates f fuel m sent :
  (length (queue m) <= fuel)%nat ->
  agree m -> processing m = false -> 0 < batchSize m ->
  exists cs m' sent',
    flushAll fuel f m sent = Some (cs, m', sent')
    /\ queue m' = [] /\ processing m' = false /\ agree m'
    /\ Forall2 (fun i c => pendingPromises m !! requestId i = Some (fst c)) (queue m) cs.
Proof.
  revert m sent. induction fuel as [|fuel IH]; intros m sent Hlen Ha Hp Hbs.
  - destruct (queue m) as [|a q] eqn:Hq; [|cbn in Hlen; lia].
    exists [], m, sent. cbn [flushAll]. rewrite Hq. cbn. split_and!; try done; constructor.
  - destruct (queue m) as [|a q] eqn:Hq.
    + exists [], m, sent. cbn [flushAll]. rewrite Hq. cbn. split_and!; try done; constructor.
    + cbn [flushAll]. rewrite Hq, Hp. cbn [length Nat.ltb Nat.leb andb negb].
      destruct (flush_step f m sent Ha Hp) as (S1 & S2 & S3 & S4 & S5 & S6 & _);
        [by rewrite Hq|done|].
      destruct (flush f m sent) as [[cs m1] sent1]. cbn [fst snd] in *.
      destruct (IH m1 sent1) as (cs' & m2 & sent2 & F1 & F2 & F3 & F4 & F5); try done.
      { rewrite S1, length_drop, Hq. cbn [length] in *. lia. }
      { by rewrite S3. }
      rewrite F1. exists (cs ++ cs'), m2, sent2. split_and!; try done.
      rewrite <- Hq, <- (take_drop (Z.to_nat (batchSize m)) (queue m)).
      apply Forall2_app; [done|]. rewrite <- S1.
      eapply Forall2_impl; [exact F5|]. intros i c Hc. cbn beta in Hc. by apply S5.
Qed.

End FlushAll.

(** X20.  [flushAll] empties the queue.  On a consistent manager with a
    positive batch size and no flush in progress, when every call to the
    facilitator comes back and nothing else touches the manager, the loop
    of [flushAll] ends after at most as many turns as there are queued
    requests; it
    leaves the queue and the promise table empty, and it has settled the
    promise of every queued request exactly once, in the order in which the
    requests were queued. *)
Theorem flushAll_empties_the_queue f m sent :
  consistent m ->
  BatchSettleManager.processing m = false ->
  0 < BatchSettleManager.batchSize m ->
  exists settled m' sent',
    BatchSettleManager.flushAll (length (BatchSettleManager.queue m)) f m sent
    = Some (settled, m', sent')
    /\ BatchSettleManager.queue m' = []
    /\ BatchSettleManager.pendingPromises m' = ∅
    /\ BatchSettleManager.processing m' = false
    /\ Forall2 (fun i c =>
                  BatchSettleManager.pendingPromises m !! BatchSettleManager.requestId i
                  = Some (fst c))
               (BatchSettleManager.queue m) settled.
Proof.
  intros [Ha _] Hp Hbs.
  destruct (flushAll_terminates f (length (BatchSettleManager.queue m)) m sent)
    as (cs & m' & sent' & F1 & F2 & F3 & F4 & F5); try done.
  exists cs, m', sent'. split_and!; try done.
  destruct F4 as (_ & Hiff & _). apply map_eq. intros id. rewrite lookup_empty.
  destruct (BatchSettleManager.pendingPromises m' !! id) eqn:L; [|done].
  assert (id ∈ map BatchSettleManager.requestId (BatchSettleManager.queue m')) as Hin
    by (apply Hiff; by eexists).
  rewrite F2 in Hin. by apply elem_of_nil in Hin.
Qed.

Lemma flushAll_empties_the_queue_witness :
  exists m' sent',
    BatchSettleManager.flushAll 3 mixedFacilitator waitingManager []
    = Some ([(0%nat, BatchSettleManager.Resolved
                       {| BatchSettleManager.result_requestId := "req-1";
                          BatchSettleManager.success := true;
                          BatchSettleManager.transaction := Some "0xtx0";
                          BatchSettleManager.nonce := Some 0;
                          BatchSettleManager.error := None |});
             (1%nat, BatchSettleManager.RejectedWith
                       (Error "Verification failed: authorization expired"));
             (2%nat, BatchSettleManager.Resolved
                       {| BatchSettleManager.result_requestId := "req-3";
                          BatchSettleManager.success := true;
                          BatchSettleManager.transaction := Some "0xtx1";
                          BatchSettleManager.nonce := Some 1;
                          BatchSettleManager.error := None |})],
            m', sent')
    /\ BatchSettleManager.queue m' = [].
Proof.
  destruct (flushAll_empties_the_queue mixedFacilitator waitingManager []
              waitingManager_consistent eq_refl) as (cs & m' & sent' & H1 & H2 & _);
    [reflexivity|].
  exists m', sent'. split; [|exact H2].
  change (length (BatchSettleManager.queue waitingManager)) with 3%nat in H1.
  rewrite H1. f_equal. f_equal. f_equal.
  assert (Some (cs, m', sent')
          = BatchSettleManager.flushAll 3 mixedFacilitator waitingManager []) as E
    by (by rewrite H1).
  vm_compute in E. by injection E as -> _ _.
Defined.

(** ** The coalescer: a facilitator that answers for too few items *)

Section ShortAnswer.

Import BatchSettleManager.

Variable f : Facilitator.

Lemma mapBack_thrown l validItemsMap invalidItems results e :
  mapBack l validItemsMap invalidItems results = Thrown e ->
  e = Error "Cannot read properties of undefined (reading 'success')".
Proof.
  induction l as [|i r IH]; [done|]. cbn [mapBack].
  destruct (validItemsMap !! requestId i) as [k|]; [destruct (results !! k)|];
    destruct (mapBack r validItemsMap invalidItems results);
    try discriminate; try (intros [= <-]; by apply IH); by intros [= <-].
Qed.

Lemma mapBack_short items results l j v :
  NoDup (map requestId items) ->
  validItems f items !! j = Some v -> results !! j = None -> v ∈ l ->
  exists e,
    mapBack l (indexMap (validItems f items))
            (filter (fun r => valid r = false) (map (reverify f) items)) results
    = Thrown e.
Proof.
  intros Hnd Hj Hr. induction l as [|i r IH]; intros Hv; [by apply elem_of_nil in Hv|].
  apply elem_of_cons in Hv as [<-|Hv].
  - cbn [mapBack]. rewrite (indexMap_valid f items j v Hnd Hj), Hr. by eexists.
  - destruct (IH Hv) as [e He]. cbn [mapBack]. rewrite He.
    destruct (indexMap (validItems f items) !! requestId i) as [k|];
      [destruct (results !! k)|]; by eexists.
Qed.

Lemma batchSettle_short items sent results :
  NoDup (map requestId items) ->
  settleBatch f (map toBody (validItems f items)) = BatchJson results ->
  (length results < length (validItems f items))%nat ->
  batchSettle f items sent
  = (Thrown (Error "Cannot read properties of undefined (reading 'success')"),
     sent ++ [map toBody (validItems f items)]).
Proof.
  intros Hnd Hs Hlen.
  destruct (lookup_lt_is_Some_2 (validItems f items) (length results) Hlen) as [v Hv].
  assert (v ∈ items) as Hin.
  { assert (v ∈ validItems f items) as H by (apply list_elem_of_lookup; by eexists).
    by apply validItems_valid in H as [_ H]. }
  destruct (mapBack_short items results items _ v Hnd Hv) as [e He]; [|done|].
  { by apply lookup_ge_None. }
  pose proof (mapBack_thrown _ _ _ _ _ He) as ->.
  unfold batchSettle. rewrite valid_split.
  destruct (validItems f items) as [|a vs] eqn:E; [cbn in Hlen; lia|].
  cbn [length Nat.eqb]. rewrite Hs. by rewrite He.
Qed.

End ShortAnswer.

(** X21.  A facilitator that answers for too few items fails the whole
    batch.  When the answer to [POST /settle/batch] holds fewer results than
    the batch has valid items, the flush posts the valid items once, and then
    rejects the promise of every request of the batch with the TypeError of
    the missing result, the requests whose result was present included; the
    batch leaves the queue. *)
Theorem short_answer_rejects_the_whole_batch f m sent results :
  consistent m ->
  BatchSettleManager.processing m = false ->
  0 < BatchSettleManager.batchSize m ->
  let batch := take (Z.to_nat (BatchSettleManager.batchSize m)) (BatchSettleManager.queue m) in
  BatchSettleManager.settleBatch f (map BatchSettleManager.toBody (validItems f batch))
  = BatchSettleManager.BatchJson results ->
  (length results < length (validItems f batch))%nat ->
  let r := BatchSettleManager.flush f m sent in
  snd r = sent ++ [map BatchSettleManager.toBody (validItems f batch)]
  /\ Forall2 (fun i c =>
                BatchSettleManager.pendingPromises m !! BatchSettleManager.requestId i
                = Some (fst c))
             batch (fst (fst r))
  /\ Forall (fun c =>
               snd c = BatchSettleManager.RejectedWith
                         (Error "Cannot read properties of undefined (reading 'success')"))
            (fst (fst r))
  /\ BatchSettleManager.queue (snd (fst r))
     = drop (Z.to_nat (BatchSettleManager.batchSize m)) (BatchSettleManager.queue m).
Proof.
  intros [Ha _] Hp Hbs batch Hs Hlen r.
  assert (BatchSettleManager.queue m <> []) as Hq.
  { intros E. unfold batch in Hlen. rewrite E, take_nil in Hlen. cbn in Hlen. lia. }
  assert (NoDup (map BatchSettleManager.requestId batch)) as Hnd.
  { destruct Ha as (Hnd & _). eapply sublist_NoDup; [exact Hnd|].
    apply (fmap_sublist BatchSettleManager.requestId), sublist_take. }
  pose proof (batchSettle_short f batch sent results Hnd Hs Hlen) as Hb.
  destruct (flush_step f m sent Ha Hp Hq Hbs) as (S1 & _ & _ & S4 & _ & _ & S7 & S8).
  fold batch in S4, S7, S8. fold r in S1, S4, S7, S8. rewrite Hb in S7, S8.
  split_and!; [exact S7|exact S4|by apply S8|exact S1].
Qed.

Lemma short_answer_rejects_the_whole_batch_witness :
  fst (fst (BatchSettleManager.flush truncatingFacilitator waitingManager []))
  = map (fun h => (h, BatchSettleManager.RejectedWith
                        (Error "Cannot read properties of undefined (reading 'success')")))
        [0; 1; 2]%nat
  /\ length (snd (BatchSettleManager.flush truncatingFacilitator waitingManager [])) = 1%nat
  /\ BatchSettleManager.queue
       (snd (fst (BatchSettleManager.flush truncatingFacilitator waitingManager []))) = [].
Proof.
  destruct (short_answer_rejects_the_whole_batch
              truncatingFacilitator waitingManager []
              (take 1 (imap (fun k _ =>
                    {| BatchSettleManager.entry_index := Z.of_nat k;
                       BatchSettleManager.entry_success := true;
                       BatchSettleManager.entry_transaction := Some ("0xtx" +:+ pretty k);
                       BatchSettleManager.entry_nonce := Z.of_nat k;
                       BatchSettleManager.entry_error := None |})
                    (map BatchSettleManager.toBody
                         (validItems truncatingFacilitator
                            (take 10 (BatchSettleManager.queue waitingManager))))))
              waitingManager_consistent eq_refl)
    as (H1 & _ & _ & H4).
  - reflexivity.
  - reflexivity.
  - vm_compute. lia.
  - split_and!.
    + vm_compute. reflexivity.
    + rewrite H1. reflexivity.
    + rewrite H4. reflexivity.
Defined.

(** ** The coalescer: a request id that is enqueued twice *)

Section Orphan.

Import BatchSettleManager.

Lemma mapSet_length i q :
  requestId i ∈ map requestId q -> length (mapSet i q) = length q.
Proof.
  induction q as [|a q IH]; [by intros ?%elem_of_nil|].
  cbn [mapSet map]. destruct (String.eqb_spec (requestId a) (requestId i)) as [E|E]; [done|].
  intros Hin. apply elem_of_cons in Hin as [Hin|Hin]; [congruence|].
  cbn [length]. by rewrite IH.
Qed.

Lemma addToQueue_state requestId0 paymentPayload0 paymentRequirements0 dateNow m :
  let m' := snd (addToQueue requestId0 paymentPayload0 paymentRequirements0 dateNow m) in
  queue m' = mapSet {| requestId := requestId0; paymentPayload := paymentPayload0;
                       paymentRequirements := paymentRequirements0;
                       timestamp := dateNow |} (queue m)
  /\ pendingPromises m' = <[requestId0 := nextPromise m]> (pendingPromises m)
  /\ nextPromise m' = S (nextPromise m).
Proof.
  cbv zeta. unfold addToQueue, flushBegin.
  cbn [processing queue pendingPromises timer batchSize batchTimeout nextPromise].
  destruct (batchSize m <=? _).
  - by destruct (processing m || _)%bool.
  - by destruct (timer m).
Qed.

Lemma lost_forget h id m : lost h m -> lost h (forget id m).
Proof.
  intros [Hlt Hno]. split; [done|]. intros id'. unfold forget. cbn [pendingPromises].
  intros H. apply lookup_delete_Some in H as [_ H]. by apply (Hno id').
Qed.

Lemma lost_deliver h rs m :
  lost h m -> (h ∉ map fst (fst (deliver rs m))) /\ lost h (snd (deliver rs m)).
Proof.
  revert m. induction rs as [|r rs IH]; intros m Hl.
  - split; [apply not_elem_of_nil|done].
  - cbn [deliver]. destruct (pendingPromises m !! result_requestId r) as [x|] eqn:L.
    + destruct (IH (forget (result_requestId r) m) (lost_forget _ _ _ Hl)) as [I1 I2].
      destruct (deliver rs (forget (result_requestId r) m)) as [cs m'].
      cbn [fst snd map] in *. split; [|done].
      apply not_elem_of_cons. split; [|done].
      intros ->. by apply (proj2 Hl (result_requestId r)).
    + by apply IH.
Qed.

Lemma lost_rejectBatch h e l m :
  lost h m -> (h ∉ map fst (fst (rejectBatch e l m))) /\ lost h (snd (rejectBatch e l m)).
Proof.
  revert m. induction l as [|i l IH]; intros m Hl.
  - split; [apply not_elem_of_nil|done].
  - cbn [rejectBatch]. destruct (pendingPromises m !! requestId i) as [x|] eqn:L.
    + destruct (IH (forget (requestId i) m) (lost_forget _ _ _ Hl)) as [I1 I2].
      destruct (rejectBatch e l (forget (requestId i) m)) as [cs m'].
      cbn [fst snd map] in *. split; [|done].
      apply not_elem_of_cons. split; [|done].
      intros ->. by apply (proj2 Hl (requestId i)).
    + by apply IH.
Qed.

Lemma lost_fields h m m' :
  pendingPromises m' = pendingPromises m -> nextPromise m' = nextPromise m ->
  lost h m -> lost h m'.
Proof. unfold lost. by intros -> ->. Qed.

Lemma lost_flushEnd h batchItems r m :
  lost h m ->
  (h ∉ map fst (fst (flushEnd batchItems r m))) /\ lost h (snd (flushEnd batchItems r m)).
Proof.
  intros Hl. unfold flushEnd. destruct r as [rs|e].
  - destruct (lost_deliver h rs m Hl) as [H1 H2].
    destruct (deliver rs m) as [cs m1]. cbn [fst snd] in *. split; [done|].
    by apply (lost_fields h m1).
  - destruct (lost_rejectBatch h e batchItems m Hl) as [H1 H2].
    destruct (rejectBatch e batchItems m) as [cs m1]. cbn [fst snd] in *. split; [done|].
    by apply (lost_fields h m1).
Qed.

Lemma lost_flush h f m sent :
  lost h m ->
  (h ∉ map fst (fst (fst (flush f m sent)))) /\ lost h (snd (fst (flush f m sent))).
Proof.
  intros Hl. unfold flush, flushBegin.
  cbn [processing queue pendingPromises timer batchSize batchTimeout nextPromise].
  destruct (processing m || _)%bool.
  - cbn [fst snd map]. split; [apply not_elem_of_nil|]. by apply (lost_fields h m).
  - destruct (batchSettle f _ sent) as [r sent'].
    set (m1 := Manager _ _ _ true _ _ _).
    destruct (lost_flushEnd h (slice0 (queue m) (batchSize m)) r m1) as [H1 H2].
    { by apply (lost_fields h m). }
    destruct (flushEnd _ r m1) as [cs m2]. by cbn [fst snd] in *.
Qed.

Lemma lost_cleanupLoop h now maxAge entries m :
  lost h m ->
  (h ∉ map fst (fst (fst (cleanupLoop now maxAge entries m))))
  /\ lost h (snd (cleanupLoop now maxAge entries m)).
Proof.
  revert m. induction entries as [|i rest IH]; intros m Hl.
  - split; [apply not_elem_of_nil|done].
  - cbn [cleanupLoop].
    assert ((h ∉ map fst (fst (fst (cleanupOne now maxAge i m))))
            /\ lost h (snd (cleanupOne now maxAge i m))) as [C1 C2].
    { rewrite cleanupOne_state. split; [|destruct (stale _ _ _); [by apply lost_forget|done]].
      unfold cleanupOne. destruct (_ >? _); [|apply not_elem_of_nil].
      destruct (pendingPromises m !! requestId i) eqn:L; cbn [fst map];
        [|apply not_elem_of_nil].
      apply not_elem_of_cons. split; [|apply not_elem_of_nil].
      intros ->. by apply (proj2 Hl (requestId i)). }
    destruct (cleanupOne now maxAge i m) as [[rej n] m1]. cbn [fst snd] in C1, C2.
    destruct (IH m1 C2) as [I1 I2].
    destruct (cleanupLoop now maxAge rest m1) as [[rej' n'] m2]. cbn [fst snd] in *.
    split; [|done]. rewrite map_app, elem_of_app. tauto.
Qed.

Lemma lost_addToQueue h requestId0 paymentPayload0 paymentRequirements0 dateNow m :
  lost h m ->
  lost h (snd (addToQueue requestId0 paymentPayload0 paymentRequirements0 dateNow m)).
Proof.
  intros [Hlt Hno].
  destruct (addToQueue_state requestId0 paymentPayload0 paymentRequirements0 dateNow m)
    as (_ & Hp & Hn).
  split; [rewrite Hn; lia|]. intros id. rewrite Hp.
  intros H. apply lookup_insert_Some in H as [[_ E]|[_ H]]; [lia|]. by apply (Hno id).
Qed.

Lemma lost_perform h c m sent :
  lost h m ->
  (h ∉ map fst (fst (perform c (m, sent)))) /\ lost h (fst (snd (perform c (m, sent)))).
Proof.
  intros Hl. destruct c as [id p r now|f|batchItems r|maxAge now]; cbn [perform].
  - cbn [fst snd map]. split; [apply not_elem_of_nil|by apply lost_addToQueue].
  - pose proof (lost_flush h f m sent Hl) as H.
    by destruct (flush f m sent) as [[cs m'] sent'].
  - pose proof (lost_flushEnd h batchItems r m Hl) as H.
    by destruct (flushEnd batchItems r m) as [cs m'].
  - pose proof (lost_cleanupLoop h now (match maxAge with Some a => a | None => 60000 end)
                                 (queue m) m Hl) as H.
    unfold cleanupStale.
    by destruct (cleanupLoop now _ (queue m) m) as [[cs n] m'].
Qed.

Lemma lost_performAll h calls m sent :
  lost h m -> h ∉ map fst (fst (performAll calls (m, sent))).
Proof.
  revert m sent. induction calls as [|c rest IH]; intros m sent Hl.
  - apply not_elem_of_nil.
  - cbn [performAll]. destruct (lost_perform h c m sent Hl) as [P1 P2].
    destruct (perform c (m, sent)) as [cs [m1 sent1]]. cbn [fst snd] in P1, P2.
    specialize (IH m1 sent1 P2).
    destruct (performAll rest (m1, sent1)) as [cs' st2]. cbn [fst] in *.
    rewrite map_app, elem_of_app. tauto.
Qed.

End Orphan.

(** X22.  Enqueuing a request id that is still queued orphans the earlier
    promise.  The second [addToQueue] replaces the queued item in place (the
    queue does not grow) and overwrites the callbacks, so the id now answers
    to the new promise; the promise of the first call is settled by no
    later flush, end of flush, clean-up or enqueue: it stays pending for
    ever. *)
Theorem duplicate_id_orphans_the_first_promise
        m requestId h paymentPayload paymentRequirements dateNow calls sent :
  agree m ->
  BatchSettleManager.pendingPromises m !! requestId = Some h ->
  let m1 := snd (BatchSettleManager.addToQueue requestId paymentPayload paymentRequirements
                                               dateNow m) in
  length (BatchSettleManager.queue m1) = length (BatchSettleManager.queue m)
  /\ BatchSettleManager.pendingPromises m1 !! requestId
     = Some (BatchSettleManager.nextPromise m)
  /\ h <> BatchSettleManager.nextPromise m
  /\ (h ∉ map fst (fst (performAll calls (m1, sent)))).
Proof.
  intros (Hnd & Hiff & Hlt & Hinj) Hh m1.
  destruct (addToQueue_state
              requestId paymentPayload paymentRequirements dateNow m) as (Hq & Hp & Hn).
  fold m1 in Hq, Hp, Hn. pose proof (Hlt _ _ Hh) as Hlt0. split_and!.
  - rewrite Hq. apply mapSet_length. cbn [BatchSettleManager.requestId].
    apply Hiff. by eexists.
  - rewrite Hp. apply lookup_insert_eq.
  - lia.
  - apply lost_performAll. split; [rewrite Hn; lia|].
    intros id. rewrite Hp. intros H.
    apply lookup_insert_Some in H as [[_ E]|[Hne H]]; [lia|].
    apply Hne. by apply (Hinj requestId id h).
Qed.

Lemma duplicate_id_orphans_the_first_promise_witness :
  let m1 := snd (BatchSettleManager.addToQueue
                   "req-1" somePayment (Mint.requirements paidRequest tokenAA) 110000
                   waitingManager) in
  length (BatchSettleManager.queue m1) = 3%nat
  /\ fst (performAll [Flush mixedFacilitator; CleanupStale None 400000] (m1, []))
     = [(3%nat, BatchSettleManager.Resolved
                  {| BatchSettleManager.result_requestId := "req-1";
                     BatchSettleManager.success := true;
                     BatchSettleManager.transaction := Some "0xtx0";
                     BatchSettleManager.nonce := Some 0;
                     BatchSettleManager.error := None |});
        (1%nat, BatchSettleManager.RejectedWith
                  (Error "Verification failed: authorization expired"));
        (2%nat, BatchSettleManager.Resolved
                  {| BatchSettleManager.result_requestId := "req-3";
                     BatchSettleManager.success := true;
                     BatchSettleManager.transaction := Some "0xtx1";
                     BatchSettleManager.nonce := Some 1;
                     BatchSettleManager.error := None |})]
  /\ (0%nat ∉ map fst (fst (performAll [Flush mixedFacilitator; CleanupStale None 400000]
                                     (m1, [])))).
Proof.
  intros m1.
  destruct (duplicate_id_orphans_the_first_promise
              waitingManager "req-1" 0%nat somePayment (Mint.requirements paidRequest tokenAA)
              110000 [Flush mixedFacilitator; CleanupStale None 400000] []
              (proj1 waitingManager_consistent) eq_refl) as (H1 & _ & _ & H4).
  split_and!; [exact H1| vm_compute; reflexivity | exact H4].
Defined.

(** ** The handler: failed verifications and the rate limit *)

Section FailedVerification.

Context (app : Mint.App) (env : Mint.Env) (req : Mint.Request).

Let identifier := createIdentifier None (Some (Mint.clientIP req)).

Lemma record_run s v s' w :
  AbuseDetector.recordRequest (Mint.abuseDetector app) identifier s = (Ret v, s') ->
  redis w = s ->
  Mint.record app identifier w = (Ret v, set_redis s' w).
Proof.
  intros Hr <-. unfold Mint.record, onRedis, lift. by rewrite Hr.
Qed.

Lemma verifyStep_invalid token payment vr w v s' :
  Mint.facilitatorVerify env payment (Mint.requirements req token) = Some (Ret vr) ->
  Mint.isValid vr = false ->
  AbuseDetector.recordRequest (Mint.abuseDetector app) identifier (redis w) = (Ret v, s') ->
  exists r w',
    Mint.verifyStep app env req token payment w = (Ret (Mint.Return r), w')
    /\ Mint.status r = 402 /\ redis w' = s'.
Proof.
  intros Hv Hi Hr. unfold Mint.verifyStep. rewrite Hv. cbn [Mint.withTimeout].
  rewrite Hi. cbn [negb]. unfold bind. fold identifier.
  rewrite (record_run _ _ _ w Hr eq_refl). rewrite returning_send_run.
  by eexists _, _.
Qed.

Lemma rateLimitStep_denied payment w text s' :
  AbuseDetector.recordRequest (Mint.abuseDetector app) identifier (redis w)
  = (Ret (AbuseDetector.deny text), s') ->
  exists r w',
    Mint.rateLimitStep app req false payment w = (Ret (Mint.Return r), w')
    /\ Mint.status r = 429.
Proof.
  intros Hr. unfold Mint.rateLimitStep. cbn [negb]. unfold bind. fold identifier.
  rewrite (record_run _ _ _ w Hr eq_refl).
  cbn [AbuseDetector.allowed AbuseDetector.deny negb].
  rewrite returning_send_run. by eexists _, _.
Qed.

End FailedVerification.

(** X23.  A payment that fails the verification is answered 402 and uses
    up one request of the client's window, on a healthy server and for a
    client that is neither whitelisted nor banned: after [k] requests the
    counter reads [k + 1]; when that exceeds the limit the client is banned
    (the answer is still 402), and its next payment that passes the
    verification is refused with 429 by the rate-limit step. *)
Theorem failed_verification_uses_the_budget app env req token payment vr k w :
  let self := Mint.abuseDetector app in
  let identifier := createIdentifier None (Some (Mint.clientIP req)) in
  let maxRequests := AbuseDetector.maxRequestsPerWindow (AbuseDetector.config self) in
  AbuseDetector.ensureConnection self = true ->
  0 < AbuseDetector.timeWindowMs (AbuseDetector.config self) ->
  0 < AbuseDetector.banDurationMs (AbuseDetector.config self) ->
  Mint.facilitatorVerify env payment (Mint.requirements req token) = Some (Ret vr) ->
  Mint.isValid vr = false ->
  0 <= k ->
  inWindow identifier k (redis w) ->
  exists r w',
    Mint.verifyStep app env req token payment w = (Ret (Mint.Return r), w')
    /\ Mint.status r = 402
    /\ (k + 1 <= maxRequests -> inWindow identifier (k + 1) (redis w'))
    /\ (maxRequests < k + 1 ->
        underBan identifier (redis w')
        /\ forall payment', exists r' w'',
             Mint.rateLimitStep app req false payment' w' = (Ret (Mint.Return r'), w'')
             /\ Mint.status r' = 429).
Proof.
  intros self identifier maxRequests Hconn Hwin Hban Hv Hi Hk Hin.
  destruct (Z_le_gt_dec (k + 1) maxRequests) as [Hle|Hgt].
  - destruct (request_within_the_limit self identifier Hconn Hwin k (redis w) Hk Hin Hle)
      as (s' & Hr & Hin').
    destruct (verifyStep_invalid app env req token payment vr w _ _ Hv Hi Hr)
      as (r & w' & Hs & Hst & Hw).
    exists r, w'. split_and!; [done|done| |].
    + intros _. by rewrite Hw.
    + unfold maxRequests in *. lia.
  - destruct (request_beyond_the_limit self identifier Hconn Hwin Hban k (redis w) Hk Hin)
      as (s' & Hr & Hb); [unfold maxRequests in *; lia|].
    destruct (verifyStep_invalid app env req token payment vr w _ _ Hv Hi Hr)
      as (r & w' & Hs & Hst & Hw).
    exists r, w'. split_and!; [done|done| |].
    + unfold maxRequests in *. lia.
    + intros _. rewrite Hw. split; [done|]. intros payment'.
      destruct (request_under_ban self identifier Hconn s' Hb) as [text Ht].
      apply (rateLimitStep_denied app req payment' w' text s'). by rewrite Hw.
Qed.

Lemma failed_verification_uses_the_budget_witness :
  exists r w',
    Mint.verifyStep theApp refusingEnv paidRequest tokenAA somePayment (freshWorld emptyServer)
    = (Ret (Mint.Return r), w')
    /\ Mint.status r = 402
    /\ inWindow "ip:10.0.0.1" 1 (redis w').
Proof.
  destruct (failed_verification_uses_the_budget
              theApp refusingEnv paidRequest tokenAA somePayment invalidResponse 0
              (freshWorld emptyServer) eq_refl)
    as (r & w' & H1 & H2 & H3 & _).
  - reflexivity.
  - reflexivity.
  - reflexivity.
  - reflexivity.
  - lia.
  - split; [exact emptyServer_healthy|]. split; [reflexivity|]. split; reflexivity.
  - exists r, w'. split_and!; [exact H1|exact H2|].
    apply H3. vm_compute. discriminate.
Defined.

(** ** The handler: the outcome of the settlement *)

Section SettleStatus.

Context (app : Mint.App) (env : Mint.Env) (req : Mint.Request).
Context (token : string) (recipients : list string).

Lemma afterSettle_settled payment r w :
  let sr := {| Mint.sr_success := true;
               Mint.sr_transaction := Js.strOr (BatchSettleManager.transaction r) EmptyString;
               Mint.sr_network := "bsc";
               Mint.sr_payer := authorization_from payment;
               Mint.sr_error := None; Mint.sr_errorReason := None; Mint.sr_reason := None;
               Mint.sr_message := None; Mint.sr_transactionId := None;
               Mint.sr_transactionHash := None |} in
  Mint.status <$> (match fst (Mint.afterSettle app env true token recipients sr w) with
                   | Ret resp => Some resp | Thrown _ => None end)
  = Some (if Js.truthy (Js.strOr (BatchSettleManager.transaction r) EmptyString)
          then 200 else 500).
Proof.
  cbv zeta. unfold Mint.afterSettle.
  cbn [Mint.sr_success Mint.sr_error Mint.sr_transaction Mint.sr_transactionId
       Mint.sr_transactionHash Js.truthyOpt negb orb andb].
  destruct (Js.truthy (Js.strOr (BatchSettleManager.transaction r) EmptyString));
    cbn [negb andb]; by rewrite release_then_send.
Qed.

End SettleStatus.

(** X24.  The settlement step never answers 402.  Whatever the batch
    promise does, the step ends with a response: 200 when the promise
    resolved with a non-empty transaction hash; 500 when it resolved without
    one or was still pending after the bound of the time-out; and, when it
    was rejected, 400 for the reason "mempool_capacity_exceeded", 503 for
    "chain_query_failed" and 500 otherwise. *)
Theorem settlement_never_answers_402 app env req token recipients payment w :
  exists resp w',
    Mint.settleStep app env req true token recipients payment w = (Ret resp, w')
    /\ Mint.status resp <> 402
    /\ Mint.status resp
       = match Mint.batchSettle env (Mint.handlerRequestId env) payment
                                (Mint.requirements req token) with
         | Some (BatchSettleManager.Resolved r) =>
             if Js.truthy (Js.strOr (BatchSettleManager.transaction r) EmptyString)
             then 200 else 500
         | Some (BatchSettleManager.RejectedWith e) =>
             if bool_decide (reason e = Some "mempool_capacity_exceeded") then 400
             else if bool_decide (reason e = Some "chain_query_failed") then 503
             else 500
         | None => 500
         end.
Proof.
  destruct (settleStep_shape app env req token recipients payment) as (st & h & b & Hs).
  pose proof (release_then_send app token recipients st h b w) as Hrun.
  rewrite <- Hs in Hrun. eexists _, _. split; [exact Hrun|].
  cbn [Mint.status].
  assert (Some st
          = match Mint.batchSettle env (Mint.handlerRequestId env) payment
                                   (Mint.requirements req token) with
            | Some (BatchSettleManager.Resolved r) =>
                Some (if Js.truthy (Js.strOr (BatchSettleManager.transaction r) EmptyString)
                      then 200 else 500)
            | Some (BatchSettleManager.RejectedWith e) =>
                Some (if bool_decide (reason e = Some "mempool_capacity_exceeded") then 400
                      else if bool_decide (reason e = Some "chain_query_failed") then 503
                      else 500)
            | None => Some 500
            end) as Hst.
  { change (Some st) with
      (Mint.status <$> (match fst (Ret {| Mint.status := st; Mint.headers := h;
                                          Mint.body := b |},
                                   World (snd (PendingMintTracker.decrementPending
                                                 (TokenCapacityManager.pendingTracker
                                                    (Mint.tokenCapacityManager app))
                                                 token (Z.of_nat (length recipients))
                                                 (redis w)))
                                         (mintCountCache w) (maxMintCache w) (deadlineCache w)
                                         (trace w ++ [Releasing (Z.of_nat (length recipients))
                                                                token; Responded st]))
                        with Ret resp => Some resp | Thrown _ => None end)).
    rewrite <- Hrun. unfold Mint.settleStep, Mint.settleCall.
    destruct (Mint.batchSettle env _ payment _) as [[r|e]|]; cbn [Mint.withTimeout].
    - apply afterSettle_settled.
    - apply settleFailed_status.
    - rewrite settleFailed_status. reflexivity. }
  destruct (Mint.batchSettle env _ payment _) as [[r|e]|].
  - injection Hst as ->. split; [|done]. by destruct (Js.truthy _).
  - injection Hst as ->. split; [|done]. by repeat destruct (bool_decide _).
  - injection Hst as ->. done.
Qed.

(** ** The pool: after [shutdown] *)

Section Shutdown.

Import RedisConnectionPool.

Lemma closed_acquire connects p :
  closed p -> acquire connects p = (Settled (Fulfilled None), p).
Proof. intros (Hs & _). unfold acquire. by rewrite Hs. Qed.

Lemma closed_release connects c p :
  closed p ->
  fst (release connects c p) = None /\ closed (snd (release connects c p)).
Proof.
  intros (Hs & Hc & Ha & Hw). unfold release.
  destruct (negb (bool_decide (connId c ∈ connectionsInUse p))); [done|].
  cbn [isShuttingDown]. rewrite Hs, andb_false_r. cbn [negb andb].
  unfold removeConnection, closed.
  cbn [isShuttingDown connections availableConnections waitingQueue fst snd].
  rewrite Hc, Ha, Hw. done.
Qed.

Lemma closed_acquireTimedOut w p :
  closed p -> acquireTimedOut w p = (None, p).
Proof.
  intros (_ & _ & _ & Hw). unfold acquireTimedOut. rewrite Hw.
  rewrite bool_decide_eq_false_2; [done|apply not_elem_of_nil].
Qed.

End Shutdown.

(** X25.  [shutdown] is final.  It answers every waiting caller with
    [null], in queue order, and leaves the pool closed: marked as shutting
    down, without connections and without waiters.  A closed pool stays
    closed: [acquire] answers [null] at once and changes nothing, [release]
    serves nobody and puts no connection back, and a time-out that fires
    finds nothing to do. *)
Theorem shutdown_is_final p :
  fst (RedisConnectionPool.shutdown p)
  = map (fun cb => (waiterOf cb, RedisConnectionPool.Fulfilled None))
        (RedisConnectionPool.waitingQueue p)
  /\ closed (snd (RedisConnectionPool.shutdown p))
  /\ forall q, closed q ->
       (forall connects,
           RedisConnectionPool.acquire connects q
           = (RedisConnectionPool.Settled (RedisConnectionPool.Fulfilled None), q))
       /\ (forall connects c,
              fst (RedisConnectionPool.release connects c q) = None
              /\ closed (snd (RedisConnectionPool.release connects c q)))
       /\ (forall w, RedisConnectionPool.acquireTimedOut w q = (None, q)).
Proof.
  split_and!.
  - unfold RedisConnectionPool.shutdown.
    cbn [fst RedisConnectionPool.waitingQueue]. apply map_ext. by intros [w|w].
  - done.
  - intros q Hq. split_and!.
    + intros connects. by apply closed_acquire.
    + intros connects c. by apply closed_release.
    + intros w. by apply closed_acquireTimedOut.
Qed.

(** ** The coalescer: [getStatus] *)

Section Status.

Import BatchSettleManager.

Lemma foldr_min_le t ts x :
  x ∈ t :: ts -> foldr Z.min t ts <= x.
Proof.
  induction ts as [|a ts IH]; cbn [foldr].
  - intros ->%list_elem_of_singleton. lia.
  - intros Hx. apply elem_of_cons in Hx as [->|Hx].
    + assert (foldr Z.min t ts <= t) by (apply IH; left). lia.
    + apply elem_of_cons in Hx as [->|Hx]; [lia|].
      assert (foldr Z.min t ts <= x) by (apply IH; by right). lia.
Qed.

Lemma foldr_min_in t ts : foldr Z.min t ts ∈ t :: ts.
Proof.
  induction ts as [|a ts IH]; cbn [foldr]; [left|].
  destruct (Z.min_spec a (foldr Z.min t ts)) as [[_ ->]|[_ ->]].
  - right. left.
  - apply elem_of_cons in IH as [->|IH]; [left|right; by right].
Qed.

Lemma agree_sizes m :
  agree m -> size (pendingPromises m) = length (queue m).
Proof.
  intros (Hnd & Hiff & _).
  rewrite <- (length_map requestId (queue m)).
  rewrite <- (size_list_to_set (C:=gset string) _ Hnd), <- size_dom.
  f_equal. apply set_eq. intros id.
  rewrite elem_of_dom, elem_of_list_to_set. symmetry. apply Hiff.
Qed.

End Status.

(** X26.  What [getStatus] reports.  On a manager whose two maps agree the
    queue size and the number of pending promises are the same number.  The
    age of the oldest item is 0 for an empty queue; otherwise it is the age
    of one of the queued requests and no queued request is older. *)
Theorem getStatus_reports dateNow m :
  agree m ->
  let st := BatchSettleManager.getStatus dateNow m in
  BatchSettleManager.queueSize st = BatchSettleManager.status_pendingPromises st
  /\ BatchSettleManager.status_processing st = BatchSettleManager.processing m
  /\ (BatchSettleManager.queue m = [] -> BatchSettleManager.oldestItemAge st = 0)
  /\ (BatchSettleManager.queue m <> [] ->
      (exists i, i ∈ BatchSettleManager.queue m
                 /\ BatchSettleManager.oldestItemAge st
                    = dateNow - BatchSettleManager.timestamp i)
      /\ forall i, i ∈ BatchSettleManager.queue m ->
                   dateNow - BatchSettleManager.timestamp i
                   <= BatchSettleManager.oldestItemAge st).
Proof.
  intros Ha st. unfold st, BatchSettleManager.getStatus.
  cbn [BatchSettleManager.queueSize BatchSettleManager.status_pendingPromises
       BatchSettleManager.status_processing BatchSettleManager.oldestItemAge].
  split_and!.
  - by rewrite (agree_sizes m Ha).
  - done.
  - by intros ->.
  - intros Hq. destruct (BatchSettleManager.queue m) as [|a q] eqn:E; [done|].
    cbn [map]. split.
    + pose proof (foldr_min_in (BatchSettleManager.timestamp a)
                               (map BatchSettleManager.timestamp q)) as Hin.
      change (BatchSettleManager.timestamp a :: map BatchSettleManager.timestamp q)
        with (BatchSettleManager.timestamp <$> (a :: q)) in Hin.
      apply list_elem_of_fmap in Hin as (i & Hi & Hin). exists i. split; [done|].
      by rewrite Hi.
    + intros i Hi.
      assert (foldr Z.min (BatchSettleManager.timestamp a)
                    (map BatchSettleManager.timestamp q)
              <= BatchSettleManager.timestamp i); [|lia].
      apply foldr_min_le.
      change (BatchSettleManager.timestamp a :: map BatchSettleManager.timestamp q)
        with (BatchSettleManager.timestamp <$> (a :: q)).
      apply list_elem_of_fmap. by exists i.
Qed.

Lemma getStatus_reports_witness :
  BatchSettleManager.getStatus 120000 waitingManager
  = {| BatchSettleManager.queueSize := 3;
       BatchSettleManager.status_processing := false;
       BatchSettleManager.status_pendingPromises := 3;
       BatchSettleManager.oldestItemAge := 120000 |}
  /\ BatchSettleManager.queueSize (BatchSettleManager.getStatus 120000 waitingManager)
     = BatchSettleManager.status_pendingPromises
         (BatchSettleManager.getStatus 120000 waitingManager).
Proof.
  split; [vm_compute; reflexivity|].
  exact (proj1 (getStatus_reports 120000 waitingManager (proj1 waitingManager_consistent))).
Defined.
